(* ===== verification/_CoqProject ===== *)
-Q . S2P
Prelude.v
Effects.v
GoStrings.v
GoStd.v
GoTime.v
GoHttp.v
GoDuration.v
Naming.v
HarborPerms.v
HarborClient.v
Api.v
RobotSecret.v
Contract.v
Config.v
ConfigLoad.v
Kube.v
Reconciler.v
ReconcilerSpec.v
ReconcilerProofs.v
ReconcilerProps.v
Janitor.v
RateLimit.v
KeySet.v
Utf8.v
Json.v
JsonIndent.v
DataPlane.v
TokenTTL.v
Oidc.v
Handler.v
HandlerProps.v
Wiring.v
OidcClient.v
Server.v
Plugin.v
PluginMain.v
EndToEnd.v
GoPath.v
AdminCreds.v
CacheSync.v
HarborConnect.v
Main.v
InstallerConfig.v
Host.v
HostFiles.v
HostFilesCrash.v
HostFilesWrite.v
HostFilesRaces.v
HostLocks.v
InstallerState.v
EnvFile.v
Discover.v
ProviderConfig.v
ProviderMerge.v
Records.v
KubeletUnit.v
Restart.v
EnvFileParse.v
EnvFileMerge.v
Glob.v
KubeletEnv.v
Install.v
InstallProps.v
InstallLocks.v
InstallRecords.v
InstallRejected.v
PassRaces.v
PassLocks.v
