(* ===== verification/Prelude.v ===== *)
(** * Harbor Workload Identity Bridge: verification library

    ** The program

    The bridge lets a Kubernetes pod pull images from a Harbor registry with its own
    ServiceAccount instead of a stored password. Three programs work together (sources under
    src/):

    - bridge/ is the server. Its control plane (bridge/controlplane) watches HarborAccess
      resources, keeps one Harbor robot account per resource with the permissions the resource
      grants, rotates its password and stores it in a Secret of the bridge's own namespace; a
      janitor removes robots and Secrets nobody uses. Its data plane (bridge/dataplane) is an
      HTTPS endpoint: a token of a pod comes in, is verified against the cluster's OIDC keys,
      matched with the HarborAccess it stands for, and answered with the robot's password.
      bridge/cmd/main.go assembles both.
    - plugin/ is the credential plugin kubelet runs on the node for an image: it sends the
      pod's token to the endpoint and hands kubelet the answer.
    - installer/ puts the plugin on a node: it copies the binary, edits kubelet's
      credential-provider configuration and its environment file, restarts kubelet, verifies
      that it stays up and otherwise rolls everything back.

    The parts meet in few places: the control plane and the data plane share the Secret
    (bridge/internal/robotsecret) and the robot's name; the plugin and the data plane share
    the JSON of a request and a response; several installers on a node share kubelet's
    configuration through lock files and records.

    ** How programs are modelled

    Pure Go functions are Rocq functions under their Go names. Code that calls a service, the
    file system, a clock or another process is a [prog] of [Effects]: a tree whose nodes are
    calls and whose branches are the answers. A theorem about such code quantifies over every
    run [runs env p h h' r], with a log of the calls made and their answers; [env] says which
    answers are possible ([any_env]: all of them). [wp] is the weakest precondition used to
    prove them. Goroutines that share state (the key cache, the server's shutdown) are step
    relations, so theorems about reachable states hold for every schedule. An error is a
    [gerr], which keeps what [errors.Is] can see; a Go result pair is [res]. A string is its
    bytes, an integer of 64 bits is a [Z] whose wrap-around or saturation is written where the
    code can reach it, a duration is in nanoseconds, a map is a [gmap].

    ** Files

    Shared by all parts: this file (errors, results, lists, tactics), [Effects], and Go's
    standard library as far as the sources use it: [GoStrings], [GoStd] (SHA-256, FNV, decimal
    text), [GoTime] (instants, RFC 3339), [GoDuration], [GoHttp] (which
    redirects a client follows), [GoPath], [Utf8], [Json] and [JsonIndent] (reading and writing
    JSON text).

    Control plane:
    - [Naming]: harbor/naming.go, the name of a robot and who owns it;
    - [HarborPerms], [HarborClient], [HarborConnect]: harbor/client.go, permissions, the six
      operations over the SDK's calls, and the connection with its error texts;
    - [Api], [TokenTTL]: api/v1alpha1, the HarborAccess resource and its lenient duration;
    - [RobotSecret]: internal/robotsecret; [Contract]: controlplane/contract.go;
    - [Config], [ConfigLoad]: controlplane/config.go; [AdminCreds]: controlplane/admincreds.go;
      [CacheSync]: controlplane/cache.go;
    - [Kube]: the calls of the control plane; [Reconciler]: controlplane/reconciler.go, one
      definition per handler; [ReconcilerSpec] (the contract [allowed] on every call, and the
      classes [KubeEnv] and [HarborEnv] of what is assumed), [ReconcilerProofs] (one lemma per
      handler), [ReconcilerProps] (the properties);
    - [Janitor]: controlplane/janitor.go.

    Data plane:
    - [RateLimit]: dataplane/ratelimit.go; [KeySet]: dataplane/oidc_keyset.go;
    - [DataPlane]: its calls; [Oidc], [OidcClient]: dataplane/oidc.go, oidc_client.go and the
      classifier of metrics.go;
    - [Handler], [HandlerProps]: dataplane/handler.go; [Server]: dataplane/server.go.

    Together: [Wiring] (how the configuration reaches the validator and the handler, and what
    the planes guarantee each other), [Main] (cmd/main.go), [Plugin] and [PluginMain] (plugin/),
    [EndToEnd] (plugin and handler joined by the JSON on the wire).

    Installer:
    - [InstallerConfig]: main.go, names.go; [Host]: the calls of a pass;
    - [HostFiles], [HostLocks]: files.go, lock.go over the operating system's calls, with
      [HostFilesCrash] and [HostFilesWrite] (power loss) and [HostFilesRaces] (other writers);
    - [InstallerState]: state.go; [Records]: record.go; [Discover]: discover.go;
    - [EnvFile], [EnvFileParse], [EnvFileMerge]: defaultkubelet.go; [Glob], [KubeletEnv]:
      envfile.go; [ProviderConfig], [ProviderMerge]: providerconfig.go;
    - [KubeletUnit]: restart.go; [Restart], [Install]: run.go, sync.go, with [InstallProps],
      [InstallLocks], [InstallRecords] and [InstallRejected]; [PassRaces] and [PassLocks]: a pass
      over the operating system's calls, its file calls and its locks.

    A specification does not ask the code what is right: who owns a robot ([Contract]'s
    [named_for], [robot_of]), what a reconcile pass must refuse ([ReconcilerProps]'
    [must_refuse]), what nobody uses ([Janitor]'s [robot_unused], [secret_unused]), which host
    is the API server ([OidcClient]'s [apiserver_name], [secure]), what the claims of a token are
    ([Oidc]'s [claims_of]), which arguments are the operator's ([EnvFileMerge]'s
    [operator_args]), what systemd reads ([KubeletEnv]'s [unit_reading]) and when kubelet is
    up ([KubeletUnit]'s [healthy]) are said on the data itself or on the log of a run.

    ** What the theorems show

    - Credentials go only where they may: [issued_only_when_entitled],
      [kubelet_gets_entitled_credentials], [same_robot_same_identity],
      [validated_token_policy], and [verify_answers_sound] for the signature. They do get
      there: [entitled_pod_served], [issued_credentials_reach_kubelet]. Every request leaves
      its trace: [requests_accounted].
    - The control plane touches only what is its own: [Reconcile_own_robots_only],
      [Reconcile_own_secrets_only], [Sweep_deletes_only_unused], [Create_accounts_for_robot],
      [release_leaves_no_robot]. What it reports is so: [Reconcile_ready_means_stored],
      [refused_never_served]. It keeps its promise to the data plane:
      [cached_password_not_rotated].
    - Secrets stay inside: [own_token_stays_home] (the bridge's token),
      [pod_token_to_bridge] (the pod's), [startup_hides_credentials],
      [credentials_of_one_version].
    - The process starts checked and stops in time: [started_checked],
      [loaded_config_serviceable], [serves_from_synced_caches], [shutdown_within_grace],
      [listener_outlives_routing].
    - Under load and outages: [fetches_spaced], [waiting_caller_returns], [Allow_isolates].
    - The installer does not damage the node: [writeIn_crash_safe], [rollback_restores],
      [openNodeDir_no_link], [pass_safe_calls], [rejected_not_retried], [finishWithRestart_success],
      [waitKubeletHealthy_returns], [findKubelet_host_only]; it changes only its own
      settings: [mergeExtraArgs_environment], [patched_file_takes_effect],
      [composeOwnConfig_entries], [mergeProvider_keeps_others]; installs do not disturb each
      other: [run_lock_discipline], [entry_after_record], [loadConfig_isolates].
      [pass_refines] carries what is proved of a pass to its run over the operating system, with
      the locks flock granted.
    - Reference definitions: [globMatch_correct] (the matcher decides the declarative
      meaning of a wildcard), [Allow_isolates] (a bucket per source that is never dropped).

    ** Fuel and bounds

    No fuel is part of a statement where the code could run out of it; each bound is the
    code's own or proved enough. [list_pages] takes the code's maxPages (1000), an error
    beyond; [read_attempts] the code's five attempts. [globMatch] computes its fuel from the
    two lengths, and [globMatch_correct] shows it is enough. The JSON reader's fuel is one more than
    the length of the text, the parser of durations takes one term per byte, both enough because every step
    consumes a byte. The wait for kubelet and the poll for a lock take fuel from their
    deadline and interval; [waitKubeletHealthy_returns] and [lockFileIn_returns] show that
    both always answer. The loops that
    run until the process ends (janitor, sync, key refreshes) take the number of rounds as an
    argument, and their theorems hold for every number.

    ** Not modelled

    - Libraries: controller-runtime (manager, cache, informers), the Kubernetes API server,
      Harbor and its SDK, go-oidc and go-jose, x/time/rate, certwatcher, TLS, net/http,
      net/url, net/netip, sigs.k8s.io/yaml, apimachinery. They are calls with arbitrary answers
      or parameters, with the documented behaviour a theorem needs as a named hypothesis or
      class.
    - Log lines (the audit trail of the endpoint apart), and the wording of errors and
      condition messages where no code reads them.
    - Generated deep copies, scheme registration, registration of Prometheus collectors and
      of watches, newLogger, credentialMux, and the main functions of the bridge and the
      installer, which only call what is modelled.
    - hack/toolchaincheck: a build helper, no part of the running system. *)

From stdpp Require Export base option list gmap strings sorting.
From Stdlib Require Export Ascii ZArith Lia.
Open Scope Z_scope.

(** ** Go values *)

(** A Go [error]. [EMsg] is an error built from text alone, [ESentinel] one of
    the package-level [errors.New] values compared with [errors.Is], [EStatus] a
    Kubernetes API status error with its reason, [EHttp] an error response of
    Harbor's API with its status code, [EWrap] [fmt.Errorf("...%w")] and
    [EJoin] an error that wraps two ([errors.Join], or two [%w]). The text that
    accompanies an error is carried only where the code looks at it. *)
Inductive sentinel :=
| ErrRobotNotFound | ErrRobotAlreadyExists | ErrRobotPrefixMismatch
| ErrClusterNameTooLong | ErrInvalidRobotName
| ErrInvalidToken | ErrSigningKeysUnavailable | ErrTokenLifetime | ErrTokenNotPodBound
| errSecretOwnerMismatch
| errBridgeRefused | errBridgeUnavailable
| errUnloadableEnvFile
| ErrNotExist | ErrExist | ENOTDIR | EWOULDBLOCK
| errNoRoundTrip.

Inductive k8s_reason := NotFound | Conflict | AlreadyExists | OtherReason.

Inductive gerr :=
| EMsg (m : string)
| ESentinel (s : sentinel)
| EStatus (r : k8s_reason)
| EHttp (code : Z)
| EWrap (m : string) (e : gerr)
| EJoin (e1 e2 : gerr).

#[export] Instance sentinel_eq_dec : EqDecision sentinel.
Proof. solve_decision. Defined.
#[export] Instance k8s_reason_eq_dec : EqDecision k8s_reason.
Proof. solve_decision. Defined.
#[export] Instance gerr_eq_dec : EqDecision gerr.
Proof. solve_decision. Defined.

(** [errors.Is(err, target)] for a package-level sentinel. *)
Fixpoint errors_Is (e : gerr) (t : sentinel) : bool :=
  match e with
  | ESentinel s => bool_decide (s = t)
  | EWrap _ e => errors_Is e t
  | EJoin e1 e2 => errors_Is e1 t || errors_Is e2 t
  | _ => false
  end.

(** The status error [errors.As] finds first in the tree of [e]. *)
Fixpoint status_reason (e : gerr) : option k8s_reason :=
  match e with
  | EStatus r => Some r
  | EWrap _ e => status_reason e
  | EJoin e1 e2 => match status_reason e1 with Some r => Some r | None => status_reason e2 end
  | _ => None
  end.

(** [apierrors.IsNotFound], [IsConflict] and [IsAlreadyExists]. *)
Definition IsNotFound (e : gerr) : bool := bool_decide (status_reason e = Some NotFound).
Definition IsConflict (e : gerr) : bool := bool_decide (status_reason e = Some Conflict).
Definition IsAlreadyExists (e : gerr) : bool := bool_decide (status_reason e = Some AlreadyExists).

(** [client.IgnoreNotFound]. *)
Definition IgnoreNotFound (e : gerr) : option gerr := if IsNotFound e then None else Some e.

(** The [(T, error)] return convention. *)
Inductive res (A : Type) := Ok (a : A) | Err (e : gerr).
Arguments Ok {A} a.
Arguments Err {A} e.

#[export] Instance res_eq_dec `{EqDecision A} : EqDecision (res A).
Proof. solve_decision. Defined.

Definition res_map {A B} (f : A → B) (r : res A) : res B := match r with Ok a => Ok (f a) | Err e => Err e end.

Definition is_ok {A} (r : res A) : bool := match r with Ok _ => true | Err _ => false end.

Lemma is_ok_inv {A} (r : res A) : is_ok r = true → ∃ a, r = Ok a.
Proof. destruct r; [eauto | done]. Qed.

(** ** Automation *)

Create HintDb bridge.
Create Rewrite HintDb str.

(** Split every boolean connective of the context into propositions. *)
Ltac bsimpl :=
  repeat match goal with
  | H : _ && _ = true |- _ => apply andb_true_iff in H as [? ?]
  | H : _ || _ = false |- _ => apply orb_false_iff in H as [? ?]
  | H : _ && _ = false |- _ => apply andb_false_iff in H
  | H : _ || _ = true |- _ => apply orb_true_iff in H
  | H : negb _ = true |- _ => apply negb_true_iff in H
  | H : negb _ = false |- _ => apply negb_false_iff in H
  | H : bool_decide _ = true |- _ => apply bool_decide_eq_true in H
  | H : bool_decide _ = false |- _ => apply bool_decide_eq_false in H
  | |- _ && _ = true => apply andb_true_iff
  | |- negb _ = true => apply negb_true_iff
  | |- bool_decide _ = true => apply bool_decide_eq_true
  | |- bool_decide _ = false => apply bool_decide_eq_false
  end.

(** Case analysis on the innermost scrutinee of the goal or of [H]. *)
Ltac case_step :=
  match goal with
  | |- context [match ?x with _ => _ end] =>
      lazymatch x with context [match _ with _ => _ end] => fail | _ => destruct x eqn:? end
  end.
Ltac case_step_in H :=
  match type of H with
  | context [match ?x with _ => _ end] =>
      lazymatch x with context [match _ with _ => _ end] => fail | _ => destruct x eqn:? end
  end.

(** ** Generic lemmas *)

Lemma existsb_exists_elem {A} (f : A → bool) (l : list A) :
  existsb f l = true ↔ ∃ x, x ∈ l ∧ f x = true.
Proof.
  rewrite existsb_exists. split; intros (x & Hx & Hf); exists x; split; auto;
    by apply list_elem_of_In.
Qed.

Lemma filter_id {A} (P : A → Prop) `{∀ x, Decision (P x)} (l : list A) : Forall P l → filter P l = l.
Proof. induction 1; [done|]. rewrite filter_cons_True by done. by f_equal. Qed.
