(* ===== verification/Effects.v ===== *)
(** * Programs with effects

    The bridge's control plane is straight-line Go that calls two services (the
    Kubernetes API server and Harbor) and reads a clock. Such code is an
    effectful program [prog]: a tree whose nodes are calls and whose branches
    are the answers the environment may give. What the services do is no part
    of the program: every theorem about a program quantifies over the answers,
    or over the answers an explicit environment assumption [env] allows. *)

From S2P Require Import Prelude.

Section Programs.
(** The calls a program can make and the type of the answer to each. *)
Context {call : Type} {ans : call → Type}.

Inductive prog (A : Type) : Type :=
| Ret (a : A)
| Vis (c : call) (k : ans c → prog A).
Arguments Ret {A} a.
Arguments Vis {A} c k.

Fixpoint bind {A B} (p : prog A) (f : A → prog B) : prog B :=
  match p with
  | Ret a => f a
  | Vis c k => Vis c (λ r, bind (k r) f)
  end.

Definition trigger (c : call) : prog (ans c) := Vis c Ret.

(** One answered call, and the log of answered calls, latest first. *)
Definition event := sigT ans.
Definition log := list event.

(** [runs env p h h' a]: started after the log [h], [p] can return [a] with the
    log [h'] when the environment answers as the log records, each answer
    allowed by [env]. *)
Fixpoint runs {A} (env : log → ∀ c, ans c → Prop) (p : prog A) (h h' : log) (a : A) : Prop :=
  match p with
  | Ret x => h' = h ∧ a = x
  | Vis c k => ∃ r, env h c r ∧ runs env (k r) (existT c r :: h) h' a
  end.

(** [wp env ok h p Q]: from the log [h], whatever answers [env] allows, every
    call [p] makes satisfies [ok] at that point and the result satisfies [Q]. *)
Fixpoint wp {A} (env : log → ∀ c, ans c → Prop) (ok : log → call → Prop)
    (h : log) (p : prog A) (Q : log → A → Prop) : Prop :=
  match p with
  | Ret a => Q h a
  | Vis c k => ok h c ∧ ∀ r, env h c r → wp env ok (existT c r :: h) (k r) Q
  end.

(** Every call above [h] satisfied [ok] when it was made. *)
Inductive log_ok (ok : log → call → Prop) (h : log) : log → Prop :=
| log_ok_refl : log_ok ok h h
| log_ok_step h' c r : log_ok ok h h' → ok h' c → log_ok ok h (existT c r :: h').

(** Every answer above [h] is one [env] allows. *)
Inductive log_env (env : log → ∀ c, ans c → Prop) (h : log) : log → Prop :=
| log_env_refl : log_env env h h
| log_env_step h' c r : log_env env h h' → env h' c r → log_env env h (existT c r :: h').

Definition any_env : log → ∀ c, ans c → Prop := λ _ _ _, True.
End Programs.

Arguments prog {call} ans A.
Arguments Ret {call ans A} a.
Arguments Vis {call ans A} c k.
Arguments event {call} ans.
Arguments log {call} ans.
Arguments trigger {call ans} c.

(** [x ← p; q] is stdpp's monadic notation. *)
#[export] Instance prog_ret {call} {ans : call → Type} : MRet (prog ans) := λ A a, Ret a.
#[export] Instance prog_bind {call} {ans : call → Type} : MBind (prog ans) :=
  λ A B f p, bind p f.

(** A [for] loop over a slice whose body may return early: the loop stops at the
    first iteration that returns [Some]. *)
Fixpoint for_each {call} {ans : call → Type} {A R}
    (l : list A) (body : A → prog ans (option R)) : prog ans (option R) :=
  match l with
  | [] => Ret None
  | x :: l =>
      o ← body x;
      match o with
      | Some r => Ret (Some r)
      | None => for_each l body
      end
  end.

(** A [for] loop over a slice that never returns early. *)
Fixpoint for_all {call} {ans : call → Type} {A}
    (l : list A) (body : A → prog ans unit) : prog ans unit :=
  match l with
  | [] => Ret tt
  | x :: l => _ ← body x; for_all l body
  end.

Section Logic.
Context {call : Type} {ans : call → Type}.
Implicit Types (h : log ans) (env : log ans → ∀ c, ans c → Prop) (ok : log ans → call → Prop).

Lemma bind_unfold {A B} (p : prog ans A) (f : A → prog ans B) : p ≫= f = bind p f.
Proof. done. Qed.

Lemma wp_bind {A B} env ok h (p : prog ans A) (f : A → prog ans B) Q :
  wp env ok h p (λ h' a, wp env ok h' (f a) Q) → wp env ok h (p ≫= f) Q.
Proof.
  rewrite bind_unfold. revert h. induction p as [a|c k IH]; intros h; simpl; [done|].
  intros [Hok Hk]. split; [done|]. intros r Hr. apply IH. auto.
Qed.

Lemma wp_trigger env ok h c Q :
  ok h c → (∀ r, env h c r → Q (existT c r :: h) r) → wp env ok h (trigger c) Q.
Proof. by split. Qed.

Lemma wp_ret {A} env ok h (a : A) Q : Q h a → wp env ok h (Ret a) Q.
Proof. done. Qed.

Lemma wp_mono {A} env ok h (p : prog ans A) (Q Q' : log ans → A → Prop) :
  wp env ok h p Q → (∀ h' a, Q h' a → Q' h' a) → wp env ok h p Q'.
Proof.
  revert h. induction p as [a|c k IH]; intros h H HQ; simpl in *; [auto|].
  destruct H as [Hok Hk]. split; [done|]. intros r Hr. eapply IH; eauto.
Qed.

Lemma wp_weaken {A} env (ok ok' : log ans → call → Prop) h (p : prog ans A) Q :
  (∀ h c, ok h c → ok' h c) → wp env ok h p Q → wp env ok' h p Q.
Proof.
  intros Hi. revert h. induction p as [a|c k IH]; intros h; simpl; [done|]. intros [Hok Hk]. split; auto.
Qed.

Lemma wp_true {A} env h (p : prog ans A) : wp env (λ _ _, True) h p (λ _ _, True).
Proof. revert h. induction p as [a|c k IH]; intros h; simpl; [done|]. split; [done|]. auto. Qed.

(** A run only adds to the log. *)
Lemma wp_extends {A} env ok h (p : prog ans A) Q :
  wp env ok h p Q → wp env ok h p (λ h' a, (∃ l, h' = l ++ h) ∧ Q h' a).
Proof.
  revert h. induction p as [a|c k IH]; intros h; simpl; [by split; [exists []|]|].
  intros [Hok Hk]. split; [done|]. intros r Hr. eapply wp_mono; [by apply IH, Hk|].
  intros h' a [[l ->] HQ]. split; [|done]. exists (l ++ [existT c r]). by rewrite <- app_assoc.
Qed.

Lemma wp_conj {A} env ok ok' h (p : prog ans A) (Q Q' : log ans → A → Prop) :
  wp env ok h p Q → wp env ok' h p Q' →
  wp env (λ h c, ok h c ∧ ok' h c) h p (λ h' a, Q h' a ∧ Q' h' a).
Proof.
  revert h. induction p as [a|c k IH]; intros h H H'; simpl in *; [auto|].
  destruct H as [Hok Hk], H' as [Hok' Hk']. split; [done|]. intros r Hr. eapply IH; eauto.
Qed.

Lemma log_ok_trans ok h0 h1 h2 : log_ok ok h0 h1 → log_ok ok h1 h2 → log_ok ok h0 h2.
Proof. intros H01 H12. induction H12; [done | by constructor]. Qed.

Lemma log_ok_mono (ok ok' : log ans → call → Prop) h h' :
  (∀ h c, ok h c → ok' h c) → log_ok ok h h' → log_ok ok' h h'.
Proof. intros Hi. induction 1; constructor; auto. Qed.

(** A checked log satisfies the check at each of its calls. *)
Lemma log_ok_at ok h post c r pre : log_ok ok h (post ++ existT c r :: pre) → (∃ l, pre = l ++ h) → ok pre c.
Proof.
  intros Hl [l ->]. remember (post ++ existT c r :: l ++ h) as h' eqn:E. revert post E.
  induction Hl as [|h' c' r' Hl IH Hok]; intros post E.
  - apply (f_equal length) in E. rewrite length_app, length_cons, length_app in E. unfold log, event in *. lia.
  - destruct post as [|e post]; [|injection E as _ E; by eapply IH].
    assert (h' = l ++ h) as <- by exact (f_equal tail E).
    assert (Some c' = Some c) as [= <-] by exact (f_equal (λ x : list (event ans), option_map (@projT1 _ _) (List.head x)) E). done.
Qed.

Lemma runs_bind_inv {A B} env (p : prog ans A) (f : A → prog ans B) h h' b :
  runs env (p ≫= f) h h' b → ∃ h1 a, runs env p h h1 a ∧ runs env (f a) h1 h' b.
Proof.
  rewrite bind_unfold. revert h. induction p as [a|c k IH]; intros h; simpl; [by eauto|].
  intros (r & He & Hr). destruct (IH _ _ Hr) as (h1 & a & H1 & H2). eauto 8.
Qed.

Lemma runs_bind {A B} env (p : prog ans A) (f : A → prog ans B) h h1 h' a b :
  runs env p h h1 a → runs env (f a) h1 h' b → runs env (p ≫= f) h h' b.
Proof.
  rewrite bind_unfold. revert h. induction p as [x|c k IH]; intros h; simpl.
  - by intros [-> ->].
  - intros (r & He & Hr) Hf. eauto.
Qed.

(** Soundness: a [wp] fact holds of every run the environment assumption
    allows, of its calls and of its result. *)
Lemma wp_sound {A} env ok h (p : prog ans A) Q h' a :
  wp env ok h p Q → runs env p h h' a → log_ok ok h h' ∧ Q h' a.
Proof.
  revert h. induction p as [x|c k IH]; intros h; simpl.
  - intros HQ [-> ->]. split; [constructor|done].
  - intros [Hok Hk] (r & He & Hr). destruct (IH r _ (Hk r He) Hr) as [Hlog HQ].
    split; [|done]. eapply log_ok_trans; [|done]. constructor; [constructor|done].
Qed.

Lemma log_env_trans env h0 h1 h2 : log_env env h0 h1 → log_env env h1 h2 → log_env env h0 h2.
Proof. intros H01 H12. induction H12; [done | by constructor]. Qed.

Lemma runs_log_env {A} env h (p : prog ans A) h' a : runs env p h h' a → log_env env h h'.
Proof.
  revert h. induction p as [x|c k IH]; intros h; simpl.
  - intros [-> _]. constructor.
  - intros (r & He & Hr). eapply log_env_trans; [|by eapply IH]. constructor; [constructor|done].
Qed.

(** Every result a [wp] fact is about is one of a run. *)
Lemma wp_runs {A} env h (p : prog ans A) : wp env (λ _ _, True) h p (λ h' a, runs env p h h' a).
Proof.
  revert h. induction p as [a|c k IH]; intros h; simpl; [done|]. split; [done|]. intros r Hr.
  eapply wp_mono; [apply IH|]. eauto.
Qed.

Lemma runs_extends {A} env h (p : prog ans A) h' a : runs env p h h' a → ∃ l, h' = l ++ h.
Proof.
  revert h. induction p as [x|c k IH]; intros h; simpl; [intros [-> _]; by exists []|].
  intros (r & _ & Hr). destruct (IH _ _ Hr) as [l ->]. exists (l ++ [existT c r]). by rewrite <- app_assoc.
Qed.

Lemma wp_and_runs {A} env ok h (p : prog ans A) Q : wp env ok h p Q → wp env ok h p (λ h' a, runs env p h h' a ∧ Q h' a).
Proof.
  revert h. induction p as [a|c k IH]; intros h; simpl; [done|]. intros [Hok Hk]. split; [done|]. intros r Hr.
  eapply wp_mono; [by apply IH, Hk|]. intros h' a [??]. eauto.
Qed.

(** A run stays one under a weaker assumption, and each answer of it is allowed. *)
Lemma runs_env_mono {A} (env env' : log ans → ∀ c, ans c → Prop) (p : prog ans A) h h' a :
  (∀ h c r, env h c r → env' h c r) → runs env p h h' a → runs env' p h h' a.
Proof.
  intros Hi. revert h. induction p as [x|c k IH]; intros h; simpl; [done|]. intros (r & He & Hr). eauto.
Qed.

Lemma log_env_elem env h h' c r : log_env env h h' → existT c r ∈ h' → existT c r ∈ h ∨ ∃ h1, env h1 c r.
Proof.
  induction 1 as [|h' c' r' Hl IH He]; intros Hin; [by left|].
  apply elem_of_cons in Hin as [E|Hin]; [|by apply IH]. right. exists h'.
  exact (eq_rect (existT c' r') (λ e : event ans, env h' (projT1 e) (projT2 e)) He (existT c r) (eq_sym E)).
Qed.

(** The two halves, for a fact about the result or about the calls alone. *)
Lemma wp_result {A} env h h' (p : prog ans A) a (Q : A → Prop) :
  wp env (λ _ _, True) h p (λ _ a, Q a) → runs env p h h' a → Q a.
Proof. intros Hwp Hr. by eapply wp_sound in Hr as [_ ?]; [|exact Hwp]. Qed.

Lemma wp_post {A} env h (p : prog ans A) (Q : log ans → A → Prop) :
  wp env (λ _ _, True) h p Q → ∀ h' a, runs env p h h' a → Q h' a.
Proof. intros Hwp h' a Hr. by eapply wp_sound in Hr as [_ ?]; [|exact Hwp]. Qed.

Lemma wp_calls {A} env ok h h' (p : prog ans A) a :
  wp env ok h p (λ _ _, True) → runs env p h h' a → log_ok ok h h'.
Proof. intros Hwp Hr. by eapply wp_sound in Hr as [? _]; [|exact Hwp]. Qed.

(** Loop rules. [I] is the loop invariant: after the elements [seen]. *)
Lemma wp_for_each {A R} env ok (I : list A → log ans → Prop)
    (l seen : list A) (body : A → prog ans (option R)) h Q :
  I seen h →
  (∀ pre x post h, l = pre ++ x :: post → I (seen ++ pre) h →
     wp env ok h (body x) (λ h' o,
       match o with Some r => Q h' (Some r) | None => I (seen ++ pre ++ [x]) h' end)) →
  (∀ h, I (seen ++ l) h → Q h None) →
  wp env ok h (for_each l body) Q.
Proof.
  revert seen h. induction l as [|x l IH]; intros seen h Hi Hbody Hend; simpl.
  - apply Hend. by rewrite app_nil_r.
  - apply wp_bind. eapply wp_mono.
    + apply (Hbody [] x l); [done|]. by rewrite app_nil_r.
    + intros h' [r|] H'; [done|]. simpl in H'. apply (IH (seen ++ [x])); [done|..].
      * intros pre y post h'' -> Hi'. rewrite <- (app_assoc seen [x]) in *.
        specialize (Hbody (x :: pre) y post h'' eq_refl Hi').
        eapply wp_mono; [exact Hbody|]. intros ? [?|]; [done|].
        simpl. by rewrite <- ?app_assoc.
      * intros h'' H''. apply Hend. by rewrite <- app_assoc in H''.
Qed.

Lemma wp_for_all {A} env ok (I : list A → log ans → Prop)
    (l seen : list A) (body : A → prog ans unit) h Q :
  I seen h →
  (∀ pre x post h, l = pre ++ x :: post → I (seen ++ pre) h →
     wp env ok h (body x) (λ h' _, I (seen ++ pre ++ [x]) h')) →
  (∀ h, I (seen ++ l) h → Q h tt) →
  wp env ok h (for_all l body) Q.
Proof.
  revert seen h. induction l as [|x l IH]; intros seen h Hi Hbody Hend; simpl.
  - apply Hend. by rewrite app_nil_r.
  - apply wp_bind. eapply wp_mono.
    + apply (Hbody [] x l); [done|]. by rewrite app_nil_r.
    + intros h' [] H'. simpl in H'. apply (IH (seen ++ [x])); [done|..].
      * intros pre y post h'' -> Hi'. rewrite <- (app_assoc seen [x]) in *.
        specialize (Hbody (x :: pre) y post h'' eq_refl Hi').
        eapply wp_mono; [exact Hbody|]. intros ? []; simpl. by rewrite <- ?app_assoc.
      * intros h'' H''. apply Hend. by rewrite <- app_assoc in H''.
Qed.
End Logic.

(** ** Static facts *)

Section Calls.
Context {call : Type} {ans : call → Type}.

(** Every call the program can make satisfies [P]. *)
Fixpoint calls {A} (P : call → Prop) (p : prog ans A) : Prop :=
  match p with
  | Ret _ => True
  | Vis c k => P c ∧ ∀ r, calls P (k r)
  end.

Lemma calls_bind {A B} P (p : prog ans A) (f : A → prog ans B) :
  calls P p → (∀ a, calls P (f a)) → calls P (p ≫= f).
Proof.
  rewrite bind_unfold. induction p as [a|c k IH]; simpl; [auto|]. intros [Hc Hk] Hf. split; [done|]. auto.
Qed.

Lemma calls_trigger P c : P c → calls P (trigger c).
Proof. by split. Qed.

(** The same, and every result satisfies [Q]. *)
Fixpoint calls_to {A} (P : call → Prop) (p : prog ans A) (Q : A → Prop) : Prop :=
  match p with
  | Ret a => Q a
  | Vis c k => P c ∧ ∀ r, calls_to P (k r) Q
  end.

Lemma calls_to_bind {A B} P (p : prog ans A) (f : A → prog ans B) (R : A → Prop) (Q : B → Prop) :
  calls_to P p R → (∀ a, R a → calls_to P (f a) Q) → calls_to P (p ≫= f) Q.
Proof.
  rewrite bind_unfold. induction p as [a|c k IH]; simpl; [auto|]. intros [Hc Hk] Hf. split; [done|]. auto.
Qed.

Lemma calls_calls_to {A} P (p : prog ans A) : calls P p → calls_to P p (λ _, True).
Proof. induction p as [a|c k IH]; simpl; [done|]. intros [Hc Hk]. split; auto. Qed.

Lemma calls_to_calls {A} P (p : prog ans A) Q : calls_to P p Q → calls P p.
Proof. induction p as [a|c k IH]; simpl; [done|]. intros [Hc Hk]. split; eauto. Qed.

Lemma calls_bind_to {A B} P (p : prog ans A) (f : A → prog ans B) (R : A → Prop) :
  calls_to P p R → (∀ a, R a → calls P (f a)) → calls P (p ≫= f).
Proof.
  rewrite bind_unfold. induction p as [a|c k IH]; simpl; [auto|]. intros [Hc Hk] Hf. split; [done|]. auto.
Qed.

Lemma calls_mono {A} (P Q : call → Prop) (p : prog ans A) : (∀ c, P c → Q c) → calls P p → calls Q p.
Proof. intros Hi. induction p as [a|c k IH]; simpl; [done|]. intros [Hc Hk]. split; auto. Qed.

Lemma calls_wp {A} env P h (p : prog ans A) : calls P p → wp env (λ _ c, P c) h p (λ _ _, True).
Proof. revert h. induction p as [a|c k IH]; intros h; simpl; [done|]. intros [Hc Hk]. split; auto. Qed.
End Calls.

(** The calls a run adds, and a fact that stays true as the log grows. *)
Section Growing.
Context {call : Type} {ans : call → Type}.

Lemma calls_new {A} env P h (p : prog ans A) : calls P p → wp env (λ _ _, True) h p (λ h' _, ∃ l, h' = l ++ h ∧ Forall (λ e, P (projT1 e)) l).
Proof.
  revert h. induction p as [a|c k IH]; intros h; simpl; [by exists []|]. intros [Hc Hk]. split; [done|]. intros r _.
  eapply wp_mono; [by apply IH|]. intros h' a (l & -> & Hl). exists (l ++ [existT c r]). rewrite <- app_assoc. split; [done|].
  apply Forall_app. by split; [|constructor].
Qed.

Lemma wp_growing {A} env (ok : log ans → call → Prop) (P : call → Prop) (F : log ans → Prop) (p : prog ans A) :
  (∀ l h, F h → F (l ++ h)) → (∀ h c, P c → F h → ok h c) → calls P p → ∀ h, F h → wp env ok h p (λ h' _, F h').
Proof.
  intros HF Hok. induction p as [a|c k IH]; intros Hc h Hh; [done|]. destruct Hc as [Hc Hk]. split; [by apply Hok|]. intros r _.
  apply IH; [done|]. by apply (HF [_]).
Qed.
End Growing.

(** [wp_call] steps over [r ← trigger c; k], [wp_last] over a last call; [wp_cut H] over a subroutine with the
    specification [H]. *)
Ltac wp_last :=
  lazymatch goal with |- wp ?env ?ok ?h (trigger ?c) ?Q => refine (wp_trigger env ok h c Q _ _); cbv beta end.
Ltac wp_call := apply wp_bind; wp_last.
Ltac wp_cut H := apply wp_bind; eapply wp_mono; [apply H|]; cbv beta.

(** ** Running a program against a concrete environment *)

Section Play.
Context {call : Type} {ans : call → Type} {S : Type}.

(** [play serve s p h] runs [p] after the log [h] against the environment
    [serve] in the state [s]; it returns the final state, the log and the
    result. Every program terminates, so [play] is total. *)
Fixpoint play {A} (serve : S → ∀ c, ans c * S) (s : S) (p : prog ans A) (h : log ans)
    : S * log ans * A :=
  match p with
  | Ret a => (s, h, a)
  | Vis c k => let '(r, s') := serve s c in play serve s' (k r) (existT c r :: h)
  end.

(** What [play] computes is a run; within [env] if every answer is. *)
Lemma play_runs_env {A} (env : log ans → ∀ c, ans c → Prop) serve s (p : prog ans A) h :
  (∀ s h c, env h c (serve s c).1) → let '(_, h', a) := play serve s p h in runs env p h h' a.
Proof.
  intros He. revert s h. induction p as [a|c k IH]; intros s h; simpl; [done|].
  specialize (He s h c). destruct (serve s c) as [r s'] eqn:E. specialize (IH r s' (existT c r :: h)).
  destruct (play serve s' (k r) (existT c r :: h)) as [[??] ?]. by exists r.
Qed.

Lemma play_runs_in {A} (env : log ans → ∀ c, ans c → Prop) serve s (p : prog ans A) h :
  (∀ s h c, env h c (serve s c).1) → runs env p h (play serve s p h).1.2 (play serve s p h).2.
Proof. intros He. pose proof (play_runs_env env serve s p h He) as H. by destruct (play serve s p h) as [[??]?]. Qed.

(** The same for an environment that follows the state of [serve], by an invariant. *)
Lemma play_runs_inv {A} (env : log ans → ∀ c, ans c → Prop) (I : S → log ans → Prop) serve s (p : prog ans A) h :
  (∀ s h c, I s h → env h c (serve s c).1 ∧ I (serve s c).2 (existT c (serve s c).1 :: h)) → I s h →
  runs env p h (play serve s p h).1.2 (play serve s p h).2.
Proof.
  intros He. revert s h. induction p as [a|c k IH]; intros s h HI; simpl; [done|].
  destruct (He s h c HI) as [H1 H2]. destruct (serve s c) as [r s'] eqn:E. exists r. split; [done|]. by apply IH.
Qed.

Lemma play_runs {A} serve s (p : prog ans A) h :
  let '(_, h', a) := play serve s p h in runs any_env p h h' a.
Proof. by apply play_runs_env. Qed.
End Play.

(** ** Programs of a part inside a larger program *)

Section Translate.
Context {call1 call2 : Type} {ans1 : call1 → Type} {ans2 : call2 → Type}.
(** The calls of the part among those of the whole, and back. *)
Context (inj : call1 → call2) (back : ∀ c, ans2 (inj c) → ans1 c) (view : event ans2 → option (event ans1)).
Context (view_inj : ∀ c r, view (existT (inj c) r) = Some (existT c (back c r))).

Fixpoint translate {A} (p : prog ans1 A) : prog ans2 A :=
  match p with
  | Ret a => Ret a
  | Vis c k => Vis (inj c) (λ r, translate (k (back c r)))
  end.

(** The part's log. *)
Definition part_log (h : log ans2) : log ans1 := omap view h.

(** What a part guarantees on its own, it guarantees inside the whole. *)
Lemma wp_translate {A} (ok : log ans2 → call2 → Prop) h (p : prog ans1 A) Q :
  (∀ h' c, (∃ l, h' = l ++ h) → ok h' (inj c)) → wp any_env (λ _ _, True) (part_log h) p Q →
  wp any_env ok h (translate p) (λ h' a, (∃ l, h' = l ++ h) ∧ Q (part_log h') a).
Proof.
  intros Hok. enough (∀ h1, (∃ l, h1 = l ++ h) → wp any_env (λ _ _, True) (part_log h1) p Q →
    wp any_env ok h1 (translate p) (λ h' a, (∃ l, h' = l ++ h) ∧ Q (part_log h') a)) as H by (apply H; by exists []).
  induction p as [a|c k IH]; intros h1 Hh; cbn [translate wp]; [by split|]. intros [_ Hk]. split; [by apply Hok|].
  intros r _. apply IH; [destruct Hh as [l ->]; by exists (existT (inj c) r :: l)|].
  unfold part_log. cbn [omap list_omap]. rewrite view_inj. by apply Hk.
Qed.

(** The same for the part's own assumption on its answers and its own check of its calls. *)
Lemma wp_translate_in {A} env1 env2 (ok1 : log ans1 → call1 → Prop) (ok2 : log ans2 → call2 → Prop) h (p : prog ans1 A) Q :
  (∀ h c r, env2 h (inj c) r → env1 (part_log h) c (back c r)) →
  (∀ h' c, (∃ l, h' = l ++ h) → ok1 (part_log h') c → ok2 h' (inj c)) →
  wp env1 ok1 (part_log h) p Q → wp env2 ok2 h (translate p) (λ h' a, Q (part_log h') a).
Proof.
  intros He Hok. enough (∀ h1, (∃ l, h1 = l ++ h) → wp env1 ok1 (part_log h1) p Q → wp env2 ok2 h1 (translate p) (λ h' a, Q (part_log h') a))
    as H by (apply H; by exists []).
  induction p as [a|c k IH]; intros h1 Hh; cbn [translate wp]; [done|]. intros [Hc Hk]. split; [by apply Hok|].
  intros r Hr. apply IH; [destruct Hh as [l ->]; by exists (existT (inj c) r :: l)|].
  unfold part_log. cbn [omap list_omap]. rewrite view_inj. by apply Hk, He.
Qed.

(** The calls of a translated program are calls of the part. *)
Lemma calls_translate {A} (P : call2 → Prop) (p : prog ans1 A) : (∀ c, P (inj c)) → calls P (translate p).
Proof. intros HP. induction p as [a|c k IH]; cbn; [done|]. split; [apply HP|]. intros r. apply IH. Qed.
End Translate.

(** ** A program over operations, run by their implementations *)

Section Interp.
Context {call1 call2 : Type} {ans1 : call1 → Type} {ans2 : call2 → Type}.
Context (impl : ∀ c : call1, prog ans2 (ans1 c)).

Fixpoint interp {A} (p : prog ans1 A) : prog ans2 A :=
  match p with
  | Ret a => Ret a
  | Vis c k => bind (impl c) (λ r, interp (k r))
  end.

(** What every implementation guarantees of its calls, the program does. *)
Lemma wp_interp {A} env ok h (p : prog ans1 A) : (∀ c h, wp env ok h (impl c) (λ _ _, True)) →
  wp env ok h (interp p) (λ _ _, True).
Proof.
  intros Hi. revert h. induction p as [a|c k IH]; intros h; cbn [interp]; [done|].
  apply (wp_bind env ok h (impl c)). eapply wp_mono; [apply Hi|]. intros h' r _. apply IH.
Qed.

(** What the program guarantees over its operations, it guarantees over their implementations.
    [same] relates the two logs. *)
Lemma wp_interp_same {A} env ok (P : log ans1 → call1 → Prop) (same : log ans1 → log ans2 → Prop) (p : prog ans1 A) H h Q :
  (∀ c H h, P H c → same H h → wp env ok h (impl c) (λ h' r, same (existT c r :: H) h')) →
  same H h → wp any_env P H p Q → wp env ok h (interp p) (λ h' a, ∃ H', same H' h' ∧ Q H' a).
Proof.
  intros Hi. revert H h. induction p as [x|c k IH]; intros H h Hs; cbn [interp]; [intros HQ; by exists H|].
  intros [Hc Hk]. apply (wp_bind env ok h (impl c)). eapply wp_mono; [by apply Hi|]. intros h' r Hs'.
  apply (IH r (existT c r :: H) h'); [exact Hs'|]. by apply Hk.
Qed.

(** A run over the implementations is a run over the operations, with the answers the
    implementations gave. [same] relates the two logs. *)
Lemma interp_runs {A} env (same : log ans1 → log ans2 → Prop) (p : prog ans1 A) H h h' a :
  (∀ c H h h' r, same H h → runs env (impl c) h h' r → same (existT c r :: H) h') →
  same H h → runs env (interp p) h h' a → ∃ H', runs any_env p H H' a ∧ same H' h'.
Proof.
  intros Hi. revert H h. induction p as [x|c k IH]; intros H h Hs; cbn [interp]; [intros [-> ->]; by exists H|].
  intros (h1 & r & H1 & H2)%(runs_bind_inv env (impl c)). destruct (IH r (existT c r :: H) h1) as (H' & Hr & Hs'); [by eapply Hi|done|].
  exists H'. split; [|done]. by exists r.
Qed.
End Interp.
