(* ===== verification/GoStrings.v ===== *)
(** * Go strings

    A Go [string] is a sequence of bytes, as Rocq's [string] is a sequence of
    8-bit characters. This file holds the functions of packages [strings],
    [slices] and [strconv] that the bridge uses, under their Go names, with the
    lemmas the components share. *)

From S2P Require Import Prelude.

(** [len(s)]. *)
Definition len (s : string) : Z := Z.of_nat (String.length s).

Definition backslash : ascii := ascii_of_nat 92.

(** The three bytes of an ellipsis, which the code appends to a text it cuts. *)
Definition ellipsis : string := String "226" (String "128" (String "166" EmptyString)).

(** ** Package strings *)

Fixpoint HasPrefix (s p : string) {struct p} : bool :=
  match p, s with
  | EmptyString, _ => true
  | String a p, String b s => Ascii.eqb a b && HasPrefix s p
  | String _ _, EmptyString => false
  end.

(** [strings.CutPrefix]: the rest after the prefix, when it is there. *)
Fixpoint CutPrefix (s p : string) {struct p} : option string :=
  match p, s with
  | EmptyString, _ => Some s
  | String a p, String b s => if Ascii.eqb a b then CutPrefix s p else None
  | String _ _, EmptyString => None
  end.

Definition TrimPrefix (s p : string) : string := default s (CutPrefix s p).

Definition HasSuffix (s p : string) : bool :=
  HasPrefix (String.rev s) (String.rev p).

Definition CutSuffix (s p : string) : option string :=
  String.rev <$> CutPrefix (String.rev s) (String.rev p).

Definition TrimSuffix (s p : string) : string := default s (CutSuffix s p).

(** [strings.Contains]. *)
Fixpoint Contains (s sub : string) : bool :=
  HasPrefix s sub || match s with EmptyString => false | String _ s => Contains s sub end.

(** [strings.ContainsAny], [strings.IndexByte(chars, c) >= 0]: byte membership. *)
Fixpoint ContainsByte (s : string) (c : ascii) : bool :=
  match s with
  | EmptyString => false
  | String a s => Ascii.eqb a c || ContainsByte s c
  end.

Fixpoint ContainsAny (s chars : string) : bool :=
  match s with
  | EmptyString => false
  | String a s => ContainsByte chars a || ContainsAny s chars
  end.

(** [strings.Cut(s, sep)] for a one-byte separator: the text before and after its
    first occurrence. *)
Fixpoint Cut (s : string) (sep : ascii) : option (string * string) :=
  match s with
  | EmptyString => None
  | String a s =>
      if Ascii.eqb a sep then Some (EmptyString, s)
      else match Cut s sep with
           | Some (before, after) => Some (String a before, after)
           | None => None
           end
  end.

(** [strings.Split(s, sep)] for a one-byte separator. *)
Fixpoint Split (s : string) (sep : ascii) : list string :=
  match s with
  | EmptyString => [EmptyString]
  | String a s =>
      if Ascii.eqb a sep then EmptyString :: Split s sep
      else match Split s sep with
           | [] => [String a EmptyString]
           | w :: ws => String a w :: ws
           end
  end.

(** [strings.Join]. *)
Fixpoint Join (l : list string) (sep : string) : string :=
  match l with
  | [] => EmptyString
  | [s] => s
  | s :: l => s +:+ sep +:+ Join l sep
  end.

(** [s[:n]] for [n <= len(s)]; the whole string otherwise. *)
Fixpoint take_str (n : nat) (s : string) : string :=
  match n, s with
  | O, _ => EmptyString
  | S n, EmptyString => EmptyString
  | S n, String a s => String a (take_str n s)
  end.

Fixpoint drop_str (n : nat) (s : string) : string :=
  match n, s with
  | O, _ => s
  | S n, EmptyString => EmptyString
  | S n, String a s => drop_str n s
  end.

(** Every byte of [s] satisfies [f]. *)
Fixpoint all_bytes (f : ascii → bool) (s : string) : bool :=
  match s with
  | EmptyString => true
  | String a s => f a && all_bytes f s
  end.

(** [strings.TrimRight(s, cutset)] and [strings.TrimLeft] for a cutset of
    one-byte characters. *)
Fixpoint TrimRight (s cutset : string) : string :=
  match s with
  | EmptyString => EmptyString
  | String a s' =>
      if ContainsByte cutset a && all_bytes (ContainsByte cutset) s' then EmptyString
      else String a (TrimRight s' cutset)
  end.

Fixpoint TrimLeft (s cutset : string) : string :=
  match s with
  | EmptyString => EmptyString
  | String a s' => if ContainsByte cutset a then TrimLeft s' cutset else s
  end.

(** ** White space

    [unicode.IsSpace] on UTF-8: the ASCII spaces, and the multi-byte encodings of
    U+0085, U+00A0, U+1680, U+2000 to U+200A, U+2028, U+2029, U+202F, U+205F and
    U+3000. No byte of such an encoding but its first is a UTF-8 lead byte, and a
    lead byte always starts a rune, so scanning for these byte sequences finds
    exactly the white-space runes Go decodes, in invalid UTF-8 too. *)

Definition byte_of (n : N) : ascii := Ascii.ascii_of_N n.

Definition is_ascii_space (c : ascii) : bool :=
  let n := Ascii.N_of_ascii c in
  ((9 <=? n) && (n <=? 13))%N || (n =? 32)%N.

(** The number of bytes of the white-space rune at the start of [s], 0 if the
    first rune is not white space. *)
Definition space_width (s : string) : nat :=
  match s with
  | EmptyString => 0
  | String a s1 =>
      if is_ascii_space a then 1 else
      let na := Ascii.N_of_ascii a in
      match s1 with
      | EmptyString => 0
      | String b s2 =>
          let nb := Ascii.N_of_ascii b in
          if (na =? 194)%N && ((nb =? 133)%N || (nb =? 160)%N) then 2 else
          match s2 with
          | EmptyString => 0
          | String c _ =>
              let nc := Ascii.N_of_ascii c in
              if ((na =? 225) && (nb =? 154) && (nc =? 128))%N
                 || ((na =? 226) && (nb =? 128)
                     && (((128 <=? nc) && (nc <=? 138)) || (nc =? 168) || (nc =? 169) || (nc =? 175)))%N
                 || ((na =? 226) && (nb =? 129) && (nc =? 159))%N
                 || ((na =? 227) && (nb =? 128) && (nc =? 128))%N
              then 3 else 0
          end
      end
  end%nat.

(** [strings.Fields]: the maximal runs of non-white-space bytes. [skip] counts
    the bytes of a white-space rune still to pass; [cur] is the field being
    read. *)
Fixpoint fields_go (skip : nat) (cur : string) (s : string) : list string :=
  match s with
  | EmptyString => if String.eqb cur EmptyString then [] else [cur]
  | String a s' =>
      match skip with
      | S k => fields_go k cur s'
      | O =>
          match space_width s with
          | O => fields_go 0 (cur +:+ String a EmptyString) s'
          | S k =>
              if String.eqb cur EmptyString then fields_go k EmptyString s'
              else cur :: fields_go k EmptyString s'
          end
      end
  end.
Definition Fields (s : string) : list string := fields_go 0 EmptyString s.

(** [s] consists of white-space runes only. *)
Fixpoint all_space (skip : nat) (s : string) : bool :=
  match s with
  | EmptyString => true
  | String _ s' =>
      match skip with
      | S k => all_space k s'
      | O => match space_width s with O => false | S k => all_space k s' end
      end
  end.

Fixpoint trim_space_left (skip : nat) (s : string) : string :=
  match s with
  | EmptyString => EmptyString
  | String _ s' =>
      match skip with
      | S k => trim_space_left k s'
      | O => match space_width s with O => s | S k => trim_space_left k s' end
      end
  end.

Fixpoint trim_space_right (s : string) : string :=
  match s with
  | EmptyString => EmptyString
  | String a s' => if all_space 0 s then EmptyString else String a (trim_space_right s')
  end.

(** [strings.TrimSpace]. *)
Definition TrimSpace (s : string) : string := trim_space_right (trim_space_left 0 s).

(** ** Lemmas *)

Lemma app_nil_l (s : string) : EmptyString +:+ s = s.
Proof. done. Qed.

Lemma app_cons a (s t : string) : String a s +:+ t = String a (s +:+ t).
Proof. done. Qed.

Lemma str_app_nil_r (s : string) : s +:+ EmptyString = s.
Proof. induction s as [|a s IH]; [done|]. rewrite ?app_cons. by f_equal. Qed.

Lemma str_app_assoc (s t u : string) : (s +:+ t) +:+ u = s +:+ t +:+ u.
Proof. induction s as [|a s IH]; [done|]. rewrite ?app_cons. by f_equal. Qed.

Lemma str_length_app (s t : string) :
  String.length (s +:+ t) = (String.length s + String.length t)%nat.
Proof. induction s as [|a s IH]; [done|]. rewrite ?app_cons. simpl. by rewrite IH. Qed.

Lemma str_length_0 (s : string) : String.length s = 0%nat → s = EmptyString.
Proof. by destruct s. Qed.

Lemma str_app_eq_nil (s t : string) : s +:+ t = EmptyString → s = EmptyString ∧ t = EmptyString.
Proof. destruct s; [done|]. by rewrite ?app_cons. Qed.

Lemma str_app_inv_len (s s' t t' : string) :
  String.length s = String.length s' → s +:+ t = s' +:+ t' → s = s' ∧ t = t'.
Proof.
  revert s'. induction s as [|a s IH]; intros [|a' s']; simpl; try done.
  rewrite ?app_cons. intros [= Hlen] [= -> Heq]. destruct (IH _ Hlen Heq) as [-> ->]. done.
Qed.

#[export] Hint Rewrite app_cons str_app_assoc str_app_nil_r app_nil_l : str.

Lemma eqb_refl_ascii a : Ascii.eqb a a = true.
Proof. apply Ascii.eqb_refl. Qed.

Lemma CutPrefix_Some s p t : CutPrefix s p = Some t ↔ s = p +:+ t.
Proof.
  revert s. induction p as [|a p IH]; intros s; simpl; [split; by intros [= ->]|].
  destruct s as [|b s]; [split; [done|]; by rewrite ?app_cons|].
  rewrite ?app_cons. destruct (Ascii.eqb_spec a b) as [->|Hne].
  - rewrite IH. split; [by intros ->|by intros [= ->]].
  - split; [done|]. by intros [= -> _].
Qed.

Lemma CutPrefix_app p t : CutPrefix (p +:+ t) p = Some t.
Proof. by apply CutPrefix_Some. Qed.

Lemma HasPrefix_CutPrefix s p : HasPrefix s p = bool_decide (is_Some (CutPrefix s p)).
Proof.
  revert s. induction p as [|a p IH]; intros s; simpl; [symmetry; bsimpl; eauto|].
  destruct s as [|b s]; [done|].
  destruct (Ascii.eqb a b); simpl; [apply IH|done].
Qed.

Lemma HasPrefix_spec s p : HasPrefix s p = true ↔ ∃ t, s = p +:+ t.
Proof.
  rewrite HasPrefix_CutPrefix, bool_decide_eq_true. unfold is_Some.
  by setoid_rewrite CutPrefix_Some.
Qed.

Lemma HasPrefix_app p t : HasPrefix (p +:+ t) p = true.
Proof. apply HasPrefix_spec. eauto. Qed.

Lemma TrimPrefix_app p t : TrimPrefix (p +:+ t) p = t.
Proof. unfold TrimPrefix. by rewrite CutPrefix_app. Qed.

Lemma ContainsByte_app s t c : ContainsByte (s +:+ t) c = ContainsByte s c || ContainsByte t c.
Proof.
  induction s as [|a s IH]; [done|]. rewrite ?app_cons. simpl. rewrite IH. by rewrite orb_assoc.
Qed.

Lemma Contains_byte s c : Contains s (String c EmptyString) = ContainsByte s c.
Proof.
  induction s as [|a s IH]; [done|]. simpl. rewrite IH, andb_true_r.
  by rewrite Ascii.eqb_sym.
Qed.

(** A separator byte that occurs in neither left part splits a string in one way. *)
Lemma sep_unique c a a' b b' :
  ContainsByte a c = false → ContainsByte a' c = false →
  a +:+ String c b = a' +:+ String c b' → a = a' ∧ b = b'.
Proof.
  revert a'. induction a as [|x a IH]; intros [|x' a']; simpl.
  - by intros _ _ [= ->].
  - intros _ Ha' [= -> _]. by rewrite eqb_refl_ascii in Ha'.
  - intros Ha _ [= -> _]. by rewrite eqb_refl_ascii in Ha.
  - rewrite ?app_cons. intros Ha Ha' [= -> Heq]. bsimpl.
    by destruct (IH a') as [-> ->].
Qed.

Lemma Cut_app a c b : ContainsByte a c = false → Cut (a +:+ String c b) c = Some (a, b).
Proof.
  induction a as [|x a IH]; simpl; [by rewrite eqb_refl_ascii|].
  intros Ha. bsimpl. rewrite ?app_cons. simpl.
  by match goal with H : Ascii.eqb x c = false |- _ => rewrite H, IH end.
Qed.

Lemma Cut_Some s c a b :
  Cut s c = Some (a, b) ↔ s = a +:+ String c b ∧ ContainsByte a c = false.
Proof.
  split; [|intros [-> ?]; by apply Cut_app].
  revert a. induction s as [|x s IH]; intros a; simpl; [done|].
  destruct (Ascii.eqb_spec x c) as [->|Hne]; [by intros [= <- <-]|].
  destruct (Cut s c) as [[p q]|]; [|done]. intros [= <- <-].
  destruct (IH p eq_refl) as [-> Hp]. rewrite ?app_cons. simpl. rewrite Hp.
  split; [done|]. by destruct (Ascii.eqb_spec x c).
Qed.

Lemma Cut_None s c : Cut s c = None ↔ ContainsByte s c = false.
Proof.
  induction s as [|x s IH]; simpl; [done|].
  destruct (Ascii.eqb x c); [done|]. simpl. rewrite <- IH. by destruct (Cut s c) as [[]|].
Qed.

Lemma Split_ne s c : Split s c ≠ [].
Proof. destruct s as [|a s]; simpl; [done|]. destruct (Ascii.eqb a c); [done|]. by destruct (Split s c). Qed.

Lemma Split_free s c : ContainsByte s c = false → Split s c = [s].
Proof.
  induction s as [|a s IH]; simpl; [done|]. intros H. bsimpl.
  match goal with H : Ascii.eqb a c = false |- _ => rewrite H end. by rewrite IH.
Qed.

Lemma Split_app s c t : ContainsByte s c = false → Split (s +:+ String c t) c = s :: Split t c.
Proof.
  induction s as [|a s IH]; simpl; [by rewrite eqb_refl_ascii|].
  intros H. bsimpl. rewrite ?app_cons. simpl.
  match goal with H : Ascii.eqb a c = false |- _ => rewrite H end. by rewrite IH.
Qed.

(** Splitting what was joined gives the parts back. *)
Lemma Split_Join l c :
  l ≠ [] → Forall (λ s, ContainsByte s c = false) l → Split (Join l (String c EmptyString)) c = l.
Proof.
  intros Hne Hall. induction Hall as [|s l Hs Hall IH]; [done|]. clear Hne.
  destruct l as [|s' l]; [by apply Split_free|].
  change (Join (s :: s' :: l) (String c EmptyString))
    with (s +:+ String c (Join (s' :: l) (String c EmptyString))).
  rewrite Split_app by done. f_equal. by apply IH.
Qed.

Lemma Split_parts s c : Forall (λ w, ContainsByte w c = false) (Split s c).
Proof.
  induction s as [|a s IH]; simpl; [by repeat constructor|].
  destruct (Ascii.eqb_spec a c) as [->|Hne]; [by constructor|].
  destruct (Split s c) as [|w ws]; inversion IH; subst; constructor; auto; simpl.
  - by destruct (Ascii.eqb_spec a c).
  - by destruct (Ascii.eqb_spec a c).
Qed.

Lemma take_str_length n s : String.length (take_str n s) = Nat.min n (String.length s).
Proof. revert s. induction n as [|n IH]; intros [|a s]; simpl; auto. Qed.

Lemma take_drop_str n s : take_str n s +:+ drop_str n s = s.
Proof. revert s. induction n as [|n IH]; intros [|a s]; simpl; auto. rewrite ?app_cons. by f_equal. Qed.

Lemma take_str_app s t : take_str (String.length s) (s +:+ t) = s.
Proof. induction s as [|a s IH]; simpl; [by destruct t|]. rewrite ?app_cons. simpl. by f_equal. Qed.

Lemma take_str_ge n s : (String.length s ≤ n)%nat → take_str n s = s.
Proof. revert s. induction n as [|n IH]; intros [|a s]; simpl; auto with lia. intros. f_equal. apply IH. lia. Qed.

Lemma take_str_app_ge n s t :
  (String.length s ≤ n)%nat →
  take_str n (s +:+ t) = s +:+ take_str (n - String.length s) t.
Proof.
  revert n. induction s as [|a s IH]; intros n; simpl.
  - intros _. rewrite app_nil_l. by rewrite Nat.sub_0_r.
  - destruct n as [|n]; [lia|]. intros H. rewrite ?app_cons. simpl. f_equal. apply IH. lia.
Qed.

Lemma ContainsByte_take n s c : ContainsByte s c = false → ContainsByte (take_str n s) c = false.
Proof.
  intros H. rewrite <- (take_drop_str n s), ContainsByte_app in H. by bsimpl.
Qed.

Lemma all_bytes_app f s t : all_bytes f (s +:+ t) = all_bytes f s && all_bytes f t.
Proof. induction s as [|a s IH]; [done|]. rewrite ?app_cons. simpl. by rewrite IH, andb_assoc. Qed.

Lemma all_bytes_impl (f g : ascii → bool) s :
  (∀ c, f c = true → g c = true) → all_bytes f s = true → all_bytes g s = true.
Proof. intros Hfg. induction s as [|a s IH]; simpl; [done|]. intros H. bsimpl. auto. Qed.

Lemma all_bytes_ContainsByte f s c : f c = false → all_bytes f s = true → ContainsByte s c = false.
Proof.
  intros Hc. induction s as [|a s IH]; simpl; [done|]. intros H. bsimpl. rewrite IH by done.
  rewrite orb_false_r. destruct (Ascii.eqb_spec a c); congruence.
Qed.

Lemma all_bytes_take f n s : all_bytes f s = true → all_bytes f (take_str n s) = true.
Proof. intros H. rewrite <- (take_drop_str n s), all_bytes_app in H. by bsimpl. Qed.

(** [TrimRight] drops a suffix of cutset bytes and keeps the rest. *)
Lemma TrimRight_spec s cs :
  ∃ t, s = TrimRight s cs +:+ t ∧ all_bytes (ContainsByte cs) t = true.
Proof.
  induction s as [|a s (t & Ht & Hall)]; simpl; [by exists EmptyString|].
  destruct (ContainsByte cs a && all_bytes (ContainsByte cs) s) eqn:E.
  - exists (String a s). done.
  - exists t. rewrite ?app_cons. by rewrite <- Ht.
Qed.

Lemma TrimRight_length s cs : (String.length (TrimRight s cs) ≤ String.length s)%nat.
Proof.
  destruct (TrimRight_spec s cs) as (t & Ht & _). rewrite Ht at 2. rewrite str_length_app. lia.
Qed.

Lemma ContainsByte_TrimRight s cs c : ContainsByte s c = false → ContainsByte (TrimRight s cs) c = false.
Proof.
  destruct (TrimRight_spec s cs) as (t & Ht & _). rewrite Ht at 1. rewrite ContainsByte_app.
  intros. by bsimpl.
Qed.

(** The head part of a string, up to a byte outside the cutset, survives. *)
Lemma TrimRight_keep s a t cs :
  ContainsByte cs a = false → TrimRight (s +:+ String a t) cs = s +:+ String a (TrimRight t cs).
Proof.
  intros Ha. induction s as [|b s IH]; simpl.
  - rewrite !app_nil_l. simpl. by rewrite Ha.
  - rewrite ?app_cons. simpl. rewrite IH.
    rewrite all_bytes_app. simpl. rewrite Ha. by rewrite !andb_false_r.
Qed.

(** Graphic ASCII: no white space, and no lead byte of a white-space rune. *)
Definition is_graph (c : ascii) : bool :=
  ((33 <=? Ascii.N_of_ascii c) && (Ascii.N_of_ascii c <=? 126))%N.

Lemma space_width_graph a s : is_graph a = true → space_width (String a s) = 0%nat.
Proof.
  unfold is_graph. intros H. bsimpl.
  repeat match goal with H : (_ <=? _)%N = true |- _ => apply N.leb_le in H end.
  simpl. unfold is_ascii_space.
  repeat match goal with
  | |- context [(?x <=? ?y)%N] => destruct (N.leb_spec x y); try lia
  | |- context [(?x =? ?y)%N] => destruct (N.eqb_spec x y); try lia
  end; simpl; destruct s as [|b [|c s]]; done.
Qed.

Lemma fields_go_graph cur w rest :
  all_bytes is_graph w = true → fields_go 0 cur (w +:+ rest) = fields_go 0 (cur +:+ w) rest.
Proof.
  revert cur. induction w as [|a w IH]; intros cur H.
  - by rewrite app_nil_l, str_app_nil_r.
  - simpl in H. bsimpl. rewrite ?app_cons. cbn [fields_go].
    rewrite space_width_graph by done. rewrite IH by done. by rewrite str_app_assoc.
Qed.

Definition space : ascii := " "%char.

Lemma Fields_cons w rest :
  all_bytes is_graph w = true → w ≠ EmptyString →
  Fields (w +:+ String space rest) = w :: Fields rest.
Proof.
  intros Hw Hne. unfold Fields. rewrite fields_go_graph by done. rewrite app_nil_l.
  cbn [fields_go]. change (space_width (String space rest)) with 1%nat. cbv iota.
  by destruct (String.eqb_spec w EmptyString).
Qed.

Lemma Fields_single w : all_bytes is_graph w = true → w ≠ EmptyString → Fields w = [w].
Proof.
  intros Hw Hne. unfold Fields. rewrite <- (str_app_nil_r w) at 1.
  rewrite fields_go_graph by done. rewrite app_nil_l. simpl.
  by destruct (String.eqb_spec w EmptyString).
Qed.

(** ** Character classes and the anchored regular expressions of the bridge *)

Definition in_range (lo hi c : ascii) : bool :=
  ((Ascii.N_of_ascii lo <=? Ascii.N_of_ascii c) && (Ascii.N_of_ascii c <=? Ascii.N_of_ascii hi))%N.

(** [[a-z0-9]] and [[._-]]. *)
Definition is_alnum (c : ascii) : bool := in_range "a" "z" c || in_range "0" "9" c.
Definition is_sep (c : ascii) : bool := ContainsByte "._-" c.

(** The matcher of the regular expression [^[a-z0-9]+(?:[._-][a-z0-9]+)*$]:
    [after_sep] says that the next byte must start a segment. *)
Fixpoint match_segments (after_sep : bool) (s : string) : bool :=
  match s with
  | EmptyString => negb after_sep
  | String c s =>
      if is_alnum c then match_segments false s
      else is_sep c && negb after_sep && match_segments true s
  end.

(** The matcher of [^[a-z0-9]([-a-z0-9]*[a-z0-9])?$] (a DNS label): [ends] says
    that the bytes read so far are a match. *)
Fixpoint match_label_rest (ends : bool) (s : string) : bool :=
  match s with
  | EmptyString => ends
  | String c s =>
      if is_alnum c then match_label_rest true s
      else Ascii.eqb c "-" && match_label_rest false s
  end.
Definition match_label (s : string) : bool :=
  match s with
  | EmptyString => false
  | String c s => is_alnum c && match_label_rest true s
  end.

Lemma is_alnum_graph c : is_alnum c = true → is_graph c = true.
Proof.
  unfold is_alnum, in_range, is_graph.
  change (Ascii.N_of_ascii "a") with 97%N. change (Ascii.N_of_ascii "z") with 122%N.
  change (Ascii.N_of_ascii "0") with 48%N. change (Ascii.N_of_ascii "9") with 57%N.
  rewrite orb_true_iff, !andb_true_iff, !N.leb_le. lia.
Qed.

Lemma is_sep_cases c : is_sep c = true → c = "."%char ∨ c = "_"%char ∨ c = "-"%char.
Proof.
  unfold is_sep. cbn [ContainsByte].
  destruct (Ascii.eqb_spec "." c); [auto|]. destruct (Ascii.eqb_spec "_" c); [auto|].
  destruct (Ascii.eqb_spec "-" c); [auto|]. done.
Qed.

Lemma is_alnum_not_sep c : is_alnum c = true → is_sep c = false.
Proof.
  intros H. destruct (is_sep c) eqn:E; [|done].
  by destruct (is_sep_cases c E) as [->|[->| ->]].
Qed.

Lemma is_alnum_ne c d : is_alnum c = true → is_alnum d = false → Ascii.eqb c d = false.
Proof. destruct (Ascii.eqb_spec c d); congruence. Qed.

(** A label consists of alphanumerics and hyphens. *)
Lemma match_label_bytes s :
  match_label s = true → all_bytes (λ c, is_alnum c || Ascii.eqb c "-") s = true.
Proof.
  assert (∀ s b, match_label_rest b s = true → all_bytes (λ c, is_alnum c || Ascii.eqb c "-") s = true)
    as Hrest.
  { clear s. induction s as [|c s IH]; intros b; simpl; [done|].
    destruct (is_alnum c); simpl; [apply IH|]. intros H. bsimpl.
    split; [done | by eapply IH]. }
  destruct s as [|c s]; simpl; [done|]. intros H. bsimpl.
  match goal with H : is_alnum c = true |- _ => rewrite H end. split; [done | by eapply Hrest].
Qed.

Lemma match_label_dot s : match_label s = true → ContainsByte s "." = false.
Proof. intros H%match_label_bytes. revert H. by apply all_bytes_ContainsByte. Qed.

Lemma match_label_graph s : match_label s = true → all_bytes is_graph s = true.
Proof.
  intros H%match_label_bytes. revert H. apply all_bytes_impl. intros c H. bsimpl.
  destruct H as [H|H]; [by apply is_alnum_graph|].
  by apply Ascii.eqb_eq in H as ->.
Qed.

Lemma match_label_ne s : match_label s = true → s ≠ EmptyString.
Proof. by destruct s. Qed.

Lemma match_segments_app b s c t :
  is_sep c = true →
  match_segments b (s +:+ String c t) = match_segments b s && match_segments true t.
Proof.
  intros Hc. revert b. induction s as [|a s IH]; intros b.
  - rewrite app_nil_l. simpl. assert (is_alnum c = false) as ->.
    { destruct (is_alnum c) eqn:E; [|done]. apply is_alnum_not_sep in E. congruence. }
    by rewrite Hc.
  - rewrite ?app_cons. simpl. destruct (is_alnum a); [apply IH|]. by rewrite IH, andb_assoc.
Qed.

Lemma match_segments_ne s : match_segments true s = true → s ≠ EmptyString.
Proof. by destruct s. Qed.

(** ** Trimming white space *)

Lemma space_width_app s t : space_width s ≠ 0%nat → space_width (s +:+ t) = space_width s.
Proof.
  destruct s as [|a [|b [|c s]]]; [done|..]; rewrite ?app_cons, ?app_nil_l; unfold space_width;
    repeat case_step; done.
Qed.

Lemma space_width_le s : (space_width s ≤ String.length s)%nat.
Proof. destruct s as [|a [|b [|c s]]]; unfold space_width; repeat case_step; simpl; lia. Qed.

Lemma all_space_app k x y :
  (k ≤ String.length x)%nat → all_space k x = true → all_space 0 y = true → all_space k (x +:+ y) = true.
Proof.
  revert k. induction x as [|a x IH]; intros k Hk Hx Hy.
  - by assert (k = 0%nat) as -> by (simpl in Hk; lia).
  - rewrite app_cons. destruct k as [|k]; cbn [all_space] in *; [|apply IH; auto; simpl in Hk; lia].
    destruct (space_width (String a x)) as [|j] eqn:E; [done|].
    pose proof (space_width_le (String a x)) as Hle. rewrite E in Hle. simpl in Hle.
    rewrite <- app_cons, space_width_app, E by (rewrite E; done). apply IH; auto; lia.
Qed.

Lemma trim_space_right_spec s : ∃ t, s = trim_space_right s +:+ t ∧ all_space 0 t = true.
Proof.
  induction s as [|a s IH]; [by exists EmptyString|]. cbn [trim_space_right].
  destruct (all_space 0 (String a s)) eqn:E; [by exists (String a s)|].
  destruct IH as (t & Ht & Hsp). exists t. split; [|done]. rewrite app_cons. by f_equal.
Qed.

Lemma trim_space_right_idem s : trim_space_right (trim_space_right s) = trim_space_right s.
Proof.
  induction s as [|a s IH]; [done|]. cbn [trim_space_right].
  destruct (all_space 0 (String a s)) eqn:E; [done|]. cbn [trim_space_right].
  destruct (all_space 0 (String a (trim_space_right s))) eqn:E'; [|by rewrite IH].
  destruct (trim_space_right_spec s) as (t & Ht & Hsp). rewrite Ht, <- app_cons in E.
  rewrite all_space_app in E; [done|simpl; lia|done..].
Qed.

Lemma trim_space_left_spec k s :
  ∃ t, s = t +:+ trim_space_left k s ∧
    (trim_space_left k s = EmptyString ∨ space_width (trim_space_left k s) = 0%nat).
Proof.
  revert k. induction s as [|a s IH]; intros k; [exists EmptyString; auto|]. cbn [trim_space_left].
  assert (∀ j, ∃ t, String a s = t +:+ trim_space_left j s ∧
    (trim_space_left j s = EmptyString ∨ space_width (trim_space_left j s) = 0%nat)) as Hj.
  { intros j. destruct (IH j) as (t & Ht & H). exists (String a t). rewrite app_cons, <- Ht. auto. }
  destruct k as [|k]; [|apply Hj].
  destruct (space_width (String a s)) eqn:E; [|apply Hj]. exists EmptyString. auto.
Qed.

Lemma TrimSpace_sub s : ∃ t u, s = t +:+ TrimSpace s +:+ u.
Proof.
  unfold TrimSpace. destruct (trim_space_left_spec 0 s) as (t & Ht & _).
  destruct (trim_space_right_spec (trim_space_left 0 s)) as (u & Hu & _).
  exists t, u. by rewrite <- Hu.
Qed.

Lemma ContainsByte_TrimSpace s c : ContainsByte s c = false → ContainsByte (TrimSpace s) c = false.
Proof.
  destruct (TrimSpace_sub s) as (t & u & Hs). rewrite Hs at 1.
  rewrite !ContainsByte_app, !orb_false_iff. tauto.
Qed.

Lemma TrimSpace_idem s : TrimSpace (TrimSpace s) = TrimSpace s.
Proof.
  unfold TrimSpace. set (l := trim_space_left 0 s).
  assert (trim_space_left 0 (trim_space_right l) = trim_space_right l) as ->; [|apply trim_space_right_idem].
  destruct (trim_space_right l) as [|a r] eqn:E; [done|]. cbn [trim_space_left].
  destruct (space_width (String a r)) as [|j] eqn:Ew; [done|].
  destruct (trim_space_right_spec l) as (t & Ht & _). rewrite E in Ht.
  destruct (trim_space_left_spec 0 s) as (_ & _ & [H|H]); fold l in H; rewrite Ht in H; [done|].
  rewrite space_width_app, Ew in H by (by rewrite Ew). done.
Qed.

(** ** Suffixes *)

Lemma str_rev_app_acc s t : String.rev_app s t = String.rev s +:+ t.
Proof.
  unfold String.rev. revert t. induction s as [|a s IH]; intros t; [done|]. cbn [String.rev_app].
  rewrite IH, (IH (String a EmptyString)). by rewrite str_app_assoc.
Qed.

Lemma str_rev_cons a s : String.rev (String a s) = String.rev s +:+ String a EmptyString.
Proof. unfold String.rev at 1. cbn [String.rev_app]. apply str_rev_app_acc. Qed.

Lemma str_rev_app s t : String.rev (s +:+ t) = String.rev t +:+ String.rev s.
Proof.
  induction s as [|a s IH]; [by rewrite app_nil_l, str_app_nil_r|].
  by rewrite app_cons, !str_rev_cons, IH, str_app_assoc.
Qed.

Lemma str_rev_involutive s : String.rev (String.rev s) = s.
Proof. induction s as [|a s IH]; [done|]. by rewrite str_rev_cons, str_rev_app, IH. Qed.

Lemma CutSuffix_Some s p u : CutSuffix s p = Some u ↔ s = u +:+ p.
Proof.
  unfold CutSuffix. rewrite fmap_Some. split.
  - intros (x & Hx & ->). apply CutPrefix_Some in Hx.
    apply (f_equal String.rev) in Hx. by rewrite str_rev_app, !str_rev_involutive in Hx.
  - intros ->. exists (String.rev u). split; [|by rewrite str_rev_involutive].
    apply CutPrefix_Some. by rewrite str_rev_app.
Qed.

Lemma CutSuffix_app u p : CutSuffix (u +:+ p) p = Some u.
Proof. by apply CutSuffix_Some. Qed.

Lemma HasSuffix_spec s p : HasSuffix s p = true ↔ ∃ u, s = u +:+ p.
Proof.
  unfold HasSuffix. rewrite HasPrefix_spec. split; intros [u Hu].
  - exists (String.rev u). apply (f_equal String.rev) in Hu. by rewrite str_rev_app, !str_rev_involutive in Hu.
  - exists (String.rev u). by rewrite Hu, str_rev_app.
Qed.

Lemma HasSuffix_app u p : HasSuffix (u +:+ p) p = true.
Proof. apply HasSuffix_spec. by exists u. Qed.

Lemma str_app_inv_tail s t u : s +:+ u = t +:+ u → s = t.
Proof. intros E. apply (f_equal (λ x, CutSuffix x u)) in E. rewrite !CutSuffix_app in E. congruence. Qed.

(** The text after the last [c]: [raw[bytes.LastIndexByte(raw, c)+1:]]. *)
Fixpoint after_last (c : ascii) (s : string) : option string :=
  match s with
  | EmptyString => None
  | String d s => match after_last c s with
                  | Some r => Some r
                  | None => if Ascii.eqb d c then Some s else None
                  end
  end.
