(* ===== verification/GoStd.v ===== *)
(** * Hashes and integers of Go's standard library

    [crypto/sha256] with [encoding/hex], [hash/fnv] (32-bit FNV-1a) and the
    decimal conversions of [strconv], executable. Words are integers kept at
    their width with [land]. *)

From S2P Require Import Prelude GoStrings.

(** ** Bytes *)

Definition byte_val (c : ascii) : Z := Z.of_N (Ascii.N_of_ascii c).

Fixpoint bytes_of (s : string) : list Z :=
  match s with
  | EmptyString => []
  | String c s => byte_val c :: bytes_of s
  end.

(** ** SHA-256 (FIPS 180-4) *)

Module Sha256.
Definition w32 (x : Z) : Z := Z.land x 0xffffffff.
Definition add32 (x y : Z) : Z := w32 (x + y).
Definition rotr (n x : Z) : Z := Z.lor (Z.shiftr x n) (w32 (Z.shiftl x (32 - n))).

(** The largest root whose [k]-th power is at most [x], by its bits from [n] down. *)
Fixpoint int_root (k : Z) (n : nat) (x acc : Z) : Z :=
  let acc := if (acc + 2 ^ Z.of_nat n) ^ k <=? x then acc + 2 ^ Z.of_nat n else acc in
  match n with O => acc | S n => int_root k n x acc end.

Definition primes (count : nat) : list Z :=
  take count (filter (λ p, forallb (λ d, negb (p mod d =? 0)) (seqZ 2 (p - 2)) = true) (seqZ 2 400)).

(** The first 32 bits of the fractional parts of the cube roots of the first 64 primes
    and of the square roots of the first 8. *)
Definition K : list Z := Eval vm_compute in (λ p, w32 (int_root 3 40 (p * 2 ^ 96) 0)) <$> primes 64.
Definition H0 : list Z := Eval vm_compute in (λ p, w32 (int_root 2 40 (p * 2 ^ 64) 0)) <$> primes 8.

Definition nthZ (l : list Z) (i : nat) : Z := nth i l 0.

Fixpoint be_word (bytes : list Z) (n : nat) (acc : Z) : Z :=
  match n, bytes with
  | S n, b :: bytes => be_word bytes n (acc * 256 + b)
  | _, _ => acc
  end.

Fixpoint words (n : nat) (bytes : list Z) : list Z :=
  match n with
  | O => []
  | S n => be_word bytes 4 0 :: words n (drop 4 bytes)
  end.

(** The message schedule, latest word first. *)
Fixpoint schedule (n : nat) (w : list Z) : list Z :=
  match n with
  | O => w
  | S n =>
      let w15 := nthZ w 14 in let w2 := nthZ w 1 in
      let s0 := Z.lxor (Z.lxor (rotr 7 w15) (rotr 18 w15)) (Z.shiftr w15 3) in
      let s1 := Z.lxor (Z.lxor (rotr 17 w2) (rotr 19 w2)) (Z.shiftr w2 10) in
      schedule n (w32 (nthZ w 15 + s0 + nthZ w 6 + s1) :: w)
  end.

Definition round (st : list Z) (kw : Z * Z) : list Z :=
  match st with
  | [a; b; c; d; e; f; g; h] =>
      let s1 := Z.lxor (Z.lxor (rotr 6 e) (rotr 11 e)) (rotr 25 e) in
      let ch := Z.lxor (Z.land e f) (Z.land (Z.lxor e 0xffffffff) g) in
      let t1 := w32 (h + s1 + ch + fst kw + snd kw) in
      let s0 := Z.lxor (Z.lxor (rotr 2 a) (rotr 13 a)) (rotr 22 a) in
      let maj := Z.lxor (Z.lxor (Z.land a b) (Z.land a c)) (Z.land b c) in
      [add32 t1 (w32 (s0 + maj)); a; b; c; add32 d t1; e; f; g]
  | _ => st
  end.

Definition compress (st : list Z) (block : list Z) : list Z :=
  let w := rev (schedule 48 (rev (words 16 block))) in
  zip_with add32 st (foldl round st (zip K w)).

Fixpoint blocks (n : nat) (st : list Z) (bytes : list Z) : list Z :=
  match n with
  | O => st
  | S n => blocks n (compress st (take 64 bytes)) (drop 64 bytes)
  end.

Definition be_bytes (n : nat) (x : Z) : list Z :=
  map (λ i, Z.land (Z.shiftr x (8 * Z.of_nat (n - 1 - i))) 255) (seq 0 n).

Definition pad (msg : list Z) : list Z :=
  let len := length msg in
  let zeros := ((119 - len mod 64) mod 64)%nat in
  msg ++ [0x80] ++ replicate zeros 0 ++ be_bytes 8 (8 * Z.of_nat len).

(** [sha256.Sum256]. *)
Definition Sum256 (msg : list Z) : list Z :=
  let m := pad msg in
  mjoin (be_bytes 4 <$> blocks (length m / 64) H0 m).
End Sha256.

(** ** Hexadecimal *)

Definition hex_digit (x : Z) : ascii :=
  nth (Z.to_nat (Z.land x 15)) (String.list_ascii_of_string "0123456789abcdef") "0"%char.

(** [hex.EncodeToString]. *)
Fixpoint EncodeToString (l : list Z) : string :=
  match l with
  | [] => EmptyString
  | b :: l => String (hex_digit (Z.shiftr b 4)) (String (hex_digit b) (EncodeToString l))
  end.

Definition sha256_hex (s : string) : string := EncodeToString (Sha256.Sum256 (bytes_of s)).

(** The vectors of FIPS 180-4 for the empty message, "abc" and two blocks. *)
Example sha256_empty : sha256_hex "" =
  "e3b0c44298fc1c149afbf4c8996fb92427ae41e4649b934ca495991b7852b855".
Proof. vm_compute. reflexivity. Qed.
Example sha256_abc : sha256_hex "abc" =
  "ba7816bf8f01cfea414140de5dae2223b00361a396177a9cb410ff61f20015ad".
Proof. vm_compute. reflexivity. Qed.
Example sha256_two_blocks :
  sha256_hex "abcdbcdecdefdefgefghfghighijhijkijkljklmklmnlmnomnopnopq" =
  "248d6a61d20638b8e5c026930c3e6039a33ce45964ff2167f6ecedd419db06c1".
Proof. vm_compute. reflexivity. Qed.

Lemma hex_digit_alnum x : is_alnum (hex_digit x) = true.
Proof.
  unfold hex_digit.
  assert (0 ≤ Z.land x 15 < 16) as [H1 H2].
  { change 15 with (Z.ones 4). rewrite Z.land_ones by lia. apply Z.mod_pos_bound. lia. }
  remember (Z.to_nat (Z.land x 15)) as i eqn:E.
  assert (i < 16)%nat as Hi by lia. clear -Hi.
  do 16 (destruct i as [|i]; [reflexivity|]). lia.
Qed.

Lemma EncodeToString_alnum l : all_bytes is_alnum (EncodeToString l) = true.
Proof. induction l as [|b l IH]; [done|]. cbn [EncodeToString all_bytes]. by rewrite !hex_digit_alnum, IH. Qed.

Lemma EncodeToString_length l : String.length (EncodeToString l) = (2 * length l)%nat.
Proof. induction l as [|b l IH]; [done|]. cbn [EncodeToString String.length length]. rewrite IH. lia. Qed.

Module Sha256Facts.
Import Sha256.

Lemma compress_length st b : length st = 8%nat → length (compress st b) = 8%nat.
Proof.
  intros Hst. unfold compress. rewrite length_zip_with, Hst.
  assert (∀ l s, length s = 8%nat → length (foldl round s l) = 8%nat) as H.
  { induction l as [|kw l IH]; intros s Hs; [done|]. simpl. apply IH.
    do 8 (destruct s as [|? s]; [done|]). by destruct s. }
  by rewrite H.
Qed.

Lemma blocks_length n st b : length st = 8%nat → length (blocks n st b) = 8%nat.
Proof. revert st b. induction n as [|n IH]; intros st b H; [done|]. by apply IH, compress_length. Qed.

Lemma Sum256_length m : length (Sum256 m) = 32%nat.
Proof.
  unfold Sum256. set (l := blocks _ _ _).
  assert (length l = 8%nat) as Hl by by apply blocks_length. clearbody l.
  do 8 (destruct l as [|? l]; [done|]). by destruct l.
Qed.
End Sha256Facts.

Lemma sha256_hex_length s : String.length (sha256_hex s) = 64%nat.
Proof. unfold sha256_hex. by rewrite EncodeToString_length, Sha256Facts.Sum256_length. Qed.

(** ** FNV-1a, 32 bit *)

Definition fnv32a (s : string) : Z :=
  foldl (λ h b, (Z.lxor h b * 16777619) mod 2 ^ 32) 2166136261 (bytes_of s).

Example fnv32a_foobar : fnv32a "foobar" = 0xbf9cf968.
Proof. reflexivity. Qed.

Lemma fnv32a_range s : 0 ≤ fnv32a s < 2 ^ 32.
Proof.
  unfold fnv32a. assert (∀ l h, 0 ≤ h < 2 ^ 32 →
    0 ≤ foldl (λ h b, (Z.lxor h b * 16777619) mod 2 ^ 32) h l < 2 ^ 32) as H.
  { induction l as [|b l IH]; intros h Hh; [done|]. apply IH. apply Z.mod_pos_bound. lia. }
  apply H. lia.
Qed.

(** ** Package strconv: decimal integers *)

Definition digit (d : Z) : ascii := Ascii.ascii_of_N (Z.to_N (48 + d)).

Definition digit_val (c : ascii) : option Z :=
  let v := byte_val c - 48 in if (0 <=? v) && (v <=? 9) then Some v else None.

(** The last [fuel] decimal digits of [n] in front of [acc], without leading
    zeros. *)
Fixpoint format_go (fuel : nat) (n : Z) (acc : string) : string :=
  match fuel with
  | O => acc
  | S fuel =>
      let acc := String (digit (n mod 10)) acc in
      if n / 10 =? 0 then acc else format_go fuel (n / 10) acc
  end.

(** [strconv.FormatInt(i, 10)]; an int64 has at most 19 digits. *)
Definition FormatInt (i : Z) : string :=
  if i <? 0 then String "-" (format_go 20 (- i) EmptyString) else format_go 20 i EmptyString.

Fixpoint parse_digits (s : string) (acc : Z) : option Z :=
  match s with
  | EmptyString => Some acc
  | String c s => match digit_val c with Some d => parse_digits s (acc * 10 + d) | None => None end
  end.

Definition int64_min : Z := - 2 ^ 63.
Definition int64_max : Z := 2 ^ 63 - 1.

(** [strconv.ParseInt(s, 10, 64)]: an optional sign, at least one digit, in the
    range of int64. *)
Definition ParseInt (s : string) : option Z :=
  let '(neg, ds) := match s with
                    | String "+" ds => (false, ds)
                    | String "-" ds => (true, ds)
                    | _ => (false, s)
                    end in
  match ds with
  | EmptyString => None
  | _ => match parse_digits ds 0 with
         | Some n => let v := if (neg : bool) then - n else n in
                     if (int64_min <=? v) && (v <=? int64_max) then Some v else None
         | None => None
         end
  end.

Lemma digit_val_digit d : 0 ≤ d ≤ 9 → digit_val (digit d) = Some d.
Proof.
  intros H. unfold digit_val, digit, byte_val.
  rewrite Ascii.N_ascii_embedding by lia. rewrite Z2N.id by lia.
  replace (48 + d - 48) with d by lia.
  destruct (Z.leb_spec 0 d); [|lia]. destruct (Z.leb_spec d 9); [done|lia].
Qed.

Lemma parse_digits_format fuel n acc k :
  0 ≤ n < 10 ^ Z.of_nat fuel →
  ∃ m, parse_digits (format_go fuel n acc) k = parse_digits acc (k * 10 ^ m + n) ∧ 0 ≤ m.
Proof.
  revert n acc. induction fuel as [|fuel IH]; intros n acc Hn.
  - simpl in Hn. exists 0. simpl. split; [f_equal; lia|lia].
  - cbn [format_go].
    pose proof (Z.mod_pos_bound n 10 ltac:(lia)) as Hm.
    pose proof (Z.div_mod n 10 ltac:(lia)) as Hdm.
    assert (0 ≤ n / 10) by (apply Z.div_pos; lia).
    destruct (Z.eqb_spec (n / 10) 0) as [E|E].
    + exists 1. cbn [parse_digits]. rewrite digit_val_digit by lia. split; [f_equal; lia|lia].
    + rewrite Nat2Z.inj_succ, Z.pow_succ_r in Hn by lia.
      destruct (IH (n / 10) (String (digit (n mod 10)) acc)) as (m & -> & Hm0).
      { split; [done|]. apply Z.div_lt_upper_bound; lia. }
      exists (m + 1). cbn [parse_digits]. rewrite digit_val_digit by lia.
      split; [|lia]. f_equal. rewrite Z.pow_add_r by lia. lia.
Qed.

Lemma format_go_head fuel n acc :
  (0 < fuel)%nat → 0 ≤ n → ∃ d t, format_go fuel n acc = String (digit d) t ∧ 0 ≤ d ≤ 9.
Proof.
  revert n acc. induction fuel as [|fuel IH]; intros n acc Hf Hn; [lia|]. cbn [format_go].
  pose proof (Z.mod_pos_bound n 10 ltac:(lia)) as Hm.
  destruct (n / 10 =? 0); [eexists _, _; split; [done|lia]|].
  destruct fuel as [|fuel]; [simpl; eexists _, _; split; [done|lia]|].
  apply IH; [lia|]. apply Z.div_pos; lia.
Qed.

Lemma parse_digits_FormatInt n :
  0 ≤ n < 10 ^ 20 → parse_digits (format_go 20 n EmptyString) 0 = Some n.
Proof.
  intros H. destruct (parse_digits_format 20 n EmptyString 0) as (m & -> & _); [done|].
  simpl. by f_equal.
Qed.

Lemma ParseInt_FormatInt i : int64_min ≤ i ≤ int64_max → ParseInt (FormatInt i) = Some i.
Proof.
  intros Hi. unfold FormatInt, ParseInt.
  assert (int64_min = - 9223372036854775808) as Hmin by done.
  assert (int64_max = 9223372036854775807) as Hmax by done.
  assert (((int64_min <=? i) && (i <=? int64_max)) = true) as Hb by lia.
  destruct (Z.ltb_spec i 0) as [Hneg|Hpos].
  - destruct (format_go_head 20 (- i) EmptyString) as (d & t & E & _); [lia..|].
    rewrite E. cbv iota beta. rewrite <- E. rewrite parse_digits_FormatInt by lia.
    by rewrite Z.opp_involutive, Hb.
  - destruct (format_go_head 20 i EmptyString) as (d & t & E & Hd); [lia..|].
    pose proof (parse_digits_FormatInt i ltac:(lia)) as Hp. rewrite E in Hp |- *.
    assert (digit d ≠ "+"%char ∧ digit d ≠ "-"%char) as [H1 H2].
    { pose proof (digit_val_digit d Hd). by split; intros Eq; rewrite Eq in *. }
    destruct (digit d) as [[] [] [] [] [] [] [] []];
      try (exfalso; by apply H1); try (exfalso; by apply H2); cbv iota beta; by rewrite Hp, Hb.
Qed.
