(* ===== verification/GoTime.v ===== *)
(** * Package time

    An instant ([time.Time]) is the number of nanoseconds since
    0001-01-01T00:00:00Z, Go's zero time, as an unbounded integer: a [Time] holds
    64-bit seconds, so no instant the bridge handles overflows. A [Duration] is a
    64-bit number of nanoseconds; [Sub] saturates as Go's does. The file models
    the RFC 3339 layout, both directions. *)

From S2P Require Import Prelude GoStrings GoStd.

(** [lia] reasons about divisions by constants in this file. *)
#[local] Ltac Zify.zify_post_hook ::= Z.to_euclidean_division_equations.

Definition Time := Z.
Definition Duration := Z.

Definition Second : Duration := 1000000000.
Definition Minute : Duration := 60 * Second.
Definition Hour : Duration := 60 * Minute.

Definition zero_time : Time := 0.
Definition IsZero (t : Time) : bool := t =? zero_time.

Definition sat64 (d : Z) : Duration := Z.max int64_min (Z.min int64_max d).

Definition Add (t : Time) (d : Duration) : Time := t + d.
Definition Sub (t u : Time) : Duration := sat64 (t - u).
Definition Before (t u : Time) : bool := t <? u.
Definition After (t u : Time) : bool := u <? t.

(** [t.Truncate(d)]: down to a multiple of [d] since the zero time. *)
Definition TruncateTime (t : Time) (d : Duration) : Time := t - t mod d.
(** [d.Truncate(m)] of a duration: toward zero to a multiple of [m]. *)
Definition TruncateDur (d m : Duration) : Duration := d - Z.rem d m.

Lemma sat64_id d : int64_min ≤ d ≤ int64_max → sat64 d = d.
Proof. unfold sat64. lia. Qed.

(** ** The proleptic Gregorian calendar *)

Definition is_leap (y : Z) : bool :=
  (y mod 4 =? 0) && (negb (y mod 100 =? 0) || (y mod 400 =? 0)).

Definition month_lengths (leap : bool) : list Z :=
  [31; if leap then 29 else 28; 31; 30; 31; 30; 31; 31; 30; 31; 30; 31].

(** Days from 0001-01-01 to January 1st of year [y]. *)
Definition days_before_year (y : Z) : Z :=
  let p := y - 1 in 365 * p + p / 4 - p / 100 + p / 400.

Definition days_in (y m : Z) : Z := nth (Z.to_nat (m - 1)) (month_lengths (is_leap y)) 0.
Definition days_before_month (y m : Z) : Z :=
  foldr Z.add 0 (take (Z.to_nat (m - 1)) (month_lengths (is_leap y))).

(** Days from 0001-01-01 to the date. *)
Definition days_of_date (y m d : Z) : Z := days_before_year y + days_before_month y m + (d - 1).

(** The year and day of the year of a day number. *)
Definition year_of_days (n : Z) : Z * Z :=
  let n400 := n / 146097 in let r := n mod 146097 in
  let n100 := Z.min 3 (r / 36524) in let r := r - 36524 * n100 in
  let n4 := r / 1461 in let r := r mod 1461 in
  let n1 := Z.min 3 (r / 365) in
  (400 * n400 + 100 * n100 + 4 * n4 + n1 + 1, r - 365 * n1).

(** The month and day of a day of the year; [m] is the number of months passed. *)
Fixpoint month_of_yday (lens : list Z) (m yday : Z) : Z * Z :=
  match lens with
  | [] => (m, yday + 1)
  | l :: lens => if yday <? l then (m + 1, yday + 1) else month_of_yday lens (m + 1) (yday - l)
  end.

Definition date_of_days (n : Z) : Z * Z * Z :=
  let '(y, yd) := year_of_days n in
  let '(m, d) := month_of_yday (month_lengths (is_leap y)) 0 yd in (y, m, d).

(** ** Layout RFC 3339 *)

Definition two_digits (n : Z) : string :=
  String (digit (n / 10)) (String (digit (n mod 10)) EmptyString).

Definition pad4 (n : Z) : string :=
  if n <? 10000 then two_digits (n / 100) +:+ two_digits (n mod 100) else format_go 20 n EmptyString.

(** [t.Format(time.RFC3339)] of an instant in UTC: whole seconds, zone "Z". *)
Definition FormatRFC3339 (t : Time) : string :=
  let secs := t / Second in
  let '(y, m, d) := date_of_days (secs / 86400) in
  let s := secs mod 86400 in
  (if y <? 0 then String "-" (pad4 (- y)) else pad4 y)
  +:+ "-" +:+ two_digits m +:+ "-" +:+ two_digits d
  +:+ "T" +:+ two_digits (s / 3600) +:+ ":" +:+ two_digits (s / 60 mod 60) +:+ ":"
  +:+ two_digits (s mod 60) +:+ "Z".

Definition head_digit (s : string) : option (Z * string) :=
  match s with
  | String c s => v ← digit_val c; Some (v, s)
  | EmptyString => None
  end.

(** Package time's [getnum]: two digits, or one unless [fixed]. *)
Definition getnum (s : string) (fixed : bool) : option (Z * string) :=
  '(a, s1) ← head_digit s;
  match head_digit s1 with
  | Some (b, s2) => Some (a * 10 + b, s2)
  | None => if fixed then None else Some (a, s1)
  end.

Definition getnum_below (s : string) (fixed : bool) (bound : Z) : option (Z * string) :=
  '(n, s) ← getnum s fixed;
  if n <? bound then Some (n, s) else None.

(** The fraction of a second after the seconds field, when there is one: a '.' or
    ',' followed by digits, of which nine count. *)
Fixpoint fraction (s : string) (scale : Z) (acc : Z) : Z * string :=
  match s with
  | String c s' =>
      match digit_val c with
      | Some v => fraction s' (scale / 10) (acc + v * scale)
      | None => (acc, s)
      end
  | EmptyString => (acc, s)
  end.

Definition opt_fraction (s : string) : Z * string :=
  match s with
  | String c s' =>
      if (Ascii.eqb c "." || Ascii.eqb c ",") && bool_decide (is_Some (head_digit s'))
      then fraction s' 100000000 0 else (0, s)
  | EmptyString => (0, s)
  end.

(** The zone: "Z", or a sign and hh:mm; the offset in seconds. *)
Definition zone (s : string) : option (Z * string) :=
  match s with
  | String "Z" s => Some (0, s)
  | String c s1 =>
      sign ← (if Ascii.eqb c "+" then Some 1 else if Ascii.eqb c "-" then Some (-1) else None);
      '(hh, s2) ← getnum_below s1 true 25;
      s3 ← CutPrefix s2 ":";
      '(mm, s4) ← getnum_below s3 true 61;
      Some (sign * (hh * 60 + mm) * 60, s4)
  | EmptyString => None
  end.

Definition four_digits (s : string) : option (Z * string) :=
  '(a, s) ← getnum s true; '(b, s) ← getnum s true; Some (a * 100 + b, s).

(** [time.Parse(time.RFC3339, s)]; the hour may have one digit, as the layout's
    "15" allows. *)
Definition ParseRFC3339 (s : string) : option Time :=
  '(y, s) ← four_digits s;
  s ← CutPrefix s "-";
  '(m, s) ← getnum_below s true 13;
  s ← CutPrefix s "-";
  '(d, s) ← getnum s true;
  s ← CutPrefix s "T";
  '(hh, s) ← getnum_below s false 24;
  s ← CutPrefix s ":";
  '(mi, s) ← getnum_below s true 60;
  s ← CutPrefix s ":";
  '(ss, s) ← getnum_below s true 60;
  let '(ns, s) := opt_fraction s in
  '(off, s) ← zone s;
  if String.eqb s EmptyString && (1 <=? m) && (1 <=? d) && (d <=? days_in y m)
  then Some ((days_of_date y m d * 86400 + hh * 3600 + mi * 60 + ss - off) * Second + ns)
  else None.

Example format_example : FormatRFC3339 (63925000000 * Second) = "2026-09-14T16:26:40Z".
Proof. reflexivity. Qed.
Example parse_example : ParseRFC3339 "2026-09-14T18:26:40.5+02:00" = Some (63925000000 * Second + 500000000).
Proof. reflexivity. Qed.

(** ** Round trip *)

Lemma getnum_two_digits n s fixed : 0 ≤ n < 100 → getnum (two_digits n +:+ s) fixed = Some (n, s).
Proof.
  intros Hn. unfold two_digits. rewrite !app_cons, app_nil_l. unfold getnum, head_digit.
  pose proof (Z.mod_pos_bound n 10 ltac:(lia)). pose proof (Z.div_mod n 10 ltac:(lia)).
  assert (0 ≤ n / 10 ≤ 9) by (split; [apply Z.div_pos; lia|]; apply Z.lt_succ_r, Z.div_lt_upper_bound; lia).
  do 2 (rewrite digit_val_digit by lia; cbn [mbind option_bind]). do 2 f_equal. lia.
Qed.

Lemma getnum_below_two_digits n s fixed b :
  0 ≤ n < b → b ≤ 100 → getnum_below (two_digits n +:+ s) fixed b = Some (n, s).
Proof.
  intros Hn Hb. unfold getnum_below. rewrite getnum_two_digits by lia. simpl.
  destruct (Z.ltb_spec n b); [done|lia].
Qed.

Lemma four_digits_pad4 n s : 0 ≤ n < 10000 → four_digits (pad4 n +:+ s) = Some (n, s).
Proof.
  intros Hn. unfold pad4. destruct (Z.ltb_spec n 10000); [|lia].
  unfold four_digits. rewrite str_app_assoc.
  pose proof (Z.mod_pos_bound n 100 ltac:(lia)). pose proof (Z.div_mod n 100 ltac:(lia)).
  assert (0 ≤ n / 100 < 100) by (split; [apply Z.div_pos; lia|]; apply Z.div_lt_upper_bound; lia).
  rewrite getnum_two_digits by lia. cbn [mbind option_bind]. rewrite getnum_two_digits by lia.
  cbn [mbind option_bind]. do 2 f_equal. lia.
Qed.

(** The year's first day plus the day of the year is the day number. *)
Lemma year_of_days_spec n y yd :
  0 ≤ n → year_of_days n = (y, yd) →
  days_before_year y + yd = n ∧ 1 ≤ y ∧ 0 ≤ yd < (if is_leap y then 366 else 365).
Proof.
  intros Hn. unfold year_of_days.
  set (a := n / 146097). set (r := n mod 146097).
  set (b := Z.min 3 (r / 36524)). set (r2 := r - 36524 * b).
  set (c := r2 / 1461). set (r3 := r2 mod 1461). set (e := Z.min 3 (r3 / 365)).
  intros [= <- <-].
  assert (0 ≤ a) by (apply Z.div_pos; lia).
  assert (n = 146097 * a + r ∧ 0 ≤ r < 146097) as [En Hr] by (unfold a, r; lia).
  assert (0 ≤ b ≤ 3 ∧ 0 ≤ r2 ∧ (b < 3 → r2 < 36524) ∧ r2 ≤ 36524) as (Hb & Hr2 & Hr2' & Hr2'')
    by (unfold r2, b in *; lia).
  assert (r2 = 1461 * c + r3 ∧ 0 ≤ r3 < 1461 ∧ 0 ≤ c ≤ 24) as (Er2 & Hr3 & Hc) by (unfold c, r3 in *; lia).
  assert (0 ≤ e ≤ 3 ∧ 0 ≤ r3 - 365 * e ∧ (e < 3 → r3 - 365 * e < 365) ∧ r3 - 365 * e ≤ 365)
    as (He & Hy0 & Hy1 & Hy2) by (unfold e in *; lia).
  assert (r = 36524 * b + r2) as Er by (unfold r2; lia).
  clearbody a r b r2 c r3 e. subst n r r2.
  assert (days_before_year (400 * a + 100 * b + 4 * c + e + 1)
          = 146097 * a + 36524 * b + 1461 * c + 365 * e) as ->.
  { unfold days_before_year.
    replace (400 * a + 100 * b + 4 * c + e + 1 - 1) with (400 * a + 100 * b + 4 * c + e) by lia.
    assert ((400 * a + 100 * b + 4 * c + e) / 4 = 100 * a + 25 * b + c) as -> by lia.
    assert ((400 * a + 100 * b + 4 * c + e) / 100 = 4 * a + b) as -> by lia.
    assert ((400 * a + 100 * b + 4 * c + e) / 400 = a) as -> by lia. lia. }
  split; [lia|]. split; [lia|]. split; [lia|].
  destruct (is_leap _) eqn:El; [lia|].
  destruct (Z.eq_dec e 3) as [->|]; [|lia].
  assert (r3 - 365 * 3 < 365 ∨ r3 = 1460) as [|E3] by lia; [lia|exfalso].
  unfold is_leap in El.
  assert ((400 * a + 100 * b + 4 * c + 3 + 1) mod 4 = 0) as E4 by lia. rewrite E4 in El. simpl in El.
  apply orb_false_iff in El as [El1 El2]. apply negb_false_iff, Z.eqb_eq in El1.
  apply Z.eqb_neq in El2. lia.
Qed.

Lemma month_of_yday_spec lens m yd m' d :
  0 ≤ yd < foldr Z.add 0 lens → month_of_yday lens m yd = (m', d) →
  ∃ i l, lens !! i = Some l ∧ m' = m + Z.of_nat i + 1 ∧
    yd = foldr Z.add 0 (take i lens) + (d - 1) ∧ 1 ≤ d ≤ l.
Proof.
  revert m yd. induction lens as [|l lens IH]; intros m yd Hyd; simpl in *; [lia|].
  destruct (Z.ltb_spec yd l).
  - intros [= <- <-]. exists O, l. simpl. split_and!; [done|lia..].
  - intros E. destruct (IH (m + 1) (yd - l)) as (i & l' & Hi & -> & E' & Hd); [lia|done|].
    exists (S i), l'. simpl. split_and!; [done|lia..].
Qed.

Lemma date_of_days_spec n y m d :
  0 ≤ n → date_of_days n = (y, m, d) →
  days_of_date y m d = n ∧ 1 ≤ y ∧ 1 ≤ m ≤ 12 ∧ 1 ≤ d ≤ days_in y m.
Proof.
  intros Hn. unfold date_of_days. destruct (year_of_days n) as [y' yd] eqn:Ey.
  destruct (month_of_yday _ 0 yd) as [m' d'] eqn:Em. intros [= -> -> ->].
  apply year_of_days_spec in Ey as (E & Hy & Hyd); [|done].
  apply month_of_yday_spec in Em as (i & l & Hi & -> & E' & Hd); [|by destruct (is_leap y)].
  assert (i < 12)%nat as Hi12.
  { apply lookup_lt_Some in Hi. by destruct (is_leap y). }
  unfold days_of_date, days_before_month, days_in.
  replace (Z.to_nat (0 + Z.of_nat i + 1 - 1)) with i by lia.
  rewrite (nth_lookup_Some _ _ _ _ Hi). split_and!; lia.
Qed.

Lemma days_in_le y m : days_in y m ≤ 31.
Proof.
  unfold days_in. generalize (Z.to_nat (m - 1)). intros i.
  do 12 (destruct i as [|i]; [destruct (is_leap y); simpl; lia|]). simpl. destruct i; lia.
Qed.

Ltac step_cut := cbn [mbind option_bind]; rewrite CutPrefix_app; cbn [mbind option_bind].

(** Every instant of the years 1 to 9999 reads back truncated to the second. *)
Lemma ParseRFC3339_Format t y m d :
  0 ≤ t → date_of_days (t / Second / 86400) = (y, m, d) → y ≤ 9999 →
  ParseRFC3339 (FormatRFC3339 t) = Some (TruncateTime t Second).
Proof.
  intros Ht Ed Hy9. unfold FormatRFC3339. rewrite Ed.
  assert (0 ≤ t / Second) by (apply Z.div_pos; [done|unfold Second; lia]).
  set (secs := t / Second) in *.
  destruct (date_of_days_spec (secs / 86400) y m d) as (En & Hy & Hm & Hd);
    [apply Z.div_pos; lia|done|].
  pose proof (days_in_le y m).
  pose proof (Z.mod_pos_bound secs 86400 ltac:(lia)) as Hs.
  set (s := secs mod 86400) in *.
  assert (secs = 86400 * (secs / 86400) + s) as Esecs by (unfold s; lia).
  destruct (Z.ltb_spec y 0); [lia|].
  unfold ParseRFC3339.
  rewrite ?str_app_assoc.
  rewrite four_digits_pad4 by lia. step_cut.
  rewrite getnum_below_two_digits by lia. step_cut.
  rewrite getnum_two_digits by lia. step_cut.
  do 2 (rewrite getnum_below_two_digits by lia; step_cut).
  rewrite getnum_below_two_digits by lia. cbn [mbind option_bind opt_fraction zone Ascii.eqb orb andb].
  destruct (Z.leb_spec 1 m); [|lia]. destruct (Z.leb_spec 1 d); [|lia].
  destruct (Z.leb_spec d (days_in y m)); [|lia]. simpl. f_equal.
  unfold TruncateTime. rewrite En. fold secs.
  assert (t = Second * secs + t mod Second) as Et by (apply Z.div_mod; unfold Second; lia).
  clearbody s secs. unfold Second in *. lia.
Qed.

Lemma date_of_days_year_lt n y m d :
  0 ≤ n < days_before_year 10000 → date_of_days n = (y, m, d) → y ≤ 9999.
Proof.
  intros Hn. unfold date_of_days. destruct (year_of_days n) as [y' yd] eqn:Ey.
  destruct (month_of_yday _ 0 yd) as [m' d'] eqn:Em. intros [= -> -> ->].
  apply year_of_days_spec in Ey as (E & Hy & Hyd); [|lia].
  destruct (Z.le_gt_cases y 9999) as [|Hgt]; [done|exfalso].
  assert (days_before_year 10000 ≤ days_before_year y); [|lia].
  unfold days_before_year. lia.
Qed.
