(* ===== verification/GoHttp.v ===== *)
(** * Redirects in net/http

    What the HTTP clients of the bridge and of the plugin decide about redirects, the
    [CheckRedirect] of an [http.Client], and which responses are redirects. *)

From S2P Require Import Prelude.

(** [CheckRedirect]: nil, the library's policy of at most ten requests in all, or a function
    that returns [http.ErrUseLastResponse], with which the redirect itself is the response. *)
Inductive redirectPolicy := FollowTen | UseLastResponse.

(** The requests the library's policy allows after the first. *)
Definition followLimit : nat := 9.

Definition redirect_status (status : Z) : bool := existsb (Z.eqb status) [301; 302; 303; 307; 308].
(** The redirects after which the request keeps its method and body. *)
Definition keeps_body (status : Z) : bool := existsb (Z.eqb status) [307; 308].
