(* ===== verification/GoDuration.v ===== *)
(** * Package time: durations as text

    [time.ParseDuration] and [Duration.String]. A fraction goes through float64 in Go;
    here too, with the arithmetic of IEEE 754 binary64 of the Standard Library. *)

From S2P Require Import Prelude GoStrings GoStd GoTime.
From Stdlib Require Import SpecFloat.

(** ** Binary64 *)

Definition f64_of (n : Z) : spec_float := binary_normalize 53 1024 n 0 false.
Definition f64_mul : spec_float → spec_float → spec_float := SFmul 53 1024.
Definition f64_div : spec_float → spec_float → spec_float := SFdiv 53 1024.

(** The conversion of a non-negative float64 to uint64. *)
Definition uint64_of (x : spec_float) : Z :=
  match x with S754_finite false m e => Z.shiftl (Zpos m) e | _ => 0 end.

(** ** Parsing *)

Definition durationError : gerr := EMsg "time: invalid duration".

(** [leadingInt]: the leading digits; [None] is an overflow. *)
Fixpoint leadingInt (x : Z) (s : string) : option (Z * string) :=
  match s with
  | String c rest =>
      match digit_val c with
      | None => Some (x, s)
      | Some d =>
          if 2 ^ 63 / 10 <? x then None
          else let x := x * 10 + d in
               if 2 ^ 63 <? x then None else leadingInt x rest
      end
  | EmptyString => Some (x, EmptyString)
  end.

(** [leadingFraction]: digits past the precision of int64 are dropped. *)
Fixpoint leadingFraction (x scale : Z) (overflow : bool) (s : string) : Z * Z * string :=
  match s with
  | String c rest =>
      match digit_val c with
      | None => (x, scale, s)
      | Some d =>
          let y := x * 10 + d in
          if overflow || ((2 ^ 63 - 1) / 10 <? x) || (2 ^ 63 <? y) then leadingFraction x scale true rest
          else leadingFraction y (scale * 10) false rest
      end
  | EmptyString => (x, scale, EmptyString)
  end.

Definition is_dot_or_digit (c : ascii) : bool := Ascii.eqb c "." || match digit_val c with Some _ => true | None => false end.

(** The unit: everything up to a dot or a digit. *)
Fixpoint take_unit (s : string) : string * string :=
  match s with
  | String c rest => if is_dot_or_digit c then (EmptyString, s) else let '(u, r) := take_unit rest in (String c u, r)
  | EmptyString => (EmptyString, EmptyString)
  end.

(** The micro sign and the Greek mu, in UTF-8. *)
Definition micro_s : string := String "194" (String "181" "s").
Definition mu_s : string := String "206" (String "188" "s").

Definition Microsecond : Duration := 1000.
Definition Millisecond : Duration := 1000000.

Definition unitMap (u : string) : option Z :=
  if String.eqb u "ns" then Some 1
  else if String.eqb u "us" || String.eqb u micro_s || String.eqb u mu_s then Some Microsecond
  else if String.eqb u "ms" then Some Millisecond
  else if String.eqb u "s" then Some Second
  else if String.eqb u "m" then Some Minute
  else if String.eqb u "h" then Some Hour
  else None.

(** The value of [v.f] units; [None] is an overflow. *)
Definition scaled (v f scale unit : Z) : option Z :=
  if 2 ^ 63 / unit <? v then None
  else
    let v := v * unit in
    if 0 <? f then
      let v := v + uint64_of (f64_mul (f64_of f) (f64_div (f64_of unit) (f64_of scale))) in
      if 2 ^ 63 <? v then None else Some v
    else Some v.

(** The digits after a dot, and whether there are any. *)
Definition fraction_part (s : string) : Z * Z * string * bool :=
  match s with
  | String "." s' => let '(f, scale, s2) := leadingFraction 0 1 false s' in (f, scale, s2, negb (String.length s2 =? String.length s')%nat)
  | _ => (0, 1, s, false)
  end.

(** One number with its unit. *)
Definition duration_term (s : string) : option (Z * string) :=
  match s with
  | EmptyString => None
  | String c _ =>
      if negb (is_dot_or_digit c) then None
      else match leadingInt 0 s with
      | None => None
      | Some (v, s1) =>
          let pre := negb (String.length s1 =? String.length s)%nat in
          let '(f, scale, s2, post) := fraction_part s1 in
          if negb pre && negb post then None
          else let '(u, s3) := take_unit s2 in
          match u with
          | EmptyString => None
          | _ => match unitMap u with
                 | None => None
                 | Some unit => match scaled v f scale unit with Some v => Some (v, s3) | None => None end
                 end
          end
      end
  end.

Fixpoint duration_terms (fuel : nat) (d : Z) (s : string) : option Z :=
  match fuel, s with
  | _, EmptyString => Some d
  | O, _ => None
  | S fuel, _ =>
      match duration_term s with
      | None => None
      | Some (v, s) => if 2 ^ 63 <? d + v then None else duration_terms fuel (d + v) s
      end
  end.

(** The sign and the rest. *)
Definition duration_sign (s : string) : bool * string :=
  match s with
  | String "-" s => (true, s)
  | String "+" s => (false, s)
  | _ => (false, s)
  end.

Definition ParseDuration (s : string) : res Duration :=
  let '(neg, s) := duration_sign s in
  if String.eqb s "0" then Ok 0
  else match s with
  | EmptyString => Err durationError
  | _ => match duration_terms (String.length s) 0 s with
         | None => Err durationError
         | Some d => if (neg : bool) then Ok (- d) else if int64_max <? d then Err durationError else Ok d
         end
  end.

(** ** Printing *)

(** [fmtFrac]: the last [prec] digits of [v] without trailing zeros, in front of [acc]. *)
Fixpoint fmtFrac (prec : nat) (v : Z) (print : bool) (acc : string) : string * Z :=
  match prec with
  | O => (if print then String "." acc else acc, v)
  | S prec =>
      let digit_ := v mod 10 in
      let print := print || negb (digit_ =? 0) in
      fmtFrac prec (v / 10) print (if print then String (digit digit_) acc else acc)
  end.

Definition fmt_small (u : Z) : string :=
  if u =? 0 then "0s"
  else
    let '(prec, unit) := if u <? Microsecond then (0%nat, "ns") else if u <? Millisecond then (3%nat, micro_s) else (6%nat, "ms") in
    let '(acc, u) := fmtFrac prec u false unit in FormatInt u +:+ acc.

Definition fmt_large (u : Z) : string :=
  let '(acc, u) := fmtFrac 9 u false "s" in
  let acc := FormatInt (u mod 60) +:+ acc in
  let u := u / 60 in
  if 0 <? u then
    let acc := FormatInt (u mod 60) +:+ String "m" acc in
    let u := u / 60 in
    if 0 <? u then FormatInt u +:+ String "h" acc else acc
  else acc.

Definition DurationString (d : Duration) : string :=
  let u := Z.abs d in
  let s := if u <? Second then fmt_small u else fmt_large u in
  if d <? 0 then String "-" s else s.

Example durations : map ParseDuration ["90m"; "1h30m0s"; "1.5s"; "-0.25h"; "1d"; "3 hours"; "0"; ".s"; "9223372036.854775808s"; "1us"]
  = [Ok (90 * Minute); Ok (90 * Minute); Ok (1500 * Millisecond); Ok (-15 * Minute); Err durationError; Err durationError; Ok 0;
     Err durationError; Err durationError; Ok 1000].
Proof. by vm_compute. Qed.

Example duration_texts : map DurationString [0; 90 * Minute; 1500000; 1500; -1; 3661 * Second + 500 * Millisecond]
  = ["0s"; "1h30m0s"; "1.5ms"; "1.5" +:+ micro_s; "-1ns"; "1h1m1.5s"].
Proof. by vm_compute. Qed.

(** ** Bounds *)

Lemma digit_val_range c d : digit_val c = Some d → 0 ≤ d ≤ 9.
Proof. unfold digit_val. destruct (_ && _) eqn:E; [|done]. intros [= <-]. apply andb_true_iff in E as [?%Z.leb_le ?%Z.leb_le]. done. Qed.

Lemma leadingInt_nonneg x s v r : 0 ≤ x → leadingInt x s = Some (v, r) → 0 ≤ v.
Proof.
  revert x. induction s as [|c s IH]; intros x Hx; cbn [leadingInt]; [by intros [= <- <-]|].
  destruct (digit_val c) as [d|] eqn:Hd; [|by intros [= <- <-]]. apply digit_val_range in Hd.
  destruct (_ <? x); [done|]. destruct (_ <? _); [done|]. apply IH. lia.
Qed.

Lemma unitMap_positive u k : unitMap u = Some k → 0 < k.
Proof. unfold unitMap. repeat case_match; intros [= <-]; by vm_compute. Qed.

Lemma uint64_of_nonneg x : 0 ≤ uint64_of x.
Proof. destruct x as [| | |[] m e]; cbn; try lia. apply Z.shiftl_nonneg. lia. Qed.

Lemma scaled_nonneg v f scale unit w : 0 ≤ v → 0 < unit → scaled v f scale unit = Some w → 0 ≤ w.
Proof.
  intros Hv Hu. unfold scaled. destruct (_ <? v); [done|]. assert (0 ≤ v * unit) by nia.
  pose proof (uint64_of_nonneg (f64_mul (f64_of f) (f64_div (f64_of unit) (f64_of scale)))).
  destruct (0 <? f); [|by intros [= <-]]. destruct (_ <? _); [done|]. intros [= <-]. lia.
Qed.

Lemma duration_term_nonneg s v r : duration_term s = Some (v, r) → 0 ≤ v.
Proof.
  unfold duration_term. destruct s as [|c s]; [done|]. destruct (negb _); [done|].
  destruct (leadingInt 0 _) as [[n s1]|] eqn:Hl; [|done]. apply leadingInt_nonneg in Hl; [|done].
  destruct (fraction_part s1) as [[[f scale] s2] post].
  destruct (_ && _); [done|]. destruct (take_unit s2) as [[|a u] s3]; [done|].
  destruct (unitMap _) as [unit|] eqn:Hu; [|done]. apply unitMap_positive in Hu.
  destruct (scaled _ _ _ _) as [w|] eqn:Hs; [|done]. intros [= <- <-]. by eapply scaled_nonneg.
Qed.

Lemma duration_terms_range fuel d s v : 0 ≤ d ≤ 2 ^ 63 → duration_terms fuel d s = Some v → 0 ≤ v ≤ 2 ^ 63.
Proof.
  revert d s. induction fuel as [|fuel IH]; intros d [|c s] Hd; cbn [duration_terms]; try done; try by intros [= <-].
  destruct (duration_term _) as [[w r]|] eqn:Ht; [|done]. apply duration_term_nonneg in Ht.
  destruct (Z.ltb_spec (2 ^ 63) (d + w)); [done|]. apply IH. lia.
Qed.

(** A duration that parses is a 64-bit number of nanoseconds: no text wraps around. *)
Theorem ParseDuration_range s d : ParseDuration s = Ok d → int64_min ≤ d ≤ int64_max.
Proof.
  unfold ParseDuration, int64_min, int64_max. destruct (duration_sign s) as [neg s']. destruct (String.eqb s' "0"); [intros [= <-]; lia|].
  destruct s' as [|c s']; [done|]. destruct (duration_terms _ _ _) as [v|] eqn:Hv; [|done].
  apply duration_terms_range in Hv; [|lia]. destruct neg; [intros [= <-]; lia|].
  destruct (Z.ltb_spec (2 ^ 63 - 1) v); [done|]. intros [= <-]. lia.
Qed.

(** ** Round trip *)

(** A text that does not go on with a digit. *)
Definition ends_number (r : string) : bool := match r with String c _ => negb (is_dot_or_digit c) | EmptyString => true end.

Lemma leadingInt_digits s x n r : 0 ≤ x → parse_digits s x = Some n → n ≤ 2 ^ 63 → ends_number r = true →
  leadingInt x (s +:+ r) = Some (n, r).
Proof.
  revert x. induction s as [|c s IH]; intros x Hx; cbn [parse_digits].
  - intros [= ->] _ Hr. rewrite app_nil_l. destruct r as [|c r]; [done|]. cbn in Hr |- *. unfold is_dot_or_digit in Hr.
    destruct (digit_val c); [|done]. by rewrite orb_true_r in Hr.
  - destruct (digit_val c) as [d|] eqn:Hd; [|done]. intros Hp Hn Hr. rewrite app_cons. cbn [leadingInt]. rewrite Hd.
    apply digit_val_range in Hd. assert (x * 10 + d ≤ n) as Hle.
    { clear - Hp Hx Hd. assert (∀ s y m, 0 ≤ y → parse_digits s y = Some m → y ≤ m) as H; [|by apply (H s); [lia|]].
      clear. induction s as [|c s IH]; intros y m Hy; cbn [parse_digits]; [intros [= <-]; lia|].
      destruct (digit_val c) as [d|] eqn:Hd; [|done]. apply digit_val_range in Hd. intros H%IH; lia. }
    destruct (Z.ltb_spec (2 ^ 63 / 10) x) as [H|_]; [pose proof (Z.div_le_lower_bound (2 ^ 63) 10 x); lia|].
    destruct (Z.ltb_spec (2 ^ 63) (x * 10 + d)); [lia|]. apply IH; [lia|done..].
Qed.

(** A number and a one-letter unit, followed by another number or nothing. *)
Definition starts_number (r : string) : bool := match r with String c _ => is_dot_or_digit c | EmptyString => true end.

Lemma duration_term_print n c r unit : 0 ≤ n ≤ 2 ^ 63 / unit → 0 < unit → unitMap (String c "") = Some unit →
  is_dot_or_digit c = false → starts_number r = true → duration_term (FormatInt n +:+ String c r) = Some (n * unit, r).
Proof.
  intros Hn Hunit Hu Hc Hr. assert (n ≤ 2 ^ 63) as Hmax by (pose proof (Z.div_le_upper_bound (2 ^ 63) unit (2 ^ 63)); nia).
  unfold FormatInt. destruct (Z.ltb_spec n 0); [lia|].
  destruct (format_go_head 20 n EmptyString) as (d & t & E & Hd); [lia..|].
  assert (leadingInt 0 (format_go 20 n "" +:+ String c r) = Some (n, String c r)) as Hl.
  { apply leadingInt_digits; [done|apply parse_digits_FormatInt; lia|done|]. cbn. by rewrite Hc. }
  unfold duration_term. destruct (format_go 20 n "" +:+ String c r) as [|a s] eqn:Es; [by rewrite E in Es|].
  assert (is_dot_or_digit a = true) as ->.
  { rewrite E, app_cons in Es. injection Es as <- _. unfold is_dot_or_digit. by rewrite (digit_val_digit d Hd), orb_true_r. }
  cbn [negb]. rewrite Hl.
  assert (negb (String.length (String c r) =? String.length (String a s))%nat = true) as ->.
  { rewrite <- Es, E, app_cons. cbn [String.length]. rewrite str_length_app. cbn [String.length]. apply negb_true_iff, Nat.eqb_neq. lia. }
  assert (fraction_part (String c r) = (0, 1, String c r, false)) as ->.
  { unfold fraction_part. destruct c as [[] [] [] [] [] [] [] []]; done. }
  cbn [negb andb take_unit]. rewrite Hc.
  assert (take_unit r = ("", r)) as -> by (destruct r as [|b r]; [done|]; cbn in Hr |- *; by rewrite Hr).
  rewrite Hu. unfold scaled. destruct (Z.ltb_spec (2 ^ 63 / unit) n); [lia|]. done.
Qed.

Lemma duration_terms_step fuel d s v r : (String.length s ≤ fuel)%nat → duration_term s = Some (v, r) → d + v ≤ 2 ^ 63 →
  (String.length r < String.length s)%nat → duration_terms fuel d s = duration_terms (pred fuel) (d + v) r.
Proof.
  intros Hf Ht Hv Hr. destruct fuel as [|fuel]; [lia|]. destruct s as [|c s]; [done|]. cbn [duration_terms]. rewrite Ht.
  destruct (Z.ltb_spec (2 ^ 63) (d + v)); [lia|done].
Qed.

Lemma duration_terms_print fuel d n c r unit : 0 ≤ n → d + n * unit ≤ 2 ^ 63 → 0 ≤ d → 0 < unit → unitMap (String c "") = Some unit →
  is_dot_or_digit c = false → starts_number r = true → (String.length (FormatInt n +:+ String c r) ≤ fuel)%nat →
  duration_terms fuel d (FormatInt n +:+ String c r) = duration_terms (pred fuel) (d + n * unit) r.
Proof.
  intros Hn Hs Hd Hu Hm Hc Hr Hf. eapply duration_terms_step; [done| |done|].
  - apply duration_term_print; [|done..]. split; [done|]. apply Z.div_le_lower_bound; lia.
  - rewrite str_length_app. cbn [String.length]. lia.
Qed.

Lemma FormatInt_starts n r : 0 ≤ n → starts_number (FormatInt n +:+ r) = true.
Proof.
  intros Hn. unfold FormatInt. destruct (Z.ltb_spec n 0); [lia|]. destruct (format_go_head 20 n EmptyString) as (d & t & -> & Hd); [lia..|].
  rewrite app_cons. cbn [starts_number]. unfold is_dot_or_digit. by rewrite (digit_val_digit d Hd), orb_true_r.
Qed.

Lemma fmtFrac_zero prec v acc : v mod 10 ^ Z.of_nat prec = 0 → fmtFrac prec v false acc = (acc, v / 10 ^ Z.of_nat prec).
Proof.
  revert v. induction prec as [|prec IH]; intros v Hv; [cbn; by rewrite Z.div_1_r|].
  rewrite Nat2Z.inj_succ, Z.pow_succ_r in * by lia. cbn [fmtFrac].
  rewrite Z.rem_mul_r in Hv by lia. pose proof (Z.mod_pos_bound v 10). pose proof (Z.mod_pos_bound (v / 10) (10 ^ Z.of_nat prec)).
  assert (0 < 10 ^ Z.of_nat prec) by lia.
  assert (v mod 10 = 0) as -> by nia. cbn [Z.eqb negb orb]. rewrite IH by nia. f_equal. by rewrite Z.div_div by lia.
Qed.

(** The text of a whole number of seconds, split into its parts. *)
Lemma fmt_large_terms u : Second ≤ u ≤ int64_max → u mod Second = 0 → ∀ fuel, (String.length (fmt_large u) ≤ fuel)%nat →
  duration_terms fuel 0 (fmt_large u) = Some u.
Proof.
  intros Hu Hm fuel. unfold fmt_large. rewrite fmtFrac_zero by exact Hm. change (10 ^ Z.of_nat 9) with Second.
  set (k := u / Second). assert (u = k * Second) as Ek. { unfold k. rewrite (Z.div_mod u Second) at 1 by done. lia. }
  assert (1 ≤ k ∧ k * 1000000000 ≤ 9223372036854775807) as Hk.
  { unfold Second, int64_max in *. cbn in Hu. lia. }
  assert (Second = 1000000000) as ES by done. assert (Minute = 60000000000) as EM by done. assert (Hour = 3600000000000) as EH by done.
  pose proof (Z.div_mod k 60 ltac:(lia)) as H1. pose proof (Z.mod_pos_bound k 60 ltac:(lia)) as H2.
  pose proof (Z.div_mod (k / 60) 60 ltac:(lia)) as H3. pose proof (Z.mod_pos_bound (k / 60) 60 ltac:(lia)) as H4.
  assert (0 ≤ k / 60) by (apply Z.div_pos; lia). assert (0 ≤ k / 60 / 60) by (apply Z.div_pos; lia).
  assert (2 ^ 63 = 9223372036854775808) as E63 by done.
  destruct (Z.ltb_spec 0 (k / 60)); [destruct (Z.ltb_spec 0 (k / 60 / 60))|]; intros Hf.
  - rewrite (duration_terms_print _ _ _ _ _ Hour); [|first [done|apply FormatInt_starts; lia|rewrite ?EH, ?EM, ?ES; lia]..].
    rewrite str_length_app in Hf. cbn [String.length] in Hf.
    rewrite (duration_terms_print _ _ _ _ _ Minute); [|first [done|apply FormatInt_starts; lia|rewrite ?EH, ?EM, ?ES; lia]..].
    rewrite str_length_app in Hf. cbn [String.length] in Hf.
    rewrite (duration_terms_print _ _ _ _ _ Second); [|first [done|rewrite ?EH, ?EM, ?ES; lia]..].
    destruct (pred _); cbn [duration_terms]; f_equal; rewrite ?EH, ?EM, ?ES in *; lia.
  - rewrite (duration_terms_print _ _ _ _ _ Minute); [|first [done|apply FormatInt_starts; lia|rewrite ?EH, ?EM, ?ES; lia]..].
    rewrite str_length_app in Hf. cbn [String.length] in Hf.
    rewrite (duration_terms_print _ _ _ _ _ Second); [|first [done|rewrite ?EH, ?EM, ?ES; lia]..].
    destruct (pred _); cbn [duration_terms]; f_equal; rewrite ?EH, ?EM, ?ES in *; lia.
  - rewrite (duration_terms_print _ _ _ _ _ Second); [|first [done|rewrite ?EH, ?EM, ?ES; lia]..].
    destruct (pred _); cbn [duration_terms]; f_equal; rewrite ?EH, ?EM, ?ES in *; lia.
Qed.

Lemma duration_sign_digit s : starts_number s = true → duration_sign s = (false, s).
Proof. destruct s as [|[[] [] [] [] [] [] [] []] s]; done. Qed.

Lemma fmt_large_starts u : 0 ≤ u → starts_number (fmt_large u) = true.
Proof.
  intros Hu. unfold fmt_large. destruct (fmtFrac 9 u false "s") as [acc v] eqn:E.
  assert (0 ≤ v) as Hv.
  { assert (∀ prec v0 b a acc v, 0 ≤ v0 → fmtFrac prec v0 b a = (acc, v) → 0 ≤ v) as H; [|by eapply H].
    induction prec as [|prec IH]; intros v0 b a acc' v' H0; cbn [fmtFrac]; [by intros [= _ <-]|]. apply IH. apply Z.div_pos; lia. }
  pose proof (Z.mod_pos_bound v 60). pose proof (Z.mod_pos_bound (v / 60) 60). assert (0 ≤ v / 60 / 60) by (apply Z.div_pos; [apply Z.div_pos|]; lia).
  destruct (0 <? v / 60); [destruct (0 <? v / 60 / 60)|]; apply FormatInt_starts; lia.
Qed.

(** The text of a duration of whole seconds, which is how a valid tokenTTL is written back,
    parses to that duration. *)
Theorem ParseDuration_print d : int64_min ≤ d ≤ int64_max → d mod Second = 0 → ParseDuration (DurationString d) = Ok d.
Proof.
  intros Hd Hm. unfold DurationString. destruct (Z.ltb_spec (Z.abs d) Second) as [Hs|Hs].
  - assert (d = 0) as ->; [|done]. pose proof (Z.div_mod d Second ltac:(done)). unfold Second in *. nia.
  - assert (Z.abs d ≠ 2 ^ 63) as Hne.
    { intros E. unfold int64_min, int64_max, Second in *. assert (d = - 2 ^ 63) as -> by lia. by vm_compute in Hm. }
    assert (Z.abs d mod Second = 0) as Hm'.
    { destruct (Z.abs_spec d) as [[_ ->]|[_ ->]]; [done|]. by apply Z.mod_opp_l_z. }
    assert (Second ≤ Z.abs d ≤ int64_max) as Hr by (unfold int64_min, int64_max in *; lia).
    pose proof (fmt_large_starts (Z.abs d) ltac:(lia)) as Hst.
    pose proof (fmt_large_terms (Z.abs d) Hr Hm' _ (Nat.le_refl _)) as Ht.
    assert (fmt_large (Z.abs d) ≠ "0") as H0 by (intros E; rewrite E in Ht; by vm_compute in Ht).
    assert (fmt_large (Z.abs d) ≠ "") as H1.
    { intros E. rewrite E in Ht. injection Ht as Ht. unfold Second in *. lia. }
    unfold ParseDuration. destruct (Z.ltb_spec d 0).
    + cbn [duration_sign]. destruct (String.eqb_spec (fmt_large (Z.abs d)) "0"); [done|]. rewrite Ht.
      destruct (fmt_large (Z.abs d)); [done|]. f_equal. lia.
    + rewrite duration_sign_digit by done. destruct (String.eqb_spec (fmt_large (Z.abs d)) "0"); [done|]. rewrite Ht.
      destruct (fmt_large (Z.abs d)); [done|]. destruct (Z.ltb_spec int64_max (Z.abs d)); [lia|]. f_equal. lia.
Qed.
