(* ===== verification/Naming.v ===== *)
(** * Robot names and ownership

    Models bridge/controlplane/harbor/naming.go: the name of the Harbor robot of a
    ServiceAccount, the prefix rule that says which robots a cluster's bridge
    owns, the pre-ADR-0018 names, and the project names a permission may carry.
    Names are byte strings and SHA-256 is executed, so every definition evaluates
    on concrete identities. *)

From S2P Require Import Prelude GoStrings GoStd.

Definition RobotNameCap : Z := 240.
Definition hashSuffixLen : Z := 16.
Definition robotNamePrefix : string := "bridge-".
Definition ProjectNameMaxLen : Z := 255.

(** [s[:n]] for [0 <= n <= len(s)]. *)
Definition slice_to (s : string) (n : Z) : string := take_str (Z.to_nat n) s.

Record ProjectPermission := MkPerm { Project : string; Action : string }.

#[export] Instance ProjectPermission_eq_dec : EqDecision ProjectPermission.
Proof. solve_decision. Defined.

Definition hashOf (s : string) : string := slice_to (sha256_hex s) hashSuffixLen.

(** [fmt.Sprintf("%s%s.%s.%s", robotNamePrefix, cluster, ns, sa)]. *)
Definition natural_name (cluster saNamespace saName : string) : string :=
  robotNamePrefix +:+ cluster +:+ "." +:+ saNamespace +:+ "." +:+ saName.

Definition robotName (cluster saNamespace saName : string) : res string :=
  let full := natural_name cluster saNamespace saName in
  if len full <=? RobotNameCap then Ok full
  else
    let prefix := robotNamePrefix +:+ cluster +:+ "." in
    let digest := hashOf full in
    let budget := RobotNameCap - len prefix - 1 - hashSuffixLen in
    if budget <? 1 then Err (EWrap "cluster" (ESentinel ErrClusterNameTooLong))
    else
      let mid := saNamespace +:+ "." +:+ saName in
      let mid := if len mid >? budget then slice_to mid budget else mid in
      let mid := TrimRight mid "-._" in
      if String.eqb mid "" then Ok (prefix +:+ digest)
      else Ok (prefix +:+ mid +:+ "." +:+ digest).

Definition IsValidHarborRobotName (name : string) : bool := match_segments true name.

Definition RobotName (cluster saNamespace saName : string) : res string :=
  match robotName cluster saNamespace saName with
  | Err e => Err e
  | Ok name =>
      if negb (IsValidHarborRobotName name) then Err (EWrap name (ESentinel ErrInvalidRobotName))
      else Ok name
  end.

Definition ClusterPrefix (cluster : string) : string := robotNamePrefix +:+ cluster +:+ ".".

Definition OwnsRobot (cluster robotName : string) : bool :=
  if String.eqb cluster "" then false else HasPrefix robotName (ClusterPrefix cluster).

Definition OwnsLegacyRobot (cluster robotName : string) : bool :=
  if String.eqb cluster "" then false
  else match CutPrefix robotName (robotNamePrefix +:+ cluster +:+ "-") with
       | Some rest => negb (String.eqb rest "") && negb (Contains rest ".")
       | None => false
       end.

(** [None] is Go's nil error. *)
Definition ValidateProjectName (name : string) : option gerr :=
  if (len name =? 0) || (len name >? ProjectNameMaxLen) || negb (match_segments true name)
  then Some (EMsg name) else None.

Fixpoint validatePermissions (perms : list ProjectPermission) : option gerr :=
  match perms with
  | [] => None
  | p :: perms =>
      match ValidateProjectName (Project p) with
      | Some e => Some e
      | None => validatePermissions perms
      end
  end.

(** ** Concrete names *)

Example robot_name_plain : RobotName "prod" "flux-system" "source-controller"
  = Ok "bridge-prod.flux-system.source-controller".
Proof. reflexivity. Qed.

Example robot_name_double_hyphen :
  ∃ e, RobotName "prod" "team--a" "app" = Err e ∧ errors_Is e ErrInvalidRobotName = true.
Proof. eexists. split; reflexivity. Qed.

(** ** The admitted identities

    The serviceAccountRef fields match the CRD's label pattern, the cluster name
    is a label of at most 63 bytes (LoadFromEnv), a namespace has at most 63
    bytes (Kubernetes). *)
Record identity_ok (cluster ns sa : string) : Prop := {
  id_cluster : match_label cluster = true;
  id_ns : match_label ns = true;
  id_sa : match_label sa = true;
  id_cluster_len : len cluster ≤ 63;
  id_ns_len : len ns ≤ 63
}.

Definition truncated (cluster ns sa : string) : bool := len (natural_name cluster ns sa) >? RobotNameCap.

(** ** Lemmas *)

Lemma len_app s t : len (s +:+ t) = len s + len t.
Proof. unfold len. rewrite str_length_app. lia. Qed.

Lemma len_nonneg s : 0 ≤ len s.
Proof. unfold len. lia. Qed.

Lemma len_slice s n : 0 ≤ n → len (slice_to s n) = Z.min n (len s).
Proof. intros. unfold len, slice_to. rewrite take_str_length. lia. Qed.

Lemma len_TrimRight s cs : len (TrimRight s cs) ≤ len s.
Proof. unfold len. pose proof (TrimRight_length s cs). lia. Qed.

Lemma hashOf_length s : len (hashOf s) = 16.
Proof. unfold hashOf. rewrite len_slice by done. unfold len. rewrite sha256_hex_length. done. Qed.

Lemma hashOf_alnum s : all_bytes is_alnum (hashOf s) = true.
Proof. unfold hashOf, slice_to. apply all_bytes_take. apply EncodeToString_alnum. Qed.

Lemma hashOf_dot s : ContainsByte (hashOf s) "." = false.
Proof. eapply (all_bytes_ContainsByte is_alnum); [done|apply hashOf_alnum]. Qed.

#[export] Hint Rewrite len_app hashOf_length str_app_assoc : str.
#[export] Hint Resolve hashOf_dot hashOf_alnum match_label_dot match_label_graph : bridge.

Lemma eqb_empty s : String.eqb s "" = true → s = EmptyString.
Proof. by intros ?%String.eqb_eq. Qed.

(** Every name the function returns is within Harbor's length. *)
Lemma robotName_length cluster ns sa n : robotName cluster ns sa = Ok n → len n ≤ RobotNameCap.
Proof.
  unfold robotName. destruct (Z.leb_spec (len (natural_name cluster ns sa)) RobotNameCap); [congruence|].
  set (prefix := robotNamePrefix +:+ cluster +:+ "."). set (mid := ns +:+ "." +:+ sa).
  destruct (Z.ltb_spec (RobotNameCap - len prefix - 1 - hashSuffixLen) 1) as [|Hb]; [done|].
  set (budget := RobotNameCap - len prefix - 1 - hashSuffixLen) in *.
  set (m := TrimRight (if len mid >? budget then slice_to mid budget else mid) "-._").
  assert (len m ≤ budget) as Hm.
  { etransitivity; [apply len_TrimRight|]. destruct (Z.gtb_spec (len mid) budget); [|done].
    rewrite len_slice by lia. lia. }
  destruct (String.eqb m ""); intros [= <-]; autorewrite with str; unfold budget, hashSuffixLen in *;
    change (len ".") with 1; lia.
Qed.

(** ... and starts with the cluster's ownership prefix. *)
Lemma robotName_prefix cluster ns sa n :
  robotName cluster ns sa = Ok n → HasPrefix n (ClusterPrefix cluster) = true.
Proof.
  unfold robotName, ClusterPrefix, natural_name. intros E. apply HasPrefix_spec. revert E.
  repeat case_step; intros [= <-]; rewrite ?str_app_assoc; eexists; rewrite ?str_app_assoc; done.
Qed.

Lemma RobotName_Ok cluster ns sa n :
  RobotName cluster ns sa = Ok n ↔ robotName cluster ns sa = Ok n ∧ IsValidHarborRobotName n = true.
Proof.
  unfold RobotName. destruct (robotName cluster ns sa) as [m|e]; [|by split; [|intros []]].
  destruct (IsValidHarborRobotName m) eqn:E; simpl.
  - split; [by intros [= <-]|by intros [[= <-] _]].
  - split; [done|]. intros [[= <-] ?]. congruence.
Qed.

(** The part of a name after "bridge-<cluster>.<ns>.": the ServiceAccount name, or
    a non-empty prefix of it, a dot and the digest. *)
Definition name_tail (cluster ns sa tail : string) : Prop :=
  (truncated cluster ns sa = false ∧ tail = sa) ∨
  (truncated cluster ns sa = true ∧ ∃ p, tail = p +:+ "." +:+ hashOf (natural_name cluster ns sa)
     ∧ p ≠ EmptyString ∧ ∃ j, p = TrimRight (take_str j sa) "-._").

(** A cut after the first dot keeps the namespace: the trimmed text still starts
    with "<ns>." and the ServiceAccount's first byte. *)
Lemma trim_mid ns sa k :
  match_label sa = true → len ns + 2 ≤ k →
  ∃ p, TrimRight (slice_to (ns +:+ "." +:+ sa) k) "-._" = ns +:+ "." +:+ p
    ∧ p ≠ EmptyString ∧ ∃ j, p = TrimRight (take_str j sa) "-._".
Proof.
  intros Hsa Hk. destruct sa as [|a sa]; [done|]. unfold slice_to, len in *.
  rewrite take_str_app_ge by lia.
  assert (∃ j, (Z.to_nat k - String.length ns = S (S j))%nat) as [j ->] by (exists (Z.to_nat k - String.length ns - 2)%nat; lia).
  rewrite app_cons, app_nil_l. cbn [take_str].
  assert (ContainsByte "-._" a = false) as Ha.
  { simpl in Hsa. bsimpl. cbn [ContainsByte]. by rewrite !(Ascii.eqb_sym _ a), !is_alnum_ne. }
  change (String "." (String a (take_str j sa))) with (String "." EmptyString +:+ String a (take_str j sa)).
  rewrite <- str_app_assoc, TrimRight_keep by done. rewrite str_app_assoc, app_cons, app_nil_l.
  exists (String a (TrimRight (take_str j sa) "-._")). split; [by rewrite app_cons, app_nil_l|].
  split; [done|]. exists (S j). cbn [take_str TrimRight].
  destruct (TrimRight (take_str j sa) "-._"); by rewrite ?Ha.
Qed.

(** The same for the uncut text. *)
Lemma slice_to_all s : slice_to s (len s) = s.
Proof. unfold slice_to, len. rewrite Nat2Z.id. by apply take_str_ge. Qed.

Lemma cut_dot_free j sa : ContainsByte sa "." = false → ContainsByte (TrimRight (take_str j sa) "-._") "." = false.
Proof. intros H. by apply ContainsByte_TrimRight, ContainsByte_take. Qed.
#[export] Hint Resolve cut_dot_free : bridge.

(** The robot name of every admitted identity, in full. *)
Lemma robotName_shape cluster ns sa :
  identity_ok cluster ns sa →
  ∃ tail, robotName cluster ns sa = Ok (robotNamePrefix +:+ cluster +:+ "." +:+ ns +:+ "." +:+ tail)
    ∧ name_tail cluster ns sa tail.
Proof.
  intros [Hc Hn Hs Hcl Hnl]. unfold robotName, name_tail, truncated.
  destruct (Z.leb_spec (len (natural_name cluster ns sa)) RobotNameCap).
  { exists sa. split; [done|]. left. split; [|done]. destruct (Z.gtb_spec (len (natural_name cluster ns sa)) RobotNameCap); [lia|done]. }
  destruct (Z.gtb_spec (len (natural_name cluster ns sa)) RobotNameCap); [|lia].
  set (prefix := robotNamePrefix +:+ cluster +:+ "."). set (mid := ns +:+ "." +:+ sa).
  assert (len prefix = 8 + len cluster) as Hp.
  { unfold prefix. autorewrite with str. change (len robotNamePrefix) with 7. change (len ".") with 1. lia. }
  unfold RobotNameCap, hashSuffixLen in *.
  destruct (Z.ltb_spec (240 - len prefix - 1 - 16) 1); [lia|].
  assert (∃ p, TrimRight (if len mid >? 240 - len prefix - 1 - 16
      then slice_to mid (240 - len prefix - 1 - 16) else mid) "-._" = ns +:+ "." +:+ p
      ∧ p ≠ EmptyString ∧ ∃ j, p = TrimRight (take_str j sa) "-._") as (p & -> & Hp0 & j & Hj).
  { destruct (Z.gtb_spec (len mid) (240 - len prefix - 1 - 16)).
    - apply trim_mid; [done|lia].
    - rewrite <- (slice_to_all mid). apply trim_mid; [done|]. unfold mid. autorewrite with str.
      change (len ".") with 1. destruct sa; [done|]. unfold len. cbn [String.length]. lia. }
  exists (p +:+ "." +:+ hashOf (natural_name cluster ns sa)). split.
  - destruct (String.eqb _ "") eqn:E.
    + apply eqb_empty in E. by apply str_app_eq_nil in E as [-> _].
    + unfold prefix. by rewrite !str_app_assoc.
  - right. split; [done|]. exists p. eauto.
Qed.

Lemma dotted_inj a a' b b' :
  ContainsByte a "." = false → ContainsByte a' "." = false →
  a +:+ "." +:+ b = a' +:+ "." +:+ b' → a = a' ∧ b = b'.
Proof. rewrite !app_cons, !app_nil_l. apply sep_unique. Qed.

Lemma str_app_inv_l p s t : p +:+ s = p +:+ t → s = t.
Proof. intros H. by apply str_app_inv_len in H as [_ ?]. Qed.

Lemma dot_in_dotted p s : ContainsByte (p +:+ "." +:+ s) "." = true.
Proof. rewrite !ContainsByte_app. simpl. by rewrite orb_true_r. Qed.

Lemma name_tail_inj cluster ns sa sa' t :
  match_label sa = true → match_label sa' = true →
  name_tail cluster ns sa t → name_tail cluster ns sa' t →
  sa = sa' ∨ (truncated cluster ns sa = true ∧ truncated cluster ns sa' = true
    ∧ hashOf (natural_name cluster ns sa) = hashOf (natural_name cluster ns sa')).
Proof.
  intros Hs%match_label_dot Hs'%match_label_dot.
  intros [[H ->]|(H & p & -> & Hp & j & ->)] [[H' E]|(H' & p' & E & Hp' & j' & ->)].
  - auto.
  - rewrite E, dot_in_dotted in Hs. done.
  - rewrite <- E, dot_in_dotted in Hs'. done.
  - apply dotted_inj in E as [_ E]; auto with bridge.
Qed.

(** ** Properties *)

Lemma RobotName_same c ns sa c' ns' sa' n :
  identity_ok c ns sa → identity_ok c' ns' sa' →
  RobotName c ns sa = Ok n → RobotName c' ns' sa' = Ok n →
  c = c' ∧ ns = ns' ∧
  (sa = sa' ∨ (truncated c ns sa = true ∧ truncated c ns sa' = true
    ∧ hashOf (natural_name c ns sa) = hashOf (natural_name c ns sa'))).
Proof.
  intros Hid Hid' [E _]%RobotName_Ok [E' _]%RobotName_Ok.
  destruct (robotName_shape _ _ _ Hid) as (t & Et & Ht). destruct (robotName_shape _ _ _ Hid') as (t' & Et' & Ht').
  rewrite E in Et. rewrite E' in Et'. destruct Hid, Hid'. injection Et as ->. injection Et' as Et.
  apply str_app_inv_l in Et. apply dotted_inj in Et as [<- Et]; [|auto with bridge..].
  apply dotted_inj in Et as [<- <-]; [|auto with bridge..].
  split_and!; [done..|]. eapply name_tail_inj; eauto.
Qed.

(** The mapping from identities to robot names is injective. Two admitted
    identities with the same robot name have the same cluster and namespace, and
    the same ServiceAccount unless both natural names are over the cap and their
    64-bit digests collide: a natural and a truncated name never meet. *)
Theorem RobotName_injective c ns sa c' ns' sa' n :
  identity_ok c ns sa → identity_ok c' ns' sa' →
  RobotName c ns sa = Ok n → RobotName c' ns' sa' = Ok n →
  c = c' ∧ ns = ns' ∧
  (sa = sa' ∨ (truncated c ns sa = true ∧ truncated c ns sa' = true
    ∧ hashOf (natural_name c ns sa) = hashOf (natural_name c ns sa'))).
Proof. apply RobotName_same. Qed.

Lemma RobotName_injective_witness :
  "prod" = "prod" ∧ "a" = "a" ∧ ("b-x" = "b-x" ∨ (truncated "prod" "a" "b-x" = true
    ∧ truncated "prod" "a" "b-x" = true
    ∧ hashOf (natural_name "prod" "a" "b-x") = hashOf (natural_name "prod" "a" "b-x"))).
Proof.
  apply (RobotName_injective "prod" "a" "b-x" "prod" "a" "b-x" "bridge-prod.a.b-x");
    [by constructor..|reflexivity|reflexivity].
Defined.

(** Every robot name fits the cap, is accepted by Harbor and carries the
    ownership prefix of its cluster, the check that gates every Harbor write. *)
Theorem RobotName_owned c ns sa n :
  c ≠ EmptyString → RobotName c ns sa = Ok n →
  len n ≤ RobotNameCap ∧ IsValidHarborRobotName n = true ∧ OwnsRobot c n = true.
Proof.
  intros Hc [E Hv]%RobotName_Ok. split_and!; [by eapply robotName_length|done|].
  unfold OwnsRobot. apply String.eqb_neq in Hc as ->. by eapply robotName_prefix.
Qed.

Definition long_sa : string := Join (replicate 40 "abcdef") "".

Lemma RobotName_owned_witness :
  ∃ n, RobotName "prod" "flux" long_sa = Ok n ∧ truncated "prod" "flux" long_sa = true ∧
    len n ≤ RobotNameCap ∧ IsValidHarborRobotName n = true ∧ OwnsRobot "prod" n = true.
Proof.
  eexists. split; [vm_compute; reflexivity|]. split; [vm_compute; reflexivity|].
  apply (RobotName_owned "prod" "flux" long_sa); [done|vm_compute; reflexivity].
Defined.

(** Segments: the natural name of three segment-valid parts is valid. *)
Lemma valid_dotted a b : match_segments true (a +:+ "." +:+ b) = match_segments true a && match_segments true b.
Proof. rewrite app_cons, app_nil_l. by apply match_segments_app. Qed.

Lemma match_segments_alnum b s : all_bytes is_alnum s = true → match_segments b s = (negb b || negb (String.eqb s "")).
Proof.
  revert b. induction s as [|a s IH]; intros b; [by destruct b|]. cbn [all_bytes match_segments].
  intros H. bsimpl. match goal with H : is_alnum a = true |- _ => rewrite H end. rewrite IH by done.
  simpl. by rewrite orb_true_r.
Qed.

Lemma hashOf_segments s : match_segments true (hashOf s) = true.
Proof.
  rewrite match_segments_alnum by apply hashOf_alnum. simpl. apply negb_true_iff, String.eqb_neq.
  intros E. pose proof (hashOf_length s) as H. by rewrite E in H.
Qed.

Lemma valid_bridge c : match_segments true (robotNamePrefix +:+ c) = match_segments true c.
Proof. done. Qed.

(** Trimming the separators a cut leaves at the end keeps the segments valid. *)
Lemma match_segments_take_trim b n s :
  match_segments b s = true → take_str n s ≠ EmptyString →
  match_segments b (TrimRight (take_str n s) "-._") = true.
Proof.
  revert b n. induction s as [|a s IH]; intros b n H Hne; [by destruct n|].
  destruct n as [|n]; [done|]. cbn [take_str TrimRight]. cbn [match_segments] in H.
  destruct (is_alnum a) eqn:Ea.
  - assert (ContainsByte "-._" a = false) as Hsep.
    { cbn [ContainsByte]. by rewrite !(Ascii.eqb_sym _ a), !is_alnum_ne. }
    rewrite Hsep. cbn [andb match_segments]. rewrite Ea.
    destruct (decide (take_str n s = EmptyString)) as [->|]; [done|]. by apply IH.
  - bsimpl.
    assert (b = false) as -> by (by destruct b).
    match goal with H : is_sep a = true |- _ => rename H into Hs end.
    assert (ContainsByte "-._" a = true) as Hsep by (by destruct (is_sep_cases a Hs) as [->|[->| ->]]).
    rewrite Hsep. destruct (all_bytes _ (take_str n s)) eqn:E; [done|].
    cbn [andb match_segments]. rewrite Ea, Hs. cbn [negb andb]. apply IH; [done|].
    intros En. by rewrite En in E.
Qed.

(** The only admitted identities without a robot name are those whose
    natural form Harbor refuses (two adjacent hyphens in a field): for every
    other one, truncated or not, RobotName succeeds. *)
Theorem RobotName_total c ns sa :
  identity_ok c ns sa →
  match_segments true c = true → match_segments true ns = true → match_segments true sa = true →
  ∃ n, RobotName c ns sa = Ok n.
Proof.
  intros Hid Hc Hn Hs. destruct (robotName_shape _ _ _ Hid) as (tail & E & Htail).
  eexists. apply RobotName_Ok. split; [exact E|]. unfold IsValidHarborRobotName.
  rewrite <- str_app_assoc, !valid_dotted, valid_bridge, Hc, Hn.
  destruct Htail as [[_ ->]|(_ & p & -> & Hp & j & ->)]; [done|].
  rewrite valid_dotted, hashOf_segments, match_segments_take_trim; [done..|].
  by destruct (take_str j sa).
Qed.

Lemma RobotName_total_witness : ∃ n, RobotName "prod" "flux" long_sa = Ok n.
Proof. apply RobotName_total; [by constructor|reflexivity..]. Defined.

Lemma legacy_disjoint c c' n :
  ContainsByte c' "." = false → OwnsRobot c n = true → OwnsLegacyRobot c' n = false.
Proof.
  intros Hc'. unfold OwnsRobot, ClusterPrefix. destruct (String.eqb c ""); [done|]. intros (t & ->)%HasPrefix_spec.
  unfold OwnsLegacyRobot. destruct (String.eqb c' ""); [done|].
  destruct (CutPrefix _ _) as [rest|] eqn:E; [|done].
  apply CutPrefix_Some in E. revert E. rewrite !str_app_assoc. intros E%str_app_inv_l.
  rewrite Contains_byte. assert (ContainsByte rest "." = true) as ->; [|by rewrite andb_false_r].
  assert (ContainsByte (c' +:+ "-" +:+ rest) "." = true) as H by (rewrite <- E; apply dot_in_dotted).
  rewrite !ContainsByte_app, Hc' in H. done.
Qed.

(** Ownership separates clusters. A robot name belongs to at most one
    dot-free cluster name ("prod" never owns a robot of "prod-eu"), and no
    dot-delimited name is also a legacy name of any cluster. *)
Theorem OwnsRobot_disjoint c c' n :
  ContainsByte c "." = false → ContainsByte c' "." = false →
  OwnsRobot c n = true →
  (OwnsRobot c' n = true → c = c') ∧ OwnsLegacyRobot c' n = false.
Proof.
  intros Hc Hc' Ho. split; [|by eapply legacy_disjoint]. revert Ho. unfold OwnsRobot, ClusterPrefix.
  destruct (String.eqb c ""); [done|]. intros (t & ->)%HasPrefix_spec.
  destruct (String.eqb c' ""); [done|]. intros (t' & E)%HasPrefix_spec. revert E.
  rewrite !str_app_assoc. intros E%str_app_inv_l. by apply dotted_inj in E as [-> _].
Qed.

Lemma OwnsRobot_disjoint_witness :
  (OwnsRobot "prod-eu" "bridge-prod.flux.sc" = true → "prod" = "prod-eu") ∧
  OwnsLegacyRobot "prod-eu" "bridge-prod.flux.sc" = false.
Proof. apply OwnsRobot_disjoint; reflexivity. Defined.

(** validatePermissions accepts exactly the lists of Harbor project names: none
    of them is "*", which Harbor reads as every project. *)
Lemma ValidateProjectName_spec name :
  ValidateProjectName name = None ↔ len name ≤ 255 ∧ match_segments true name = true.
Proof.
  unfold ValidateProjectName, ProjectNameMaxLen.
  destruct (Z.eqb_spec (len name) 0) as [E|]; simpl.
  - destruct name; [|done]. split; [done|]. by intros [_ ?].
  - destruct (Z.gtb_spec (len name) 255); destruct (match_segments true name); simpl; naive_solver lia.
Qed.

Lemma validatePermissions_spec perms :
  validatePermissions perms = None ↔
  Forall (λ p, len (Project p) ≤ 255 ∧ match_segments true (Project p) = true) perms.
Proof.
  induction perms as [|p perms IH]; simpl; [by split|].
  rewrite Forall_cons, <- ValidateProjectName_spec, <- IH.
  destruct (ValidateProjectName (Project p)); naive_solver.
Qed.

Lemma validatePermissions_no_wildcard perms p :
  validatePermissions perms = None → p ∈ perms → Project p ≠ "*" ∧ Project p ≠ "".
Proof.
  rewrite validatePermissions_spec, Forall_forall. intros H Hp.
  destruct (H p Hp) as [_ Hm]. split; intros E; by rewrite E in Hm.
Qed.

(** ** Names Harbor accepts, as a grammar *)

(** Runs of lower-case letters and digits joined by single separators. *)
Inductive harbor_name : string → Prop :=
  | name_run s : s ≠ EmptyString → all_bytes is_alnum s = true → harbor_name s
  | name_joined s c t : s ≠ EmptyString → all_bytes is_alnum s = true → c ∈ ["."; "_"; "-"]%char →
      harbor_name t → harbor_name (s +:+ String c t).

Lemma match_segments_run b s : match_segments b s = true →
  (∃ r, s = r ∧ all_bytes is_alnum r = true ∧ (b = true → r ≠ EmptyString)) ∨
  (∃ r c t, s = r +:+ String c t ∧ all_bytes is_alnum r = true ∧ (b = true → r ≠ EmptyString) ∧
     is_sep c = true ∧ match_segments true t = true ∧ (String.length t < String.length s)%nat).
Proof.
  revert b. induction s as [|c s IH]; intros b Hs; [left; exists EmptyString; by destruct b|]. cbn [match_segments] in Hs.
  destruct (is_alnum c) eqn:Ec.
  - destruct (IH _ Hs) as [(r & -> & Hr & _)|(r & d & t & -> & Hr & _ & ? & ? & ?)]; [left|right].
    + exists (String c r). split_and!; [done|by simpl; rewrite Ec|done].
    + exists (String c r), d, t. split_and!; [done|by simpl; rewrite Ec|done..|simpl in *; lia].
  - apply andb_true_iff in Hs as [[Hsep Hb]%andb_true_iff Ht]. right. exists EmptyString, c, s.
    split_and!; [done..|by destruct b|done|done|simpl; lia].
Qed.

Lemma is_sep_in c : is_sep c = true ↔ c ∈ ["."; "_"; "-"]%char.
Proof.
  unfold is_sep. rewrite !elem_of_cons, elem_of_nil. cbn [ContainsByte]. rewrite !orb_true_iff, !Ascii.eqb_eq. naive_solver.
Qed.

Lemma match_segments_name s : match_segments true s = true ↔ harbor_name s.
Proof.
  split.
  - remember (String.length s) as n eqn:E. revert s E. induction (Nat.lt_wf_0 n) as [n _ IH].
    intros s -> [(r & -> & ? & ?)|(r & c & t & -> & ? & ? & ? & ? & ?)]%match_segments_run; [constructor; auto|].
    constructor; [auto|done|by apply is_sep_in|]. by eapply IH.
  - induction 1 as [s Hne Ha|s c t Hne Ha Hc _ IH].
    + rewrite match_segments_alnum by done. by apply String.eqb_neq in Hne as ->.
    + rewrite match_segments_app, IH, andb_true_r, match_segments_alnum by (done || by apply is_sep_in).
      by apply String.eqb_neq in Hne as ->.
Qed.

(** A project name a permission may carry. *)
Definition project_name (s : string) : Prop := len s ≤ 255 ∧ harbor_name s.

Lemma ValidateProjectName_name s : ValidateProjectName s = None ↔ project_name s.
Proof.
  unfold ValidateProjectName, project_name, ProjectNameMaxLen. rewrite <- match_segments_name.
  destruct (Z.eqb_spec (len s) 0) as [E|]; simpl.
  - split; [done|]. intros [_ Hm%match_segments_ne]. destruct s; [done|]. unfold len in E. simpl in E. lia.
  - destruct (Z.gtb_spec (len s) 255); simpl; [split; [done|lia]|]. destruct (match_segments true s); naive_solver.
Qed.
