(* ===== verification/HarborPerms.v ===== *)
(** * Robot permissions

    Models the permission half of bridge/controlplane/harbor/client.go: the
    normal form of a permission list ([normalizePermissions], [actionRank]), the
    comparison with a robot's grants ([PermissionsMatch]) and the translation to
    and from Harbor's two-level shape ([toHarborPermissions],
    [fromHarborPermissions]). The specification is set-valued: which projects are
    named and which (project, action) pairs are granted. *)

From S2P Require Import Prelude GoStrings GoStd Naming.

(** Harbor's generated models, as the client uses them. *)
Record Access := MkAccess { Resource : string; AAction : string; Effect : string }.
Record RobotPermission := MkRobotPermission {
  Kind : string; PNamespace : string; PAccess : list (option Access) }.

Definition robotResourceRepository : string := "repository".
Definition robotPermissionKindProject : string := "project".

(** The actions of one entry: split at commas, trimmed, blanks dropped. *)
Definition action_list (action : string) : list string :=
  filter (λ a, a ≠ EmptyString) (TrimSpace <$> Split action ",").

(** One round of the loop that fills [byProject]. *)
Definition add_perm (m : gmap string (gset string)) (p : ProjectPermission) : gmap string (gset string) :=
  <[Project p := list_to_set (action_list (Action p)) ∪ default ∅ (m !! Project p)]> m.

Definition byProject (perms : list ProjectPermission) : gmap string (gset string) :=
  foldl add_perm ∅ perms.

Definition action_order (a : string) : option Z :=
  if String.eqb a "pull" then Some 0 else if String.eqb a "push" then Some 1 else None.

Definition actionRank (a b : string) : bool :=
  match action_order a, action_order b with
  | Some ra, Some rb => ra <? rb
  | Some _, None => true
  | None, Some _ => false
  | None, None => String.ltb a b
  end.

(** [sort.Slice] by [actionRank]: ascending, nothing ranks before its predecessor. *)
Definition action_le (a b : string) : Prop := actionRank b a = false.
#[export] Instance action_le_dec : RelDecision action_le.
Proof. intros a b. unfold action_le. apply _. Defined.

Definition sort_actions (l : list string) : list string := merge_sort action_le l.

Definition sort_strings (l : list string) : list string := merge_sort String.le l.

Definition normalizePermissions (perms : list ProjectPermission) : list ProjectPermission :=
  let m := byProject perms in
  (λ p, MkPerm p (Join (sort_actions (elements (default ∅ (m !! p)))) ","))
    <$> sort_strings (elements (dom m)).

Definition toHarborPermissions (perms : list ProjectPermission) : list RobotPermission :=
  (λ p, MkRobotPermission robotPermissionKindProject (Project p)
          ((λ a, Some (MkAccess robotResourceRepository a ""))
             <$> filter (λ a, a ≠ EmptyString) (Split (Action p) ",")))
    <$> normalizePermissions perms.

(** The two nested loops of [fromHarborRobot] over a robot's permissions: the
    grants and whether one is foreign. *)
Fixpoint from_accesses (project : string) (l : list (option Access)) : list ProjectPermission * bool :=
  match l with
  | [] => ([], false)
  | None :: l => from_accesses project l
  | Some a :: l =>
      let '(ps, foreign) := from_accesses project l in
      if negb (String.eqb (Resource a) robotResourceRepository)
         || (negb (String.eqb (Effect a) "") && negb (String.eqb (Effect a) "allow"))
      then (ps, true)
      else (MkPerm project (AAction a) :: ps, foreign)
  end.

Fixpoint from_permissions (l : list (option RobotPermission)) : list ProjectPermission * bool :=
  match l with
  | [] => ([], false)
  | None :: l => from_permissions l
  | Some p :: l =>
      let '(ps, foreign) := from_permissions l in
      if negb (String.eqb (Kind p) robotPermissionKindProject) then (ps, true)
      else let '(qs, foreign') := from_accesses (PNamespace p) (PAccess p) in
           (qs ++ ps, foreign' || foreign)
  end.

(** The comparison loop of [PermissionsMatch]: equal length, then equal entries. *)
Fixpoint entries_equal (a b : list ProjectPermission) : bool :=
  match a, b with
  | x :: a, y :: b => bool_decide (x = y) && entries_equal a b
  | _, _ => true
  end.

Definition permissions_match (foreign : bool) (current desired : list ProjectPermission) : bool :=
  if foreign then false
  else
    let a := normalizePermissions current in
    let b := normalizePermissions desired in
    if negb (length a =? length b)%nat then false else entries_equal a b.

Example normalize_example :
  normalizePermissions [MkPerm "b" "push, pull"; MkPerm "a" "pull"; MkPerm "b" "delete,pull"]
  = [MkPerm "a" "pull"; MkPerm "b" "pull,push,delete"].
Proof. vm_compute. reflexivity. Qed.

(** ** Specification: projects and grants *)

Definition projects (perms : list ProjectPermission) : gset string := list_to_set (Project <$> perms).

Definition grants (perms : list ProjectPermission) : gset (string * string) :=
  list_to_set (perms ≫= λ p, pair (Project p) <$> action_list (Action p)).

(** ** The order of actions *)

Lemma ltb_leb a b : String.ltb a b = negb (String.leb b a).
Proof. unfold String.ltb, String.leb. rewrite (String.compare_antisym b a). by destruct (String.compare a b). Qed.

Lemma action_order_pull_push a : action_order a = None ∨ (action_order a = Some 0 ∧ a = "pull") ∨ (action_order a = Some 1 ∧ a = "push").
Proof.
  unfold action_order. destruct (String.eqb_spec a "pull") as [->|]; [auto|].
  destruct (String.eqb_spec a "push") as [->|]; auto.
Qed.

Lemma action_le_alt a b :
  action_le a b ↔
  match action_order b, action_order a with
  | Some rb, Some ra => ra ≤ rb
  | Some _, None => False
  | None, Some _ => True
  | None, None => String.le a b
  end.
Proof.
  unfold action_le, actionRank, String.le. destruct (action_order b), (action_order a); try naive_solver.
  - by rewrite Z.ltb_ge.
  - rewrite ltb_leb, negb_false_iff. by rewrite Is_true_true.
Qed.

#[export] Instance action_le_trans : Transitive action_le.
Proof.
  intros a b c. rewrite !action_le_alt.
  destruct (action_order a), (action_order b), (action_order c); try naive_solver.
  - lia.
  - intros. by trans b.
Qed.
#[export] Instance action_le_total : Total action_le.
Proof.
  intros a b. rewrite !action_le_alt. destruct (action_order a), (action_order b); auto; [lia|].
  apply (total String.le).
Qed.
#[export] Instance action_le_antisymm : AntiSymm (=) action_le.
Proof.
  intros a b. rewrite !action_le_alt.
  destruct (action_order_pull_push a) as [->|[[-> ->]|[-> ->]]],
    (action_order_pull_push b) as [->|[[-> ->]|[-> ->]]]; try done; [|lia..].
  apply (anti_symm String.le).
Qed.

(** Sorting the elements of a set depends on the set alone. *)
Lemma sort_actions_perm l l' : l ≡ₚ l' → sort_actions l = sort_actions l'.
Proof.
  intros H. apply (Sorted_unique action_le); [apply Sorted_merge_sort, _..|].
  unfold sort_actions. by rewrite !merge_sort_Permutation.
Qed.

Lemma sort_actions_elem a l : a ∈ sort_actions l ↔ a ∈ l.
Proof. unfold sort_actions. by rewrite merge_sort_Permutation. Qed.

Lemma sort_strings_elem a l : a ∈ sort_strings l ↔ a ∈ l.
Proof. unfold sort_strings. by rewrite merge_sort_Permutation. Qed.

(** ** The loop *)

Lemma foldl_add_perm m perms p a :
  a ∈ default ∅ (foldl add_perm m perms !! p) ↔ a ∈ default ∅ (m !! p) ∨ (p, a) ∈ grants perms.
Proof.
  unfold grants. revert m. induction perms as [|q perms IH]; intros m; simpl; [set_solver|].
  rewrite IH. unfold add_perm. rewrite list_to_set_app, elem_of_union.
  assert ((p, a) ∈@{gset _} list_to_set (pair (Project q) <$> action_list (Action q)) ↔
    p = Project q ∧ a ∈ action_list (Action q)) as ->.
  { rewrite elem_of_list_to_set, list_elem_of_fmap. naive_solver. }
  destruct (decide (Project q = p)) as [<-|Hne].
  - rewrite lookup_insert_eq. simpl. rewrite elem_of_union, elem_of_list_to_set. naive_solver.
  - rewrite lookup_insert_ne by done. naive_solver.
Qed.

Lemma elem_of_byProject perms p a : a ∈ default ∅ (byProject perms !! p) ↔ (p, a) ∈ grants perms.
Proof. unfold byProject. rewrite foldl_add_perm, lookup_empty. set_solver. Qed.

Lemma dom_byProject perms : dom (byProject perms) = projects perms.
Proof.
  unfold byProject, projects.
  assert (∀ m, dom (foldl add_perm m perms) = dom m ∪ list_to_set (Project <$> perms)) as ->; [|set_solver].
  induction perms as [|q perms IH]; intros m; simpl; [set_solver|]. rewrite IH. unfold add_perm. set_solver.
Qed.

Lemma action_list_ok action a :
  a ∈ action_list action → a ≠ EmptyString ∧ ContainsByte a "," = false ∧ TrimSpace a = a.
Proof.
  unfold action_list. rewrite list_elem_of_filter, list_elem_of_fmap. intros (Hne & w & -> & Hw).
  split; [done|]. split; [|apply TrimSpace_idem]. apply ContainsByte_TrimSpace.
  pose proof (Split_parts action ",") as H. rewrite Forall_forall in H. by apply H.
Qed.

Lemma grants_ok perms p a :
  (p, a) ∈ grants perms → a ≠ EmptyString ∧ ContainsByte a "," = false ∧ TrimSpace a = a.
Proof.
  unfold grants. rewrite elem_of_list_to_set, list_elem_of_bind. intros (q & H & _).
  apply list_elem_of_fmap in H as (b & [= -> ->] & Hb). by eapply action_list_ok.
Qed.

(** The action list of a joined list of clean actions is that list. *)
Lemma action_list_Join l :
  Forall (λ a, a ≠ EmptyString ∧ ContainsByte a "," = false ∧ TrimSpace a = a) l →
  action_list (Join l ",") = l.
Proof.
  intros H. unfold action_list. destruct l as [|x l]; [done|].
  rewrite Split_Join; [|done|eapply Forall_impl; [exact H|]; simpl; tauto].
  revert H. generalize (x :: l). clear. induction l as [|a l IH]; [done|].
  rewrite Forall_cons. intros [(Hne & _ & Ht) Hl]. rewrite fmap_cons, Ht, filter_cons_True by done.
  by rewrite IH.
Qed.

Lemma normalize_actions_ok perms p :
  Forall (λ a, a ≠ EmptyString ∧ ContainsByte a "," = false ∧ TrimSpace a = a)
    (sort_actions (elements (default ∅ (byProject perms !! p)))).
Proof.
  apply Forall_forall. intros a. rewrite sort_actions_elem, elem_of_elements, elem_of_byProject.
  apply grants_ok.
Qed.

(** The normal form names the same projects and grants the same actions. *)
Lemma projects_normalize perms : projects (normalizePermissions perms) = projects perms.
Proof.
  unfold projects, normalizePermissions. rewrite <- list_fmap_compose. apply set_eq. intros p.
  rewrite elem_of_list_to_set, list_elem_of_fmap. simpl.
  setoid_rewrite sort_strings_elem. setoid_rewrite elem_of_elements. setoid_rewrite dom_byProject.
  unfold projects. naive_solver.
Qed.

Lemma grants_elem perms p a :
  (p, a) ∈ grants perms ↔ ∃ q, q ∈ perms ∧ Project q = p ∧ a ∈ action_list (Action q).
Proof.
  unfold grants. rewrite elem_of_list_to_set, list_elem_of_bind. setoid_rewrite list_elem_of_fmap. naive_solver.
Qed.

Lemma grants_normalize perms : grants (normalizePermissions perms) = grants perms.
Proof.
  apply set_eq. intros [p a]. rewrite (grants_elem (normalizePermissions perms)). unfold normalizePermissions.
  setoid_rewrite list_elem_of_fmap. setoid_rewrite sort_strings_elem. setoid_rewrite elem_of_elements.
  split.
  - intros (q & (p' & -> & Hp') & <- & Ha). simpl in *.
    rewrite action_list_Join in Ha by apply normalize_actions_ok.
    by rewrite sort_actions_elem, elem_of_elements, elem_of_byProject in Ha.
  - intros H. eexists. split; [exists p; split; [reflexivity|]|].
    + rewrite dom_byProject. apply grants_elem in H as (q & Hq & <- & _). unfold projects. set_solver.
    + split; [done|]. simpl. rewrite action_list_Join by apply normalize_actions_ok.
      by rewrite sort_actions_elem, elem_of_elements, elem_of_byProject.
Qed.

(** ... and depends on those two sets only. *)
Lemma normalize_ext perms perms' :
  projects perms = projects perms' → grants perms = grants perms' →
  normalizePermissions perms = normalizePermissions perms'.
Proof.
  intros Hp Hg. unfold normalizePermissions. rewrite !dom_byProject, Hp.
  apply list_fmap_ext. intros _ p _. do 2 f_equal. apply sort_actions_perm.
  apply NoDup_Permutation; [apply NoDup_elements..|]. intros a.
  by rewrite !elem_of_elements, !elem_of_byProject, Hg.
Qed.

Lemma entries_equal_spec a b : length a = length b → entries_equal a b = true ↔ a = b.
Proof.
  revert b. induction a as [|x a IH]; intros [|y b] Hl; try done; simpl in *.
  rewrite andb_true_iff, bool_decide_eq_true, IH by lia. naive_solver.
Qed.

Lemma permissions_match_spec foreign current desired :
  permissions_match foreign current desired = true ↔
  foreign = false ∧ normalizePermissions current = normalizePermissions desired.
Proof.
  unfold permissions_match. destruct foreign; [naive_solver|].
  destruct (Nat.eqb_spec (length (normalizePermissions current)) (length (normalizePermissions desired))) as [E|E];
    simpl.
  - rewrite entries_equal_spec by done. naive_solver.
  - split; [done|]. intros [_ H]. by rewrite H in E.
Qed.

(** One entry per project. *)
Lemma normalize_project_inj perms p q :
  p ∈ normalizePermissions perms → q ∈ normalizePermissions perms → Project p = Project q → p = q.
Proof.
  unfold normalizePermissions. intros (x & -> & _)%list_elem_of_fmap (y & -> & _)%list_elem_of_fmap.
  simpl. by intros ->.
Qed.
