(* ===== verification/HarborClient.v ===== *)
(** * The Harbor client

    Models bridge/controlplane/harbor/client.go: the six operations of the
    [Client] interface on top of the generated SDK. The SDK (and the Harbor behind
    it) is the environment: each SDK call is a call of an effectful program and
    its answer is arbitrary unless a theorem states what it assumes of Harbor.
    Pointers Harbor's JSON can leave nil are [option]s. Error texts are dropped;
    the sentinels and status codes the callers test are kept. *)

From S2P Require Import Prelude Effects GoStrings GoStd Naming HarborPerms.

(** ** Data *)

Record Robot := MkRobot {
  ID : Z; Name : string; WireName : string; Description : string; Disabled : bool;
  ExpiresAt : Z; Permissions : list ProjectPermission; ForeignAccess : bool; RSecret : string
}.

#[export] Instance Robot_eq_dec : EqDecision Robot.
Proof. solve_decision. Defined.

(** [models.Robot], [models.RobotCreate] and the create response. *)
Record mRobot := MkMRobot {
  mID : Z; mName : string; mDescription : string; mEditable : bool; mDisable : bool;
  mExpiresAt : Z; mSecret : string; mLevel : string; mDuration : Z;
  mPermissions : list (option RobotPermission)
}.
Record RobotCreate := MkRobotCreate {
  cName : string; cDescription : string; cLevel : string; cDuration : Z;
  cPermissions : list RobotPermission
}.
Record RobotCreated := MkCreated { crID : Z; crName : string; crSecret : string }.

(** The body of PUT /robots/{id}. *)
Record RobotUpdate := MkRobotUpdate {
  uID : Z; uName : string; uDescription : string; uLevel : string; uDuration : Z;
  uDisable : bool; uPermissions : list RobotPermission
}.

Definition pageSize : Z := 100.
Definition maxPages : nat := 1000.
Definition robotLevelSystem : string := "system".
Definition robotDurationNeverExpires : Z := -1.
Definition DefaultRobotPrefix : string := "robot$".

(** int64 arithmetic. *)
Definition wrap64 (z : Z) : Z := (z + 2 ^ 63) mod 2 ^ 64 - 2 ^ 63.

(** ** The SDK *)

Inductive sdk_call :=
| CreateRobot (body : RobotCreate)
| DeleteRobot (id : Z)
| ListRobot (page size : Z) (sort q : string)
| RefreshSec (id : Z)
| UpdateRobot (id : Z) (body : RobotUpdate).

Definition sdk_ans (c : sdk_call) : Type :=
  match c with
  | CreateRobot _ => res (option RobotCreated)
  | DeleteRobot _ => res unit
  | ListRobot _ _ _ _ => res (list (option mRobot))
  | RefreshSec _ => res (option string)
  | UpdateRobot _ _ => res unit
  end.

Notation sdk := (prog sdk_ans).

(** ** Errors *)

(** The HTTP status [errors.As] finds in an error. *)
Fixpoint http_code (e : gerr) : option Z :=
  match e with
  | EHttp c => Some c
  | EWrap _ e => http_code e
  | EJoin e1 e2 => match http_code e1 with Some c => Some c | None => http_code e2 end
  | _ => None
  end.

Definition isNotFound (e : gerr) : bool := bool_decide (http_code e = Some 404).
Definition isConflict (e : gerr) : bool := bool_decide (http_code e = Some 409).

Definition wrapHarborOp (op : string) (e : gerr) : gerr :=
  if isConflict e then EJoin (ESentinel ErrRobotAlreadyExists) e else EWrap op e.

(** ** Reading robots *)

Section Client.
Variable robotPrefix : string.

Definition fromHarborRobot (r : mRobot) : res Robot :=
  let mismatch := Err (EWrap (mName r) (ESentinel ErrRobotPrefixMismatch)) in
  let out :=
    let '(perms, foreign) := from_permissions (mPermissions r) in
    Ok (MkRobot (mID r) (TrimPrefix (mName r) robotPrefix) (mName r) (mDescription r) (mDisable r)
          (mExpiresAt r) (normalizePermissions perms) foreign (mSecret r)) in
  if mEditable r then
    match CutPrefix (mName r) robotPrefix with
    | None => mismatch
    | Some rest => if negb (match_segments true rest) then mismatch else out
    end
  else out.

(** The loop over one page: the cursor and the robots so far. *)
Fixpoint scan_page (payload : list (option mRobot)) (cursor : Z) (out : list Robot) : res (Z * list Robot) :=
  match payload with
  | [] => Ok (cursor, out)
  | None :: payload => scan_page payload cursor out
  | Some r :: payload =>
      if mID r <=? cursor then Err (EMsg "Harbor does not honour sort=id or the id range filter")
      else match fromHarborRobot r with
           | Err e => Err e
           | Ok robot => scan_page payload (mID r) (out ++ [robot])
           end
  end.

Definition joinQuery (terms : list string) : string :=
  Join (filter (λ t, t ≠ EmptyString) terms) ",".

Definition id_range (from : Z) : string := "id=[" +:+ FormatInt from +:+ "~]".

Definition listPage (q : string) : sdk (res (list (option mRobot))) :=
  trigger (ListRobot 1 pageSize "id" q).

(** The page loop; [pages] is the number of pages left. *)
Fixpoint list_pages (filter : string) (pages : nat) (cursor : Z) (out : list Robot) : sdk (res (list Robot)) :=
  match pages with
  | O => Ret (Err (EMsg "more than maxPages pages"))
  | S pages =>
      resp ← listPage (joinQuery [filter; id_range (wrap64 (cursor + 1))]);
      match resp with
      | Err e => Ret (Err (wrapHarborOp "list robots" e))
      | Ok payload =>
          match scan_page payload cursor out with
          | Err e => Ret (Err e)
          | Ok (cursor, out) =>
              if Z.of_nat (length payload) <? pageSize then Ret (Ok out)
              else list_pages filter pages cursor out
          end
      end
  end.

Definition list_robots (filter : string) : sdk (res (list Robot)) := list_pages filter maxPages 0 [].

Definition List : sdk (res (list Robot)) := list_robots "".

Definition matchName (robots : list Robot) (name : string) : option Robot :=
  find (λ r, String.eqb (Name r) name) robots.

Fixpoint checkSuffixHit (name : string) (robots : list Robot) : sdk (option gerr) :=
  match robots with
  | [] => Ret None
  | r :: robots =>
      if String.eqb (WireName r) (robotPrefix +:+ name) || negb (HasSuffix (WireName r) name)
      then checkSuffixHit name robots
      else
        again ← list_robots ("name=" +:+ Name r);
        match again with
        | Err e => Ret (Some e)
        | Ok again =>
            if existsb (λ o, ID o =? ID r) again then Ret None
            else Ret (Some (EWrap name (ESentinel ErrRobotPrefixMismatch)))
        end
  end.

Definition GetByName (name : string) : sdk (res Robot) :=
  filtered ← list_robots ("name=" +:+ name);
  match filtered with
  | Err e => Ret (Err e)
  | Ok robots =>
      match matchName robots name with
      | Some r => Ret (Ok r)
      | None =>
          suffix ← checkSuffixHit name robots;
          match suffix with
          | Some e => Ret (Err e)
          | None =>
              scanned ← List;
              match scanned with
              | Err e => Ret (Err e)
              | Ok robots =>
                  match matchName robots name with
                  | Some r => Ret (Ok r)
                  | None => Ret (Err (ESentinel ErrRobotNotFound))
                  end
              end
          end
      end
  end.

(** ** Writing robots *)

(** [None] is the nil error. *)
Definition Delete (id : Z) : sdk (option gerr) :=
  r ← trigger (DeleteRobot id);
  match r with
  | Err e => if isNotFound e then Ret None else Ret (Some (wrapHarborOp "delete robot" e))
  | Ok _ => Ret None
  end.

Definition Create (name description : string) (perms : list ProjectPermission) : sdk (res Robot) :=
  match validatePermissions perms with
  | Some e => Ret (Err (EWrap "create robot" e))
  | None =>
      resp ← trigger (CreateRobot (MkRobotCreate name description robotLevelSystem
                        robotDurationNeverExpires (toHarborPermissions perms)));
      match resp with
      | Err e => Ret (Err (wrapHarborOp "create robot" e))
      | Ok None => Ret (Err (EMsg "Harbor returned no secret"))
      | Ok (Some payload) =>
          if String.eqb (crSecret payload) "" then Ret (Err (EMsg "Harbor returned no secret"))
          else
            let wire := crName payload in
            let created wire :=
              Ret (Ok (MkRobot (crID payload) name wire description false robotDurationNeverExpires
                         (normalizePermissions perms) false (crSecret payload))) in
            if String.eqb wire "" || String.eqb wire name then created (robotPrefix +:+ name)
            else if String.eqb wire (robotPrefix +:+ name) then created wire
            else
              let mismatch := EWrap name (ESentinel ErrRobotPrefixMismatch) in
              derr ← Delete (crID payload);
              match derr with
              | Some derr => Ret (Err (EJoin mismatch derr))
              | None => Ret (Err mismatch)
              end
      end
  end.

Definition RefreshSecret (id : Z) : sdk (res string) :=
  resp ← trigger (RefreshSec id);
  match resp with
  | Err e => Ret (Err (wrapHarborOp "refresh secret" e))
  | Ok None => Ret (Err (EMsg "Harbor returned no secret"))
  | Ok (Some secret) =>
      if String.eqb secret "" then Ret (Err (EMsg "Harbor returned no secret")) else Ret (Ok secret)
  end.

Definition Update (current : option Robot) (description : string) (perms : list ProjectPermission)
    : sdk (option gerr) :=
  match current with
  | None => Ret (Some (EMsg "current robot with its on-wire name is required"))
  | Some current =>
      if String.eqb (WireName current) ""
      then Ret (Some (EMsg "current robot with its on-wire name is required"))
      else match validatePermissions perms with
      | Some e => Ret (Some (EWrap "update robot" e))
      | None =>
          r ← trigger (UpdateRobot (ID current)
                (MkRobotUpdate (ID current) (WireName current) description robotLevelSystem
                   robotDurationNeverExpires (Disabled current) (toHarborPermissions perms)));
          match r with
          | Err e => Ret (Some (wrapHarborOp "update robot" e))
          | Ok _ => Ret None
          end
      end
  end.
End Client.

Definition PermissionsMatch (r : Robot) (desired : list ProjectPermission) : bool :=
  permissions_match (ForeignAccess r) (Permissions r) desired.

(** ** Permissions read back *)

Lemma fromHarborRobot_Ok prefix m r :
  fromHarborRobot prefix m = Ok r →
  ID r = mID m ∧ WireName r = mName m ∧ Name r = TrimPrefix (mName m) prefix ∧ Description r = mDescription m
  ∧ Disabled r = mDisable m ∧ ForeignAccess r = snd (from_permissions (mPermissions m))
  ∧ Permissions r = normalizePermissions (fst (from_permissions (mPermissions m))).
Proof.
  unfold fromHarborRobot. destruct (from_permissions (mPermissions m)).
  intros H. repeat case_step_in H; simplify_eq; split_and!; done.
Qed.

Lemma from_accesses_written project l :
  from_accesses project ((λ a, Some (MkAccess robotResourceRepository a "")) <$> l)
  = (MkPerm project <$> l, false).
Proof. induction l as [|a l IH]; [done|]. cbn [from_accesses fmap list_fmap]. by rewrite IH. Qed.

Lemma from_permissions_written perms :
  ∃ ps, from_permissions (Some <$> toHarborPermissions perms) = (ps, false) ∧
    ps = (normalizePermissions perms ≫= λ p,
            MkPerm (Project p) <$> filter (λ a, a ≠ EmptyString) (Split (Action p) ",")).
Proof.
  unfold toHarborPermissions. induction (normalizePermissions perms) as [|p l (ps & IH & ->)]; [by eexists|].
  eexists. split; [|reflexivity]. cbn [fmap list_fmap from_permissions Kind]. rewrite IH.
  cbn [PNamespace PAccess]. by rewrite from_accesses_written.
Qed.

(** The entries written for a project are its trimmed actions. *)
Lemma normalized_action_split perms p :
  p ∈ normalizePermissions perms → filter (λ a, a ≠ EmptyString) (Split (Action p) ",") = action_list (Action p).
Proof.
  unfold normalizePermissions. intros (q & -> & _)%list_elem_of_fmap. simpl.
  pose proof (normalize_actions_ok perms q) as H.
  rewrite action_list_Join by done. generalize dependent (sort_actions (elements (default ∅ (byProject perms !! q)))).
  intros l H. destruct l as [|x l]; [done|]. rewrite Split_Join; [|done|eapply Forall_impl; [exact H|]; simpl; tauto].
  apply filter_id. eapply Forall_impl; [exact H|]. simpl. tauto.
Qed.

Lemma action_list_idem action a : a ∈ action_list action → action_list a = [a].
Proof.
  intros H%action_list_ok. change a with (Join [a] ",") at 1. apply action_list_Join. by constructor.
Qed.

Lemma bind_written_grants perms ps :
  (∀ p, p ∈ perms → filter (λ a, a ≠ EmptyString) (Split (Action p) ",") = action_list (Action p)) →
  ps = (perms ≫= λ p, MkPerm (Project p) <$> filter (λ a, a ≠ EmptyString) (Split (Action p) ",")) →
  grants ps = grants perms ∧ projects ps ⊆ projects perms ∧
  (∀ p, p ∈ perms → action_list (Action p) ≠ [] → Project p ∈ projects ps).
Proof.
  intros Hsplit ->. split_and!.
  - apply set_eq. intros [x a]. rewrite !grants_elem. setoid_rewrite list_elem_of_bind. setoid_rewrite list_elem_of_fmap.
    split.
    + intros (q & (p & (b & -> & Hb) & Hp) & <- & Ha). rewrite Hsplit in Hb by done. simpl in *.
      apply action_list_idem in Hb as Hb'. rewrite Hb' in Ha. apply list_elem_of_singleton in Ha as ->. eauto.
    + intros (p & Hp & <- & Ha). exists (MkPerm (Project p) a). split; [exists p; split; [exists a|]|]; auto.
      * by rewrite Hsplit.
      * split; [done|]. simpl. erewrite action_list_idem by done. by apply list_elem_of_singleton.
  - intros x. unfold projects. rewrite !elem_of_list_to_set, !list_elem_of_fmap.
    setoid_rewrite list_elem_of_bind. setoid_rewrite list_elem_of_fmap. naive_solver.
  - intros p Hp Hne. unfold projects. rewrite elem_of_list_to_set, list_elem_of_fmap.
    setoid_rewrite list_elem_of_bind. setoid_rewrite list_elem_of_fmap.
    destruct (action_list (Action p)) as [|a l] eqn:E; [done|].
    exists (MkPerm (Project p) a). split; [done|]. exists p. split; [|done]. exists a. split; [done|].
    rewrite Hsplit, E by done. left.
Qed.

Lemma normalized_actions_ne perms :
  Forall (λ p, action_list (Action p) ≠ []) perms →
  ∀ x, x ∈ projects perms → ∃ p, p ∈ normalizePermissions perms ∧ Project p = x ∧ action_list (Action p) ≠ [].
Proof.
  rewrite Forall_forall. intros H x Hx. pose proof Hx as Hx'. rewrite <- projects_normalize in Hx'.
  unfold projects in Hx, Hx'. rewrite elem_of_list_to_set, list_elem_of_fmap in Hx, Hx'.
  destruct Hx as (q & -> & Hq), Hx' as (p & Hpq & Hp). exists p. split_and!; [done..|].
  destruct (action_list (Action q)) as [|a l] eqn:E; [by eapply H in E|].
  assert ((Project p, a) ∈ grants (normalizePermissions perms)) as Hg.
  { rewrite grants_normalize. apply grants_elem. exists q. rewrite E. split_and!; [done..|left]. }
  apply grants_elem in Hg as (p' & Hp' & Hpp' & Ha).
  assert (p' = p) as -> by (apply (normalize_project_inj perms); done).
  intros E'. rewrite E' in Ha. by apply elem_of_nil in Ha.
Qed.

(** PermissionsMatch is set equality. A robot matches the desired list exactly
    when it carries no foreign grant, names the same projects and grants the same
    (project, action) pairs, in whatever order and with whatever repetition. *)
Theorem PermissionsMatch_sets r desired :
  PermissionsMatch r desired = true ↔
  ForeignAccess r = false ∧ projects (Permissions r) = projects desired ∧ grants (Permissions r) = grants desired.
Proof.
  unfold PermissionsMatch. rewrite permissions_match_spec. split; intros [Hf H]; (split; [done|]).
  - split; [rewrite <- (projects_normalize (Permissions r)), <- (projects_normalize desired)
           |rewrite <- (grants_normalize (Permissions r)), <- (grants_normalize desired)]; by rewrite H.
  - destruct H. by apply normalize_ext.
Qed.

(** What Create and Update write reads back as a match. A robot Harbor reports
    with the permissions the client wrote for [perms] matches [perms], so a
    converged robot is never rewritten. *)
Theorem written_permissions_match prefix m r perms :
  Forall (λ p, action_list (Action p) ≠ []) perms →
  mPermissions m = Some <$> toHarborPermissions perms →
  fromHarborRobot prefix m = Ok r → PermissionsMatch r perms = true.
Proof.
  intros Hne Hm (_ & _ & _ & _ & _ & Hf & Hp)%fromHarborRobot_Ok.
  destruct (from_permissions_written perms) as (ps & Hps & E). rewrite Hm, Hps in Hf, Hp. simpl in Hf, Hp.
  unfold PermissionsMatch. apply permissions_match_spec. split; [done|]. rewrite Hp.
  destruct (bind_written_grants (normalizePermissions perms) ps (normalized_action_split perms) E) as (Hg & Hsub & Hsup).
  rewrite grants_normalize in Hg. rewrite projects_normalize in Hsub.
  apply normalize_ext; rewrite ?projects_normalize, ?grants_normalize; [|done].
  apply set_eq. intros x. split; [apply Hsub|]. intros (p & Hp' & <- & Ha)%normalized_actions_ne; [|done]. auto.
Qed.

Definition example_perms : list ProjectPermission := [MkPerm "team" "pull"; MkPerm "base" "pull,push"; MkPerm "team" "push"].
Definition example_mrobot : mRobot :=
  MkMRobot 7 "robot$bridge-prod.a.b" "" true false (-1) "" "system" (-1) (Some <$> toHarborPermissions example_perms).

Lemma written_permissions_match_witness :
  ∃ r, fromHarborRobot "robot$" example_mrobot = Ok r ∧ PermissionsMatch r example_perms = true.
Proof.
  eexists. split; [vm_compute; reflexivity|].
  apply (written_permissions_match "robot$" example_mrobot);
    [by repeat constructor; vm_compute|reflexivity|vm_compute; reflexivity].
Defined.

(** ** Listing *)

(** One page: what [scan_page] adds, and that the cursor only grows. *)
Lemma scan_page_spec prefix payload cursor out cursor' out' :
  scan_page prefix payload cursor out = Ok (cursor', out') →
  ∃ rs, out' = out ++ rs ∧ StronglySorted Z.lt (cursor :: (ID <$> rs)) ∧
    Forall (λ r, ID r ≤ cursor') rs ∧
    (∀ m, Some m ∈ payload → ∃ r, fromHarborRobot prefix m = Ok r ∧ r ∈ rs) ∧
    (∀ r, r ∈ rs → ∃ m, Some m ∈ payload ∧ fromHarborRobot prefix m = Ok r) ∧
    (cursor' = cursor ∨ ∃ m, Some m ∈ payload ∧ mID m = cursor') ∧ cursor ≤ cursor'.
Proof.
  revert cursor out. induction payload as [|[m|] payload IH]; intros cursor out; simpl.
  - intros [= <- <-]. exists []. rewrite app_nil_r. split_and!; try done; [repeat constructor|set_solver..|auto].
  - destruct (Z.leb_spec (mID m) cursor) as [|Hlt]; [done|].
    destruct (fromHarborRobot prefix m) as [r|] eqn:Er; [|done].
    intros (rs & -> & Hs & Hle & Hin & Hfrom & Hc & Hcc)%IH.
    pose proof (fromHarborRobot_Ok _ _ _ Er) as (Eid & _).
    exists (r :: rs). rewrite <- app_assoc. split; [done|]. split_and!.
    + apply StronglySorted_inv in Hs as Hs2. destruct Hs2 as [Hs' Hf]. rewrite <- Eid in *.
      simpl. constructor; [exact Hs|]. constructor; [lia|].
      eapply Forall_impl; [exact Hf|]. simpl. lia.
    + constructor; [lia|done].
    + intros m' [[= ->]|Hm]%elem_of_cons; [exists r; split; [done|left]|].
      destruct (Hin m' Hm) as (r' & ? & ?). exists r'. split; [done|by right].
    + intros r' [->|Hr]%elem_of_cons; [exists m; split; [left|done]|].
      destruct (Hfrom r' Hr) as (m' & ? & ?). exists m'. split; [by right|done].
    + right. destruct Hc as [->|(m' & Hm' & <-)]; [exists m; split; [left|done]|].
      exists m'. split; [by right|done].
    + lia.
  - intros (rs & -> & Hs & Hle & Hin & Hfrom & Hc & Hcc)%IH. exists rs. split_and!; try done.
    + intros m [|Hm]%elem_of_cons; [done|auto].
    + intros r Hr. destruct (Hfrom r Hr) as (m & ? & ?). exists m. split; [by right|done].
    + destruct Hc as [->|(m & ? & ?)]; [by left|]. right. exists m. split; [by right|done].
Qed.

Lemma sorted_span (x : Z) l c :
  StronglySorted Z.lt (x :: l) → Forall (λ y, y ≤ c) l → x ≤ c → x + Z.of_nat (length l) ≤ c.
Proof.
  revert x. induction l as [|y l IH]; intros x Hs Hf Hx; simpl; [lia|].
  apply StronglySorted_inv in Hs as [Hs Hxy]. apply Forall_cons in Hxy as [Hxy _], Hf as [Hy Hf].
  specialize (IH y Hs Hf Hy). lia.
Qed.

Lemma StronglySorted_app_le (l l' : list Z) c :
  StronglySorted Z.lt l → Forall (λ x, x ≤ c) l → StronglySorted Z.lt (c :: l') → StronglySorted Z.lt (l ++ l').
Proof.
  intros Hl Hc [Hl' Hf]%StronglySorted_inv. induction Hl as [|x l Hl IH Hx]; [done|].
  apply Forall_cons in Hc as [Hxc Hc]. simpl. constructor; [by apply IH|].
  apply Forall_app. split; [done|]. eapply Forall_impl; [exact Hf|]. simpl. lia.
Qed.

(** Rule for the page loop: [I cursor out] holds at the start of every page. *)
Lemma wp_list_pages (env : log sdk_ans → ∀ c, sdk_ans c → Prop) prefix filter pages cursor out h (I : nat → Z → list Robot → Prop) (Q : res (list Robot) → Prop) :
  I pages cursor out →
  (∀ h n cursor out payload, I (S n) cursor out →
     env h (ListRobot 1 pageSize "id" (joinQuery [filter; id_range (wrap64 (cursor + 1))])) (Ok payload) →
     match scan_page prefix payload cursor out with
     | Err e => Q (Err e)
     | Ok (c, o) => if Z.of_nat (length payload) <? pageSize then Q (Ok o) else I n c o
     end) →
  (∀ h n cursor out e, I (S n) cursor out →
     env h (ListRobot 1 pageSize "id" (joinQuery [filter; id_range (wrap64 (cursor + 1))])) (Err e) →
     Q (Err (wrapHarborOp "list robots" e))) →
  (∀ cursor out, I O cursor out → Q (Err (EMsg "more than maxPages pages"))) →
  wp env (λ _ _, True) h (list_pages prefix filter pages cursor out) (λ _ a, Q a).
Proof.
  intros HI Hpage Herr Hend. revert cursor out h HI. induction pages as [|pages IH]; intros cursor out h HI;
    cbn [list_pages]; [by eapply Hend|].
  apply wp_bind. simpl. split; [done|]. intros [payload|e] Hr; [|by eapply Herr].
  specialize (Hpage _ _ _ _ _ HI Hr).
  destruct (scan_page prefix payload cursor out) as [[c o]|e]; [|done].
  destruct (Z.of_nat (length payload) <? pageSize); [done|]. by apply IH.
Qed.

Definition ids_below (cursor : Z) (out : list Robot) : Prop :=
  StronglySorted Z.lt (ID <$> out) ∧ Forall (λ x, x ≤ cursor) (ID <$> out).

Lemma scan_page_ids prefix payload cursor out c o :
  ids_below cursor out → scan_page prefix payload cursor out = Ok (c, o) → ids_below c o.
Proof.
  intros [Hs Hf] (rs & -> & Hs' & Hf' & _ & _ & _ & Hle)%scan_page_spec. unfold ids_below. rewrite fmap_app. split.
  - by eapply StronglySorted_app_le.
  - apply Forall_app. split; [eapply Forall_impl; [exact Hf|]; simpl; lia|by apply Forall_fmap].
Qed.

(** Whatever Harbor answers, a listing that succeeds has strictly increasing
    IDs: no robot is listed twice, and a server that ignores the sort or the range
    makes the listing fail rather than repeat or loop. *)
Theorem list_ids_increase prefix filter h h' out :
  runs any_env (list_robots prefix filter) h h' (Ok out) → StronglySorted Z.lt (ID <$> out).
Proof.
  intros Hr. refine (wp_result _ _ _ _ _ (λ a, match a with
    Ok out => StronglySorted Z.lt (ID <$> out) | Err _ => True end) _ Hr).
  apply (wp_list_pages _ _ _ _ _ _ _ (λ _, ids_below)); [by repeat constructor| |done..].
  intros _ n cursor out' payload HI _. destruct (scan_page prefix payload cursor out') as [[c o]|] eqn:E; [|done].
  apply scan_page_ids in E; [|done]. destruct (_ <? _); [apply E|done].
Qed.

(** What Harbor documents of GET /robots?sort=id&q=id=[n~]: the first page of the
    robots present, sorted by ID, with an ID of at least [n]. *)
Definition page_of (present : gmap Z mRobot) (from : Z) (payload : list (option mRobot)) : Prop :=
  ∃ l, payload = Some <$> l ∧
    (∀ m, m ∈ l → present !! mID m = Some m ∧ from ≤ mID m) ∧ StronglySorted Z.lt (mID <$> l) ∧
    (∀ id m, present !! id = Some m → from ≤ id →
       m ∈ l ∨ (Z.of_nat (length l) = pageSize ∧ ∀ x, x ∈ l → mID x < id)).

(** Harbor's robots while a listing runs: [world t] are those present when the
    [t]-th call is served, so other actors may add and delete robots between two
    pages. IDs are positive and fit an int64. *)
Definition world_ok (world : nat → gmap Z mRobot) : Prop :=
  ∀ t id m, world t !! id = Some m → mID m = id ∧ 1 ≤ id ≤ int64_max.

Definition honest_listing (world : nat → gmap Z mRobot) (h : log sdk_ans) (c : sdk_call) : sdk_ans c → Prop :=
  match c with
  | ListRobot page size sort q => λ r,
      match r with
      | Ok payload => ∀ from, int64_min ≤ from ≤ int64_max → page = 1 → size = pageSize → sort = "id" → q = id_range from →
                      page_of (world (length h)) from payload
      | Err _ => True
      end
  | _ => λ _, True
  end.

Lemma join_id_range from : joinQuery [EmptyString; id_range from] = id_range from.
Proof. reflexivity. Qed.

Lemma wrap64_id z : int64_min ≤ z ≤ int64_max → wrap64 z = z.
Proof. unfold int64_min, int64_max, wrap64. intros. rewrite Z.mod_small by lia. lia. Qed.

Lemma wrap64_range z : int64_min ≤ wrap64 z ≤ int64_max.
Proof.
  unfold int64_min, int64_max, wrap64. pose proof (Z.mod_pos_bound (z + 2 ^ 63) (2 ^ 64) ltac:(lia)). lia.
Qed.

Lemma str_app_inv_r (s t u : string) : s +:+ u = t +:+ u → s = t.
Proof.
  intros E. assert (String.length s = String.length t) as Hl.
  { assert (String.length (s +:+ u) = String.length (t +:+ u)) as H by (by rewrite E).
    rewrite !str_length_app in H. lia. }
  by apply str_app_inv_len in E as [? _].
Qed.

Lemma id_range_inj a b :
  int64_min ≤ a ≤ int64_max → int64_min ≤ b ≤ int64_max → id_range a = id_range b → a = b.
Proof.
  intros Ha Hb E. unfold id_range in E. apply str_app_inv_l, str_app_inv_r in E.
  apply (f_equal ParseInt) in E. rewrite !ParseInt_FormatInt in E by done. congruence.
Qed.

(** Every robot present throughout with an ID up to the cursor has been listed. *)
Definition seen (prefix : string) (world : nat → gmap Z mRobot) (cursor : Z) (out : list Robot) : Prop :=
  0 ≤ cursor ≤ int64_max ∧
  ∀ id m, (∀ t, world t !! id = Some m) → id ≤ cursor → ∃ r, r ∈ out ∧ fromHarborRobot prefix m = Ok r.

Lemma page_seen world prefix t cursor out payload c o :
  world_ok world → seen prefix world cursor out → page_of (world t) (wrap64 (cursor + 1)) payload →
  scan_page prefix payload cursor out = Ok (c, o) →
  seen prefix world c o ∧
  (Z.of_nat (length payload) < pageSize → ∀ id m, (∀ t, world t !! id = Some m) → ∃ r, r ∈ o ∧ fromHarborRobot prefix m = Ok r).
Proof.
  intros Hw [Hc Hseen] (l & -> & Hl & _ & Hcomplete).
  intros (rs & -> & Hs & Hle & Hin & Hfrom & Hcur & Hcc)%scan_page_spec. rewrite length_fmap.
  assert (0 ≤ c ≤ int64_max) as Hc'.
  { destruct Hcur as [->|(m & Hm & <-)]; [done|]. apply list_elem_of_fmap in Hm as (m' & [= ->] & Hm).
    destruct (Hl m' Hm) as [Hp _]. destruct (Hw _ _ _ Hp). lia. }
  assert (∀ id m, (∀ t, world t !! id = Some m) →
    (∃ r, r ∈ out ++ rs ∧ fromHarborRobot prefix m = Ok r) ∨ (Z.of_nat (length l) = pageSize ∧ c < id)) as Hstep.
  { intros id m Hm. destruct (Hw _ _ _ (Hm t)) as [Eid Hid]. destruct (Z.le_gt_cases id cursor).
    { destruct (Hseen id m Hm) as (r & ? & ?); [done|]. left. exists r. set_solver. }
    rewrite wrap64_id in Hcomplete by (unfold int64_min; lia).
    destruct (Hcomplete id m (Hm t)) as [Hml|[Hlen Hlt]]; [lia|..].
    - left. destruct (Hin m) as (r & Er & Hr); [apply list_elem_of_fmap; eauto|].
      exists r. split; [set_solver|done].
    - right. split; [done|]. destruct Hcur as [->|(x & Hx & <-)]; [lia|].
      apply list_elem_of_fmap in Hx as (x' & [= ->] & Hx). by apply Hlt. }
  split.
  - split; [done|]. intros id m Hm Hle'. destruct (Hstep id m Hm) as [|[_ ?]]; [done|lia].
  - intros Hlen id m Hm. destruct (Hstep id m Hm) as [|[? _]]; [done|lia].
Qed.

Lemma List_complete_lemma world prefix h h' out id m :
  world_ok world → (∀ t, world t !! id = Some m) →
  runs (honest_listing world) (List prefix) h h' (Ok out) →
  ∃ r, r ∈ out ∧ fromHarborRobot prefix m = Ok r.
Proof.
  intros Hw Hm Hr. refine (wp_result _ _ _ _ _ (λ a, match a with
    Ok out => ∃ r, r ∈ out ∧ fromHarborRobot prefix m = Ok r | Err _ => True end) _ Hr).
  apply (wp_list_pages _ _ _ _ _ _ _ (λ _, seen prefix world)).
  - split; [done|]. intros id' m' Hm' Hle. destruct (Hw _ _ _ (Hm' O)). lia.
  - intros h0 n cursor out' payload HI Henv. rewrite join_id_range in Henv.
    specialize (Henv _ (wrap64_range _) eq_refl eq_refl eq_refl eq_refl).
    destruct (scan_page prefix payload cursor out') as [[c o]|] eqn:E; [|done].
    destruct (page_seen _ _ _ _ _ _ _ _ Hw HI Henv E) as [H1 H2].
    destruct (Z.ltb_spec (Z.of_nat (length payload)) pageSize); [by eapply H2|done].
  - done.
  - done.
Qed.

(** Listing misses no robot under concurrent changes. If Harbor honours the
    sort and the range on each page, every robot present during the whole listing
    is in the result with its content, whatever other actors create or delete between the pages. *)
Theorem List_complete world prefix h h' out id m :
  world_ok world → (∀ t, world t !! id = Some m) →
  runs (honest_listing world) (List prefix) h h' (Ok out) →
  ∃ r, r ∈ out ∧ fromHarborRobot prefix m = Ok r.
Proof. apply List_complete_lemma. Qed.
Definition answered (c : sdk_call) : sdk_ans c → Prop :=
  match c with ListRobot _ _ _ _ => λ r, is_ok r = true | _ => λ _, True end.

Lemma scan_page_ok prefix l cursor out :
  StronglySorted Z.lt (cursor :: (mID <$> l)) → Forall (λ m, is_ok (fromHarborRobot prefix m) = true) l →
  ∃ c o, scan_page prefix (Some <$> l) cursor out = Ok (c, o) ∧ cursor + Z.of_nat (length l) ≤ c
    ∧ (c = cursor ∨ ∃ m, m ∈ l ∧ mID m = c).
Proof.
  revert cursor out. induction l as [|m l IH]; intros cursor out Hs Hf.
  { exists cursor, out. simpl. split_and!; [done|lia|by left]. }
  apply StronglySorted_inv in Hs as [Hs Hlt]. apply Forall_cons in Hlt as [Hlt _], Hf as [Hm Hf].
  rewrite fmap_cons. cbn [scan_page length]. destruct (Z.leb_spec (mID m) cursor); [lia|]. apply is_ok_inv in Hm as [r ->].
  destruct (IH (mID m) (out ++ [r]) Hs Hf) as (c & o & -> & Hc & Hm').
  exists c, o. split_and!; [done|lia|]. right. destruct Hm' as [->|(x & ? & ?)]; [exists m|exists x]; set_solver.
Qed.

(** Listing terminates with a result. When Harbor answers every page as
    documented and every robot is named under the configured prefix, listing fewer
    than maxPages * pageSize IDs succeeds: the page bound is never what stops it. *)
Theorem List_returns world prefix h h' a :
  world_ok world →
  (∀ t id m, world t !! id = Some m → id < 100000 ∧ is_ok (fromHarborRobot prefix m) = true) →
  runs (λ h c r, honest_listing world h c r ∧ answered c r) (List prefix) h h' a → ∃ out, a = Ok out.
Proof.
  intros Hw Hb Hr. refine (wp_result _ _ _ _ _ (λ a, ∃ out, a = Ok out) _ Hr).
  apply (wp_list_pages _ _ _ _ _ _ _ (λ n cursor _, 100 * (1000 - Z.of_nat n) ≤ cursor ∧ 0 ≤ cursor < 100000)).
  - unfold maxPages. lia.
  - intros h0 n cursor out payload [Hc Hcb] [Hh _]. rewrite join_id_range in Hh.
    destruct (Hh _ (wrap64_range _) eq_refl eq_refl eq_refl eq_refl) as (l & -> & Hl & Hs & _). clear Hh.
    rewrite wrap64_id in Hl by (unfold int64_min, int64_max; lia).
    destruct (scan_page_ok prefix l cursor out) as (c & o & -> & Hcl & Hc').
    + constructor; [done|]. apply Forall_fmap, Forall_forall. intros m Hm. apply Hl in Hm as [_ Hm]. simpl. lia.
    + apply Forall_forall. intros m [Hm _]%Hl. by apply Hb in Hm as [_ ?].
    + rewrite length_fmap. unfold pageSize. destruct (Z.ltb_spec (Z.of_nat (length l)) 100); [eauto|].
      split; [lia|]. destruct Hc' as [->|(m & Hm & <-)]; [lia|].
      apply Hl in Hm as [Hp Hm]. apply Hb in Hp as [? _]. lia.
  - intros h0 n cursor out e _ [_ Ha]. done.
  - intros cursor out H. lia.
Qed.

(** A listing of less than a page. *)
Lemma List_one_page (env : log sdk_ans → ∀ c, sdk_ans c → Prop) prefix payload c out :
  env [] (ListRobot 1 pageSize "id" (id_range 1)) (Ok payload) →
  scan_page prefix payload 0 [] = Ok (c, out) → (Z.of_nat (length payload) <? pageSize) = true →
  runs env (List prefix) [] [existT (ListRobot 1 pageSize "id" (id_range 1)) (Ok payload)] (Ok out).
Proof.
  intros He Hs Hl. unfold List, list_robots. change maxPages with (S 999). cbn [list_pages].
  rewrite join_id_range. change (wrap64 (0 + 1)) with 1.
  eapply runs_bind; [exists (Ok payload); split; [exact He|split; reflexivity]|].
  cbv beta iota. rewrite Hs, Hl. split; reflexivity.
Qed.

(** A Harbor with one robot. *)
Definition one_robot : nat → gmap Z mRobot := λ _, {[7 := example_mrobot]}.

Lemma one_robot_ok : world_ok one_robot.
Proof. unfold one_robot. intros t id m [<- <-]%lookup_singleton_Some. split; [done|]. unfold int64_max; simpl; lia. Qed.

Lemma one_robot_page t : page_of (one_robot t) 1 [Some example_mrobot].
Proof.
  unfold one_robot. exists [example_mrobot]. split; [done|]. split; [|split].
  - intros m ->%list_elem_of_singleton. split; [apply lookup_singleton_eq|done].
  - repeat constructor.
  - intros id m [_ <-]%lookup_singleton_Some _. left. by apply list_elem_of_singleton.
Qed.

Lemma one_robot_honest h : honest_listing one_robot h (ListRobot 1 pageSize "id" (id_range 1)) (Ok [Some example_mrobot]).
Proof.
  intros from Hf _ _ _ E. apply id_range_inj in E; [|done..]. rewrite <- E. apply one_robot_page.
Qed.

Definition one_robot_log : log sdk_ans :=
  [existT (ListRobot 1 pageSize "id" (id_range 1)) (Ok [Some example_mrobot])].

Lemma List_complete_witness :
  ∃ r, r ∈ match fromHarborRobot "robot$" example_mrobot with Ok r => [r] | Err _ => [] end
    ∧ fromHarborRobot "robot$" example_mrobot = Ok r.
Proof.
  apply (List_complete one_robot "robot$" [] one_robot_log
           match fromHarborRobot "robot$" example_mrobot with Ok r => [r] | Err _ => [] end 7 example_mrobot).
  - apply one_robot_ok.
  - intros t. apply lookup_singleton_eq.
  - eapply List_one_page; [apply one_robot_honest|vm_compute; reflexivity|reflexivity].
Defined.

Lemma List_returns_witness : ∃ out, Ok (match fromHarborRobot "robot$" example_mrobot with Ok r => [r] | Err _ => [] end) = Ok out.
Proof.
  apply (List_returns one_robot "robot$" [] one_robot_log).
  - apply one_robot_ok.
  - unfold one_robot. intros t id m [<- <-]%lookup_singleton_Some. split; [done|reflexivity].
  - eapply List_one_page; [split; [apply one_robot_honest|reflexivity]|vm_compute; reflexivity|reflexivity].
Defined.

Lemma list_ids_increase_witness :
  StronglySorted Z.lt (ID <$> match fromHarborRobot "robot$" example_mrobot with Ok r => [r] | Err _ => [] end).
Proof.
  apply (list_ids_increase "robot$" "" [] one_robot_log).
  pose proof (List_one_page any_env "robot$" [Some example_mrobot] 7
    match fromHarborRobot "robot$" example_mrobot with Ok r => [r] | Err _ => [] end) as H.
  unfold List in H. apply H; [exact I|vm_compute; reflexivity|reflexivity].
Defined.

(** ** Looking a robot up *)

Lemma matchName_Some robots name r : matchName robots name = Some r → r ∈ robots ∧ Name r = name.
Proof.
  intros H. apply find_some in H as [Hr Hn]. apply String.eqb_eq in Hn. split; [by apply list_elem_of_In|done].
Qed.

Lemma matchName_None robots name r : matchName robots name = None → r ∈ robots → Name r ≠ name.
Proof.
  intros H Hr E. eapply find_none in H; [|by apply list_elem_of_In in Hr]. simpl in H.
  by apply String.eqb_neq in H.
Qed.

Lemma wp_GetByName_name prefix n h :
  wp any_env (λ _ _, True) h (GetByName prefix n) (λ _ a, match a with Ok r => Name r = n | Err _ => True end).
Proof.
  unfold GetByName. apply wp_bind. eapply wp_mono; [apply wp_true|]. intros ? [robots|e] _; [|done].
  destruct (matchName robots n) eqn:E; [by apply matchName_Some in E as [_ ?]|].
  apply wp_bind. eapply wp_mono; [apply wp_true|]. intros ? [e|] _; [done|].
  apply wp_bind. eapply wp_mono; [apply wp_true|]. intros ? [robots'|e] _; [|done].
  destruct (matchName robots' n) eqn:E'; [by apply matchName_Some in E' as [_ ?]|done].
Qed.

(** GetByName never confuses robots. Whatever Harbor answers (a filter that is
    ignored, suffix hits, pages out of order), a robot it returns has exactly the
    name asked for. *)
Theorem GetByName_name prefix name h h' r :
  runs any_env (GetByName prefix name) h h' (Ok r) → Name r = name.
Proof.
  intros Hr. exact (wp_result _ _ _ _ _ (λ a, match a with Ok r => Name r = name | Err _ => True end)
    (wp_GetByName_name _ _ _) Hr).
Qed.

(** Errors of the SDK are HTTP responses and transport failures: none is one of the
    bridge's own sentinels. *)
Definition sdk_errors (c : sdk_call) : sdk_ans c → Prop :=
  match c with
  | ListRobot _ _ _ _ => λ r, ∀ e, r = Err e → ∀ s, errors_Is e s = false
  | _ => λ _, True
  end.

Lemma wrapHarborOp_not_found op e : errors_Is e ErrRobotNotFound = false → errors_Is (wrapHarborOp op e) ErrRobotNotFound = false.
Proof. unfold wrapHarborOp. destruct (isConflict e); simpl; auto. Qed.

Lemma scan_page_err prefix payload cursor out e :
  scan_page prefix payload cursor out = Err e → errors_Is e ErrRobotNotFound = false.
Proof.
  revert cursor out. induction payload as [|[m|] payload IH]; intros cursor out; simpl; [done| |apply IH].
  destruct (mID m <=? cursor); [by intros [= <-]|]. unfold fromHarborRobot.
  destruct (from_permissions (mPermissions m)) as [ps f].
  destruct (mEditable m); [|apply IH]. destruct (CutPrefix (mName m) prefix) as [rest|]; [|by intros [= <-]].
  destruct (match_segments true rest); simpl; [apply IH|by intros [= <-]].
Qed.

(** A listing under the documented behaviour: complete, and no failure reads as
    "not found". *)
Lemma wp_list_robots world prefix filter h :
  world_ok world →
  wp (λ h c r, honest_listing world h c r ∧ sdk_errors c r) (λ _ _, True) h (list_robots prefix filter)
    (λ _ a, match a with
            | Ok out => filter = EmptyString → ∀ id m, (∀ t, world t !! id = Some m) →
                ∃ r, r ∈ out ∧ fromHarborRobot prefix m = Ok r
            | Err e => errors_Is e ErrRobotNotFound = false
            end).
Proof.
  intros Hw. apply (wp_list_pages _ _ _ _ _ _ _ (λ _ cursor out, filter = EmptyString → seen prefix world cursor out)
    (λ a, match a with
            | Ok out => filter = EmptyString → ∀ id m, (∀ t, world t !! id = Some m) →
                ∃ r, r ∈ out ∧ fromHarborRobot prefix m = Ok r
            | Err e => errors_Is e ErrRobotNotFound = false
            end)).
  - intros _. split; [done|]. intros id' m' Hm' Hle. destruct (Hw _ _ _ (Hm' O)). lia.
  - intros h0 n cursor out' payload HI [Henv _].
    destruct (scan_page prefix payload cursor out') as [[c o]|] eqn:E; [|by eapply scan_page_err].
    destruct (decide (filter = EmptyString)) as [->|Hne]; [|by destruct (_ <? _)].
    rewrite join_id_range in Henv. specialize (Henv _ (wrap64_range _) eq_refl eq_refl eq_refl eq_refl).
    destruct (page_seen _ _ _ _ _ _ _ _ Hw (HI eq_refl) Henv E) as [H1 H2].
    destruct (Z.ltb_spec (Z.of_nat (length payload)) pageSize); eauto.
  - intros h0 n cursor out e _ [_ He]. apply wrapHarborOp_not_found. by apply He.
  - done.
Qed.

Lemma wp_checkSuffixHit world prefix name robots h :
  world_ok world →
  wp (λ h c r, honest_listing world h c r ∧ sdk_errors c r) (λ _ _, True) h (checkSuffixHit prefix name robots)
    (λ _ a, match a with Some e => errors_Is e ErrRobotNotFound = false | None => True end).
Proof.
  intros Hw. induction robots as [|r robots IH]; [done|]. cbn [checkSuffixHit].
  destruct (_ || _); [done|]. apply wp_bind. eapply wp_mono; [by apply wp_list_robots|].
  intros h' [again|e] H; [|done]. destruct (existsb _ again); done.
Qed.


(** GetByName never takes a present robot for absent. Under Harbor's documented
    listing, when a robot whose internal name is [name] exists throughout the
    lookup, no failure reads as ErrRobotNotFound, which would make the reconciler
    create a second robot. *)
Theorem GetByName_never_misses world prefix name h h' id m e :
  world_ok world → (∀ t, world t !! id = Some m) → TrimPrefix (mName m) prefix = name →
  runs (λ h c r, honest_listing world h c r ∧ sdk_errors c r) (GetByName prefix name) h h' (Err e) →
  errors_Is e ErrRobotNotFound = false.
Proof.
  intros Hw Hm Hn Hr. refine (wp_result _ _ _ _ _ (λ a, match a with
    Ok r => True | Err e => errors_Is e ErrRobotNotFound = false end) _ Hr).
  unfold GetByName. apply wp_bind. eapply wp_mono; [by apply wp_list_robots|]. intros ? [robots|e'] H; [|done].
  destruct (matchName robots name); [done|].
  apply wp_bind. eapply wp_mono; [by apply wp_checkSuffixHit|]. intros ? [e'|] H'; [done|].
  apply wp_bind. unfold List. eapply wp_mono; [by apply wp_list_robots|]. intros ? [robots'|e'] H2; [|done].
  destruct (matchName robots' name) eqn:E; [done|]. exfalso.
  destruct (H2 eq_refl id m Hm) as (r & Hr' & Er). eapply matchName_None in E; [|done].
  apply fromHarborRobot_Ok in Er as (_ & _ & Er & _). congruence.
Qed.

(** A lookup that Harbor answers with an HTTP error on its first page. *)
Lemma GetByName_failed (env : log sdk_ans → ∀ c, sdk_ans c → Prop) prefix name e :
  let q := ListRobot 1 pageSize "id" (joinQuery ["name=" +:+ name; id_range 1]) in
  env [] q (Err e) →
  runs env (GetByName prefix name) [] [existT q (Err e)] (Err (wrapHarborOp "list robots" e)).
Proof.
  intros q He. unfold GetByName, list_robots. change maxPages with (S 999). cbn [list_pages].
  change (wrap64 (0 + 1)) with 1. eapply runs_bind.
  - eapply runs_bind; [exists (Err e); split; [exact He|split; reflexivity]|]. split; reflexivity.
  - split; reflexivity.
Qed.

Lemma GetByName_never_misses_witness : errors_Is (wrapHarborOp "list robots" (EHttp 500)) ErrRobotNotFound = false.
Proof.
  eapply (GetByName_never_misses one_robot "robot$" "bridge-prod.a.b" [] _ 7 example_mrobot).
  - apply one_robot_ok.
  - intros t. apply lookup_singleton_eq.
  - reflexivity.
  - apply GetByName_failed. split; [done|]. by intros e [= <-].
Defined.

Lemma GetByName_found (env : log sdk_ans → ∀ c, sdk_ans c → Prop) prefix name payload c out r :
  let q := ListRobot 1 pageSize "id" (joinQuery ["name=" +:+ name; id_range 1]) in
  env [] q (Ok payload) → scan_page prefix payload 0 [] = Ok (c, out) →
  (Z.of_nat (length payload) <? pageSize) = true → matchName out name = Some r →
  runs env (GetByName prefix name) [] [existT q (Ok payload)] (Ok r).
Proof.
  intros q He Hs Hl Hm. unfold GetByName, list_robots. change maxPages with (S 999). cbn [list_pages].
  change (wrap64 (0 + 1)) with 1. eapply runs_bind.
  - eapply runs_bind; [exists (Ok payload); split; [exact He|split; reflexivity]|].
    cbv beta iota. rewrite Hs, Hl. split; reflexivity.
  - cbv beta iota. rewrite Hm. split; reflexivity.
Qed.

Definition example_robot : Robot :=
  MkRobot 7 "bridge-prod.a.b" "robot$bridge-prod.a.b" "" false (-1) (normalizePermissions example_perms) false "".

Lemma GetByName_name_witness : Name example_robot = "bridge-prod.a.b".
Proof.
  eapply (GetByName_name "robot$" "bridge-prod.a.b" []).
  apply (GetByName_found any_env "robot$" "bridge-prod.a.b" [Some example_mrobot] 7 [example_robot]);
    [exact I|vm_compute; reflexivity|reflexivity|reflexivity].
Defined.

(** ** Creating and updating *)

(** The robots Harbor reported created, and the IDs it was asked to delete. *)
Definition created (e : event sdk_ans) : option RobotCreated :=
  match e with existT (CreateRobot _) (Ok (Some p)) => Some p | _ => None end.
Definition deleted (e : event sdk_ans) : option Z :=
  match e with existT (DeleteRobot id) _ => Some id | _ => None end.

Lemma wp_Delete (env : log sdk_ans → ∀ c, sdk_ans c → Prop) id h (Q : log sdk_ans → option gerr → Prop) :
  (∀ r o, Q (existT (DeleteRobot id) r :: h) o) → wp env (λ _ _, True) h (Delete id) Q.
Proof.
  intros HQ. unfold Delete. wp_call; [done|]. intros [?|e] _; [apply HQ|].
  destruct (isNotFound e); apply HQ.
Qed.

(** C38: Create leaves no robot the bridge could not find again. Whenever Harbor
    reports a created robot with a password, either Create returns it under the
    asked name with the configured prefix, not disabled and granting exactly the
    requested permissions, or it has asked Harbor to delete it and fails with
    ErrRobotPrefixMismatch. *)
Theorem Create_accounts_for_robot prefix name description perms h' a payload :
  runs any_env (Create prefix name description perms) [] h' a →
  payload ∈ omap created h' → crSecret payload ≠ EmptyString →
  (∃ r, a = Ok r ∧ ID r = crID payload ∧ Name r = name ∧ WireName r = prefix +:+ name ∧ RSecret r = crSecret payload
     ∧ Disabled r = false ∧ PermissionsMatch r perms = true) ∨
  (∃ e, crID payload ∈ omap deleted h' ∧ a = Err e ∧ errors_Is e ErrRobotPrefixMismatch = true).
Proof.
  intros Hr Hin Hsec. revert h' a Hr Hin. refine (wp_post _ _ _ _ _).
  assert (permissions_match false (normalizePermissions perms) perms = true) as Hpm.
  { apply permissions_match_spec. split; [done|].
    apply normalize_ext; [apply projects_normalize|apply grants_normalize]. }
  unfold Create. destruct (validatePermissions perms); [by intros ?%elem_of_nil|].
  wp_call; [done|]. intros [[p|]|e] _; [|by intros ?%elem_of_nil..].
  assert (∀ wire, wire = prefix +:+ name → payload ∈ [p] → ∃ r,
    Ok (MkRobot (crID p) name wire description false robotDurationNeverExpires
          (normalizePermissions perms) false (crSecret p)) = Ok r ∧ ID r = crID payload ∧ Name r = name
    ∧ WireName r = prefix +:+ name ∧ RSecret r = crSecret payload ∧ Disabled r = false ∧ PermissionsMatch r perms = true) as Hok.
  { intros wire -> ->%list_elem_of_singleton. eexists. split; [reflexivity|]. by split_and!. }
  destruct (String.eqb_spec (crSecret p) "") as [E|_].
  { intros ->%list_elem_of_singleton. done. }
  destruct (String.eqb (crName p) "" || String.eqb (crName p) name); [left; by apply Hok|].
  destruct (String.eqb_spec (crName p) (prefix +:+ name)); [left; by apply Hok|].
  apply wp_bind, wp_Delete. intros r [derr|]; simpl; intros ->%list_elem_of_singleton; right; eexists;
    (split; [left|split; [reflexivity|done]]).
Qed.

Lemma Create_accounts_for_robot_witness :
  let p := MkCreated 9 "robot$ci-bridge-prod.a.b" "pw" in
  (∃ r, Err (EWrap "bridge-prod.a.b" (ESentinel ErrRobotPrefixMismatch)) = Ok r ∧ ID r = crID p
     ∧ Name r = "bridge-prod.a.b" ∧ WireName r = "robot$bridge-prod.a.b" ∧ RSecret r = crSecret p
     ∧ Disabled r = false ∧ PermissionsMatch r example_perms = true) ∨
  (∃ e, crID p ∈ [9] ∧ Err (EWrap "bridge-prod.a.b" (ESentinel ErrRobotPrefixMismatch)) = @Err Robot e
     ∧ errors_Is e ErrRobotPrefixMismatch = true).
Proof.
  intros p.
  apply (Create_accounts_for_robot "robot$" "bridge-prod.a.b" "d" example_perms
    [existT (DeleteRobot 9) (Ok tt);
     existT (CreateRobot (MkRobotCreate "bridge-prod.a.b" "d" robotLevelSystem robotDurationNeverExpires
       (toHarborPermissions example_perms))) (Ok (Some p))]).
  - exists (Ok (Some p)). split; [done|]. exists (Ok tt). split; [done|]. split; reflexivity.
  - left.
  - done.
Defined.

(** The update requests. *)
Definition updated (e : event sdk_ans) : list (Z * RobotUpdate) :=
  match e with existT (UpdateRobot id body) _ => [(id, body)] | _ => [] end.

(** Update changes nothing it was not asked to. Every request it sends goes to
    the robot it was given, with that robot's on-wire name and disabled flag (which
    Harbor overwrites with whatever the body carries), the never-expiring duration
    and the requested permissions, none of them on the wildcard project. *)
Theorem Update_echoes current description perms h' a id body :
  runs any_env (Update (Some current) description perms) [] h' a →
  (id, body) ∈ h' ≫= updated →
  id = ID current ∧ uID body = ID current ∧ uName body = WireName current ∧ WireName current ≠ EmptyString
  ∧ uDisable body = Disabled current ∧ uDescription body = description ∧ uDuration body = -1
  ∧ uPermissions body = toHarborPermissions perms ∧ Forall (λ p, Project p ≠ "*") perms.
Proof.
  revert h' a. refine (wp_post _ _ _ _ _). unfold Update.
  destruct (String.eqb_spec (WireName current) ""); [by intros ?%elem_of_nil|].
  destruct (validatePermissions perms) eqn:Ev; [by intros ?%elem_of_nil|].
  wp_call; [done|]. intros r _.
  assert (Forall (λ p, Project p ≠ "*") perms) as Hf.
  { apply Forall_forall. intros p Hp. by eapply validatePermissions_no_wildcard. }
  destruct r; simpl; intros [= -> ->]%list_elem_of_singleton; by split_and!.
Qed.

Lemma Update_echoes_witness :
  let body := MkRobotUpdate 7 "robot$bridge-prod.a.b" "new" "system" (-1) false (toHarborPermissions example_perms) in
  7 = ID example_robot ∧ uID body = ID example_robot ∧ uName body = WireName example_robot
  ∧ WireName example_robot ≠ EmptyString ∧ uDisable body = Disabled example_robot ∧ uDescription body = "new"
  ∧ uDuration body = -1 ∧ uPermissions body = toHarborPermissions example_perms
  ∧ Forall (λ p, Project p ≠ "*") example_perms.
Proof.
  intros body.
  apply (Update_echoes example_robot "new" example_perms [existT (UpdateRobot 7 body) (Ok tt)] None).
  - exists (Ok tt). split; [done|]. split; reflexivity.
  - left.
Defined.
