(* ===== verification/Api.v ===== *)
(** * Kubernetes objects

    The HarborAccess resource (bridge/api/v1alpha1/harboraccess_types.go), its
    tokenTTL (bridge/api/v1alpha1/duration.go) and the parts of a Secret and of the
    object metadata the bridge reads or writes. A Go map is a [gmap]; the nil map
    is the empty one (lookups agree). The functions of apimachinery and
    controller-runtime that edit metadata and conditions are not part of the
    repository: they are the operations of the class [Apimachinery], with the
    documented behaviour the bridge relies on in [ApimachineryLaws]. *)

From S2P Require Import Prelude GoStrings GoTime Naming.

Record ObjectMeta := MkMeta {
  Namespace : string; OName : string; UID : string; ResourceVersion : string; Generation : Z;
  Labels : gmap string string; Annotations : gmap string string;
  Finalizers : list string; DeletionTimestamp : option Time
}.

(** Indexing a Go map of strings: the zero value when the key is absent. *)
Definition index (m : gmap string string) (k : string) : string := default "" (m !! k).

Record Secret := MkSecret { SMeta : ObjectMeta; SType : string; Data : gmap string string }.

(** ** HarborAccess *)

Record TrustPolicy := MkTrustPolicy { Issuer : string; Audience : string }.

Record ServiceAccountRef := MkSARef { SANamespace : string; SAName : string }.

(** [v1alpha1.Duration]: the parsed value and the raw JSON of an invalid one. *)
Record TTL := MkTTL { TDuration : Duration; invalid : string }.

Record HarborAccessSpec := MkSpec {
  SARef : ServiceAccountRef; Trust : TrustPolicy; SPermissions : list ProjectPermission; TokenTTL : TTL
}.

Record RobotRef := MkRobotRef {
  RName : string; RID : Z; PasswordSecretRef : string; LastRotated : option Time
}.

Inductive ConditionStatus := ConditionTrue | ConditionFalse.

Record Condition := MkCondition {
  CType : string; CStatus : ConditionStatus; CReason : string; CObservedGeneration : Z
}.

Definition EnforcedByBridge : string := "bridge".
Definition ConditionReady : string := "Ready".
Definition ConditionRobotProvisioned : string := "RobotProvisioned".
Definition ConditionTrustPolicyApplied : string := "TrustPolicyApplied".

Record HarborAccessStatus := MkStatus {
  SRobot : option RobotRef; TrustPolicyEnforcedBy : string; ObservedGeneration : Z;
  Conditions : list Condition
}.

Record HarborAccess := MkHA { Meta : ObjectMeta; Spec : HarborAccessSpec; Status : HarborAccessStatus }.

#[export] Instance RobotRef_eq_dec : EqDecision RobotRef.
Proof. solve_decision. Defined.
#[export] Instance ConditionStatus_eq_dec : EqDecision ConditionStatus.
Proof. solve_decision. Defined.
#[export] Instance Condition_eq_dec : EqDecision Condition.
Proof. solve_decision. Defined.
#[export] Instance ServiceAccountRef_eq_dec : EqDecision ServiceAccountRef.
Proof. solve_decision. Defined.

(** [Duration.Err]: why the value is no Go duration; only whether there is a reason
    matters to the callers. *)
Definition TTL_Err (d : TTL) : option gerr :=
  if String.eqb (invalid d) "" then None else Some (EMsg (invalid d)).

(** Updates of nested fields, as the code assigns them. *)
Definition with_status (ha : HarborAccess) (s : HarborAccessStatus) : HarborAccess := MkHA (Meta ha) (Spec ha) s.
Definition with_finalizers (ha : HarborAccess) (fs : list string) : HarborAccess :=
  MkHA (MkMeta (Namespace (Meta ha)) (OName (Meta ha)) (UID (Meta ha)) (ResourceVersion (Meta ha))
          (Generation (Meta ha)) (Labels (Meta ha)) (Annotations (Meta ha)) fs (DeletionTimestamp (Meta ha)))
       (Spec ha) (Status ha).

(** [!ha.DeletionTimestamp.IsZero()]. *)
Definition deleting (ha : HarborAccess) : bool :=
  match DeletionTimestamp (Meta ha) with Some t => negb (IsZero t) | None => false end.

(** ** Apimachinery *)

Class Apimachinery := {
  (** [meta.SetStatusCondition(&conditions, c)]. *)
  SetStatusCondition : list Condition → Condition → list Condition;
  (** [controllerutil.AddFinalizer], [RemoveFinalizer] and [ContainsFinalizer]. *)
  AddFinalizer : list string → string → list string;
  RemoveFinalizer : list string → string → list string;
  ContainsFinalizer : list string → string → bool
}.

(** [meta.FindStatusCondition]: the first condition of the type. *)
Definition FindStatusCondition (cs : list Condition) (t : string) : option Condition :=
  find (λ c, String.eqb (CType c) t) cs.

Class ApimachineryLaws `{Apimachinery} := {
  set_find : ∀ cs c, FindStatusCondition (SetStatusCondition cs c) (CType c) = Some c;
  set_find_other : ∀ cs c t, t ≠ CType c →
    FindStatusCondition (SetStatusCondition cs c) t = FindStatusCondition cs t;
  contains_spec : ∀ fs f, ContainsFinalizer fs f = true ↔ f ∈ fs;
  add_spec : ∀ fs f g, g ∈ AddFinalizer fs f ↔ g = f ∨ g ∈ fs;
  remove_spec : ∀ fs f g, g ∈ RemoveFinalizer fs f ↔ g ≠ f ∧ g ∈ fs
}.

Lemma foldl_remove `{AL : ApimachineryLaws} fs l f : f ∈ foldl RemoveFinalizer l fs ↔ f ∉ fs ∧ f ∈ l.
Proof.
  revert l. induction fs as [|g fs IH]; intros l; simpl; [set_solver|].
  rewrite IH, remove_spec. set_solver.
Qed.

(** An implementation, for evaluating the model on concrete objects. *)
Fixpoint set_condition (cs : list Condition) (c : Condition) : list Condition :=
  match cs with
  | [] => [c]
  | x :: cs => if String.eqb (CType x) (CType c) then c :: cs else x :: set_condition cs c
  end.

Definition list_apimachinery : Apimachinery := {|
  SetStatusCondition := set_condition;
  AddFinalizer fs f := if bool_decide (f ∈ fs) then fs else fs ++ [f];
  RemoveFinalizer fs f := filter (λ g, g ≠ f) fs;
  ContainsFinalizer fs f := bool_decide (f ∈ fs)
|}.

Lemma list_apimachinery_laws : @ApimachineryLaws list_apimachinery.
Proof.
  constructor; simpl.
  - intros cs c. unfold FindStatusCondition. induction cs as [|x cs IH]; simpl; [by rewrite String.eqb_refl|].
    destruct (String.eqb_spec (CType x) (CType c)) as [E|E]; simpl; [by rewrite String.eqb_refl|].
    apply String.eqb_neq in E. by rewrite E.
  - intros cs c t Ht. unfold FindStatusCondition. induction cs as [|x cs IH]; simpl.
    + by assert (String.eqb (CType c) t = false) as -> by (by apply String.eqb_neq).
    + destruct (String.eqb_spec (CType x) (CType c)) as [E|E]; simpl.
      * assert (String.eqb (CType c) t = false) as -> by (by apply String.eqb_neq).
        rewrite <- E in Ht. assert (String.eqb (CType x) t = false) as -> by (by apply String.eqb_neq). done.
      * by destruct (String.eqb (CType x) t).
  - intros fs f. apply bool_decide_eq_true.
  - intros fs f g. case_bool_decide; set_solver.
  - intros fs f g. by rewrite list_elem_of_filter.
Qed.
