(* ===== verification/RobotSecret.v ===== *)
(** * The robot Secret

    Models bridge/internal/robotsecret/robotsecret.go: the name, labels, annotations
    and data keys of the Secret the control plane writes for each HarborAccess and
    the data plane reads. *)

From S2P Require Import Prelude GoStrings GoStd GoTime Naming Api.

Definition NamePrefix : string := "robot-".
Definition KeyUsername : string := "username".
Definition KeyPassword : string := "password".
Definition LabelManagedBy : string := "harbor.aetherize.io/managed-by".
Definition LabelManagedByValue : string := "harbor-workload-identity-bridge".
Definition LabelCluster : string := "harbor.aetherize.io/cluster".
Definition LabelHarborAccessNamespace : string := "harbor.aetherize.io/harboraccess-namespace".
Definition LabelHarborAccessName : string := "harbor.aetherize.io/harboraccess-name".
Definition AnnotationRobotID : string := "harbor.aetherize.io/robot-id".
Definition AnnotationRotationNotBefore : string := "harbor.aetherize.io/rotation-not-before".

Definition nameMax : Z := 253.
Definition nameHashLen : Z := 16.

Definition nul : string := String "000"%char EmptyString.

Definition SecretName (haNamespace haName : string) : string :=
  let full := NamePrefix +:+ haNamespace +:+ "." +:+ haName in
  if len full <=? nameMax then full
  else
    let digest := slice_to (sha256_hex (haNamespace +:+ nul +:+ haName)) nameHashLen in
    let budget := nameMax - len NamePrefix - 1 - nameHashLen in
    let mid := haNamespace +:+ "." +:+ haName in
    let mid := if len mid >? budget then slice_to mid budget else mid in
    let mid := TrimRight mid "-._" in
    if String.eqb mid "" then NamePrefix +:+ digest
    else NamePrefix +:+ mid +:+ "." +:+ digest.

Definition ParseName (name : string) : option (string * string) :=
  match CutPrefix name NamePrefix with
  | None => None
  | Some rest =>
      match Cut rest "." with
      | None => None
      | Some (haNamespace, haName) =>
          if String.eqb haNamespace "" || String.eqb haName "" then None else Some (haNamespace, haName)
      end
  end.

(** [robotsecret.Labels]. *)
Definition OwnerLabels (cluster haNamespace haName : string) : gmap string string :=
  <[LabelManagedBy := LabelManagedByValue]> (<[LabelCluster := cluster]>
    (<[LabelHarborAccessNamespace := haNamespace]> (<[LabelHarborAccessName := haName]> ∅))).

Definition IsManaged (s : Secret) : bool :=
  String.eqb (index (Labels (SMeta s)) LabelManagedBy) LabelManagedByValue.

Definition Owner (s : Secret) : option (string * string) :=
  if negb (IsManaged s) then None
  else
    let ns := index (Labels (SMeta s)) LabelHarborAccessNamespace in
    let name := index (Labels (SMeta s)) LabelHarborAccessName in
    if negb (String.eqb ns "") && negb (String.eqb name "") then Some (ns, name) else None.

Definition StampedForOther (s : Secret) (haNamespace haName : string) : bool :=
  if negb (IsManaged s) then false
  else negb (String.eqb (index (Labels (SMeta s)) LabelHarborAccessNamespace) haNamespace)
       || negb (String.eqb (index (Labels (SMeta s)) LabelHarborAccessName) haName).

Definition RobotID (s : Secret) : option Z :=
  match Annotations (SMeta s) !! AnnotationRobotID with
  | None => None
  | Some raw => ParseInt raw
  end.

Definition FormatRobotID (id : Z) : string := FormatInt id.

Definition RotationNotBefore (s : Secret) : option Time :=
  match Annotations (SMeta s) !! AnnotationRotationNotBefore with
  | None => None
  | Some raw => ParseRFC3339 raw
  end.

Definition round_up_second (t : Time) : Time :=
  let up := TruncateTime t Second in if Before up t then Add up Second else up.

Definition FormatRotationNotBefore (t : Time) : string := FormatRFC3339 (round_up_second t).

Definition Credentials (s : Secret) : res (string * string) :=
  let username := index (Data s) KeyUsername in
  let password := index (Data s) KeyPassword in
  if String.eqb username "" || String.eqb password "" then Err (EMsg "missing username and/or password keys")
  else Ok (username, password).

(** ** Lemmas *)

Lemma SecretName_natural ns name :
  len ns ≤ 63 → len name ≤ 63 → SecretName ns name = NamePrefix +:+ ns +:+ "." +:+ name.
Proof.
  intros Hn Hm. unfold SecretName. destruct (Z.leb_spec (len (NamePrefix +:+ ns +:+ "." +:+ name)) nameMax) as [|H]; [done|].
  revert H. autorewrite with str. change (len NamePrefix) with 6. change (len ".") with 1. unfold nameMax. lia.
Qed.

Lemma ParseName_Some n ns name :
  ParseName n = Some (ns, name) ↔
  n = NamePrefix +:+ ns +:+ "." +:+ name ∧ ContainsByte ns "." = false ∧ ns ≠ EmptyString ∧ name ≠ EmptyString.
Proof.
  unfold ParseName. split.
  - destruct (CutPrefix n NamePrefix) as [rest|] eqn:E; [|done]. apply CutPrefix_Some in E as ->.
    destruct (Cut rest ".") as [[a b]|] eqn:E; [|done]. apply Cut_Some in E as [-> Hd].
    destruct (String.eqb_spec a ""), (String.eqb_spec b ""); try done. intros [= <- <-]. by split_and!.
  - intros (-> & Hd & Hn & Hm). rewrite CutPrefix_app, app_cons, app_nil_l, Cut_app by done.
    apply String.eqb_neq in Hn as ->, Hm as ->. done.
Qed.

(** The Secret name identifies the HarborAccess. For an admitted HarborAccess (a
    dot-free namespace and a name of at most 63 bytes) ParseName inverts Name, so
    no two of them share a Secret; and ParseName returns only what Name produced. *)
Theorem SecretName_roundtrip ns name :
  ContainsByte ns "." = false → ns ≠ EmptyString → name ≠ EmptyString → len ns ≤ 63 → len name ≤ 63 →
  ParseName (SecretName ns name) = Some (ns, name) ∧ len (SecretName ns name) ≤ nameMax ∧
  (∀ ns' name', ParseName (SecretName ns name) = Some (ns', name') → SecretName ns' name' = SecretName ns name).
Proof.
  intros Hd Hn Hm Hln Hlm. rewrite SecretName_natural by done.
  assert (ParseName (NamePrefix +:+ ns +:+ "." +:+ name) = Some (ns, name)) as E by (by apply ParseName_Some).
  split_and!; [done| |].
  - autorewrite with str. change (len NamePrefix) with 6. change (len ".") with 1. unfold nameMax. lia.
  - intros ns' name'. rewrite E. intros [= <- <-]. by rewrite SecretName_natural.
Qed.

Lemma SecretName_roundtrip_witness :
  ParseName (SecretName "team-a" "app") = Some ("team-a", "app") ∧ len (SecretName "team-a" "app") ≤ nameMax ∧
  (∀ ns' name', ParseName (SecretName "team-a" "app") = Some (ns', name') →
     SecretName ns' name' = SecretName "team-a" "app").
Proof. apply SecretName_roundtrip; done. Defined.

(** Every Secret name fits Kubernetes' limit, truncated or not. *)
Lemma SecretName_length ns name : len (SecretName ns name) ≤ nameMax.
Proof.
  unfold SecretName. destruct (Z.leb_spec (len (NamePrefix +:+ ns +:+ "." +:+ name)) nameMax); [done|].
  set (mid := ns +:+ "." +:+ name). change (nameMax - len NamePrefix - 1 - nameHashLen) with 230.
  set (m := TrimRight _ _).
  assert (len m ≤ 230).
  { etransitivity; [apply len_TrimRight|]. destruct (Z.gtb_spec (len mid) 230); [|done].
    rewrite len_slice by lia. lia. }
  assert (len (slice_to (sha256_hex (ns +:+ nul +:+ name)) nameHashLen) ≤ 16).
  { rewrite len_slice by done. unfold nameHashLen. lia. }
  destruct (String.eqb m ""); autorewrite with str; change (len NamePrefix) with 6; change (len ".") with 1;
    unfold nameMax; lia.
Qed.

(** ** Ownership *)

Lemma index_insert m k v : index (<[k := v]> m) k = v.
Proof. unfold index. by rewrite lookup_insert_eq. Qed.
Lemma index_insert_ne m k k' v : k ≠ k' → index (<[k := v]> m) k' = index m k'.
Proof. intros. unfold index. by rewrite lookup_insert_ne. Qed.

(** The labels the control plane stamps read back: owned by this HarborAccess and by
    no other. *)
Lemma OwnerLabels_index cluster ns name :
  index (OwnerLabels cluster ns name) LabelManagedBy = LabelManagedByValue ∧
  index (OwnerLabels cluster ns name) LabelCluster = cluster ∧
  index (OwnerLabels cluster ns name) LabelHarborAccessNamespace = ns ∧
  index (OwnerLabels cluster ns name) LabelHarborAccessName = name.
Proof. unfold OwnerLabels. split_and!; repeat (rewrite index_insert_ne by done); apply index_insert. Qed.

(** Stamped ownership is exact. A Secret that carries the labels stamped for a
    HarborAccess reads back as owned by it, and as another's for every other
    HarborAccess: neither plane hands out or overwrites another's password. *)
Theorem StampedForOther_exact s cluster ns name ns' name' :
  Labels (SMeta s) = OwnerLabels cluster ns name → ns ≠ EmptyString → name ≠ EmptyString →
  Owner s = Some (ns, name) ∧ (StampedForOther s ns' name' = false ↔ ns' = ns ∧ name' = name).
Proof.
  intros HL Hn Hm. destruct (OwnerLabels_index cluster ns name) as (E1 & _ & E3 & E4).
  unfold Owner, StampedForOther, IsManaged. rewrite HL, E1, E3, E4. split.
  - simpl. apply String.eqb_neq in Hn as ->, Hm as ->. done.
  - simpl. rewrite orb_false_iff, !negb_false_iff, !String.eqb_eq. split; intros [-> ->]; done.
Qed.

Definition stamped_secret (ns name : string) : Secret :=
  MkSecret (MkMeta "bridge" (SecretName ns name) "u1" "1" 0 (OwnerLabels "prod" ns name) ∅ [] None) "Opaque" ∅.

Lemma StampedForOther_exact_witness :
  Owner (stamped_secret "team-a" "app") = Some ("team-a", "app") ∧
  (StampedForOther (stamped_secret "team-a" "app") "team-b" "app" = false ↔ "team-b" = "team-a" ∧ "app" = "app").
Proof. apply (StampedForOther_exact _ "prod"); done. Defined.

(** An unmanaged Secret is never another's. *)
Lemma StampedForOther_managed s ns name : StampedForOther s ns name = true → IsManaged s = true.
Proof. unfold StampedForOther. by destruct (IsManaged s). Qed.

(** ** Annotations *)

Lemma RobotID_stamped s id :
  int64_min ≤ id ≤ int64_max → Annotations (SMeta s) !! AnnotationRobotID = Some (FormatRobotID id) →
  RobotID s = Some id.
Proof. intros Hid H. unfold RobotID. rewrite H. by apply ParseInt_FormatInt. Qed.

Lemma round_up_second_bounds t : t ≤ round_up_second t < t + Second ∧ round_up_second t mod Second = 0.
Proof.
  unfold round_up_second, Before, TruncateTime, Add, Second.
  pose proof (Z.mod_pos_bound t 1000000000 ltac:(lia)) as Hm.
  pose proof (Z.div_mod t 1000000000 ltac:(lia)) as Hd.
  set (q := t / 1000000000) in *. set (r := t mod 1000000000) in *. clearbody q r.
  destruct (Z.ltb_spec (t - r) t).
  - replace (t - r + 1000000000) with (1000000000 * (q + 1)) by lia. rewrite Z.mul_comm, Z.mod_mul by lia. lia.
  - replace (t - r) with (1000000000 * q) by lia. rewrite Z.mul_comm, Z.mod_mul by lia. lia.
Qed.

(** The instants whose rendering has a four-digit year: before the year 10000. *)
Definition max_instant : Time := days_before_year 10000 * 86400 * Second.

Lemma FormatRotationNotBefore_parse t :
  0 ≤ t < max_instant - Second → ParseRFC3339 (FormatRotationNotBefore t) = Some (round_up_second t).
Proof.
  intros Ht. unfold FormatRotationNotBefore. destruct (round_up_second_bounds t) as [Hb Hm].
  set (u := round_up_second t) in *.
  destruct (date_of_days (u / Second / 86400)) as [[y m] d] eqn:E.
  rewrite (ParseRFC3339_Format u y m d); [|lia|done|].
  - unfold TruncateTime. by rewrite Hm, Z.sub_0_r.
  - eapply date_of_days_year_lt; [|done]. unfold max_instant, Second in *. split.
    + apply Z.div_pos; [apply Z.div_pos|]; lia.
    + apply Z.div_lt_upper_bound; [lia|]. apply Z.div_lt_upper_bound; lia.
Qed.

(** The rotation promise survives the annotation. The instant both planes read
    back from a stamped Secret is the promised one rounded up to a second: never
    earlier, and less than a second later. *)
Theorem RotationNotBefore_promise s t :
  0 ≤ t < max_instant - Second →
  Annotations (SMeta s) !! AnnotationRotationNotBefore = Some (FormatRotationNotBefore t) →
  ∃ t', RotationNotBefore s = Some t' ∧ t ≤ t' < t + Second ∧ t' mod Second = 0.
Proof.
  intros Ht Hs. exists (round_up_second t). unfold RotationNotBefore. rewrite Hs.
  split; [by apply FormatRotationNotBefore_parse|apply round_up_second_bounds].
Qed.

Lemma RotationNotBefore_promise_witness :
  let t := 63925000000 * Second + 1 in
  ∃ t', RotationNotBefore (MkSecret (MkMeta "bridge" "robot-a.b" "u1" "1" 0 ∅
     {[AnnotationRotationNotBefore := FormatRotationNotBefore t]} [] None) "Opaque" ∅) = Some t'
   ∧ t ≤ t' < t + Second ∧ t' mod Second = 0.
Proof.
  intros t. apply RotationNotBefore_promise; [by vm_compute|vm_compute; reflexivity].
Defined.

Lemma Credentials_spec s u p :
  Credentials s = Ok (u, p) ↔
  index (Data s) KeyUsername = u ∧ index (Data s) KeyPassword = p ∧ u ≠ EmptyString ∧ p ≠ EmptyString.
Proof.
  unfold Credentials. destruct (String.eqb_spec (index (Data s) KeyUsername) ""), (String.eqb_spec (index (Data s) KeyPassword) "");
    simpl; split; intros; destruct_and?; simplify_eq; try done.
Qed.
