(* ===== verification/Contract.v ===== *)
(** * The control plane's contract with Harbor

    Models bridge/controlplane/contract.go: the constants both planes rely on, the
    description tokens the bridge writes onto robots, and the three-layer ownership
    test that gates every destructive Harbor call. *)

From S2P Require Import Prelude GoStrings GoStd GoTime Naming HarborPerms HarborClient Api RobotSecret.

Definition FinalizerName : string := "harbor.aetherize.io/robot".
Definition PasswordRotationInterval : Duration := 24 * Hour.
Definition RotationSafetyMargin : Duration := Minute.
Definition ResyncInterval : Duration := Hour.
Definition HarborAccessNameMaxLen : Z := 63.

Definition robotDescriptionTag : string := "managed-by=" +:+ LabelManagedByValue.
Definition robotSuspendedToken : string := "suspended=true".

Definition RobotDescription (cluster haNamespace haName : string) : string :=
  robotDescriptionTag +:+ " cluster=" +:+ cluster +:+ " harboraccess=" +:+ haNamespace +:+ "/" +:+ haName.

Definition SuspendedRobotDescription (cluster haNamespace haName : string) : string :=
  RobotDescription cluster haNamespace haName +:+ " " +:+ robotSuspendedToken.

Definition RobotSuspended (description : string) : bool :=
  if negb (HasPrefix description (robotDescriptionTag +:+ " ")) then false
  else existsb (λ tok, String.eqb tok robotSuspendedToken) (Fields description).

(** The loop of [RobotBelongsToCluster]: the first cluster token decides. *)
Fixpoint cluster_token (cluster : string) (toks : list string) : bool :=
  match toks with
  | [] => false
  | tok :: toks =>
      match Cut tok "=" with
      | Some (k, v) => if String.eqb k "cluster" then String.eqb v cluster else cluster_token cluster toks
      | None => cluster_token cluster toks
      end
  end.

Definition RobotBelongsToCluster (description cluster : string) : bool :=
  if negb (HasPrefix description (robotDescriptionTag +:+ " ")) then false
  else cluster_token cluster (Fields description).

(** The loop of [ParseRobotDescription]: the first well-formed harboraccess token. *)
Fixpoint harboraccess_token (toks : list string) : option (string * string) :=
  match toks with
  | [] => None
  | tok :: toks =>
      match Cut tok "=" with
      | Some (k, v) =>
          if String.eqb k "harboraccess" then
            match Cut v "/" with
            | Some (ns, name) =>
                if negb (String.eqb ns "") && negb (String.eqb name "") then Some (ns, name)
                else harboraccess_token toks
            | None => harboraccess_token toks
            end
          else harboraccess_token toks
      | None => harboraccess_token toks
      end
  end.

Definition ParseRobotDescription (description : string) : option (string * string) :=
  if negb (HasPrefix description (robotDescriptionTag +:+ " ")) then None
  else harboraccess_token (Fields description).

(** [Some (ns, name, err)] for a robot with this bridge's description under a foreign
    name; [None] is the triple of empty strings and nil error. *)
Definition misnamedRobot (cluster : string) (robot : Robot) : option (string * string * gerr) :=
  if OwnsRobot cluster (Name robot) || OwnsLegacyRobot cluster (Name robot)
     || negb (RobotBelongsToCluster (Description robot) cluster)
  then None
  else match ParseRobotDescription (Description robot) with
       | None => None
       | Some (ns, name) => Some (ns, name, EWrap (WireName robot) (ESentinel ErrRobotPrefixMismatch))
       end.

Definition robotOwnedBy (cluster : string) (robot : Robot) (haNamespace haName : string) : bool :=
  if negb (OwnsRobot cluster (Name robot)) && negb (OwnsLegacyRobot cluster (Name robot)) then false
  else if negb (RobotBelongsToCluster (Description robot) cluster) then false
  else match ParseRobotDescription (Description robot) with
       | Some (ns, name) => String.eqb ns haNamespace && String.eqb name haName
       | None => false
       end.

(** ** Lemmas *)

Lemma robotDescriptionTag_graph : all_bytes is_graph robotDescriptionTag = true.
Proof. reflexivity. Qed.

(** The tokens of the descriptions the bridge writes. *)
Lemma RobotDescription_spaced cluster ns name rest :
  RobotDescription cluster ns name +:+ rest =
  robotDescriptionTag +:+ String space (("cluster=" +:+ cluster) +:+ String space
    (("harboraccess=" +:+ ns +:+ "/" +:+ name) +:+ rest)).
Proof. unfold RobotDescription, space. rewrite !str_app_assoc. reflexivity. Qed.

Section Tokens.
Context (cluster ns name : string).
Hypothesis Hc : all_bytes is_graph cluster = true.
Hypothesis Hns : all_bytes is_graph ns = true.
Hypothesis Hname : all_bytes is_graph name = true.

Lemma harboraccess_graph : all_bytes is_graph ("harboraccess=" +:+ ns +:+ "/" +:+ name) = true.
Proof. rewrite !all_bytes_app, Hns, Hname. reflexivity. Qed.

Lemma cluster_graph : all_bytes is_graph ("cluster=" +:+ cluster) = true.
Proof. rewrite all_bytes_app, Hc. reflexivity. Qed.

Lemma RobotDescription_Fields :
  Fields (RobotDescription cluster ns name) =
  [robotDescriptionTag; "cluster=" +:+ cluster; "harboraccess=" +:+ ns +:+ "/" +:+ name].
Proof.
  rewrite <- (str_app_nil_r (RobotDescription _ _ _)), RobotDescription_spaced, str_app_nil_r.
  rewrite Fields_cons, Fields_cons, Fields_single; auto using harboraccess_graph, cluster_graph, robotDescriptionTag_graph.
Qed.

Lemma SuspendedRobotDescription_Fields :
  Fields (SuspendedRobotDescription cluster ns name) =
  [robotDescriptionTag; "cluster=" +:+ cluster; "harboraccess=" +:+ ns +:+ "/" +:+ name; robotSuspendedToken].
Proof.
  unfold SuspendedRobotDescription. rewrite RobotDescription_spaced.
  change (" " +:+ robotSuspendedToken) with (String space robotSuspendedToken).
  rewrite Fields_cons, Fields_cons, Fields_cons, Fields_single;
    auto using harboraccess_graph, cluster_graph, robotDescriptionTag_graph.
Qed.

Lemma RobotDescription_prefix rest :
  HasPrefix (RobotDescription cluster ns name +:+ rest) (robotDescriptionTag +:+ " ") = true.
Proof.
  rewrite RobotDescription_spaced. apply HasPrefix_spec. eexists.
  rewrite str_app_assoc. reflexivity.
Qed.
End Tokens.

Lemma Cut_lit_app k v : ContainsByte k "=" = false → Cut (k +:+ "=" +:+ v) "=" = Some (k, v).
Proof. rewrite app_cons, app_nil_l. apply Cut_app. Qed.

(** The identities a description can carry: printable, no '/' in the namespace, both
    parts present. Kubernetes names are. *)
Record describable (cluster ns name : string) : Prop := {
  d_cluster : all_bytes is_graph cluster = true;
  d_ns : all_bytes is_graph ns = true;
  d_name : all_bytes is_graph name = true;
  d_slash : ContainsByte ns "/" = false;
  d_ns_ne : ns ≠ EmptyString;
  d_name_ne : name ≠ EmptyString
}.

Lemma harboraccess_token_written cluster ns name rest :
  describable cluster ns name →
  harboraccess_token (robotDescriptionTag :: ("cluster=" +:+ cluster) :: ("harboraccess=" +:+ ns +:+ "/" +:+ name) :: rest)
  = Some (ns, name).
Proof.
  intros []. cbn [harboraccess_token]. change (Cut robotDescriptionTag "=") with (Some ("managed-by", LabelManagedByValue)).
  change ("cluster=" +:+ cluster) with ("cluster" +:+ "=" +:+ cluster). rewrite Cut_lit_app by done.
  change ("harboraccess=" +:+ ns +:+ "/" +:+ name) with ("harboraccess" +:+ "=" +:+ ns +:+ "/" +:+ name).
  rewrite Cut_lit_app by done. simpl String.eqb. cbv iota.
  rewrite app_cons, app_nil_l, Cut_app by done.
  apply String.eqb_neq in d_ns_ne0 as ->, d_name_ne0 as ->. done.
Qed.

Lemma cluster_token_written cluster c rest :
  cluster_token c (robotDescriptionTag :: ("cluster=" +:+ cluster) :: rest) = String.eqb cluster c.
Proof.
  cbn [cluster_token]. change (Cut robotDescriptionTag "=") with (Some ("managed-by", LabelManagedByValue)).
  change ("cluster=" +:+ cluster) with ("cluster" +:+ "=" +:+ cluster). rewrite Cut_lit_app by done. reflexivity.
Qed.

Lemma suspended_prefix cluster ns name :
  HasPrefix (RobotDescription cluster ns name) (robotDescriptionTag +:+ " ") = true ∧
  HasPrefix (SuspendedRobotDescription cluster ns name) (robotDescriptionTag +:+ " ") = true.
Proof.
  split; [|apply RobotDescription_prefix].
  rewrite <- (str_app_nil_r (RobotDescription _ _ _)). apply RobotDescription_prefix.
Qed.

Lemma description_reads cluster ns name c :
  describable cluster ns name →
  ParseRobotDescription (RobotDescription cluster ns name) = Some (ns, name) ∧
  ParseRobotDescription (SuspendedRobotDescription cluster ns name) = Some (ns, name) ∧
  RobotBelongsToCluster (RobotDescription cluster ns name) c = String.eqb cluster c ∧
  RobotBelongsToCluster (SuspendedRobotDescription cluster ns name) c = String.eqb cluster c.
Proof.
  intros Hd. destruct (suspended_prefix cluster ns name) as [Hp Hp'].
  unfold ParseRobotDescription, RobotBelongsToCluster. rewrite Hp, Hp'.
  rewrite RobotDescription_Fields, SuspendedRobotDescription_Fields by apply Hd.
  rewrite !cluster_token_written, !harboraccess_token_written by done. by split_and!.
Qed.

(** What the bridge writes on a robot reads back. The plain and the suspended
    description both name exactly their HarborAccess and belong to exactly their
    cluster, and only the suspended one carries the suspension, which tells the
    bridge's own disable apart from an administrator's. *)
Theorem description_roundtrip cluster ns name c :
  describable cluster ns name →
  ParseRobotDescription (RobotDescription cluster ns name) = Some (ns, name) ∧
  ParseRobotDescription (SuspendedRobotDescription cluster ns name) = Some (ns, name) ∧
  RobotBelongsToCluster (RobotDescription cluster ns name) c = String.eqb cluster c ∧
  RobotBelongsToCluster (SuspendedRobotDescription cluster ns name) c = String.eqb cluster c ∧
  RobotSuspended (RobotDescription cluster ns name) = false ∧
  RobotSuspended (SuspendedRobotDescription cluster ns name) = true.
Proof.
  intros Hd. destruct (description_reads cluster ns name c Hd) as (? & ? & ? & ?). split_and!; try done;
    destruct (suspended_prefix cluster ns name) as [Hp Hp']; unfold RobotSuspended; rewrite ?Hp, ?Hp';
    by rewrite ?RobotDescription_Fields, ?SuspendedRobotDescription_Fields by apply Hd.
Qed.

Lemma description_roundtrip_witness :
  ParseRobotDescription (RobotDescription "prod" "team-a" "app") = Some ("team-a", "app") ∧
  ParseRobotDescription (SuspendedRobotDescription "prod" "team-a" "app") = Some ("team-a", "app") ∧
  RobotBelongsToCluster (RobotDescription "prod" "team-a" "app") "prod-eu" = String.eqb "prod" "prod-eu" ∧
  RobotBelongsToCluster (SuspendedRobotDescription "prod" "team-a" "app") "prod-eu" = String.eqb "prod" "prod-eu" ∧
  RobotSuspended (RobotDescription "prod" "team-a" "app") = false ∧
  RobotSuspended (SuspendedRobotDescription "prod" "team-a" "app") = true.
Proof. apply description_roundtrip. by constructor. Defined.

(** The three layers. *)
Lemma robotOwnedBy_spec cluster r ns name :
  robotOwnedBy cluster r ns name = true ↔
  (OwnsRobot cluster (Name r) = true ∨ OwnsLegacyRobot cluster (Name r) = true) ∧
  RobotBelongsToCluster (Description r) cluster = true ∧
  ParseRobotDescription (Description r) = Some (ns, name).
Proof.
  unfold robotOwnedBy.
  destruct (OwnsRobot cluster (Name r)), (OwnsLegacyRobot cluster (Name r)),
    (RobotBelongsToCluster (Description r) cluster); simpl;
    try (split; [done|]; intros (?&?&?); destruct_or?; done);
    (destruct (ParseRobotDescription (Description r)) as [[a b]|];
      [rewrite andb_true_iff, !String.eqb_eq; split; [intros [-> ->]; auto|intros (_ & _ & [= -> ->]); done]
      |split; [done|intros (_ & _ & ?); done]]).
Qed.

Lemma RobotBelongsToCluster_inj d c c' :
  RobotBelongsToCluster d c = true → RobotBelongsToCluster d c' = true → c = c'.
Proof.
  unfold RobotBelongsToCluster. destruct (HasPrefix d _); [|done]. simpl.
  induction (Fields d) as [|tok toks IH]; [done|]. cbn [cluster_token].
  destruct (Cut tok "=") as [[k v]|]; [|done]. destruct (String.eqb k "cluster"); [|done].
  rewrite !String.eqb_eq. congruence.
Qed.

(** Ownership of a robot is exclusive. At most one HarborAccess of at most one
    cluster owns a robot, and a robot reported as misnamed is owned by none: the
    bridge either may delete it or must report it, never both. *)
Theorem robotOwnedBy_exclusive c ns name c' ns' name' r :
  robotOwnedBy c r ns name = true →
  (robotOwnedBy c' r ns' name' = true → c' = c ∧ ns' = ns ∧ name' = name) ∧ misnamedRobot c r = None.
Proof.
  rewrite !robotOwnedBy_spec. intros (Hn & Hb & Hp). split.
  - intros (_ & Hb' & Hp'). rewrite Hp in Hp'. injection Hp' as <- <-.
    split; [by eapply RobotBelongsToCluster_inj|done].
  - unfold misnamedRobot. by destruct Hn as [->| ->]; rewrite ?orb_true_r.
Qed.

Definition owned_robot : Robot :=
  MkRobot 7 "bridge-prod.a.b" "robot$bridge-prod.a.b" (RobotDescription "prod" "team-a" "app") false (-1) [] false "".

Lemma robotOwnedBy_exclusive_witness :
  (robotOwnedBy "prod-eu" owned_robot "team-a" "app" = true → "prod-eu" = "prod" ∧ "team-a" = "team-a" ∧ "app" = "app")
  ∧ misnamedRobot "prod" owned_robot = None.
Proof. apply robotOwnedBy_exclusive. reflexivity. Defined.

Lemma misnamedRobot_spec cluster r ns name e :
  misnamedRobot cluster r = Some (ns, name, e) →
  OwnsRobot cluster (Name r) = false ∧ OwnsLegacyRobot cluster (Name r) = false ∧
  ParseRobotDescription (Description r) = Some (ns, name) ∧ errors_Is e ErrRobotPrefixMismatch = true.
Proof.
  unfold misnamedRobot. destruct (OwnsRobot cluster (Name r)); [done|].
  destruct (OwnsLegacyRobot cluster (Name r)); [done|]. simpl.
  destruct (RobotBelongsToCluster (Description r) cluster); [|done].
  destruct (ParseRobotDescription (Description r)) as [[a b]|]; [|done]. by intros [= -> -> <-].
Qed.

(** ** Ownership in terms of the text Harbor holds *)

(** The name carries this cluster's prefix; or it is one of the names used before
    the dot-delimited ones. *)
Definition named_for (cluster n : string) : Prop :=
  cluster ≠ EmptyString ∧ ∃ rest, n = "bridge-" +:+ cluster +:+ "." +:+ rest.
Definition named_before (cluster n : string) : Prop :=
  cluster ≠ EmptyString ∧ ∃ rest, n = "bridge-" +:+ cluster +:+ "-" +:+ rest ∧ rest ≠ EmptyString ∧ ContainsByte rest "." = false.

(** The description is one the bridge writes, and [w] is one of its words. *)
Definition says (d w : string) : Prop :=
  (∃ rest, d = "managed-by=harbor-workload-identity-bridge " +:+ rest) ∧ w ∈ Fields d.
Definition of_cluster (cluster d : string) : Prop := says d ("cluster=" +:+ cluster).
Definition of_access (ns name d : string) : Prop := says d ("harboraccess=" +:+ ns +:+ "/" +:+ name).

(** A robot of [cluster] for the HarborAccess [ns]/[name]. *)
Definition robot_of (cluster ns name : string) (r : Robot) : Prop :=
  (named_for cluster (Name r) ∨ named_before cluster (Name r)) ∧
  of_cluster cluster (Description r) ∧ of_access ns name (Description r).

Lemma OwnsRobot_named cluster n : OwnsRobot cluster n = true ↔ named_for cluster n.
Proof.
  unfold OwnsRobot, named_for. destruct (String.eqb_spec cluster ""); [naive_solver|]. rewrite HasPrefix_spec.
  unfold ClusterPrefix, robotNamePrefix. setoid_rewrite str_app_assoc. setoid_rewrite str_app_assoc. naive_solver.
Qed.

Lemma OwnsLegacyRobot_named cluster n : OwnsLegacyRobot cluster n = true ↔ named_before cluster n.
Proof.
  unfold OwnsLegacyRobot, named_before. destruct (String.eqb_spec cluster ""); [naive_solver|].
  destruct (CutPrefix n _) as [rest|] eqn:E.
  - rewrite andb_true_iff, !negb_true_iff, String.eqb_neq, Contains_byte. apply CutPrefix_Some in E as ->.
    unfold robotNamePrefix. rewrite !str_app_assoc. split; [naive_solver|].
    intros (_ & rest' & E & ?). by apply str_app_inv_l, str_app_inv_l, str_app_inv_l in E as <-.
  - split; [done|]. intros (_ & rest & -> & _). unfold robotNamePrefix in E.
    rewrite (proj2 (CutPrefix_Some _ _ rest)) in E; [done|]. by rewrite !str_app_assoc.
Qed.

Lemma cluster_token_in cluster toks : cluster_token cluster toks = true → ("cluster=" +:+ cluster) ∈ toks.
Proof.
  induction toks as [|tok toks IH]; [done|]. cbn [cluster_token].
  destruct (Cut tok "=") as [[k v]|] eqn:E; [|intros; right; auto].
  destruct (String.eqb_spec k "cluster") as [->|]; [|intros; right; auto].
  intros ->%String.eqb_eq. apply Cut_Some in E as [-> _]. left.
Qed.

Lemma harboraccess_token_in toks ns name :
  harboraccess_token toks = Some (ns, name) → ("harboraccess=" +:+ ns +:+ "/" +:+ name) ∈ toks.
Proof.
  induction toks as [|tok toks IH]; [done|]. cbn [harboraccess_token].
  destruct (Cut tok "=") as [[k v]|] eqn:E; [|intros; right; auto].
  destruct (String.eqb_spec k "harboraccess") as [->|]; [|intros; right; auto].
  destruct (Cut v "/") as [[a b]|] eqn:E'; [|intros; right; auto].
  destruct (negb _ && negb _); [|intros; right; auto].
  intros [= -> ->]. apply Cut_Some in E as [-> _], E' as [-> _]. left.
Qed.

Lemma harboraccess_token_none toks ns name :
  harboraccess_token toks = None → ns ≠ EmptyString → name ≠ EmptyString → ContainsByte ns "/" = false →
  ("harboraccess=" +:+ ns +:+ "/" +:+ name) ∉ toks.
Proof.
  intros Hn H1 H2 H3. induction toks as [|tok toks IH]; [by intros ?%elem_of_nil|].
  intros [<-|Hin]%elem_of_cons; cbn [harboraccess_token] in Hn.
  - change ("harboraccess=" +:+ ns +:+ "/" +:+ name) with ("harboraccess" +:+ "=" +:+ (ns +:+ "/" +:+ name)) in Hn.
    rewrite Cut_lit_app in Hn by done. cbv iota beta in Hn. rewrite String.eqb_refl in Hn.
    change (ns +:+ "/" +:+ name) with (ns +:+ String "/" name) in Hn. rewrite Cut_app in Hn by done.
    apply String.eqb_neq in H1, H2. by rewrite H1, H2 in Hn.
  - apply IH; [|done]. destruct (Cut tok "=") as [[k v]|]; [|done]. destruct (String.eqb k _); [|done].
    destruct (Cut v "/") as [[a b]|]; [|done]. by destruct (negb _ && negb _).
Qed.

Lemma tagged_prefix d : HasPrefix d (robotDescriptionTag +:+ " ") = true →
  ∃ rest, d = "managed-by=harbor-workload-identity-bridge " +:+ rest.
Proof. intros [t ->]%HasPrefix_spec. by exists t. Qed.

Lemma RobotBelongsToCluster_says d cluster : RobotBelongsToCluster d cluster = true → of_cluster cluster d.
Proof.
  unfold RobotBelongsToCluster. destruct (HasPrefix d _) eqn:E; [|done]. intros H. split; [by apply tagged_prefix|].
  by apply cluster_token_in.
Qed.

Lemma ParseRobotDescription_says d ns name : ParseRobotDescription d = Some (ns, name) → of_access ns name d.
Proof.
  unfold ParseRobotDescription. destruct (HasPrefix d _) eqn:E; [|done]. intros H. split; [by apply tagged_prefix|].
  by apply harboraccess_token_in.
Qed.

Lemma robotOwnedBy_text cluster r ns name : robotOwnedBy cluster r ns name = true → robot_of cluster ns name r.
Proof.
  intros (Hn & Hb & Hp)%robotOwnedBy_spec. split_and!; [|by apply RobotBelongsToCluster_says|by apply ParseRobotDescription_says].
  by rewrite <- OwnsRobot_named, <- OwnsLegacyRobot_named.
Qed.

(** A description that names no HarborAccess but possibly [ns]/[name]. *)
Definition not_of_other (ns name d : string) : Prop :=
  of_access ns name d ∨
  ∀ ns' name', ns' ≠ EmptyString → name' ≠ EmptyString → ContainsByte ns' "/" = false → ¬ of_access ns' name' d.

Lemma Parse_not_of_other ns name d :
  (∀ k, ParseRobotDescription d = Some k → k = (ns, name)) → not_of_other ns name d.
Proof.
  intros H. destruct (ParseRobotDescription d) as [k|] eqn:E.
  - left. apply ParseRobotDescription_says. by rewrite E, (H k).
  - right. intros ns' name' ? ? ? [[rest ->] Hin]. unfold ParseRobotDescription in E.
    change (robotDescriptionTag +:+ " ") with "managed-by=harbor-workload-identity-bridge " in E.
    rewrite HasPrefix_app in E. simpl negb in E. cbv iota in E. by eapply harboraccess_token_none in E.
Qed.
