(* ===== verification/Config.v ===== *)
(** * Bridge configuration

    Models the parts of bridge/controlplane/config.go every other component uses:
    the configuration record, which HarborAccess objects the bridge manages, and the
    finalizers it sets and releases. A label selector is a Go interface value; it is
    the record of the methods the bridge calls. *)

From S2P Require Import Prelude GoStrings GoTime Naming HarborClient Api RobotSecret Contract.

(** [labels.Selector]. *)
Record Selector := MkSelector { SelEmpty : bool; SelMatches : gmap string string → bool; SelString : string }.

(** [*url.URL], as far as the bridge looks at one: its scheme, user part and host, what
    follows the host (the escaped path, the query and the escaped fragment), and its text
    for a given user part. *)
Record URL := MkURL { UScheme : string; UUser : option string; UHost : string; UAfterHost : string; UText : option string → string }.

(** [u.String()]. *)
Definition UString (u : URL) : string := UText u (UUser u).

Record Config := MkConfig {
  ClusterName : string; CfgNamespace : string; OIDCIssuer : URL; OIDCJWKSURL : option URL;
  OIDCCAFile : string; OIDCTokenFile : string; HarborURL : URL; HarborAdminDir : string;
  HarborRobotPrefix : string; ForceLocalValidation : bool; LogLevel : string; HarborCAFile : string;
  HarborAllowHTTP : bool; CfgAudience : string; HarborAccessSelector : option Selector;
  CfgInstance : string; TokenMaxLifetime : Duration; RequirePodBoundToken : bool
}.

Section Methods.
Variable c : Config.

Definition selective : bool :=
  match HarborAccessSelector c with Some s => negb (SelEmpty s) | None => false end.

Definition Selects (ha : HarborAccess) : bool :=
  negb selective ||
  match HarborAccessSelector c with Some s => SelMatches s (Labels (Meta ha)) | None => false end.

Definition Finalizer : string :=
  if negb selective then FinalizerName else FinalizerName +:+ "-" +:+ CfgInstance c.

Definition ReleasedFinalizers : list string :=
  if selective then [Finalizer; FinalizerName]
  else if negb (String.eqb (CfgInstance c) "") then [FinalizerName; FinalizerName +:+ "-" +:+ CfgInstance c]
  else [FinalizerName].

Definition statusRobotIsOurs (ha : HarborAccess) : bool :=
  match SRobot (Status ha) with
  | None => true
  | Some r => OwnsRobot (ClusterName c) (TrimPrefix (RName r) (HarborRobotPrefix c))
  end.

(** The bridge releases the finalizer it sets. *)
Lemma Finalizer_released : Finalizer ∈ ReleasedFinalizers.
Proof.
  unfold ReleasedFinalizers. destruct selective eqn:E; [left|].
  unfold Finalizer. rewrite E. destruct (negb (String.eqb (CfgInstance c) "")); left.
Qed.
End Methods.

(** A bridge with a selector and an instance name never sets the finalizer of a
    bridge without one, nor that of another instance. *)
Lemma Finalizer_distinct c c' :
  selective c = true → CfgInstance c ≠ CfgInstance c' ∨ selective c' = false → Finalizer c ≠ Finalizer c'.
Proof.
  unfold Finalizer. intros ->. intros [Hne| ->]; simpl.
  - destruct (selective c'); simpl.
    + intros E. apply Hne. by repeat apply str_app_inv_l in E.
    + intros E. by apply (f_equal String.length) in E.
  - intros E. by apply (f_equal String.length) in E.
Qed.
