(* ===== verification/ConfigLoad.v ===== *)
(** * Loading the bridge's configuration

    [LoadFromEnv] of bridge/controlplane/config.go with its helpers, and what the bridge logs
    of the result ([Sanitized]). Two properties: a configuration that loads is one the other
    components can work with, and nothing the bridge prints at startup depends on a
    credential written into one of its URLs.

    [net/url.Parse] and [labels.Parse] are parameters. The texts of the errors that a URL
    setting can produce are kept, with the parts of the value they repeat; the other texts
    are shortened. *)

From S2P Require Import Prelude GoStrings GoStd GoTime GoDuration Naming HarborClient Api RobotSecret Contract Config.

(** ** The standard library *)

(** [strconv.ParseBool]. *)
Definition ParseBool (s : string) : option bool :=
  if existsb (String.eqb s) ["1"; "t"; "T"; "TRUE"; "true"; "True"] then Some true
  else if existsb (String.eqb s) ["0"; "f"; "F"; "FALSE"; "false"; "False"] then Some false
  else None.

Definition FormatBool (b : bool) : string := if b then "true" else "false".

(** [errors.Join] of a list that is not empty. *)
Fixpoint errors_Join (errs : list gerr) : gerr :=
  match errs with
  | [] => EMsg ""
  | [e] => e
  | e :: errs => EJoin e (errors_Join errs)
  end.

(** ** Names and limits *)

Definition EnvClusterName : string := "BRIDGE_CLUSTER_NAME".
Definition EnvNamespace : string := "BRIDGE_NAMESPACE".
Definition EnvOIDCIssuer : string := "BRIDGE_OIDC_ISSUER".
Definition EnvOIDCJWKSURL : string := "BRIDGE_OIDC_JWKS_URL".
Definition EnvOIDCCAFile : string := "BRIDGE_OIDC_CA_FILE".
Definition EnvOIDCTokenFile : string := "BRIDGE_OIDC_TOKEN_FILE".
Definition EnvHarborURL : string := "BRIDGE_HARBOR_URL".
Definition EnvHarborAdminDir : string := "BRIDGE_HARBOR_ADMIN_DIR".
Definition EnvHarborRobotPrefix : string := "BRIDGE_HARBOR_ROBOT_PREFIX".
Definition EnvHarborCAFile : string := "BRIDGE_HARBOR_CA_FILE".
Definition EnvHarborAllowHTTP : string := "BRIDGE_HARBOR_ALLOW_INSECURE_HTTP".
Definition EnvForceLocalValidation : string := "BRIDGE_FORCE_LOCAL_VALIDATION".
Definition EnvLogLevel : string := "BRIDGE_LOG_LEVEL".
Definition EnvAudience : string := "BRIDGE_AUDIENCE".
Definition EnvHarborAccessSelector : string := "BRIDGE_HARBORACCESS_SELECTOR".
Definition EnvInstance : string := "BRIDGE_INSTANCE".
Definition EnvTokenMaxLifetime : string := "BRIDGE_TOKEN_MAX_LIFETIME".
Definition EnvRequirePodBoundToken : string := "BRIDGE_REQUIRE_POD_BOUND_TOKEN".

Definition instanceMaxLen : Z := 50.
Definition audienceMaxLen : Z := 253.
Definition clusterNameMaxLen : Z := 63.
Definition defaultLogLevel : string := "info".
Definition defaultTokenMaxLifetime : Duration := Hour.
Definition validLogLevels : list string := ["debug"; "info"; "warn"; "error"].

(** The variables that hold URLs. *)
Definition url_variables : list string := [EnvOIDCIssuer; EnvOIDCJWKSURL; EnvHarborURL].

Section Load.
Context (ParseURL : string → res URL) (ParseSelector : string → res Selector).

(** ** URLs *)

Definition requireURL (raw name : string) : res URL :=
  let raw := TrimSpace raw in
  if String.eqb raw "" then Err (EMsg (name +:+ " is required"))
  else
    let hasAt := ContainsByte raw "@" in
    match ParseURL raw with
    | Err e =>
        if hasAt then Err (EMsg (name +:+ " is not a valid URL (the parser's reason is left out)"))
        else Err (EWrap (name +:+ " is not a valid URL") e)
    | Ok u =>
        if negb (String.eqb (UScheme u) "http") && negb (String.eqb (UScheme u) "https") then
          if hasAt then Err (EMsg (name +:+ " must use http or https scheme"))
          else Err (EMsg (name +:+ " must use http or https scheme (got scheme " +:+ UScheme u +:+ ")"))
        else if String.eqb (UHost u) "" then Err (EMsg (name +:+ " must include a host"))
        else if ContainsByte (UAfterHost u) "@" then Err (EMsg (name +:+ " has an '@' after its host part"))
        else Ok u
    end.

Definition redactURL (u : option URL) : string :=
  match u with
  | None => ""
  | Some u =>
      match UUser u with
      | None => UString u
      | Some _ => UText u (Some "xxxxx")
      end
  end.

Section Env.
Context (getenv : string → string).

Definition envBoolOr (key : string) (def : bool) : bool := default def (ParseBool (TrimSpace (getenv key))).

(** ** The settings, one by one *)

Definition label_errors (key name : string) : list gerr :=
  if String.eqb name "" then [EMsg (key +:+ " is required")]
  else if len name >? clusterNameMaxLen then [EMsg (key +:+ " exceeds the DNS-label limit")]
  else if negb (match_label name) then [EMsg (key +:+ " must be a DNS label")]
  else [].

Definition cluster_errors (name : string) : list gerr :=
  match label_errors EnvClusterName name with
  | [] => if Contains name "--" then [EMsg (EnvClusterName +:+ " must not contain consecutive hyphens")] else []
  | errs => errs
  end.

Definition issuer_setting : res URL :=
  match requireURL (getenv EnvOIDCIssuer) EnvOIDCIssuer with
  | Err e => Err e
  | Ok u => match UUser u with Some _ => Err (EMsg (EnvOIDCIssuer +:+ " must not contain credentials")) | None => Ok u end
  end.

Definition jwks_setting : res (option URL) :=
  let raw := TrimSpace (getenv EnvOIDCJWKSURL) in
  if String.eqb raw "" then Ok None else res_map Some (requireURL raw EnvOIDCJWKSURL).

Definition harbor_setting (allowHTTP : bool) : res URL :=
  match requireURL (getenv EnvHarborURL) EnvHarborURL with
  | Err e => Err e
  | Ok u =>
      match UUser u with
      | Some _ => Err (EMsg (EnvHarborURL +:+ " must not contain credentials"))
      | None =>
          if String.eqb (UScheme u) "http" && negb allowHTTP
          then Err (EMsg (EnvHarborURL +:+ " " +:+ redactURL (Some u) +:+ " uses plain http"))
          else Ok u
      end
  end.

Definition bool_setting (key : string) (def : bool) : res bool :=
  let raw := getenv key in
  if String.eqb raw "" then Ok def
  else match ParseBool raw with Some b => Ok b | None => Err (EMsg (key +:+ " must be a boolean")) end.

Definition lifetime_setting : res Duration :=
  let raw := TrimSpace (getenv EnvTokenMaxLifetime) in
  if String.eqb raw "" then Ok defaultTokenMaxLifetime
  else match ParseDuration raw with
  | Err _ => Err (EMsg (EnvTokenMaxLifetime +:+ " must be a duration such as 1h"))
  | Ok v => if v <=? 0 then Err (EMsg (EnvTokenMaxLifetime +:+ " must be positive")) else Ok v
  end.

Definition loglevel_setting : res string :=
  let raw := TrimSpace (getenv EnvLogLevel) in
  if String.eqb raw "" then Ok defaultLogLevel
  else if existsb (String.eqb raw) validLogLevels then Ok raw
  else Err (EMsg (EnvLogLevel +:+ " must be one of debug, info, warn, error")).

Definition audience_errors (audience : string) : list gerr :=
  if String.eqb audience "" then [EMsg (EnvAudience +:+ " is required")]
  else if len audience >? audienceMaxLen then [EMsg (EnvAudience +:+ " is too long")]
  else [].

Definition selector_setting : res (option Selector) :=
  let raw := TrimSpace (getenv EnvHarborAccessSelector) in
  if String.eqb raw "" then Ok None
  else match ParseSelector raw with Ok s => Ok (Some s) | Err e => Err (EWrap EnvHarborAccessSelector e) end.

Definition instance_errors (sel : option Selector) (inst : string) : list gerr :=
  let selective := match sel with Some s => negb (SelEmpty s) | None => false end in
  if selective && String.eqb inst "" then [EMsg (EnvInstance +:+ " is required with a selector")]
  else if negb (String.eqb inst "") && ((len inst >? instanceMaxLen) || negb (match_label inst))
  then [EMsg (EnvInstance +:+ " must be a DNS label")]
  else [].

Definition errs_of {A} (r : res A) : list gerr := match r with Ok _ => [] | Err e => [e] end.

(** ** [LoadFromEnv] *)

Definition load_errors : list gerr :=
  cluster_errors (TrimSpace (getenv EnvClusterName)) ++
  label_errors EnvNamespace (TrimSpace (getenv EnvNamespace)) ++
  errs_of issuer_setting ++ errs_of jwks_setting ++
  errs_of (harbor_setting (envBoolOr EnvHarborAllowHTTP false)) ++
  (if String.eqb (TrimSpace (getenv EnvHarborAdminDir)) "" then [EMsg (EnvHarborAdminDir +:+ " is required")] else []) ++
  errs_of (bool_setting EnvForceLocalValidation true) ++ errs_of lifetime_setting ++
  errs_of (bool_setting EnvRequirePodBoundToken true) ++ errs_of loglevel_setting ++
  audience_errors (TrimSpace (getenv EnvAudience)) ++ errs_of selector_setting ++
  instance_errors (match selector_setting with Ok s => s | Err _ => None end) (TrimSpace (getenv EnvInstance)).

Definition LoadFromEnv : res Config :=
  let failed := Err (EWrap "invalid bridge configuration" (errors_Join load_errors)) in
  let allowHTTP := envBoolOr EnvHarborAllowHTTP false in
  let prefix := TrimSpace (getenv EnvHarborRobotPrefix) in
  match load_errors, issuer_setting, jwks_setting, harbor_setting allowHTTP,
        bool_setting EnvForceLocalValidation true, lifetime_setting, bool_setting EnvRequirePodBoundToken true,
        loglevel_setting, selector_setting with
  | [], Ok issuer, Ok jwks, Ok url, Ok force, Ok lifetime, Ok podBound, Ok level, Ok sel =>
      Ok (MkConfig (TrimSpace (getenv EnvClusterName)) (TrimSpace (getenv EnvNamespace)) issuer jwks
        (TrimSpace (getenv EnvOIDCCAFile)) (TrimSpace (getenv EnvOIDCTokenFile)) url (TrimSpace (getenv EnvHarborAdminDir))
        (if String.eqb prefix "" then DefaultRobotPrefix else prefix) force level (TrimSpace (getenv EnvHarborCAFile))
        allowHTTP (TrimSpace (getenv EnvAudience)) sel (TrimSpace (getenv EnvInstance)) lifetime podBound)
  | _, _, _, _, _, _, _, _, _ => failed
  end.
End Env.

(** ** What the bridge logs of its configuration *)

Definition set_if (b : bool) (k v : string) (m : gmap string string) : gmap string string := if b then <[k := v]> m else m.

Definition Sanitized (c : Config) : gmap string string :=
  let out : gmap string string := list_to_map [
    (EnvClusterName, ClusterName c); (EnvNamespace, CfgNamespace c); (EnvOIDCIssuer, redactURL (Some (OIDCIssuer c)));
    (EnvHarborURL, redactURL (Some (HarborURL c))); (EnvHarborAdminDir, HarborAdminDir c);
    (EnvHarborRobotPrefix, HarborRobotPrefix c); (EnvForceLocalValidation, FormatBool (ForceLocalValidation c));
    (EnvLogLevel, LogLevel c); (EnvAudience, CfgAudience c); (EnvHarborAllowHTTP, FormatBool (HarborAllowHTTP c));
    (EnvTokenMaxLifetime, DurationString (TokenMaxLifetime c)); (EnvRequirePodBoundToken, FormatBool (RequirePodBoundToken c))] in
  let out := set_if (negb (String.eqb (HarborCAFile c) "")) EnvHarborCAFile (HarborCAFile c) out in
  let out := set_if (selective c) EnvHarborAccessSelector (match HarborAccessSelector c with Some s => SelString s | None => "" end) out in
  let out := set_if (selective c) EnvInstance (CfgInstance c) out in
  let out := set_if (match OIDCJWKSURL c with Some _ => true | None => false end) EnvOIDCJWKSURL (redactURL (OIDCJWKSURL c)) out in
  let out := set_if (negb (String.eqb (OIDCCAFile c) "")) EnvOIDCCAFile (OIDCCAFile c) out in
  set_if (negb (String.eqb (OIDCTokenFile c) "")) EnvOIDCTokenFile (OIDCTokenFile c) out.

(** Everything startup prints: the configuration it logs, or the error. *)
Definition shown (r : res Config) : gmap string string + gerr :=
  match r with Ok c => inl (Sanitized c) | Err e => inr e end.
End Load.

(** ** A loaded configuration works *)

Lemma label_segments_rest s : ∀ b, match_label_rest b s = true → Contains (if b then s else String "-" s) "--" = false →
  match_segments (negb b) s = true.
Proof.
  induction s as [|c s IH]; intros b; cbn [match_label_rest match_segments]; [by destruct b|].
  destruct (is_alnum c) eqn:Ha.
  - intros Hr Hc. apply (IH true Hr). destruct b; [|cbn [Contains] in Hc]; bsimpl; cbn [Contains] in *; by bsimpl.
  - intros [Hd Hr]%andb_true_iff Hc. apply Ascii.eqb_eq in Hd as ->. change (is_sep "-") with true. cbn [andb].
    destruct b; cbn [negb]; [|by cbn in Hc]. apply (IH false Hr). done.
Qed.

(** A label without two adjacent hyphens is a segment Harbor accepts. *)
Lemma label_segments s : match_label s = true → Contains s "--" = false → match_segments true s = true.
Proof.
  destruct s as [|c s]; [done|]. cbn [match_label match_segments]. intros [-> Hr]%andb_true_iff Hc.
  apply (label_segments_rest s true Hr). cbn [Contains] in Hc. by bsimpl.
Qed.

Lemma label_errors_nil key name : label_errors key name = [] → match_label name = true ∧ len name ≤ clusterNameMaxLen.
Proof. unfold label_errors. destruct (String.eqb name ""); [done|]. destruct (Z.gtb_spec (len name) clusterNameMaxLen); [done|]. by destruct (match_label name). Qed.

Lemma cluster_errors_nil name : cluster_errors name = [] →
  match_label name = true ∧ len name ≤ clusterNameMaxLen ∧ match_segments true name = true.
Proof.
  unfold cluster_errors. destruct (label_errors _ name) eqn:E; [|done]. apply label_errors_nil in E as [Hm Hl].
  destruct (Contains name "--") eqn:Hc; [done|]. intros _. split_and!; [done..|by apply label_segments].
Qed.

Section Loaded.
Context (ParseURL : string → res URL) (ParseSelector : string → res Selector) (getenv : string → string).
Notation LoadFromEnv := (LoadFromEnv ParseURL ParseSelector).

Lemma LoadFromEnv_inv c : LoadFromEnv getenv = Ok c →
  load_errors ParseURL ParseSelector getenv = [] ∧
  ClusterName c = TrimSpace (getenv EnvClusterName) ∧ CfgNamespace c = TrimSpace (getenv EnvNamespace) ∧
  CfgAudience c = TrimSpace (getenv EnvAudience) ∧ CfgInstance c = TrimSpace (getenv EnvInstance) ∧
  issuer_setting ParseURL getenv = Ok (OIDCIssuer c) ∧ harbor_setting ParseURL getenv (HarborAllowHTTP c) = Ok (HarborURL c) ∧
  lifetime_setting getenv = Ok (TokenMaxLifetime c) ∧ selector_setting ParseSelector getenv = Ok (HarborAccessSelector c).
Proof.
  unfold ConfigLoad.LoadFromEnv. destruct (load_errors _ _ _) eqn:He; [|done].
  do 8 (case_match; [|done]). by intros [= <-].
Qed.

Lemma requireURL_Ok raw name u : requireURL ParseURL raw name = Ok u → (UScheme u = "http" ∨ UScheme u = "https") ∧ UHost u ≠ "".
Proof.
  unfold requireURL. destruct (String.eqb _ ""); [done|]. destruct (ParseURL _) as [v|]; [|by case_match].
  destruct (String.eqb_spec (UScheme v) "http"), (String.eqb_spec (UScheme v) "https"); cbn [negb andb]; [..|by case_match];
    (destruct (String.eqb_spec (UHost v) ""); [done|]); case_match; try done; intros [= <-]; auto.
Qed.

(** What every component may assume of the configuration. *)
Record serviceable (c : Config) : Prop := {
  sv_robots : ∀ ns sa, match_label ns = true → len ns ≤ 63 → match_label sa = true →
    match_segments true ns = true → match_segments true sa = true → ∃ n, RobotName (ClusterName c) ns sa = Ok n;
  sv_namespace : match_label (CfgNamespace c) = true ∧ len (CfgNamespace c) ≤ 63;
  sv_harbor : UUser (HarborURL c) = None ∧ UHost (HarborURL c) ≠ "" ∧
    (UScheme (HarborURL c) = "https" ∨ UScheme (HarborURL c) = "http" ∧ HarborAllowHTTP c = true);
  sv_issuer : UUser (OIDCIssuer c) = None ∧ UHost (OIDCIssuer c) ≠ "";
  sv_lifetime : 0 < TokenMaxLifetime c;
  sv_audience : CfgAudience c ≠ "" ∧ len (CfgAudience c) ≤ audienceMaxLen;
  sv_finalizer : ∃ part, Finalizer c = "harbor.aetherize.io/" +:+ part ∧ match_label part = true ∧ len part ≤ 63;
  sv_instance : selective c = true → Finalizer c ≠ FinalizerName
}.

Lemma audience_errors_nil a : audience_errors a = [] → a ≠ "" ∧ len a ≤ audienceMaxLen.
Proof. unfold audience_errors. destruct (String.eqb_spec a ""); [done|]. destruct (Z.gtb_spec (len a) audienceMaxLen); [done|]. done. Qed.

Lemma lifetime_positive d : lifetime_setting getenv = Ok d → 0 < d.
Proof.
  unfold lifetime_setting. destruct (String.eqb _ ""); [by intros [= <-]|]. destruct (ParseDuration _); [|done].
  destruct (Z.leb_spec a 0); [done|]. by intros [= <-].
Qed.

Lemma instance_errors_nil sel inst : instance_errors sel inst = [] →
  (match sel with Some s => negb (SelEmpty s) | None => false end = true → match_label inst = true) ∧ len inst ≤ instanceMaxLen.
Proof.
  unfold instance_errors. destruct (String.eqb_spec inst "") as [->|Hi]; cbn [andb negb].
  - rewrite andb_true_r. case_match; [done|]. done.
  - rewrite andb_false_r. destruct (Z.gtb_spec (len inst) instanceMaxLen); [done|]. by destruct (match_label inst).
Qed.

(** The name part of the finalizer with an instance. *)
Lemma match_label_robot inst : match_label inst = true → match_label ("robot-" +:+ inst) = true.
Proof.
  destruct inst as [|c inst]; [done|]. cbn [match_label]. intros [Hc Hr]%andb_true_iff.
  change (match_label_rest false (String c inst) = true). cbn [match_label_rest]. by rewrite Hc.
Qed.

Lemma harbor_setting_Ok b u : harbor_setting ParseURL getenv b = Ok u →
  UUser u = None ∧ UHost u ≠ "" ∧ (UScheme u = "https" ∨ UScheme u = "http" ∧ b = true).
Proof.
  unfold harbor_setting. destruct (requireURL _ _ _) as [v|] eqn:E; [|done]. destruct (requireURL_Ok _ _ _ E) as [Hs Hh].
  destruct (UUser v) eqn:Hu; [done|]. destruct (String.eqb_spec (UScheme v) "http"); cbn [andb].
  - destruct b; [|done]. intros [= <-]. split_and!; [done..|by right].
  - intros [= <-]. split_and!; [done..|left; by destruct Hs].
Qed.

Lemma issuer_setting_Ok u : issuer_setting ParseURL getenv = Ok u → UUser u = None ∧ UHost u ≠ "".
Proof.
  unfold issuer_setting. destruct (requireURL _ _ _) as [v|] eqn:E; [|done]. destruct (requireURL_Ok _ _ _ E) as [Hs Hh].
  destruct (UUser v) eqn:Hu; [done|]. by intros [= <-].
Qed.

Lemma LoadFromEnv_serviceable c : LoadFromEnv getenv = Ok c → serviceable c.
Proof.
  intros (He & Hc & Hn & Ha & Hi & Hu & Hh & Hl & Hs)%LoadFromEnv_inv. unfold load_errors in He.
  repeat match goal with H : _ ++ _ = [] |- _ => apply app_eq_nil in H as [? H] end.
  rewrite Hs in He. rewrite <- Hi in He. apply instance_errors_nil in He as [Hi1 Hi2].
  assert (∃ part, Finalizer c = "harbor.aetherize.io/" +:+ part ∧ match_label part = true ∧ len part ≤ 63) as Hf.
  { unfold Finalizer. destruct (selective c) eqn:E; cbn [negb]; [|by exists "robot"]. exists ("robot-" +:+ CfgInstance c).
    split_and!; [done|by apply match_label_robot, Hi1|]. rewrite len_app. change (len "robot-") with 6. unfold instanceMaxLen in Hi2. lia. }
  destruct (cluster_errors_nil (TrimSpace (getenv EnvClusterName))) as (Hc1 & Hc2 & Hc3); [done|].
  split.
  - intros ns sa Hns Hlen Hsa Sns Ssa. apply RobotName_total; [|rewrite Hc|..]; [split|..]; rewrite ?Hc; done.
  - rewrite Hn. by apply (label_errors_nil EnvNamespace).
  - by apply harbor_setting_Ok.
  - by apply issuer_setting_Ok.
  - by apply lifetime_positive.
  - rewrite Ha. by apply audience_errors_nil.
  - done.
  - intros Hsel. unfold Finalizer. rewrite Hsel. cbn [negb]. intros E. by apply (f_equal String.length) in E.
Qed.

(** C30: A configuration that loads is one the bridge can run with: with its cluster name every
    namespace and ServiceAccount whose names are labels without doubled hyphens have a robot
    name Harbor accepts; the namespace is a label; the admin credentials go to Harbor over TLS
    unless plain http was opted into, and neither Harbor's nor the issuer's URL carries a
    credential or lacks a host; the finalizer is a qualified name, the bridge's domain and a
    label of at most 63 bytes, and, with a selector, not the shared one; the audience is not
    empty and at most 253 bytes long, and the maximal token lifetime is positive. *)
Theorem loaded_config_serviceable c : LoadFromEnv getenv = Ok c → serviceable c.
Proof. apply LoadFromEnv_serviceable. Qed.
End Loaded.

(** ** Credentials in URLs stay hidden *)

(** Two URLs that differ in nothing but the credentials in their user part. *)
Definition same_but_user (u u' : URL) : Prop :=
  UUser u ≠ None ∧ UUser u' ≠ None ∧ UScheme u = UScheme u' ∧ UHost u = UHost u' ∧ UAfterHost u = UAfterHost u' ∧ UText u = UText u'.

Section Hidden.
Context (ParseURL : string → res URL) (ParseSelector : string → res Selector).

Definition http (u : URL) : Prop := UScheme u = "http" ∨ UScheme u = "https".

(** Where the parser puts a credential of a malformed value: a value without a scheme
    parses with the user name as its scheme; a '/', '?' or '#' in the password ends the
    host early, which leaves no host, or a host made of the user name and the password's
    start with the rest of the password and the [@] after it. The two URLs may then differ
    in every part. *)
Inductive misplaced (u u' : URL) : Prop :=
  | as_scheme : ¬ http u → ¬ http u' → misplaced u u'
  | no_host : http u → http u' → UHost u = "" → UHost u' = "" → misplaced u u'
  | after_host : http u → http u' → UHost u ≠ "" → UHost u' ≠ "" →
      ContainsByte (UAfterHost u) "@" = true → ContainsByte (UAfterHost u') "@" = true → misplaced u u'.

(** Two values of a URL setting that differ in a credential: both contain an [@], and
    neither parses, or both parse and differ only in their user part, or both parse with
    the credential misplaced in the same way. *)
Definition differ_in_credential (raw raw' : string) : Prop :=
  ContainsByte (TrimSpace raw) "@" = true ∧ ContainsByte (TrimSpace raw') "@" = true ∧
  match ParseURL (TrimSpace raw), ParseURL (TrimSpace raw') with
  | Ok u, Ok u' => same_but_user u u' ∨ misplaced u u'
  | Err _, Err _ => True
  | _, _ => False
  end.

(** Two environments that differ only in such credentials. *)
Definition alike (env env' : string → string) : Prop :=
  ∀ k, env k = env' k ∨ k ∈ url_variables ∧ differ_in_credential (env k) (env' k).

Definition alike_urls (r r' : res URL) : Prop :=
  match r, r' with
  | Ok u, Ok u' => u = u' ∨ same_but_user u u'
  | Err e, Err e' => e = e'
  | _, _ => False
  end.

Lemma is_http u : http u → negb (String.eqb (UScheme u) "http") && negb (String.eqb (UScheme u) "https") = false.
Proof. by intros [-> | ->]. Qed.

Lemma not_http u : ¬ http u → negb (String.eqb (UScheme u) "http") && negb (String.eqb (UScheme u) "https") = true.
Proof. unfold http. intros Hn. destruct (String.eqb_spec (UScheme u) "http"), (String.eqb_spec (UScheme u) "https"); tauto. Qed.

Lemma requireURL_alike raw raw' name : raw = raw' ∨ differ_in_credential raw raw' →
  alike_urls (requireURL ParseURL raw name) (requireURL ParseURL raw' name).
Proof.
  intros [->|(Ha & Ha' & Hp)]; [destruct (requireURL _ _ _); [by left|done]|]. unfold requireURL.
  assert (∀ s, ContainsByte s "@" = true → String.eqb s "" = false) as Hne by by intros [].
  rewrite (Hne _ Ha), (Hne _ Ha'), Ha, Ha'.
  destruct (ParseURL (TrimSpace raw)) as [u|], (ParseURL (TrimSpace raw')) as [u'|]; try done.
  destruct Hp as [(Hu & Hu' & Es & Eh & Ea & Et)|Hp].
  { rewrite <- Es, <- Eh, <- Ea.
    destruct (_ && _); [done|]. destruct (String.eqb _ _); [done|]. destruct (ContainsByte (UAfterHost u) _); [done|]. by right. }
  destruct Hp as [Hn Hn'|Hh Hh' E E'|Hh Hh' Hn Hn' E E']; rewrite ?(not_http _ Hn), ?(not_http _ Hn'), ?(is_http _ Hh), ?(is_http _ Hh'); [done| |].
  - by rewrite E, E'.
  - apply String.eqb_neq in Hn as ->, Hn' as ->. by rewrite E, E'.
Qed.

Lemma redactURL_alike u u' : u = u' ∨ same_but_user u u' → redactURL (Some u) = redactURL (Some u').
Proof.
  intros [->|(Hu & Hu' & _ & _ & _ & Et)]; [done|]. unfold redactURL. rewrite Et.
  by destruct (UUser u), (UUser u').
Qed.

Context (env env' : string → string) (Halike : alike env env').

Lemma alike_env k : k ∉ url_variables → env k = env' k.
Proof. by destruct (Halike k) as [|[]]. Qed.

Lemma alike_url k : env k = env' k ∨ differ_in_credential (env k) (env' k).
Proof. destruct (Halike k) as [|[]]; auto. Qed.

Lemma alike_issuer : issuer_setting ParseURL env = issuer_setting ParseURL env'.
Proof.
  unfold issuer_setting. pose proof (requireURL_alike _ _ EnvOIDCIssuer (alike_url EnvOIDCIssuer)) as H.
  destruct (requireURL _ (env _) _), (requireURL _ (env' _) _); cbn in H; [|done..|by f_equal].
  destruct H as [->|(Hu & Hu' & _)]; [done|]. by destruct (UUser a), (UUser a0).
Qed.

Lemma alike_harbor b : harbor_setting ParseURL env b = harbor_setting ParseURL env' b.
Proof.
  unfold harbor_setting. pose proof (requireURL_alike _ _ EnvHarborURL (alike_url EnvHarborURL)) as H.
  destruct (requireURL _ (env _) _), (requireURL _ (env' _) _); cbn in H; [|done..|by f_equal].
  destruct H as [->|(Hu & Hu' & _)]; [done|]. by destruct (UUser a), (UUser a0).
Qed.

(** The JWKS URL may carry credentials: the settings are equal but for them. *)
Lemma alike_jwks :
  match jwks_setting ParseURL env, jwks_setting ParseURL env' with
  | Ok (Some u), Ok (Some u') => u = u' ∨ same_but_user u u'
  | Ok None, Ok None => True
  | Err e, Err e' => e = e'
  | _, _ => False
  end.
Proof.
  assert (∀ s s', s = s' ∨ differ_in_credential s s' →
    TrimSpace s = TrimSpace s' ∨ differ_in_credential (TrimSpace s) (TrimSpace s') ∧ TrimSpace s ≠ "" ∧ TrimSpace s' ≠ "") as Ht.
  { intros s s' [->|(Ha & Hb & Hc)]; [by left|]. right. unfold differ_in_credential. rewrite !TrimSpace_idem.
    split_and!; [done..|by intros E; rewrite E in Ha|by intros E; rewrite E in Hb]. }
  unfold jwks_setting. destruct (Ht _ _ (alike_url EnvOIDCJWKSURL)) as [->|(Hd & Hn & Hn')].
  - destruct (String.eqb _ ""); [done|]. destruct (requireURL _ _ _); [by left|done].
  - apply String.eqb_neq in Hn as ->. apply String.eqb_neq in Hn' as ->.
    pose proof (requireURL_alike _ _ EnvOIDCJWKSURL (or_intror Hd)) as H.
    by destruct (requireURL _ (TrimSpace (env _)) _), (requireURL _ (TrimSpace (env' _)) _).
Qed.

Lemma errs_jwks : errs_of (jwks_setting ParseURL env) = errs_of (jwks_setting ParseURL env').
Proof. pose proof alike_jwks as H. by destruct (jwks_setting _ env) as [[]|], (jwks_setting _ env') as [[]|]; subst. Qed.
Ltac same_env := repeat match goal with |- context [env ?k] => rewrite (alike_env k) by (by intros H; repeat (apply elem_of_cons in H as [H|H]; [done|]); apply elem_of_nil in H) end.

(** The other settings are the same. *)
Lemma alike_settings :
  envBoolOr env EnvHarborAllowHTTP false = envBoolOr env' EnvHarborAllowHTTP false ∧
  bool_setting env EnvForceLocalValidation true = bool_setting env' EnvForceLocalValidation true ∧
  bool_setting env EnvRequirePodBoundToken true = bool_setting env' EnvRequirePodBoundToken true ∧
  lifetime_setting env = lifetime_setting env' ∧ loglevel_setting env = loglevel_setting env' ∧
  selector_setting ParseSelector env = selector_setting ParseSelector env'.
Proof. unfold envBoolOr, bool_setting, lifetime_setting, loglevel_setting, selector_setting. by same_env. Qed.

Lemma alike_errors : load_errors ParseURL ParseSelector env = load_errors ParseURL ParseSelector env'.
Proof.
  unfold load_errors. destruct alike_settings as (-> & -> & -> & -> & -> & ->).
  rewrite alike_issuer, errs_jwks, alike_harbor. by same_env.
Qed.

End Hidden.

(** ** An environment *)

(** A parser that reads [https://host], [https://user@host] and [https://host/path], and
    [scheme:rest] without a host. *)
Definition toy_url (s : string) : res URL :=
  match CutPrefix s "https://" with
  | None =>
      match Cut s ":" with
      | Some (scheme, rest) => Ok (MkURL scheme None "" "" (λ _, s))
      | None => Err (EMsg s)
      end
  | Some rest =>
      let (authority, after) := match Cut rest "/" with Some (a, p) => (a, "/" +:+ p) | None => (rest, "") end in
      match Cut authority "@" with
      | Some (user, host) => Ok (MkURL "https" (Some user) host after (λ u, "https://" +:+ default "" u +:+ "@" +:+ host +:+ after))
      | None => Ok (MkURL "https" None authority after (λ _, s))
      end
  end.

Definition toy_env (jwks : string) (k : string) : string :=
  if String.eqb k EnvClusterName then "prod" else if String.eqb k EnvNamespace then "bridge"
  else if String.eqb k EnvOIDCIssuer then "https://issuer" else if String.eqb k EnvHarborURL then "https://harbor"
  else if String.eqb k EnvHarborAdminDir then "/creds" else if String.eqb k EnvAudience then "harbor"
  else if String.eqb k EnvTokenMaxLifetime then "2h" else if String.eqb k EnvOIDCJWKSURL then jwks else "".

Definition no_selector (s : string) : res Selector := Err (EMsg "no selector").

Definition toy_loaded : res Config := LoadFromEnv toy_url no_selector (toy_env "https://s3cret@keys").

Lemma loaded_config_serviceable_witness : ∃ c, toy_loaded = Ok c ∧ serviceable c ∧ TokenMaxLifetime c = 2 * Hour.
Proof.
  destruct toy_loaded as [c|e] eqn:E; [|by vm_compute in E]. exists c. split; [done|]. split; [by eapply loaded_config_serviceable|].
  assert (match toy_loaded with Ok c => TokenMaxLifetime c = 2 * Hour | Err _ => False end) as H by (vm_compute; reflexivity). by rewrite E in H.
Defined.

(** A value with its credential in the user part, one without a scheme, one with a slash in
    the password and one that does not parse. *)
Definition toy_values (pw : string) : list string :=
  ["https://" +:+ pw +:+ "@keys"; pw +:+ ":x@keys"; "https://admin:" +:+ pw +:+ "/y@keys"; pw +:+ "@keys"].

