(* ===== verification/Kube.v ===== *)
(** * The control plane's environment

    The calls the reconciler and the janitor make: the Kubernetes API through
    controller-runtime's client, Harbor through the [harbor.Client] interface, and
    the clock. The answer types follow the Go signatures; a write that fills in its
    argument from the server's response answers with the object. *)

From S2P Require Import Prelude Effects GoStrings GoTime Naming HarborPerms HarborClient Api RobotSecret Contract.
From S2P Require Import Config.

Inductive call :=
| GetHA (ns name : string)
| ListHA
| PatchHA (before after : HarborAccess)
| UpdateStatus (ha : HarborAccess)
| GetSecret (ns name : string)
| ListSecrets (ns : string) (labels : gmap string string)
| CreateSecret (s : Secret)
| UpdateSecret (s : Secret)
| DeleteSecret (ns name uid : string)
| HCreate (name description : string) (perms : list ProjectPermission)
| HDelete (id : Z)
| HList
| HGetByName (name : string)
| HRefreshSecret (id : Z)
| HUpdate (current : Robot) (description : string) (perms : list ProjectPermission)
| Now.

Definition ans (c : call) : Type :=
  match c with
  | GetHA _ _ => res HarborAccess
  | ListHA => res (list HarborAccess)
  | PatchHA _ _ => res HarborAccess
  | UpdateStatus _ => res HarborAccess
  | GetSecret _ _ => res Secret
  | ListSecrets _ _ => res (list Secret)
  | CreateSecret _ => res unit
  | UpdateSecret _ => res unit
  | DeleteSecret _ _ _ => res unit
  | HCreate _ _ _ => res Robot
  | HDelete _ => option gerr
  | HList => res (list Robot)
  | HGetByName _ => res Robot
  | HRefreshSecret _ => res string
  | HUpdate _ _ _ => option gerr
  | Now => Time
  end.

Notation control := (prog ans).

(** [ctrl.Result] and what a reconcile returns. *)
Record Result := MkResult { RequeueAfter : Duration }.
Definition no_requeue : Result := MkResult 0.
Definition outcome : Type := Result * option gerr.
