(* ===== verification/Reconciler.v ===== *)
(** * The reconciler

    Models bridge/controlplane/reconciler.go: one reconcile pass over a
    HarborAccess, as a program over the calls of [Kube]. Every handler is translated
    whole: guards in source order, every call that changes state, every early
    return. Log lines and condition messages are dropped; condition types, statuses,
    reasons and observed generations are kept. Functions that return a free-text
    reason return a value of an enumeration instead. *)

From S2P Require Import Prelude Effects GoStrings GoStd GoTime Naming HarborPerms HarborClient Api RobotSecret.
From S2P Require Import Contract Config Kube.

Definition ReasonReconcileSucceeded : string := "ReconcileSucceeded".
Definition ReasonIssuerMismatch : string := "IssuerMismatch".
Definition ReasonRobotConflict : string := "RobotConflict".
Definition ReasonRobotDisabled : string := "RobotDisabled".
Definition ReasonInvalidSpec : string := "InvalidSpec".
Definition ReasonAudienceMismatch : string := "AudienceMismatch".
Definition ReasonHarborError : string := "HarborError".
Definition ReasonDeletionBlocked : string := "DeletionBlocked".
Definition ReasonEnforcedByBridge : string := "EnforcedByBridge".

Definition harborNeverExpires : Z := -1.

(** ** Pure decisions *)

Definition resyncAfter (ha : HarborAccess) : Duration :=
  let jitter := (fnv32a (UID (Meta ha)) mod (ResyncInterval / 10 / Second)) * Second in
  ResyncInterval - jitter.

Definition requeueAfter (ha : HarborAccess) (notBefore now : Time) : Duration :=
  let next := resyncAfter ha in
  let untilRotation := Sub (Add notBefore RotationSafetyMargin) now in
  let next := if untilRotation <? next then untilRotation else next in
  if next <? Second then Second else next.

(** Why the stored password must be replaced now; "" when it may stay. *)
Definition rotationReason (ha : HarborAccess) (secret : option Secret) (robot : Robot) (now : Time) : string :=
  match secret with
  | None => "robot Secret missing"
  | Some secret =>
      match Credentials secret with
      | Err _ => "robot Secret incomplete"
      | Ok (username, _) =>
          if negb (String.eqb username (WireName robot)) then "robot Secret holds the credentials of another robot"
          else
            let recreated :=
              match RobotID secret with
              | Some id => negb (id =? ID robot)
              | None => match SRobot (Status ha) with
                        | Some ref => negb (RID ref =? 0) && negb (RID ref =? ID robot)
                        | None => false
                        end
              end in
            if recreated then "robot was re-created in Harbor"
            else match RotationNotBefore secret with
            | Some nb => if negb (Before now (Add nb RotationSafetyMargin)) then "scheduled rotation" else ""
            | None =>
                match SRobot (Status ha) with
                | Some (MkRobotRef _ _ _ (Some last)) =>
                    if negb (Before now (Add last (PasswordRotationInterval + RotationSafetyMargin)))
                    then "scheduled rotation" else ""
                | _ => "no record of the last rotation"
                end
            end
      end
  end.

Definition rotationNotBefore (ha : HarborAccess) (secret : option Secret) (now : Time) (rotatedAt : option Time) : Time :=
  match rotatedAt with
  | Some t => Add t PasswordRotationInterval
  | None =>
      match secret ≫= RotationNotBefore with
      | Some nb => nb
      | None =>
          match SRobot (Status ha) with
          | Some (MkRobotRef _ _ _ (Some last)) => Add last PasswordRotationInterval
          | _ => now
          end
      end
  end.

Fixpoint all_valid_projects (perms : list ProjectPermission) : bool :=
  match perms with
  | [] => true
  | p :: perms => match ValidateProjectName (Project p) with Some _ => false | None => all_valid_projects perms end
  end.

Definition canWriteBack (perms : list ProjectPermission) : bool :=
  if negb (all_valid_projects perms) then false else (0 <? length perms)%nat.

Definition toHarborPerms (perms : list ProjectPermission) : list ProjectPermission :=
  (λ p, MkPerm (Project p) (Action p)) <$> perms.

Definition equalStringMaps (a b : gmap string string) : bool :=
  if negb (size a =? size b)%nat then false
  else bool_decide (map_Forall (λ k v, b !! k = Some v) a).

Definition isSecretWriteRace (e : gerr) : bool := IsConflict e || IsAlreadyExists e || IsNotFound e.

Inductive conflict := OwnedByOther | NotManaged | OtherCluster.
#[export] Instance conflict_eq_dec : EqDecision conflict.
Proof. solve_decision. Defined.

Section Reconciler.
Context `{Apimachinery}.
Variable cfg : Config.
(** The attempts [retry.OnError] makes under [retry.DefaultRetry]. *)
Variable retry_steps : nat.

Definition haNS (ha : HarborAccess) : string := Namespace (Meta ha).
Definition haName (ha : HarborAccess) : string := OName (Meta ha).

(** The robot name of [ha]'s ServiceAccount; "" when there is none, as Go returns. *)
Definition robotNameOf (ha : HarborAccess) : string :=
  match RobotName (ClusterName cfg) (SANamespace (SARef (Spec ha))) (SAName (SARef (Spec ha))) with
  | Ok n => n
  | Err _ => ""
  end.

(** ** Status *)

Definition setCondition (ha : HarborAccess) (type : string) (status : ConditionStatus) (reason : string) : HarborAccess :=
  with_status ha (MkStatus (SRobot (Status ha)) (TrustPolicyEnforcedBy (Status ha)) (ObservedGeneration (Status ha))
    (SetStatusCondition (Conditions (Status ha)) (MkCondition type status reason (Generation (Meta ha))))).

(** Returns the object as the server answered it. *)
Definition setNotReady (ha : HarborAccess) (reason : string) : control (res HarborAccess) :=
  trigger (UpdateStatus (setCondition ha ConditionReady ConditionFalse reason)).

Definition markNotReadyWithRequeue (ha : HarborAccess) (reason : string) : control outcome :=
  r ← setNotReady ha reason;
  match r with
  | Err e => Ret (no_requeue, Some (EWrap "update status" e))
  | Ok ha => Ret (MkResult (resyncAfter ha), None)
  end.

Definition markTransientError (ha : HarborAccess) (cause : gerr) : control outcome :=
  r ← setNotReady ha ReasonHarborError;
  match r with
  | Err e => Ret (no_requeue, Some (EWrap "update status while reporting transient error" e))
  | Ok _ => Ret (no_requeue, Some cause)
  end.

Definition readyStatus (ha : HarborAccess) (robot : Robot) (rotatedAt : option Time) : HarborAccess :=
  let ref := default (MkRobotRef "" 0 "" None) (SRobot (Status ha)) in
  let ref := MkRobotRef (WireName robot) (ID robot) (SecretName (haNS ha) (haName ha))
               (match rotatedAt with Some t => Some t | None => LastRotated ref end) in
  let ha := with_status ha (MkStatus (Some ref) EnforcedByBridge (Generation (Meta ha)) (Conditions (Status ha))) in
  let ha := setCondition ha ConditionRobotProvisioned ConditionTrue ReasonReconcileSucceeded in
  let ha := setCondition ha ConditionTrustPolicyApplied ConditionTrue ReasonEnforcedByBridge in
  setCondition ha ConditionReady ConditionTrue ReasonReconcileSucceeded.

Definition markReady (ha : HarborAccess) (robot : Robot) (rotatedAt : option Time) (after : Duration) : control outcome :=
  r ← trigger (UpdateStatus (readyStatus ha robot rotatedAt));
  match r with
  | Err e => Ret (no_requeue, Some (EWrap "update status" e))
  | Ok _ => Ret (MkResult after, None)
  end.

(** ** The robot Secret *)

Definition getRobotSecret (ha : HarborAccess) : control (res (option Secret)) :=
  r ← trigger (GetSecret (CfgNamespace cfg) (SecretName (haNS ha) (haName ha)));
  match r with
  | Err e => if IsNotFound e then Ret (Ok None) else Ret (Err e)
  | Ok s => Ret (Ok (Some s))
  end.

Definition secretConflict (ha : HarborAccess) (secret : option Secret) (robotName : string) : option conflict :=
  match secret with
  | None => None
  | Some secret =>
      if StampedForOther secret (haNS ha) (haName ha) then Some OwnedByOther
      else if negb (IsManaged secret) then
        match Credentials secret with
        | Err _ => Some NotManaged
        | Ok (user, _) => if negb (String.eqb user (HarborRobotPrefix cfg +:+ robotName)) then Some NotManaged else None
        end
      else None
  end.

Definition secretDeleteConflict (ha : HarborAccess) (secret : option Secret) (robotName : string) : option conflict :=
  match secretConflict ha secret robotName with
  | Some c => Some c
  | None =>
      match secret with
      | Some s => if IsManaged s && negb (String.eqb (index (Labels (SMeta s)) LabelCluster) (ClusterName cfg))
                  then Some OtherCluster else None
      | None => None
      end
  end.

(** [r.Delete(ctx, secret, Preconditions{UID})], a missing Secret ignored. *)
Definition deleteSecret (s : Secret) : control (option gerr) :=
  r ← trigger (DeleteSecret (Namespace (SMeta s)) (OName (SMeta s)) (UID (SMeta s)));
  match r with
  | Err e => if IsNotFound e then Ret None else Ret (Some e)
  | Ok _ => Ret None
  end.

Definition deleteOwnRobotSecret (ha : HarborAccess) (robotName : string) : control (option gerr) :=
  r ← getRobotSecret ha;
  match r with
  | Err e => Ret (Some (EWrap "read robot Secret" e))
  | Ok None => Ret None
  | Ok (Some secret) =>
      match secretDeleteConflict ha (Some secret) robotName with
      | Some _ => Ret None
      | None =>
          d ← deleteSecret secret;
          match d with
          | Some e => Ret (Some (EWrap "delete robot Secret" e))
          | None => Ret None
          end
      end
  end.

Definition robotData (robot : Robot) (password : string) : gmap string string :=
  <[KeyUsername := WireName robot]> (<[KeyPassword := password]> ∅).

Definition robotAnnotations (robot : Robot) (notBefore : Time) : gmap string string :=
  <[AnnotationRobotID := FormatRobotID (ID robot)]>
    (<[AnnotationRotationNotBefore := FormatRotationNotBefore notBefore]> ∅).

Definition newSecret (ha : HarborAccess) (robot : Robot) (password : string) (notBefore : Time) : Secret :=
  MkSecret (MkMeta (CfgNamespace cfg) (SecretName (haNS ha) (haName ha)) "" "" 0
              (OwnerLabels (ClusterName cfg) (haNS ha) (haName ha)) (robotAnnotations robot notBefore) [] None)
           "Opaque" (robotData robot password).

Definition updatedSecret (ha : HarborAccess) (existing : Secret) (robot : Robot) (password : string) (notBefore : Time) : Secret :=
  let m := SMeta existing in
  MkSecret (MkMeta (Namespace m) (OName m) (UID m) (ResourceVersion m) (Generation m)
              (OwnerLabels (ClusterName cfg) (haNS ha) (haName ha) ∪ Labels m)
              (robotAnnotations robot notBefore ∪ Annotations m) (Finalizers m) (DeletionTimestamp m))
           (SType existing)
           (if negb (String.eqb password "") then robotData robot password else Data existing).

Definition putRobotSecret (ha : HarborAccess) (existing : option Secret) (robot : Robot) (password : string)
    (notBefore : Time) : control (option gerr) :=
  match existing with
  | None =>
      if String.eqb password "" then Ret (Some (EMsg "robot Secret is missing and no password is available to rebuild it"))
      else
        r ← trigger (CreateSecret (newSecret ha robot password notBefore));
        match r with
        | Err e => Ret (Some (EWrap "create robot Secret" e))
        | Ok _ => Ret None
        end
  | Some existing =>
      let updated := updatedSecret ha existing robot password notBefore in
      if equalStringMaps (Labels (SMeta updated)) (Labels (SMeta existing))
         && equalStringMaps (Annotations (SMeta updated)) (Annotations (SMeta existing)) && String.eqb password ""
      then Ret None
      else
        r ← trigger (UpdateSecret updated);
        match r with
        | Err e => Ret (Some (EWrap "update robot Secret" e))
        | Ok _ => Ret None
        end
  end.

(** The retried closure with its captured variable [current]; [attempts] are left
    after this one. *)
Fixpoint storePassword (attempts : nat) (ha : HarborAccess) (current : option Secret) (robot : Robot)
    (password : string) (notBefore : Time) : control (option gerr) :=
  o ← putRobotSecret ha current robot password notBefore;
  match o with
  | None => Ret None
  | Some err =>
      if negb (isSecretWriteRace err) then Ret (Some err)
      else
        r ← getRobotSecret ha;
        match r with
        | Err e =>
            let err := EWrap "re-read robot Secret to store the new password" e in
            match isSecretWriteRace err, attempts with
            | true, S n => storePassword n ha current robot password notBefore
            | _, _ => Ret (Some err)
            end
        | Ok fresh =>
            match secretConflict ha fresh (Name robot) with
            | Some _ => Ret (Some (EMsg "cannot store the new password"))
            | None =>
                match attempts with
                | S n => storePassword n ha fresh robot password notBefore
                | O => Ret (Some err)
                end
            end
        end
  end.

Definition writeRobotSecret (ha : HarborAccess) (existing : option Secret) (robot : Robot) (password : string)
    (notBefore : Time) : control (option gerr) :=
  if String.eqb password "" then putRobotSecret ha existing robot "" notBefore
  else storePassword (pred retry_steps) ha existing robot password notBefore.

(** ** Finalizers *)

(** The object after the patch, or the error. *)
Definition ensureFinalizer (ha : HarborAccess) : control (res HarborAccess) :=
  let finalizer := Finalizer cfg in
  if ContainsFinalizer (Finalizers (Meta ha)) finalizer then Ret (Ok ha)
  else
    r ← trigger (PatchHA ha (with_finalizers ha (AddFinalizer (Finalizers (Meta ha)) finalizer)));
    match r with
    | Err e => Ret (Err (EWrap "add finalizer" e))
    | Ok ha => Ret (Ok ha)
    end.

Definition held (ha : HarborAccess) : list string :=
  filter (λ f, ContainsFinalizer (Finalizers (Meta ha)) f = true) (ReleasedFinalizers cfg).

(** The object without the finalizers [fs]. *)
Definition dropFinalizers (ha : HarborAccess) (fs : list string) : HarborAccess :=
  with_finalizers ha (foldl RemoveFinalizer (Finalizers (Meta ha)) fs).

(** ** Refusal *)

(** Whether a robot of [ha] is kept (disabled) at [robotName]. *)
Definition suspendRobot (ha : HarborAccess) (robotName : string) : control (res bool) :=
  let cluster := ClusterName cfg in
  if String.eqb robotName "" || negb (OwnsRobot cluster robotName) then Ret (Ok false)
  else
    r ← trigger (HGetByName robotName);
    match r with
    | Err e => if errors_Is e ErrRobotNotFound then Ret (Ok false) else Ret (Err (EWrap "look up robot" e))
    | Ok robot =>
        if negb (robotOwnedBy cluster robot (haNS ha) (haName ha)) then Ret (Ok false)
        else if Disabled robot && RobotSuspended (Description robot) then Ret (Ok true)
        else if Disabled robot then Ret (Ok true)
        else if canWriteBack (Permissions robot) then
          let disabled := MkRobot (ID robot) (Name robot) (WireName robot) (Description robot) true (ExpiresAt robot)
                            (Permissions robot) (ForeignAccess robot) (RSecret robot) in
          u ← trigger (HUpdate disabled (SuspendedRobotDescription cluster (haNS ha) (haName ha)) (Permissions robot));
          match u with
          | Some e => Ret (Err (EWrap "disable robot" e))
          | None => Ret (Ok true)
          end
        else
          d ← trigger (HDelete (ID robot));
          match d with
          | Some e => Ret (Err (EWrap "delete robot" e))
          | None => Ret (Ok false)
          end
    end.

(** [errors.Join(secretErr, err)] of a possibly nil and a non-nil error. *)
Definition join_opt (e1 : option gerr) (e2 : gerr) : gerr :=
  match e1 with Some e1 => EJoin e1 e2 | None => EWrap "" e2 end.

(** Whether the finalizers may be releasable, and the suspension's error. *)
Definition suspend (ha : HarborAccess) : control (bool * option gerr) :=
  let robotName := robotNameOf ha in
  secretErr ← deleteOwnRobotSecret ha robotName;
  if negb (existsb (ContainsFinalizer (Finalizers (Meta ha))) (ReleasedFinalizers cfg)) then Ret (false, secretErr)
  else
    r ← suspendRobot ha robotName;
    match r with
    | Err e => Ret (false, Some (join_opt secretErr e))
    | Ok kept => Ret (negb kept && bool_decide (secretErr = None), secretErr)
    end.

(** The error for a robot of [ha] by description but not by name. *)
Definition misnamedFor (ha : HarborAccess) (robot : Robot) : option gerr :=
  match misnamedRobot (ClusterName cfg) robot with
  | Some (ns, name, e) => if String.eqb ns (haNS ha) && String.eqb name (haName ha) then Some e else None
  | None => None
  end.

(** The loop of [releaseRefused] over the listed robots: [None] when none of them is
    [ha]'s, otherwise what the function returns. *)
Fixpoint releaseBlocked (ha : HarborAccess) (robots : list Robot) : option (option gerr) :=
  match robots with
  | [] => None
  | robot :: robots =>
      match misnamedFor ha robot with
      | Some e => Some (Some e)
      | None => if robotOwnedBy (ClusterName cfg) robot (haNS ha) (haName ha) then Some None
                else releaseBlocked ha robots
      end
  end.

Definition releaseRefused (ha : HarborAccess) : control (option gerr) :=
  let sharedIsOurs := String.eqb (Finalizer cfg) FinalizerName && statusRobotIsOurs cfg ha in
  let release := filter (λ f, ContainsFinalizer (Finalizers (Meta ha)) f
                              && (negb (String.eqb f FinalizerName) || sharedIsOurs) = true) (ReleasedFinalizers cfg) in
  match release with
  | [] => Ret None
  | _ =>
      r ← trigger HList;
      match r with
      | Err e => Ret (Some (EWrap "list robots before releasing the finalizer of a refused HarborAccess" e))
      | Ok robots =>
          match releaseBlocked ha robots with
          | Some o => Ret o
          | None =>
              p ← trigger (PatchHA ha (dropFinalizers ha release));
              match p with
              | Err e => Ret (IgnoreNotFound (EWrap "release the finalizer of a refused HarborAccess" e))
              | Ok _ => Ret None
              end
          end
      end
  end.

Definition refuse (ha : HarborAccess) (reason : string) : control outcome :=
  s ← suspend ha;
  let '(releasable, suspendErr) := (s : bool * option gerr) in
  let ha := setCondition ha ConditionRobotProvisioned ConditionFalse reason in
  r ← setNotReady ha reason;
  match r with
  | Err e => Ret (no_requeue, Some (EWrap "update status" e))
  | Ok ha =>
      match suspendErr with
      | Some e => Ret (no_requeue, Some e)
      | None =>
          if releasable then
            o ← releaseRefused ha;
            match o with
            | Some e => Ret (no_requeue, Some e)
            | None => Ret (MkResult (resyncAfter ha), None)
            end
          else Ret (MkResult (resyncAfter ha), None)
      end
  end.

(** ** Provisioning *)

(** The pass ends with what [p] returns. *)
Definition stop {A} (p : control outcome) : control (A + outcome) := o ← p; Ret (inr o).

(** The adoption checks on a robot found under the name. *)
Definition adopt (ha : HarborAccess) (existing : Robot) : control ((Robot * bool) + outcome) :=
  if negb (RobotBelongsToCluster (Description existing) (ClusterName cfg))
  then stop (markNotReadyWithRequeue ha ReasonRobotConflict)
  else
    let other := match ParseRobotDescription (Description existing) with
                 | Some (ns, name) => negb (String.eqb ns (haNS ha)) || negb (String.eqb name (haName ha))
                 | None => false
                 end in
    if other then stop (markNotReadyWithRequeue ha ReasonRobotConflict)
    else Ret (inl (existing, false)).

(** The robot and whether this pass created it, or what the pass returns. *)
Definition ensureRobot (ha : HarborAccess) (robotName description : string) (perms : list ProjectPermission)
    : control ((Robot * bool) + outcome) :=
  r ← trigger (HGetByName robotName);
  match r with
  | Ok existing => adopt ha existing
  | Err e =>
      if errors_Is e ErrRobotNotFound then
        c ← trigger (HCreate robotName description perms);
        match c with
        | Ok robot => Ret (inl (robot, true))
        | Err e =>
            if negb (errors_Is e ErrRobotAlreadyExists) then stop (markTransientError ha (EWrap "create robot" e))
            else
              r ← trigger (HGetByName robotName);
              match r with
              | Err e => stop (markTransientError ha (EWrap "recover after create 409: lookup robot" e))
              | Ok existing => adopt ha existing
              end
        end
      else stop (markTransientError ha (EWrap "lookup robot" e))
  end.

(** What steps 6b to 8 thread through the pass. *)
Record pass := MkPass {
  pSecret : option Secret; pRobot : Robot; pPassword : string; pRotatedAt : option Time; pResumed : bool
}.

(** Step 6b: resume a robot the bridge suspended. *)
Definition resume (ha : HarborAccess) (secret : option Secret) (robot : Robot) (created : bool) (now : Time)
    (description : string) (perms : list ProjectPermission) : control (pass + outcome) :=
  if negb created && Disabled robot && RobotSuspended (Description robot) then
    d ← (match secret with Some s => deleteSecret s | None => Ret None end : control (option gerr));
    match d with
    | Some e => stop (markTransientError ha (EWrap "delete the robot Secret of a suspended robot" e))
    | None =>
        r ← trigger (HRefreshSecret (ID robot));
        match r with
        | Err e => stop (markTransientError ha (EWrap "rotate the password of a suspended robot" e))
        | Ok newSecret =>
            let enabled := MkRobot (ID robot) (Name robot) (WireName robot) (Description robot) false (ExpiresAt robot)
                             (Permissions robot) (ForeignAccess robot) (RSecret robot) in
            u ← trigger (HUpdate enabled description perms);
            match u with
            | Some e => stop (markTransientError ha (EWrap "resume suspended robot" e))
            | None =>
                let robot := MkRobot (ID robot) (Name robot) (WireName robot) description false (ExpiresAt robot)
                               (Permissions robot) (ForeignAccess robot) (RSecret robot) in
                Ret (inl (MkPass None robot newSecret (Some now) true))
            end
        end
    end
  else Ret (inl (MkPass secret robot "" None false)).

(** Step 7: converge the robot to the spec. [None] when the pass goes on. *)
Definition converge (ha : HarborAccess) (p : pass) (created : bool) (description : string)
    (perms : list ProjectPermission) : control (option outcome) :=
  let robot := pRobot p in
  if negb created && negb (pResumed p)
     && (negb (PermissionsMatch robot perms) || negb (String.eqb (Description robot) description)
         || negb (ExpiresAt robot =? harborNeverExpires))
  then
    u ← trigger (HUpdate robot description perms);
    match u with
    | Some e => o ← markTransientError ha (EWrap "update robot" e); Ret (Some o)
    | None => Ret None
    end
  else Ret None.

(** Step 8: the new password and when it was made, if any. *)
Definition newPassword (ha : HarborAccess) (p : pass) (created : bool) (now : Time)
    : control ((string * option Time) + outcome) :=
  if created then Ret (inl (RSecret (pRobot p), Some now))
  else if negb (pResumed p) && negb (String.eqb (rotationReason ha (pSecret p) (pRobot p) now) "") then
    r ← trigger (HRefreshSecret (ID (pRobot p)));
    match r with
    | Err e => stop (markTransientError ha (EWrap "refresh secret" e))
    | Ok newSecret => Ret (inl (newSecret, Some now))
    end
  else Ret (inl (pPassword p, pRotatedAt p)).

(** The loop of [deleteStaleRobots] and of [reconcileDelete]: delete every robot of
    [ha] except [keep]. *)
Fixpoint deleteOwned (ha : HarborAccess) (keep : option Z) (robots : list Robot) : control (option gerr) :=
  match robots with
  | [] => Ret None
  | robot :: robots =>
      match misnamedFor ha robot with
      | Some e => Ret (Some e)
      | None =>
          if bool_decide (keep = Some (ID robot)) || negb (robotOwnedBy (ClusterName cfg) robot (haNS ha) (haName ha))
          then deleteOwned ha keep robots
          else
            d ← trigger (HDelete (ID robot));
            match d with
            | Some e => Ret (Some (EWrap (WireName robot) e))
            | None => deleteOwned ha keep robots
            end
      end
  end.

Definition deleteStaleRobots (ha : HarborAccess) (keepID : Z) : control (option gerr) :=
  r ← trigger HList;
  match r with
  | Err e => Ret (Some (EWrap "list robots for stale-robot cleanup" e))
  | Ok robots => deleteOwned ha (Some keepID) robots
  end.

(** Whether step 9 runs. *)
Definition cleanupDue (ha : HarborAccess) (robot : Robot) (created : bool) : bool :=
  created || negb (ObservedGeneration (Status ha) =? Generation (Meta ha))
  || match SRobot (Status ha) with
     | Some ref => negb (RID ref =? 0) && negb (RID ref =? ID robot)
     | None => false
     end.

(** Steps 8b to 10. *)
Definition finish (ha : HarborAccess) (p : pass) (created : bool) (password : string) (rotatedAt : option Time)
    (now : Time) : control outcome :=
  let robot := pRobot p in
  let notBefore := rotationNotBefore ha (pSecret p) now rotatedAt in
  w ← writeRobotSecret ha (pSecret p) robot password notBefore;
  match w with
  | Some e => markTransientError ha e
  | None =>
      s ← (if cleanupDue ha robot created then deleteStaleRobots ha (ID robot) else Ret None : control (option gerr));
      match s with
      | Some e => markTransientError ha e
      | None =>
          if Disabled robot then markNotReadyWithRequeue ha ReasonRobotDisabled
          else markReady ha robot rotatedAt (requeueAfter ha notBefore now)
      end
  end.

(** Steps 6b to 10, after the robot is found or created. *)
Definition serve (ha : HarborAccess) (secret : option Secret) (robot : Robot) (created : bool)
    (description : string) (perms : list ProjectPermission) : control outcome :=
  now ← trigger Now;
  r ← resume ha secret robot created now description perms;
  match r with
  | inr o => Ret o
  | inl p =>
      c ← converge ha p created description perms;
      match c with
      | Some o => Ret o
      | None =>
          n ← newPassword ha p created now;
          match n with
          | inr o => Ret o
          | inl (password, rotatedAt) => finish ha p created password rotatedAt now
          end
      end
  end.

(** Steps 4 to 10. *)
Definition provision (ha : HarborAccess) (robotName : string) : control outcome :=
  if negb (OwnsRobot (ClusterName cfg) robotName) then Ret (no_requeue, Some (EMsg "ADR-0009 invariant violation"))
  else
    s ← getRobotSecret ha;
    match s with
    | Err e => markTransientError ha (EWrap "read robot Secret" e)
    | Ok secret =>
        match secretConflict ha secret robotName with
        | Some _ => markNotReadyWithRequeue ha ReasonRobotConflict
        | None =>
            f ← ensureFinalizer ha;
            match f with
            | Err e => Ret (no_requeue, Some e)
            | Ok ha =>
                let desiredDescription := RobotDescription (ClusterName cfg) (haNS ha) (haName ha) in
                let desiredPerms := toHarborPerms (SPermissions (Spec ha)) in
                e ← ensureRobot ha robotName desiredDescription desiredPerms;
                match e with
                | inr o => Ret o
                | inl (robot, created) => serve ha secret robot created desiredDescription desiredPerms
                end
            end
        end
    end.

(** Steps 0 to 3: why the HarborAccess is refused. *)
Definition refusal (ha : HarborAccess) : option string :=
  let spec := Spec ha in
  if String.eqb (SANamespace (SARef spec)) "" && String.eqb (SAName (SARef spec)) ""
     && String.eqb (Issuer (Trust spec)) "" && String.eqb (Audience (Trust spec)) ""
     && (length (SPermissions spec) =? 0)%nat then Some ReasonInvalidSpec
  else if negb (String.eqb (Issuer (Trust spec)) (UString (OIDCIssuer cfg))) then Some ReasonIssuerMismatch
  else if negb (String.eqb (Audience (Trust spec)) (CfgAudience cfg)) then Some ReasonAudienceMismatch
  else if len (haName ha) >? HarborAccessNameMaxLen then Some ReasonInvalidSpec
  else if negb (all_valid_projects (SPermissions spec)) then Some ReasonInvalidSpec
  else if bool_decide (is_Some (TTL_Err (TokenTTL spec))) then Some ReasonInvalidSpec
  else None.

Definition reconcileNormal (ha : HarborAccess) : control outcome :=
  match refusal ha with
  | Some reason => refuse ha reason
  | None =>
      match RobotName (ClusterName cfg) (SANamespace (SARef (Spec ha))) (SAName (SARef (Spec ha))) with
      | Err _ => refuse ha ReasonInvalidSpec
      | Ok robotName => provision ha robotName
      end
  end.

(** ** Deletion *)

Definition blockDeletion (ha : HarborAccess) (cause : gerr) : control outcome :=
  _ ← setNotReady ha ReasonDeletionBlocked;
  Ret (no_requeue, Some cause).

Definition reconcileDelete (ha : HarborAccess) : control outcome :=
  match held ha with
  | [] => Ret (no_requeue, None)
  | fs =>
      l ← trigger HList;
      match l with
      | Err e => blockDeletion ha (EWrap "list robots" e)
      | Ok robots =>
          d ← deleteOwned ha None robots;
          match d with
          | Some e => blockDeletion ha e
          | None =>
              s ← deleteOwnRobotSecret ha (robotNameOf ha);
              match s with
              | Some e => blockDeletion ha e
              | None =>
                  p ← trigger (PatchHA ha (dropFinalizers ha fs));
                  match p with
                  | Err e => Ret (no_requeue, IgnoreNotFound (EWrap "remove finalizer" e))
                  | Ok _ => Ret (no_requeue, None)
                  end
              end
          end
      end
  end.

Definition Reconcile (ns name : string) : control outcome :=
  r ← trigger (GetHA ns name);
  match r with
  | Err e => Ret (no_requeue, IgnoreNotFound e)
  | Ok ha =>
      if negb (Selects cfg ha) then Ret (no_requeue, None)
      else if deleting ha then reconcileDelete ha
      else reconcileNormal ha
  end.

(** ** Watches *)

(** [secretToHarborAccess]: the HarborAccess objects a Secret event concerns. *)
Definition secretToHarborAccess (s : Secret) : list (string * string) :=
  if negb (String.eqb (Namespace (SMeta s)) (CfgNamespace cfg)) then []
  else
    let reqs := if String.eqb (index (Labels (SMeta s)) LabelCluster) (ClusterName cfg)
                then match Owner s with Some key => [key] | None => [] end
                else [] in
    match ParseName (OName (SMeta s)) with
    | Some key => match reqs with
                  | [] => [key]
                  | k :: _ => if bool_decide (k = key) then reqs else reqs ++ [key]
                  end
    | None => reqs
    end.

Definition sameServiceAccount (gone : HarborAccess) : control (list (string * string)) :=
  l ← trigger ListHA;
  match (l : res (list HarborAccess)) with
  | Err _ => Ret []
  | Ok items =>
      Ret ((λ ha, (haNS ha, haName ha)) <$>
             filter (λ ha, ¬ (haNS ha = haNS gone ∧ haName ha = haName gone)
                           ∧ SARef (Spec ha) = SARef (Spec gone)) items)
  end.
End Reconciler.
