(* ===== verification/ReconcilerSpec.v ===== *)
(** * What a reconcile pass may do

    The safety contract of the reconciler as a predicate on calls: [allowed] says,
    for each call and the log before it, what must hold when the call is made. The
    contract covers the Harbor writes (only robots of this HarborAccess), the order
    of finalizer and robot, the order of the steps that resume a suspended robot,
    the Secret writes, the Ready condition and the release of finalizers. The file
    also states what the pass assumes of its environment, as classes that the
    Harbor client and the API server discharge. *)

From S2P Require Import Prelude Effects GoStrings GoStd GoTime Naming HarborPerms HarborClient Api RobotSecret.
From S2P Require Import Contract Config Kube Reconciler.

(** ** Reading the log *)

Definition robots_of (e : event ans) : list Robot :=
  match e with
  | existT (HGetByName _) (Ok r) => [r]
  | existT HList (Ok l) => l
  | existT (HCreate _ _ _) (Ok r) => [r]
  | _ => []
  end.
Definition listing_of (e : event ans) : list (list Robot) :=
  match e with existT HList (Ok l) => [l] | _ => [] end.
Definition deleted_of (e : event ans) : list Z :=
  match e with existT (HDelete id) None => [id] | _ => [] end.
Definition refreshed_of (e : event ans) : list Z :=
  match e with existT (HRefreshSecret id) (Ok _) => [id] | _ => [] end.
(** The passwords Harbor handed out, and those that were stored. *)
Definition issued_of (e : event ans) : list string :=
  match e with
  | existT (HCreate _ _ _) (Ok r) => [RSecret r]
  | existT (HRefreshSecret _) (Ok pw) => [pw]
  | _ => []
  end.
Definition stored_of (e : event ans) : list Secret :=
  match e with
  | existT (CreateSecret s) (Ok _) => [s]
  | existT (UpdateSecret s) (Ok _) => [s]
  | _ => []
  end.
Definition secrets_of (e : event ans) : list Secret :=
  match e with existT (GetSecret _ _) (Ok s) => [s] | _ => [] end.
(** The state of the object as the server last reported it. *)
Definition object_of (e : event ans) : list HarborAccess :=
  match e with
  | existT (GetHA _ _) (Ok ha) => [ha]
  | existT (PatchHA _ _) (Ok ha) => [ha]
  | existT (UpdateStatus _) (Ok ha) => [ha]
  | _ => []
  end.

(** The object as the pass read it. *)
Definition read_of (e : event ans) : list HarborAccess :=
  match e with existT (GetHA _ _) (Ok ha) => [ha] | _ => [] end.

Definition seen (h : log ans) (r : Robot) : Prop := r ∈ h ≫= robots_of.
Definition listed (h : log ans) (l : list Robot) : Prop := l ∈ h ≫= listing_of.
Definition revoked (h : log ans) (id : Z) : Prop := id ∈ h ≫= deleted_of.
Definition refreshed (h : log ans) (id : Z) : Prop := id ∈ h ≫= refreshed_of.
Definition issued (h : log ans) : list string := h ≫= issued_of.
Definition stored (h : log ans) (s : Secret) : Prop := s ∈ h ≫= stored_of.
Definition read_secret (h : log ans) (s : Secret) : Prop := s ∈ h ≫= secrets_of.
Definition latest (h : log ans) : option HarborAccess := head (h ≫= object_of).

Lemma bind_app_in {A} (f : event ans → list A) (l h : log ans) x : x ∈ h ≫= f → x ∈ (l ++ h) ≫= f.
Proof. rewrite !list_elem_of_bind. intros (e & ? & ?). exists e. split; [done|]. apply elem_of_app. auto. Qed.

Lemma bind_app_distr {A} (f : event ans → list A) (l h : log ans) : (l ++ h) ≫= f = (l ≫= f) ++ (h ≫= f).
Proof. apply bind_app. Qed.

(** ** The environment *)

(** What the reconciler needs of the API server: it answers with the object asked
    for, and a write answers with the object written. *)
Class KubeEnv (env : log ans → ∀ c, ans c → Prop) := {
  env_get : ∀ h ns name ha, env h (GetHA ns name) (Ok ha) → haNS ha = ns ∧ haName ha = name;
  env_patch : ∀ h b a ha, env h (PatchHA b a) (Ok ha) →
    haNS ha = haNS a ∧ haName ha = haName a ∧ Spec ha = Spec a ∧ Status ha = Status a
    ∧ Finalizers (Meta ha) = Finalizers (Meta a);
  env_status : ∀ h a ha, env h (UpdateStatus a) (Ok ha) →
    haNS ha = haNS a ∧ haName ha = haName a ∧ Spec ha = Spec a ∧ Finalizers (Meta ha) = Finalizers (Meta a)
}.

(** What it needs of the Harbor client. *)
Class HarborEnv (env : log ans → ∀ c, ans c → Prop) := {
  env_by_name : ∀ h n r, env h (HGetByName n) (Ok r) → Name r = n;
  env_create : ∀ h n d p r, env h (HCreate n d p) (Ok r) →
    Name r = n ∧ Description r = d ∧ Disabled r = false ∧ RSecret r ≠ EmptyString;
  env_refresh : ∀ h id pw, env h (HRefreshSecret id) (Ok pw) → pw ≠ EmptyString
}.

(** ** The contract *)

Section Contract.
Variable cfg : Config.
Variables ns name : string.

(** The robots a pass over [ns]/[name] may rotate and rewrite. *)
Definition manages (r : Robot) : Prop :=
  OwnsRobot (ClusterName cfg) (Name r) = true ∧ RobotBelongsToCluster (Description r) (ClusterName cfg) = true ∧
  (∀ k, ParseRobotDescription (Description r) = Some k → k = (ns, name)).

(** [n] is the robot name of the ServiceAccount the object names, as read in this pass. *)
Definition wanted (h : log ans) (n : string) : Prop :=
  ∃ ha, ha ∈ h ≫= read_of ∧ RobotName (ClusterName cfg) (SANamespace (SARef (Spec ha))) (SAName (SARef (Spec ha))) = Ok n.

Definition ready (ha : HarborAccess) : Prop :=
  ∃ c, FindStatusCondition (Conditions (Status ha)) ConditionReady = Some c ∧ CStatus c = ConditionTrue.

(** Re-enabling: only a robot the bridge itself suspended, with a password made in
    this pass. *)
Definition may_enable (h : log ans) (r : Robot) (description : string) : Prop :=
  RobotSuspended (Description r) = true ∧ refreshed h (ID r) ∧
  description = RobotDescription (ClusterName cfg) ns name.

(** Every robot of the HarborAccess in some listing has been deleted, and the
    listing holds none that carries its description under a foreign name. *)
Definition all_revoked (h : log ans) : Prop :=
  ∃ robots, listed h robots ∧
    (∀ r, r ∈ robots → robotOwnedBy (ClusterName cfg) r ns name = true → revoked h (ID r)) ∧
    (∀ r e, r ∈ robots → misnamedRobot (ClusterName cfg) r ≠ Some (ns, name, e)).

Definition stamped (s : Secret) : Prop :=
  index (Labels (SMeta s)) LabelManagedBy = LabelManagedByValue ∧ index (Labels (SMeta s)) LabelCluster = ClusterName cfg
  ∧ index (Labels (SMeta s)) LabelHarborAccessNamespace = ns ∧ index (Labels (SMeta s)) LabelHarborAccessName = name.

Definition allowed (h : log ans) (c : call) : Prop :=
  match c with
  | HCreate n d _ =>
      OwnsRobot (ClusterName cfg) n = true ∧ wanted h n ∧ d = RobotDescription (ClusterName cfg) ns name ∧ issued h = [] ∧
      ∃ ha, latest h = Some ha ∧ Finalizer cfg ∈ Finalizers (Meta ha)
  | HDelete id => ∃ r, seen h r ∧ ID r = id ∧ robotOwnedBy (ClusterName cfg) r ns name = true
  | HRefreshSecret id => issued h = [] ∧ ∃ r, seen h r ∧ ID r = id ∧ wanted h (Name r) ∧ manages r
  | HUpdate cur d _ =>
      ∃ r, seen h r ∧ ID cur = ID r ∧ WireName cur = WireName r ∧ manages r ∧
        (Disabled r = true → Disabled cur = false → may_enable h r d) ∧
        (Disabled r = false → Disabled cur = true → d = SuspendedRobotDescription (ClusterName cfg) ns name)
  | UpdateStatus ha =>
      ready ha → ∀ pw, pw ∈ issued h →
        ∃ s, stored h s ∧ stamped s ∧ index (Data s) KeyPassword = pw
  | PatchHA before after =>
      (∃ f, f ∈ Finalizers (Meta before) ∧ f ∉ Finalizers (Meta after)) → all_revoked h
  | CreateSecret s => stamped s ∧ OName (SMeta s) = SecretName ns name ∧ Namespace (SMeta s) = CfgNamespace cfg
  | UpdateSecret s =>
      stamped s ∧ ∃ s', read_secret h s' ∧ UID (SMeta s) = UID (SMeta s')
        ∧ ResourceVersion (SMeta s) = ResourceVersion (SMeta s') ∧ StampedForOther s' ns name = false
  | DeleteSecret _ _ uid => ∃ s, read_secret h s ∧ UID (SMeta s) = uid ∧ StampedForOther s ns name = false
  | _ => True
  end.
End Contract.
