(* ===== verification/ReconcilerProofs.v ===== *)
(** * Safety of the reconciler

    Every call a reconcile pass makes is [allowed], whatever the services answer
    within [KubeEnv] and [HarborEnv]. One lemma per handler, each in
    continuation-passing style over [wp]; the properties at the end read off the
    parts of the contract. *)

From S2P Require Import Prelude Effects GoStrings GoStd GoTime Naming HarborPerms HarborClient Api RobotSecret.
From S2P Require Import Contract Config Kube Reconciler ReconcilerSpec.

(** The log only grew, and no password was handed out. *)
Definition quiet (h h' : log ans) : Prop := ∃ l, h' = l ++ h ∧ l ≫= issued_of = [].

Lemma quiet_refl h : quiet h h.
Proof. by exists []. Qed.
Lemma quiet_trans h1 h2 h3 : quiet h1 h2 → quiet h2 h3 → quiet h1 h3.
Proof.
  intros (l & -> & Hl) (l' & -> & Hl'). exists (l' ++ l). rewrite app_assoc, bind_app_distr, Hl, Hl'. done.
Qed.
Lemma quiet_step h e : issued_of e = [] → quiet h (e :: h).
Proof. intros E. exists [e]. split; [done|]. simpl. by rewrite E. Qed.
Lemma quiet_issued h h' : quiet h h' → issued h' = issued h.
Proof. intros (l & -> & Hl). unfold issued. by rewrite bind_app_distr, Hl. Qed.
Lemma quiet_seen h h' r : quiet h h' → seen h r → seen h' r.
Proof. intros (l & -> & _). apply bind_app_in. Qed.
Lemma quiet_stored h h' s : quiet h h' → stored h s → stored h' s.
Proof. intros (l & -> & _). apply bind_app_in. Qed.
Lemma quiet_revoked h h' id : quiet h h' → revoked h id → revoked h' id.
Proof. intros (l & -> & _). apply bind_app_in. Qed.
Lemma quiet_listed h h' l : quiet h h' → listed h l → listed h' l.
Proof. intros (k & -> & _). apply bind_app_in. Qed.
Lemma quiet_read h h' s : quiet h h' → read_secret h s → read_secret h' s.
Proof. intros (k & -> & _). apply bind_app_in. Qed.
Lemma quiet_wanted cfg h h' n : quiet h h' → wanted cfg h n → wanted cfg h' n.
Proof. intros (k & -> & _) (ha & ? & ?). exists ha. split; [by apply bind_app_in|done]. Qed.
#[export] Hint Resolve quiet_wanted : bridge.
#[export] Hint Resolve quiet_refl quiet_trans quiet_seen quiet_stored quiet_revoked quiet_listed quiet_read : bridge.

Lemma issued_cons e h : issued (e :: h) = issued_of e ++ issued h.
Proof. done. Qed.

(** A fact recorded by the newest event. *)
Lemma here {A} (f : event ans → list A) e h x : x ∈ f e → x ∈ (e :: h) ≫= f.
Proof. intros Hx. apply list_elem_of_bind. exists e. split; [done|left]. Qed.

Lemma seen_here e h r : r ∈ robots_of e → seen (e :: h) r.
Proof. apply here. Qed.

Section Safety.
Context `{AL : ApimachineryLaws} (cfg : Config) (retry : nat).
Context (env : log ans → ∀ c, ans c → Prop) {KE : KubeEnv env} {HE : HarborEnv env}.
Context (ns name : string).
Implicit Types (h : log ans) (ha : HarborAccess).

Notation ok := (allowed cfg ns name).
Notation mine ha := (haNS ha = ns ∧ haName ha = name).

(** Steps over one call that hands out no password. *)
Lemma wp_quiet_call h c Q :
  ok h c → (∀ r, issued_of (existT c r) = []) →
  (∀ r, env h c r → quiet h (existT c r :: h) → Q (existT c r :: h) r) →
  wp env ok h (trigger c) Q.
Proof. intros Hok Hi HQ. apply wp_trigger; [done|]. intros r Hr. apply HQ; [done|]. by apply quiet_step. Qed.

(** ** Status *)

Lemma not_ready ha reason : ¬ ready (setCondition ha ConditionReady ConditionFalse reason).
Proof.
  intros (c & Hc & Hs). unfold setCondition in Hc. simpl in Hc.
  rewrite (set_find _ (MkCondition ConditionReady ConditionFalse reason (Generation (Meta ha)))) in Hc.
  by simplify_eq.
Qed.

Lemma wp_setNotReady ha reason h Q :
  (∀ h' r, quiet h h' →
     (∀ ha', r = Ok ha' → haNS ha' = haNS ha ∧ haName ha' = haName ha ∧ Spec ha' = Spec ha
        ∧ Finalizers (Meta ha') = Finalizers (Meta ha)) → Q h' r) →
  wp env ok h (setNotReady ha reason) Q.
Proof.
  intros HQ. unfold setNotReady. apply (wp_quiet_call h (UpdateStatus _)); [|done|].
  - intros Hr. by apply not_ready in Hr.
  - intros r Hr Hq. apply HQ; [done|]. intros ha' ->. by apply env_status in Hr.
Qed.

Lemma wp_markTransientError ha cause h Q :
  (∀ h' o, quiet h h' → Q h' o) → wp env ok h (markTransientError ha cause) Q.
Proof. intros HQ. apply wp_bind, wp_setNotReady. intros h' [ha'|e] Hq _; by apply HQ. Qed.

Lemma wp_markNotReady ha reason h Q :
  (∀ h' o, quiet h h' → Q h' o) → wp env ok h (markNotReadyWithRequeue ha reason) Q.
Proof. intros HQ. apply wp_bind, wp_setNotReady. intros h' [ha'|e] Hq _; by apply HQ. Qed.

Lemma wp_blockDeletion ha cause h Q :
  (∀ h' o, quiet h h' → Q h' o) → wp env ok h (blockDeletion ha cause) Q.
Proof. intros HQ. apply wp_bind, wp_setNotReady. intros h' r Hq _. by apply HQ. Qed.

(** ** Secrets *)

Lemma wp_getRobotSecret ha h Q :
  (∀ h' r, quiet h h' → (∀ s, r = Ok (Some s) → read_secret h' s) → Q h' r) →
  wp env ok h (getRobotSecret cfg ha) Q.
Proof.
  intros HQ. apply wp_bind, (wp_quiet_call h (GetSecret _ _)); [done..|].
  intros [s|e] _ Hq; cbv beta iota.
  - apply HQ; [done|]. intros s' [= <-]. apply here. left.
  - destruct (IsNotFound e); apply HQ; done.
Qed.

Lemma wp_deleteSecret s h Q :
  read_secret h s → StampedForOther s ns name = false →
  (∀ h' o, quiet h h' → Q h' o) → wp env ok h (deleteSecret s) Q.
Proof.
  intros Hs Hst HQ. apply wp_bind, (wp_quiet_call h (DeleteSecret _ _ _)); [by exists s|done|].
  intros [u|e] _ Hq; cbv beta iota; [by apply HQ|]. destruct (IsNotFound e); by apply HQ.
Qed.

Lemma secretConflict_None ha s rn :
  mine ha → secretConflict cfg ha (Some s) rn = None → StampedForOther s ns name = false.
Proof. intros [<- <-]. unfold secretConflict. by destruct (StampedForOther s (haNS ha) (haName ha)). Qed.

Lemma secretDeleteConflict_None ha s rn :
  mine ha → secretDeleteConflict cfg ha (Some s) rn = None → StampedForOther s ns name = false.
Proof.
  intros Hm. unfold secretDeleteConflict. destruct (secretConflict cfg ha (Some s) rn) eqn:E; [done|].
  intros _. by eapply secretConflict_None.
Qed.

Lemma wp_deleteOwnRobotSecret ha rn h Q :
  mine ha → (∀ h' o, quiet h h' → Q h' o) → wp env ok h (deleteOwnRobotSecret cfg ha rn) Q.
Proof.
  intros Hm HQ. apply wp_bind, wp_getRobotSecret. intros h1 r Hq Hs. cbv beta.
  destruct r as [[s|]|e]; [|by apply HQ..].
  destruct (secretDeleteConflict cfg ha (Some s) rn) eqn:E; [by apply HQ|].
  apply wp_bind, wp_deleteSecret; [by apply Hs|by eapply secretDeleteConflict_None|].
  intros h2 [e|] Hq2; apply HQ; eauto with bridge.
Qed.

Lemma index_union_l (m1 m2 : gmap string string) k v : m1 !! k = Some v → index (m1 ∪ m2) k = v.
Proof. intros Hk. unfold index. by rewrite (lookup_union_Some_l _ _ _ _ Hk). Qed.

Lemma stamped_new ha robot pw nb : mine ha → stamped cfg ns name (newSecret cfg ha robot pw nb).
Proof. intros [<- <-]. apply OwnerLabels_index. Qed.

Lemma stamped_updated ha s robot pw nb : mine ha → stamped cfg ns name (updatedSecret cfg ha s robot pw nb).
Proof.
  intros [<- <-]. unfold stamped, updatedSecret. cbn [Labels SMeta].
  split_and!; apply index_union_l; unfold OwnerLabels;
    repeat (rewrite lookup_insert_ne by done); apply lookup_insert_eq.
Qed.

(** The Secret a password is stored on is absent, or was read and is not another's. *)
Definition writable h (existing : option Secret) : Prop :=
  ∀ s, existing = Some s → read_secret h s ∧ StampedForOther s ns name = false.

Lemma writable_mono h h' e : quiet h h' → writable h e → writable h' e.
Proof. intros Hq Hw s Hs. destruct (Hw s Hs). eauto with bridge. Qed.

Definition password_stored h pw : Prop := ∃ s, stored h s ∧ stamped cfg ns name s ∧ index (Data s) KeyPassword = pw.

Lemma password_stored_mono h h' pw : quiet h h' → password_stored h pw → password_stored h' pw.
Proof. intros Hq (s & ? & ? & ?). exists s. eauto with bridge. Qed.

Lemma wp_putRobotSecret ha existing robot pw nb h Q :
  mine ha → writable h existing →
  (∀ h' o, quiet h h' → (o = None → pw ≠ EmptyString → password_stored h' pw) → Q h' o) →
  wp env ok h (putRobotSecret cfg ha existing robot pw nb) Q.
Proof.
  intros Hm Hw HQ. unfold putRobotSecret. destruct existing as [s|].
  - destruct (Hw s eq_refl) as [Hr Hst]. destruct (_ && _) eqn:E.
    { apply HQ; [eauto with bridge|]. intros _ Hpw. bsimpl. by apply eqb_empty in H1. }
    clear E. apply wp_bind, (wp_quiet_call h (UpdateSecret _)).
    + split; [by apply stamped_updated|]. exists s. done.
    + by intros [].
    + intros [u|e] _ Hq; cbv beta iota; apply HQ; try done. intros _ Hpw.
      exists (updatedSecret cfg ha s robot pw nb). split; [apply here; left|].
      split; [by apply stamped_updated|]. unfold updatedSecret. cbn [Data].
      apply String.eqb_neq in Hpw as ->. reflexivity.
  - destruct (String.eqb_spec pw "") as [->|Hpw]; [apply HQ; [eauto with bridge|done]|].
    apply wp_bind, (wp_quiet_call h (CreateSecret _)).
    + split; [by apply stamped_new|]. destruct Hm as [<- <-]. done.
    + by intros [].
    + intros [u|e] _ Hq; cbv beta iota; apply HQ; try done. intros _ _.
      exists (newSecret cfg ha robot pw nb). split; [apply here; left|].
      split; [by apply stamped_new|]. reflexivity.
Qed.

Lemma wp_storePassword n ha current robot pw nb h Q :
  mine ha → writable h current →
  (∀ h' o, quiet h h' → (o = None → pw ≠ EmptyString → password_stored h' pw) → Q h' o) →
  wp env ok h (storePassword cfg n ha current robot pw nb) Q.
Proof.
  intros Hm. revert current h Q. induction n as [|n IH]; intros current h Q Hw HQ; cbn [storePassword];
    (apply wp_bind, wp_putRobotSecret; [done..|]); intros h1 [err|] Hq1 Hp; try (by apply HQ);
    (destruct (isSecretWriteRace err); [|by apply HQ]);
    (apply wp_bind, wp_getRobotSecret; intros h2 [fresh|e] Hq2 Hs; cbv beta iota zeta).
  - destruct (secretConflict cfg ha fresh (Name robot)); apply HQ; eauto with bridge; done.
  - destruct (isSecretWriteRace _); apply HQ; eauto with bridge; done.
  - destruct (secretConflict cfg ha fresh (Name robot)) eqn:E; [apply HQ; eauto with bridge; done|].
    apply IH; [|intros h3 o Hq3 Ho; apply HQ; eauto with bridge].
    intros s ->. split; [by apply Hs|by eapply secretConflict_None].
  - destruct (isSecretWriteRace _); [|apply HQ; eauto with bridge; done].
    apply IH; [|intros h3 o Hq3 Ho; apply HQ; eauto with bridge].
    eapply writable_mono; [|done]. eauto with bridge.
Qed.

Lemma wp_writeRobotSecret ha existing robot pw nb h Q :
  mine ha → writable h existing →
  (∀ h' o, quiet h h' → (o = None → pw ≠ EmptyString → password_stored h' pw) → Q h' o) →
  wp env ok h (writeRobotSecret cfg retry ha existing robot pw nb) Q.
Proof.
  intros Hm Hw HQ. unfold writeRobotSecret. destruct (String.eqb_spec pw "") as [->|].
  - apply wp_putRobotSecret; [done..|]. intros h' o Hq _. by apply HQ.
  - by apply wp_storePassword.
Qed.

(** ** Finalizers *)

Lemma latest_cons e h : latest (e :: h) = match object_of e with ha :: _ => Some ha | [] => latest h end.
Proof. unfold latest. simpl. by destruct (object_of e). Qed.

Lemma wp_ensureFinalizer ha h Q :
  latest h = Some ha →
  (∀ h' r, quiet h h' → (∀ ha', r = Ok ha' → haNS ha' = haNS ha ∧ haName ha' = haName ha ∧ Spec ha' = Spec ha
     ∧ latest h' = Some ha' ∧ Finalizer cfg ∈ Finalizers (Meta ha')) → Q h' r) →
  wp env ok h (ensureFinalizer cfg ha) Q.
Proof.
  intros Hl HQ. unfold ensureFinalizer.
  destruct (ContainsFinalizer (Finalizers (Meta ha)) (Finalizer cfg)) eqn:E.
  { apply HQ; [eauto with bridge|]. intros ha' [= <-]. apply contains_spec in E. done. }
  apply wp_bind, (wp_quiet_call h (PatchHA _ _)); [|done|].
  - intros (f & Hf & Hn). exfalso. apply Hn. apply add_spec. auto.
  - intros [ha'|e] Hr Hq; cbv beta iota; apply HQ; try done. intros ? [= <-].
    apply env_patch in Hr as (-> & -> & -> & _ & Hf). split_and!; [done..| |].
    + by rewrite latest_cons.
    + rewrite Hf. apply add_spec. auto.
Qed.

(** ** Revocation *)

Lemma misnamedFor_None ha r e :
  mine ha → misnamedFor cfg ha r = None → misnamedRobot (ClusterName cfg) r ≠ Some (ns, name, e).
Proof.
  intros [<- <-]. unfold misnamedFor. intros Hn E. rewrite E, !String.eqb_refl in Hn. done.
Qed.

(** What a loop that deleted the robots of the HarborAccess except [keep] achieved. *)
Definition cleaned h keep (robots : list Robot) : Prop :=
  (∀ r, r ∈ robots → robotOwnedBy (ClusterName cfg) r ns name = true → keep ≠ Some (ID r) → revoked h (ID r)) ∧
  (∀ r e, r ∈ robots → misnamedRobot (ClusterName cfg) r ≠ Some (ns, name, e)).

Lemma cleaned_cons h keep r robots :
  (robotOwnedBy (ClusterName cfg) r ns name = true → keep ≠ Some (ID r) → revoked h (ID r)) →
  (∀ e, misnamedRobot (ClusterName cfg) r ≠ Some (ns, name, e)) →
  cleaned h keep robots → cleaned h keep (r :: robots).
Proof.
  intros Hr Hm [H1 H2]. split.
  - intros r' [->|Hr']%elem_of_cons; auto.
  - intros r' e [->|Hr']%elem_of_cons; auto.
Qed.

Lemma wp_deleteOwned ha keep robots h Q :
  mine ha → (∀ r, r ∈ robots → seen h r) →
  (∀ h' o, quiet h h' → (o = None → cleaned h' keep robots) → Q h' o) →
  wp env ok h (deleteOwned cfg ha keep robots) Q.
Proof.
  intros Hm. revert h Q. induction robots as [|r robots IH]; intros h Q Hseen HQ; cbn [deleteOwned].
  { apply HQ; [eauto with bridge|]. intros _. split; intros r; [|intros e]; by intros ?%elem_of_nil. }
  assert (∀ r, r ∈ robots → seen h r) as Hseen' by (intros; apply Hseen; by right).
  destruct (misnamedFor cfg ha r) eqn:Em; [by apply HQ; [eauto with bridge|]|].
  pose proof (λ e, misnamedFor_None ha r e Hm Em) as Hmis. destruct Hm as [En Ena]. rewrite En, Ena.
  destruct (robotOwnedBy (ClusterName cfg) r ns name) eqn:Eo.
  2: { rewrite orb_true_r. apply IH; [done|]. intros h' o Hq Ho. apply HQ; [done|]. intros ->.
       apply cleaned_cons; auto. congruence. }
  destruct (bool_decide_reflect (keep = Some (ID r))) as [Ek|Ek]; simpl orb; cbv iota.
  { apply IH; [done|]. intros h' o Hq Ho. apply HQ; [done|]. intros ->. apply cleaned_cons; auto. done. }
  apply wp_bind, (wp_quiet_call h (HDelete _)); [exists r; split; [apply Hseen; left|done]|done|].
  intros [err|] _ Hq; cbv beta iota; [by apply HQ|].
  apply IH; [intros r' Hr'; eauto with bridge|]. intros h' o Hq' Ho. apply HQ; [eauto with bridge|].
  intros ->. apply cleaned_cons; auto. intros _ _. eapply quiet_revoked; [exact Hq'|]. apply here. left.
Qed.

Lemma releaseBlocked_None ha robots r e :
  mine ha → releaseBlocked cfg ha robots = None → r ∈ robots →
  robotOwnedBy (ClusterName cfg) r ns name = false ∧ misnamedRobot (ClusterName cfg) r ≠ Some (ns, name, e).
Proof.
  intros Hm. induction robots as [|x robots IH]; intros Hn Hr; [by apply elem_of_nil in Hr|].
  cbn [releaseBlocked] in Hn. destruct (misnamedFor cfg ha x) eqn:Ex; [done|].
  destruct (robotOwnedBy (ClusterName cfg) x (haNS ha) (haName ha)) eqn:Eo; [done|].
  apply elem_of_cons in Hr as [->|Hr]; [|by apply IH]. split; [by destruct Hm as [<- <-]|].
  by apply (misnamedFor_None ha).
Qed.

Lemma wp_releaseRefused ha h Q :
  mine ha → (∀ h' o, quiet h h' → Q h' o) → wp env ok h (releaseRefused cfg ha) Q.
Proof.
  intros Hm HQ. unfold releaseRefused. destruct (filter _ _) as [|f fs]; [apply HQ; eauto with bridge|].
  apply wp_bind, (wp_quiet_call h HList); [done..|]. intros [robots|e] _ Hq; cbv beta iota; [|by apply HQ].
  destruct (releaseBlocked cfg ha robots) as [o|] eqn:E; [by apply HQ|].
  apply wp_bind, (wp_quiet_call _ (PatchHA _ _)); [|done|].
  - intros _. exists robots. split; [apply here; left|]. split.
    + intros r Hr Ho. by destruct (releaseBlocked_None _ _ _ (EMsg "") Hm E Hr) as [? _]; congruence.
    + intros r e Hr. by destruct (releaseBlocked_None _ _ _ e Hm E Hr).
  - intros [ha'|e] _ Hq'; cbv beta iota; apply HQ; eauto with bridge.
Qed.

(** ** Refusal *)

Lemma owned_manages r : OwnsRobot (ClusterName cfg) (Name r) = true →
  robotOwnedBy (ClusterName cfg) r ns name = true → manages cfg ns name r.
Proof. intros Ho (_ & Hb & Hp)%robotOwnedBy_spec. split_and!; [done..|]. intros k. rewrite Hp. by intros [= <-]. Qed.

Lemma wp_suspendRobot ha rn h Q :
  mine ha → (∀ h' o, quiet h h' → Q h' o) → wp env ok h (suspendRobot cfg ha rn) Q.
Proof.
  intros Hm HQ. unfold suspendRobot.
  destruct (String.eqb rn "" || negb (OwnsRobot (ClusterName cfg) rn)) eqn:E; [apply HQ; eauto with bridge|].
  apply orb_false_iff in E as [_ E%negb_false_iff].
  apply wp_bind, (wp_quiet_call h (HGetByName _)); [done..|]. intros [r|e] Hr Hq; cbv beta iota zeta.
  2: { destruct (errors_Is e ErrRobotNotFound); by apply HQ. }
  apply env_by_name in Hr. rewrite <- Hr in E. destruct Hm as [En Ena]. rewrite En, Ena.
  destruct (robotOwnedBy (ClusterName cfg) r ns name) eqn:Eo; simpl negb; cbv iota; [|by apply HQ].
  destruct (Disabled r) eqn:Ed; simpl andb; cbv iota.
  { destruct (RobotSuspended (Description r)); by apply HQ. }
  assert (seen (existT (HGetByName rn) (Ok r) :: h) r) as Hseen by (apply seen_here; left).
  destruct (canWriteBack (Permissions r)).
  - apply wp_bind, (wp_quiet_call _ (HUpdate _ _ _)); [|done|].
    + exists r. split_and!; try done. by apply owned_manages.
    + intros [err|] _ Hq'; cbv beta iota; apply HQ; eauto with bridge.
  - apply wp_bind, (wp_quiet_call _ (HDelete _)); [by exists r|done|].
    intros [err|] _ Hq'; cbv beta iota; apply HQ; eauto with bridge.
Qed.

Lemma wp_suspend ha h Q : mine ha → (∀ h' o, quiet h h' → Q h' o) → wp env ok h (suspend cfg ha) Q.
Proof.
  intros Hm HQ. unfold suspend. apply wp_bind, wp_deleteOwnRobotSecret; [done|]. intros h1 e Hq1.
  destruct (existsb _ _); simpl negb; cbv iota; [|by apply HQ].
  apply wp_bind, wp_suspendRobot; [done|]. intros h2 [kept|err] Hq2; apply HQ; eauto with bridge.
Qed.

Lemma wp_refuse ha reason h Q : mine ha → (∀ h' o, quiet h h' → Q h' o) → wp env ok h (refuse cfg ha reason) Q.
Proof.
  intros Hm HQ. unfold refuse. apply wp_bind, wp_suspend; [done|]. intros h1 [rel serr] Hq1. cbv beta iota zeta.
  apply wp_bind, wp_setNotReady. intros h2 [ha'|e] Hq2 Hha; cbv beta iota; [|apply HQ; eauto with bridge].
  destruct (Hha ha' eq_refl) as (En & Em & _).
  assert (mine ha') as Hm' by (destruct Hm as [<- <-]; done).
  destruct serr; [apply HQ; eauto with bridge|]. destruct rel; [|apply HQ; eauto with bridge].
  apply wp_bind, wp_releaseRefused; [done|]. intros h3 [e|] Hq3; apply HQ; eauto with bridge.
Qed.

(** ** Provisioning *)

Notation description := (RobotDescription (ClusterName cfg) ns name).

(** A robot the pass goes on with: fresh with its password, or adopted. *)
Definition adopted h (robot : Robot) (created : bool) : Prop :=
  if created then issued h = [RSecret robot] ∧ RSecret robot ≠ EmptyString
  else issued h = [] ∧ seen h robot ∧ wanted cfg h (Name robot) ∧ manages cfg ns name robot.

Lemma wp_stop {A} p h (Q : log ans → A + outcome → Prop) :
  (∀ Q', (∀ h' o, quiet h h' → Q' h' o) → wp env ok h p Q') → (∀ h' o, Q h' (inr o)) → wp env ok h (stop p) Q.
Proof. intros Hp HQ. apply wp_bind, Hp. intros h' o _. apply HQ. Qed.

Lemma wp_adopt ha rn r h Q :
  mine ha → OwnsRobot (ClusterName cfg) rn = true → wanted cfg h rn → issued h = [] → seen h r → Name r = rn →
  (∀ h' r, match r with inl (robot, created) => adopted h' robot created | inr _ => True end → Q h' r) →
  wp env ok h (adopt cfg ha r) Q.
Proof.
  intros Hm Hown Hw Hi Hs Hn HQ. unfold adopt.
  destruct (RobotBelongsToCluster (Description r) (ClusterName cfg)) eqn:Eb; simpl negb; cbv iota zeta;
    [|apply wp_stop; [intros; by apply wp_markNotReady|intros; by apply HQ]].
  destruct (match ParseRobotDescription (Description r) with Some _ => _ | None => _ end) eqn:Ep;
    [apply wp_stop; [intros; by apply wp_markNotReady|intros; by apply HQ]|].
  apply HQ. split_and!; [done..|by rewrite Hn|]. split_and!; [by rewrite Hn|done|]. intros [a b] Ek. rewrite Ek in Ep.
  apply orb_false_iff in Ep as [E1%negb_false_iff E2%negb_false_iff].
  apply String.eqb_eq in E1 as ->, E2 as ->. by destruct Hm as [-> ->].
Qed.

Lemma wp_ensureRobot ha rn perms h Q :
  mine ha → OwnsRobot (ClusterName cfg) rn = true → wanted cfg h rn → issued h = [] →
  latest h = Some ha → Finalizer cfg ∈ Finalizers (Meta ha) →
  (∀ h' r, match r with inl (robot, created) => adopted h' robot created | inr _ => True end → Q h' r) →
  wp env ok h (ensureRobot cfg ha rn description perms) Q.
Proof.
  intros Hm Hown Hw Hi Hl Hf HQ. unfold ensureRobot.
  assert (∀ p h, (∀ Q', (∀ h' o, quiet h h' → Q' h' o) → wp env ok h p Q') → wp env ok h (stop p) Q) as Hstop.
  { intros p h0 Hp. apply wp_stop; [done|]. intros. by apply HQ. }
  assert (∀ r h0, wanted cfg h0 rn → issued h0 = [] → seen h0 r → Name r = rn → wp env ok h0 (adopt cfg ha r) Q) as Hadopt.
  { intros r h0 Hw0 Hi0 Hs Hn. by apply (wp_adopt ha rn). }
  apply wp_bind, (wp_quiet_call h (HGetByName _)); [done..|]. intros [r|e] Hr Hq; cbv beta iota.
  { apply Hadopt; [by eapply quiet_wanted|by rewrite (quiet_issued _ _ Hq)|apply seen_here; left|by eapply env_by_name]. }
  destruct (errors_Is e ErrRobotNotFound); [|apply Hstop; intros; by apply wp_markTransientError].
  wp_call.
  { split_and!; [done|by eapply quiet_wanted|done|by rewrite (quiet_issued _ _ Hq)|]. exists ha. by rewrite latest_cons. }
  intros [r|e'] Hr'; cbv beta iota.
  { apply HQ. apply env_create in Hr' as (_ & _ & _ & Hne). split; [|done].
    by rewrite !issued_cons, Hi. }
  destruct (errors_Is e' ErrRobotAlreadyExists); simpl negb; cbv iota;
    [|apply Hstop; intros; by apply wp_markTransientError].
  apply wp_bind, (wp_quiet_call _ (HGetByName _)); [done..|]. intros [r|e''] Hr'' Hq''; cbv beta iota.
  - apply Hadopt; [|by rewrite !issued_cons, Hi|apply seen_here; left|by eapply env_by_name].
    destruct Hw as (ha0 & ? & ?). exists ha0. split; [|done]. by apply (bind_app_in _ [_; _; _]).
  - apply Hstop. intros. by apply wp_markTransientError.
Qed.

(** The state between steps 6b and 8: the passwords handed out so far. *)
Definition pass_ok h (p : pass) (created : bool) : Prop :=
  writable h (pSecret p) ∧
  if created then issued h = [RSecret (pRobot p)] ∧ RSecret (pRobot p) ≠ EmptyString
  else if pResumed p then issued h = [pPassword p] ∧ pPassword p ≠ EmptyString
  else issued h = [] ∧ pPassword p = EmptyString ∧ seen h (pRobot p) ∧ wanted cfg h (Name (pRobot p)) ∧ manages cfg ns name (pRobot p).

Lemma wp_resume ha secret robot created now perms h Q :
  mine ha → adopted h robot created → writable h secret →
  (∀ h' r, match r with inl p => pass_ok h' p created ∧ (created = true → pResumed p = false) | inr _ => True end → Q h' r) →
  wp env ok h (resume ha secret robot created now description perms) Q.
Proof.
  intros Hm Ha Hw HQ. unfold resume.
  destruct (negb created && Disabled robot && RobotSuspended (Description robot)) eqn:E.
  2: { apply HQ. split; [split; [done|]|done]. unfold adopted in Ha. by destruct created; simpl; destruct_and?. }
  bsimpl. destruct created; [done|]. destruct Ha as (Hi & Hs & Hwa & Hman).
  apply wp_bind.
  assert (∀ Q', (∀ h' o, quiet h h' → Q' h' o) → wp env ok h
    (match secret with Some s => deleteSecret s | None => Ret None end) Q') as Hdel.
  { intros Q' HQ'. destruct secret as [s|]; [|apply HQ'; eauto with bridge].
    destruct (Hw s eq_refl). by apply wp_deleteSecret. }
  apply Hdel. intros h1 [e|] Hq1; cbv beta iota.
  { apply wp_stop; [intros; by apply wp_markTransientError|intros; by apply HQ]. }
  wp_call.
  { split; [by rewrite (quiet_issued _ _ Hq1)|]. exists robot. eauto 10 with bridge. }
  intros [pw|e] Hr; cbv beta iota.
  2: { apply wp_stop; [intros; by apply wp_markTransientError|intros; by apply HQ]. }
  apply env_refresh in Hr as Hpw.
  wp_call.
  { exists robot. split_and!; try done.
    - apply (bind_app_in _ [_]). eapply quiet_seen; eauto.
    - intros _ _. split_and!; [done| |done]. apply here. left. }
  intros [e|] _; cbv beta iota zeta.
  { apply wp_stop; [intros; by apply wp_markTransientError|intros; by apply HQ]. }
  apply HQ. split; [|done]. split; [done|]. cbn [pResumed pPassword]. split; [|done].
  by rewrite !issued_cons, (quiet_issued _ _ Hq1), Hi.
Qed.

Lemma wp_converge ha p created perms h Q :
  pass_ok h p created →
  (∀ h' o, (o = None → pass_ok h' p created) → Q h' o) →
  wp env ok h (converge ha p created description perms) Q.
Proof.
  intros Hp HQ. unfold converge.
  destruct (negb created && negb (pResumed p) && _) eqn:E; [|by apply HQ].
  apply andb_true_iff in E as [E _]. bsimpl. destruct Hp as [Hw Hp]. destruct created; [done|].
  destruct (pResumed p) eqn:Er; [done|]. destruct Hp as (Hi & Hpw & Hs & Hwa & Hman).
  apply wp_bind, (wp_quiet_call _ (HUpdate _ _ _)); [|done|].
  - exists (pRobot p). split_and!; try done; congruence.
  - intros [e|] _ Hq; cbv beta iota.
    + apply wp_bind, wp_markTransientError. intros h2 o _. by apply HQ.
    + apply HQ. intros _. split; [by eapply writable_mono|]. rewrite Er, (quiet_issued _ _ Hq). eauto with bridge.
Qed.

Definition password_ok h pw : Prop := (issued h = [] ∧ pw = EmptyString) ∨ (issued h = [pw] ∧ pw ≠ EmptyString).

Lemma wp_newPassword ha p created now h Q :
  pass_ok h p created →
  (∀ h' r, match r with inl (pw, _) => password_ok h' pw ∧ writable h' (pSecret p) | inr _ => True end → Q h' r) →
  wp env ok h (newPassword ha p created now) Q.
Proof.
  intros [Hw Hp] HQ. unfold newPassword. destruct created; [apply HQ; split; [by right|done]|].
  destruct (pResumed p) eqn:Er; simpl negb; simpl andb; cbv iota; [apply HQ; split; [by right|done]|].
  destruct Hp as (Hi & Hpw & Hs & Hwa & Hman).
  destruct (negb _); [|apply HQ; split; [by left|done]].
  wp_call; [split; [done|]; by exists (pRobot p)|].
  intros [pw|e] Hr; cbv beta iota.
  - apply HQ. split; [|intros s Hs'; destruct (Hw s Hs') as [? ?]; split; [by apply (bind_app_in _ [_])|done]].
    right. apply env_refresh in Hr. split; [|done]. by rewrite !issued_cons, Hi.
  - apply wp_stop; [intros; by apply wp_markTransientError|intros; by apply HQ].
Qed.

Lemma wp_deleteStaleRobots ha keep h Q :
  mine ha → (∀ h' o, quiet h h' → Q h' o) → wp env ok h (deleteStaleRobots cfg ha keep) Q.
Proof.
  intros Hm HQ. apply wp_bind, (wp_quiet_call h HList); [done..|]. intros [robots|e] _ Hq; cbv beta iota; [|by apply HQ].
  apply wp_deleteOwned; [done| |].
  - intros r Hr. by apply seen_here.
  - intros h' o Hq' _. apply HQ. eauto with bridge.
Qed.

Lemma wp_finish ha p created pw rot now h Q :
  mine ha → password_ok h pw → writable h (pSecret p) → (∀ h' o, Q h' o) →
  wp env ok h (finish cfg retry ha p created pw rot now) Q.
Proof.
  intros Hm Hp Hw HQ. unfold finish. apply wp_bind, wp_writeRobotSecret; [done..|].
  intros h1 [e|] Hq1 Hst; cbv beta iota; [by apply wp_markTransientError|].
  assert (∀ pw', pw' ∈ issued h1 → password_stored h1 pw') as Hall.
  { intros pw'. rewrite (quiet_issued _ _ Hq1). destruct Hp as [[-> _]|[-> Hne]]; [by intros ?%elem_of_nil|].
    intros ->%list_elem_of_singleton. by apply Hst. }
  assert (∀ Q', (∀ h' o, quiet h1 h' → Q' h' o) → wp env ok h1 (if cleanupDue ha (pRobot p) created
    then deleteStaleRobots cfg ha (ID (pRobot p)) else Ret None) Q') as Hclean.
  { intros Q' HQ'. destruct (cleanupDue _ _ _); [by apply wp_deleteStaleRobots|apply HQ'; eauto with bridge]. }
  apply wp_bind, Hclean. intros h2 [e|] Hq2; cbv beta iota; [by apply wp_markTransientError|].
  destruct (Disabled (pRobot p)); [by apply wp_markNotReady|].
  wp_call; [|by intros [] _; apply HQ].
  intros _ pw' Hpw'. rewrite (quiet_issued _ _ Hq2) in Hpw'. eapply password_stored_mono; [exact Hq2|auto].
Qed.

Lemma wp_serve ha secret robot created perms h Q :
  mine ha → adopted h robot created → writable h secret → (∀ h' o, Q h' o) →
  wp env ok h (serve cfg retry ha secret robot created description perms) Q.
Proof.
  intros Hm Ha Hw HQ. apply wp_bind, (wp_quiet_call h Now); [done..|]. intros now _ Hq.
  assert (adopted (existT Now now :: h) robot created) as Ha'.
  { unfold adopted in *. rewrite (quiet_issued _ _ Hq). destruct created; [done|]. destruct_and?. eauto with bridge. }
  apply wp_bind, wp_resume; [done..|by eapply writable_mono|].
  intros h1 [p|o] Hp; cbv beta iota; [|by apply HQ]. destruct Hp as [Hp _].
  apply wp_bind, wp_converge; [done|]. intros h2 [o|] Hp2; cbv beta iota; [by apply HQ|].
  apply wp_bind, wp_newPassword; [by apply Hp2|]. intros h3 [[pw rot]|o] H3; cbv beta iota; [|by apply HQ].
  destruct H3. by apply wp_finish.
Qed.


Lemma wp_provision ha rn h Q :
  mine ha → wanted cfg h rn → issued h = [] → latest h = Some ha → (∀ h' o, Q h' o) →
  wp env ok h (provision cfg retry ha rn) Q.
Proof.
  intros Hm Hwa Hi Hl HQ. unfold provision. destruct (OwnsRobot (ClusterName cfg) rn) eqn:Eo; simpl negb; cbv iota; [|by apply HQ].
  assert (∀ Q', (∀ h' r, quiet h h' → latest h' = Some ha → (∀ s, r = Ok (Some s) → read_secret h' s) → Q' h' r) →
    wp env ok h (getRobotSecret cfg ha) Q') as Hget.
  { intros Q' HQ'. apply wp_bind, (wp_quiet_call h (GetSecret _ _)); [done..|].
    intros [s|e] _ Hq; cbv beta iota.
    - apply HQ'; [done|by rewrite latest_cons|]. intros s' [= <-]. apply here. left.
    - destruct (IsNotFound e); apply HQ'; (done || by rewrite latest_cons). }
  apply wp_bind, Hget. intros h1 [secret|e] Hq1 Hl1 Hs1; cbv beta iota; [|by apply wp_markTransientError].
  destruct (secretConflict cfg ha secret rn) eqn:Ec; [by apply wp_markNotReady|].
  apply wp_bind, wp_ensureFinalizer; [done|]. intros h2 [ha'|e] Hq2 Hf; cbv beta iota; [|by apply HQ].
  destruct (Hf ha' eq_refl) as (En & Em & _ & Hl2 & Hfin).
  assert (mine ha') as Hm' by (destruct Hm as [<- <-]; done).
  cbv zeta. destruct Hm' as [En' Em']. rewrite En', Em'.
  apply wp_bind. eapply wp_mono.
  { apply wp_extends, (wp_ensureRobot ha' rn (toHarborPerms (SPermissions (Spec ha'))) h2
      (λ h' r, match r with inl (robot, created) => adopted h' robot created | inr _ => True end)); try done.
    - eauto with bridge.
    - by rewrite (quiet_issued _ _ Hq2), (quiet_issued _ _ Hq1). }
  intros h3 [[robot created]|o] [[l ->] Ha]; cbv beta iota; [|by apply HQ].
  apply wp_serve; [done..| |done].
  intros s ->. split; [|by eapply (secretConflict_None ha)].
  apply bind_app_in. eapply quiet_read; [done|]. by apply Hs1.
Qed.

Lemma wp_reconcileNormal ha h Q :
  mine ha → ha ∈ h ≫= read_of → issued h = [] → latest h = Some ha → (∀ h' o, Q h' o) →
  wp env ok h (reconcileNormal cfg retry ha) Q.
Proof.
  intros Hm Hrd Hi Hl HQ. unfold reconcileNormal. destruct (refusal cfg ha); [by apply wp_refuse|].
  destruct (RobotName _ _ _) eqn:E; [|by apply wp_refuse]. apply wp_provision; [done| |done..]. by exists ha.
Qed.

(** ** Deletion *)

Lemma wp_reconcileDelete ha h Q :
  mine ha → (∀ h' o, Q h' o) → wp env ok h (reconcileDelete cfg ha) Q.
Proof.
  intros Hm HQ. unfold reconcileDelete. destruct (held cfg ha) as [|f fs]; [by apply HQ|].
  apply wp_bind, (wp_quiet_call h HList); [done..|]. intros [robots|e] _ Hq; cbv beta iota; [|by apply wp_blockDeletion].
  apply wp_bind, wp_deleteOwned; [done|intros r Hr; by apply seen_here|].
  intros h1 [e|] Hq1 Hc; cbv beta iota; [by apply wp_blockDeletion|].
  apply wp_bind, wp_deleteOwnRobotSecret; [done|]. intros h2 [e|] Hq2; cbv beta iota; [by apply wp_blockDeletion|].
  wp_call; [|by intros [] _; apply HQ].
  intros _. destruct (Hc eq_refl) as [Hrev Hmis]. exists robots. split_and!; [|intros|done].
  - eapply quiet_listed; [exact (quiet_trans _ _ _ Hq1 Hq2)|]. apply here. left.
  - eapply quiet_revoked; [done|]. by apply Hrev.
Qed.

Lemma wp_Reconcile h Q :
  issued h = [] → (∀ h' o, Q h' o) → wp env ok h (Reconcile cfg retry ns name) Q.
Proof.
  intros Hi HQ. apply wp_bind, (wp_quiet_call h (GetHA ns name)); [done..|].
  intros [ha|e] Hr Hq; cbv beta iota; [|by apply HQ]. apply env_get in Hr.
  destruct (Selects cfg ha); simpl negb; cbv iota; [|by apply HQ].
  destruct (deleting ha); [by apply wp_reconcileDelete|].
  apply wp_reconcileNormal; [done| |done..]. apply here. left.
Qed.

(** Every call of a pass is allowed. *)
Lemma Reconcile_allowed h' o : runs env (Reconcile cfg retry ns name) [] h' o → log_ok ok [] h'.
Proof. apply wp_calls. by apply wp_Reconcile. Qed.
End Safety.
