(* ===== verification/ReconcilerProps.v ===== *)
(** * Properties of the reconciler

    What a reconcile pass guarantees, whatever the API server and Harbor answer:
    which robots and Secrets it touches, in which order, when it reports Ready, when
    it releases its finalizers, and how the rotation schedule behaves. *)

From S2P Require Import Prelude Effects GoStrings GoStd GoTime Naming HarborPerms HarborClient Api RobotSecret.
From S2P Require Import Contract Config Kube Reconciler ReconcilerSpec ReconcilerProofs.

(** ** The Harbor client discharges [HarborEnv] *)

(** Harbor calls answered by the modelled client over an arbitrary Harbor; the other
    calls answered by [kube]. *)
Definition client_env (prefix : string) (kube : log ans → ∀ c, ans c → Prop) (h : log ans) (c : call) : ans c → Prop :=
  match c with
  | HCreate n d p => λ r, ∃ l, runs any_env (Create prefix n d p) [] l r
  | HDelete id => λ r, ∃ l, runs any_env (Delete id) [] l r
  | HList => λ r, ∃ l, runs any_env (List prefix) [] l r
  | HGetByName n => λ r, ∃ l, runs any_env (GetByName prefix n) [] l r
  | HRefreshSecret id => λ r, ∃ l, runs any_env (RefreshSecret id) [] l r
  | HUpdate cur d p => λ r, ∃ l, runs any_env (Update (Some cur) d p) [] l r
  | c => kube h c
  end.

Lemma wp_Create_fields prefix n d p h :
  wp any_env (λ _ _, True) h (Create prefix n d p)
    (λ _ a, match a with Ok r => Name r = n ∧ Description r = d ∧ Disabled r = false ∧ RSecret r ≠ EmptyString | Err _ => True end).
Proof.
  unfold Create. destruct (validatePermissions p); [done|].
  wp_call; [done|]. intros [[c|]|e] _; [|done..].
  destruct (String.eqb_spec (crSecret c) ""); [done|].
  destruct (_ || _); [done|]. destruct (String.eqb _ _); [done|].
  apply wp_bind, wp_Delete. by intros r [].
Qed.

Lemma wp_RefreshSecret_ne id h :
  wp any_env (λ _ _, True) h (RefreshSecret id) (λ _ a, match a with Ok pw => pw ≠ EmptyString | Err _ => True end).
Proof.
  unfold RefreshSecret. wp_call; [done|]. intros [[s|]|e] _; [|done..].
  by destruct (String.eqb_spec s "").
Qed.

#[export] Instance client_harbor_env prefix kube : HarborEnv (client_env prefix kube).
Proof.
  constructor; simpl.
  - intros h n r [l Hl]. exact (wp_result _ _ _ _ _ (λ a, match a with Ok r => Name r = n | Err _ => True end)
      (wp_GetByName_name _ _ _) Hl).
  - intros h n d p r [l Hl]. exact (wp_result _ _ _ _ _ (λ a, match a with Ok r => Name r = n ∧ Description r = d
      ∧ Disabled r = false ∧ RSecret r ≠ EmptyString | Err _ => True end) (wp_Create_fields _ _ _ _ _) Hl).
  - intros h id pw [l Hl]. exact (wp_result _ _ _ _ _ (λ a, match a with Ok pw => pw ≠ EmptyString | Err _ => True end)
      (wp_RefreshSecret_ne _ _) Hl).
Qed.

(** The weakest API server of [KubeEnv]. *)
Definition api_server (h : log ans) (c : call) : ans c → Prop :=
  match c with
  | GetHA ns name => λ r, ∀ ha, r = Ok ha → haNS ha = ns ∧ haName ha = name
  | PatchHA b a => λ r, ∀ ha, r = Ok ha → haNS ha = haNS a ∧ haName ha = haName a ∧ Spec ha = Spec a
      ∧ Status ha = Status a ∧ Finalizers (Meta ha) = Finalizers (Meta a)
  | UpdateStatus a => λ r, ∀ ha, r = Ok ha → haNS ha = haNS a ∧ haName ha = haName a ∧ Spec ha = Spec a
      ∧ Finalizers (Meta ha) = Finalizers (Meta a)
  | _ => λ _, True
  end.

#[export] Instance api_server_kube prefix : KubeEnv (client_env prefix api_server).
Proof. constructor; simpl; eauto. Qed.

(** ** The parts of the contract *)

Section Parts.
Context (cfg : Config) (ns name : string).

(** Stated on the names and descriptions Harbor holds, not on the ownership tests. *)
Definition own_robots_only (h : log ans) (c : call) : Prop :=
  match c with
  | HCreate n d _ => wanted cfg h n ∧
      d = "managed-by=harbor-workload-identity-bridge cluster=" +:+ ClusterName cfg +:+ " harboraccess=" +:+ ns +:+ "/" +:+ name
  | HDelete id => ∃ r, seen h r ∧ ID r = id ∧ robot_of (ClusterName cfg) ns name r
  | HRefreshSecret id => ∃ r, seen h r ∧ ID r = id ∧ wanted cfg h (Name r) ∧
      of_cluster (ClusterName cfg) (Description r) ∧ not_of_other ns name (Description r)
  | HUpdate cur _ _ => ∃ r, seen h r ∧ ID cur = ID r ∧ WireName cur = WireName r ∧ named_for (ClusterName cfg) (Name r) ∧
      of_cluster (ClusterName cfg) (Description r) ∧ not_of_other ns name (Description r)
  | _ => True
  end.

Definition finalizer_first (h : log ans) (c : call) : Prop :=
  match c with
  | HCreate _ _ _ => ∃ ha, latest h = Some ha ∧ Finalizer cfg ∈ Finalizers (Meta ha)
  | _ => True
  end.

Definition enables_only_suspended (h : log ans) (c : call) : Prop :=
  match c with
  | HUpdate cur d _ => ∃ r, seen h r ∧ ID cur = ID r ∧
      (Disabled r = true → Disabled cur = false → RobotSuspended (Description r) = true ∧ refreshed h (ID r))
      ∧ (Disabled r = false → Disabled cur = true → d = SuspendedRobotDescription (ClusterName cfg) ns name)
  | _ => True
  end.

Definition ready_means_stored (h : log ans) (c : call) : Prop :=
  match c with
  | HCreate _ _ _ | HRefreshSecret _ => issued h = []
  | UpdateStatus ha => ready ha → ∀ pw, pw ∈ issued h →
      ∃ s, stored h s ∧ stamped cfg ns name s ∧ index (Data s) KeyPassword = pw
  | _ => True
  end.

Definition release_after_revocation (h : log ans) (c : call) : Prop :=
  match c with
  | PatchHA before after => (∃ f, f ∈ Finalizers (Meta before) ∧ f ∉ Finalizers (Meta after)) → all_revoked cfg ns name h
  | _ => True
  end.

Definition own_secrets_only (h : log ans) (c : call) : Prop :=
  match c with
  | CreateSecret s => stamped cfg ns name s ∧ OName (SMeta s) = SecretName ns name ∧ Namespace (SMeta s) = CfgNamespace cfg
  | UpdateSecret s => stamped cfg ns name s ∧ ∃ s', read_secret h s' ∧ UID (SMeta s) = UID (SMeta s')
      ∧ ResourceVersion (SMeta s) = ResourceVersion (SMeta s') ∧ StampedForOther s' ns name = false
  | DeleteSecret _ _ uid => ∃ s, read_secret h s ∧ UID (SMeta s) = uid ∧ StampedForOther s ns name = false
  | _ => True
  end.
End Parts.

Section Properties.
Context `{AL : ApimachineryLaws} (cfg : Config) (retry : nat).
Context (env : log ans → ∀ c, ans c → Prop) {KE : KubeEnv env} {HE : HarborEnv env}.
Context (ns name : string).

(** C2: A pass touches only its own robots. Every robot it creates has exactly the
    robot name of the ServiceAccount that the HarborAccess, as read in this pass,
    refers to, and the description of this cluster and this HarborAccess. Every robot
    it deletes was read from Harbor in this pass, its name has this cluster's prefix
    (or the older form of it) and its description names this cluster and this
    HarborAccess. Every robot it rotates was read in this pass under that robot name,
    and every robot it rewrites under a name with this cluster's prefix; both are
    described for this cluster and for no other HarborAccess. *)
Theorem Reconcile_own_robots_only h' o :
  runs env (Reconcile cfg retry ns name) [] h' o → log_ok (own_robots_only cfg ns name) [] h'.
Proof.
  intros Hr. eapply log_ok_mono; [|by eapply Reconcile_allowed]. intros h [] Ha; try done; cbn in *.
  - by destruct Ha as (_ & ? & -> & _).
  - destruct Ha as (r & ? & ? & ?%robotOwnedBy_text). by exists r.
  - destruct Ha as (_ & r & ? & ? & ? & _ & ?%RobotBelongsToCluster_says & ?%Parse_not_of_other). by exists r.
  - destruct Ha as (r & ? & ? & ? & (?%OwnsRobot_named & ?%RobotBelongsToCluster_says & ?%Parse_not_of_other) & _). by exists r.
Qed.

(** No robot exists without the finalizer that revokes it. When a pass creates
    a robot, the object as the API server last returned it carries this bridge's
    finalizer. *)
Theorem Reconcile_finalizer_first h' o :
  runs env (Reconcile cfg retry ns name) [] h' o → log_ok (finalizer_first cfg) [] h'.
Proof.
  intros Hr. eapply log_ok_mono; [|by eapply Reconcile_allowed]. intros h [] Ha; try done; cbn in *.
  by destruct Ha as (_ & _ & _ & _ & ?).
Qed.

(** Only the bridge's own suspension is undone. An update that enables a
    disabled robot concerns a robot that carries the suspension token and whose
    password was replaced earlier in the same pass (no password from before the
    suspension works again); an update that disables one writes the token. *)
Theorem Reconcile_enables_only_suspended h' o :
  runs env (Reconcile cfg retry ns name) [] h' o → log_ok (enables_only_suspended cfg ns name) [] h'.
Proof.
  intros Hr. eapply log_ok_mono; [|by eapply Reconcile_allowed]. intros h [] Ha; try done; cbn in *.
  destruct Ha as (r & ? & ? & _ & _ & He & Hd). exists r. split_and!; [done..| |done].
  intros Hdis Hen. by destruct (He Hdis Hen) as (? & ? & _).
Qed.

(** C32: Ready is never claimed for a password that was not stored. A pass obtains at
    most one new password from Harbor, and when it reports Ready that password is in
    a Secret the API server accepted, stamped for this HarborAccess. *)
Theorem Reconcile_ready_means_stored h' o :
  runs env (Reconcile cfg retry ns name) [] h' o → log_ok (ready_means_stored cfg ns name) [] h'.
Proof.
  intros Hr. eapply log_ok_mono; [|by eapply Reconcile_allowed]. intros h [] Ha; try done; cbn in *.
  - by destruct Ha as (_ & _ & _ & ? & _).
  - by destruct Ha as (? & _).
Qed.

(** Finalizers are released only after revocation. A patch that drops a finalizer
    follows a successful listing of Harbor's robots in which every robot of this
    HarborAccess has been deleted and none carries its description under a name the
    bridge may not touch. *)
Theorem Reconcile_release_after_revocation h' o :
  runs env (Reconcile cfg retry ns name) [] h' o → log_ok (release_after_revocation cfg ns name) [] h'.
Proof. intros Hr. eapply log_ok_mono; [|by eapply Reconcile_allowed]. by intros h []. Qed.

(** C33: A pass touches only its own Secret. It creates the Secret at this
    HarborAccess's name with its stamp, and updates (conditional on the version read)
    or deletes (conditional on the UID) only a Secret it read that is not stamped for
    another HarborAccess. *)
Theorem Reconcile_own_secrets_only h' o :
  runs env (Reconcile cfg retry ns name) [] h' o → log_ok (own_secrets_only cfg ns name) [] h'.
Proof. intros Hr. eapply log_ok_mono; [|by eapply Reconcile_allowed]. by intros h []. Qed.
End Properties.

(** ** Concrete passes *)

#[local] Existing Instance list_apimachinery.
#[local] Existing Instance list_apimachinery_laws.

(** A bridge of cluster "prod" and an API server and Harbor that hold what the state
    says: the robot and the Secret. *)
Definition demo_cfg : Config :=
  MkConfig "prod" "bridge" (MkURL "https" None "issuer" "" (λ _, "https://issuer")) None "" "" (MkURL "https" None "harbor" "" (λ _, "https://harbor"))
    "/creds" "robot$" true "info" "" false "harbor" None "" Hour true.

Definition demo_ha (ns name : string) (finalizers : list string) (deletion : option Time) : HarborAccess :=
  MkHA (MkMeta ns name "uid-1" "1" 3 ∅ ∅ finalizers deletion)
    (MkSpec (MkSARef "apps" "puller") (MkTrustPolicy "https://issuer" "harbor") [MkPerm "team" "pull"] (MkTTL Hour ""))
    (MkStatus None "" 0 []).

Definition demo_robot (d : string) (disabled : bool) : Robot :=
  MkRobot 7 "bridge-prod.apps.puller" "robot$bridge-prod.apps.puller" d disabled (-1) [MkPerm "team" "pull"] false "".

(** The object, and the robot Harbor holds. *)
Record demo := MkDemo { demo_finalizers : list string; demo_deletion : option Time; demo_held : option Robot }.

Definition demo_serve (d : demo) (s : unit) (c : call) : ans c * unit :=
  match c with
  | GetHA ns name => (Ok (demo_ha ns name (demo_finalizers d) (demo_deletion d)), s)
  | ListHA => (Ok [], s)
  | PatchHA _ a => (Ok a, s)
  | UpdateStatus a => (Ok a, s)
  | GetSecret _ _ => (Err (EStatus NotFound), s)
  | ListSecrets _ _ => (Ok [], s)
  | CreateSecret _ => (Ok tt, s)
  | UpdateSecret _ => (Ok tt, s)
  | DeleteSecret _ _ _ => (Ok tt, s)
  | HCreate n de p => (Ok (MkRobot 9 n (DefaultRobotPrefix +:+ n) de false (-1) (normalizePermissions p) false "pw"), s)
  | HDelete _ => (None, s)
  | HList => (Ok (match demo_held d with Some r => [r] | None => [] end), s)
  | HGetByName n => (match demo_held d with
                     | Some r => if String.eqb (Name r) n then Ok r else Err (ESentinel ErrRobotNotFound)
                     | None => Err (ESentinel ErrRobotNotFound)
                     end, s)
  | HRefreshSecret _ => (Ok "new-pw", s)
  | HUpdate _ _ _ => (None, s)
  | Now => (63925000000 * Second, s)
  end.

(** The contract's environments contain it. *)
Definition demo_env (h : log ans) (c : call) (r : ans c) : Prop :=
  api_server h c r ∧
  match c as c return ans c → Prop with
  | HGetByName n => λ r, ∀ x, r = Ok x → Name x = n
  | HCreate n d _ => λ r, ∀ x, r = Ok x → Name x = n ∧ Description x = d ∧ Disabled x = false ∧ RSecret x ≠ EmptyString
  | HRefreshSecret _ => λ r, ∀ pw, r = Ok pw → pw ≠ EmptyString
  | _ => λ _, True
  end r.

#[export] Instance demo_kube : KubeEnv demo_env.
Proof. constructor; intros; match goal with Hd : demo_env _ _ _ |- _ => destruct Hd as [Ha _] end; by apply Ha. Qed.
#[export] Instance demo_harbor : HarborEnv demo_env.
Proof. constructor; intros; match goal with Hd : demo_env _ _ _ |- _ => destruct Hd as [_ Ha] end; by apply Ha. Qed.

Lemma demo_serve_ok d s h c : demo_env h c (demo_serve d s c).1.
Proof.
  split; destruct c; try done; simpl.
  - by intros ? [= <-].
  - by intros ? [= <-].
  - by intros ? [= <-].
  - by intros x [= <-].
  - intros x. destruct (demo_held d) as [r|]; [|done].
    destruct (String.eqb_spec (Name r) name); [|done]. by intros [= <-].
  - by intros pw [= <-].
Qed.

Definition demo_log (d : demo) : log ans := (play (demo_serve d) tt (Reconcile demo_cfg 5 "team-a" "app") []).1.2.
Definition demo_out (d : demo) : outcome := (play (demo_serve d) tt (Reconcile demo_cfg 5 "team-a" "app") []).2.

Lemma demo_runs d : runs demo_env (Reconcile demo_cfg 5 "team-a" "app") [] (demo_log d) (demo_out d).
Proof. apply play_runs_in, demo_serve_ok. Qed.

(** A new object; an object whose robot the bridge suspended; an object being deleted. *)
Definition demo_new : demo := MkDemo [] None None.
Definition demo_suspended : demo :=
  MkDemo [] None (Some (demo_robot (SuspendedRobotDescription "prod" "team-a" "app") true)).
Definition demo_deleted : demo :=
  MkDemo [FinalizerName] (Some 1) (Some (demo_robot (RobotDescription "prod" "team-a" "app") false)).

Lemma Reconcile_own_robots_only_witness :
  demo_log demo_deleted ≫= deleted_of = [7] ∧ log_ok (own_robots_only demo_cfg "team-a" "app") [] (demo_log demo_deleted).
Proof.
  split; [vm_compute; reflexivity|].
  apply (Reconcile_own_robots_only demo_cfg 5 demo_env "team-a" "app" _ (demo_out demo_deleted)). apply demo_runs.
Defined.

Lemma Reconcile_finalizer_first_witness :
  issued (demo_log demo_new) = ["pw"] ∧ log_ok (finalizer_first demo_cfg) [] (demo_log demo_new).
Proof.
  split; [vm_compute; reflexivity|].
  apply (Reconcile_finalizer_first demo_cfg 5 demo_env "team-a" "app" _ (demo_out demo_new)). apply demo_runs.
Defined.

Lemma Reconcile_enables_only_suspended_witness :
  demo_log demo_suspended ≫= refreshed_of = [7] ∧
  log_ok (enables_only_suspended demo_cfg "team-a" "app") [] (demo_log demo_suspended).
Proof.
  split; [vm_compute; reflexivity|].
  apply (Reconcile_enables_only_suspended demo_cfg 5 demo_env "team-a" "app" _ (demo_out demo_suspended)). apply demo_runs.
Defined.

Lemma Reconcile_ready_means_stored_witness :
  length (demo_log demo_new ≫= stored_of) = 1%nat ∧ log_ok (ready_means_stored demo_cfg "team-a" "app") [] (demo_log demo_new).
Proof.
  split; [vm_compute; reflexivity|].
  apply (Reconcile_ready_means_stored demo_cfg 5 demo_env "team-a" "app" _ (demo_out demo_new)). apply demo_runs.
Defined.

Lemma Reconcile_release_after_revocation_witness :
  Finalizers ∘ Meta <$> latest (demo_log demo_deleted) = Some [] ∧
  log_ok (release_after_revocation demo_cfg "team-a" "app") [] (demo_log demo_deleted).
Proof.
  split; [vm_compute; reflexivity|].
  apply (Reconcile_release_after_revocation demo_cfg 5 demo_env "team-a" "app" _ (demo_out demo_deleted)). apply demo_runs.
Defined.

Lemma Reconcile_own_secrets_only_witness :
  (OName ∘ SMeta <$> (demo_log demo_new ≫= stored_of)) = ["robot-team-a.app"] ∧
  log_ok (own_secrets_only demo_cfg "team-a" "app") [] (demo_log demo_new).
Proof.
  split; [vm_compute; reflexivity|].
  apply (Reconcile_own_secrets_only demo_cfg 5 demo_env "team-a" "app" _ (demo_out demo_new)). apply demo_runs.
Defined.

(** ** Refusal *)

(** What a pass over a refused object may call. *)
Definition refused_call (c : call) : Prop :=
  match c with
  | HCreate _ _ _ | HRefreshSecret _ | CreateSecret _ | UpdateSecret _ => False
  | HUpdate cur _ _ => Disabled cur = true
  | UpdateStatus ha => ¬ ready ha
  | _ => True
  end.

Ltac calls_step := first
  [ done
  | apply calls_bind; [|intros ?]
  | apply calls_trigger
  | match goal with |- context [match ?x with _ => _ end] =>
      lazymatch x with context [match _ with _ => _ end] => fail | _ => destruct x eqn:? end end ].

Section Refusal.
Context `{AL : ApimachineryLaws} (cfg : Config) (retry : nat).

Lemma calls_setNotReady ha reason : calls refused_call (setNotReady ha reason).
Proof. apply calls_trigger. apply not_ready. Qed.

Lemma calls_deleteOwnRobotSecret ha rn : calls refused_call (deleteOwnRobotSecret cfg ha rn).
Proof. unfold deleteOwnRobotSecret, getRobotSecret, deleteSecret. repeat calls_step. Qed.

Lemma calls_suspendRobot ha rn : calls refused_call (suspendRobot cfg ha rn).
Proof. unfold suspendRobot. repeat calls_step. Qed.

Lemma calls_releaseRefused ha : calls refused_call (releaseRefused cfg ha).
Proof. unfold releaseRefused. repeat calls_step. Qed.

Lemma calls_refuse ha reason : calls refused_call (refuse cfg ha reason).
Proof.
  unfold refuse, suspend.
  repeat first [apply calls_deleteOwnRobotSecret | apply calls_suspendRobot | apply calls_releaseRefused
               | apply calls_setNotReady | calls_step].
Qed.

Lemma calls_deleteOwned ha keep robots : calls refused_call (deleteOwned cfg ha keep robots).
Proof. induction robots as [|r robots IH]; cbn [deleteOwned]; repeat first [apply IH | calls_step]. Qed.

Lemma calls_reconcileDelete ha : calls refused_call (reconcileDelete cfg ha).
Proof.
  unfold reconcileDelete, blockDeletion. destruct (held cfg ha); [done|].
  repeat first [apply calls_deleteOwned | apply calls_deleteOwnRobotSecret | apply calls_setNotReady | calls_step].
Qed.

(** What this bridge must not serve: a trust policy for another issuer or audience,
    a name too long for a label, a permission on something that is no project name
    (a wildcard, say), a token lifetime that is no duration, or a ServiceAccount whose
    robot name Harbor would not accept. *)
Inductive must_refuse (ha : HarborAccess) : Prop :=
  | other_issuer : Issuer (Trust (Spec ha)) ≠ UString (OIDCIssuer cfg) → must_refuse ha
  | other_audience : Audience (Trust (Spec ha)) ≠ CfgAudience cfg → must_refuse ha
  | name_too_long : 63 < len (haName ha) → must_refuse ha
  | no_project p : p ∈ SPermissions (Spec ha) → ¬ project_name (Project p) → must_refuse ha
  | no_duration : invalid (TokenTTL (Spec ha)) ≠ EmptyString → must_refuse ha
  | no_robot_name n :
      n = "bridge-" +:+ ClusterName cfg +:+ "." +:+ SANamespace (SARef (Spec ha)) +:+ "." +:+ SAName (SARef (Spec ha)) →
      len n ≤ 240 → ¬ harbor_name n → must_refuse ha.

Lemma all_valid_projects_spec perms p :
  all_valid_projects perms = true → p ∈ perms → project_name (Project p).
Proof.
  induction perms as [|q perms IH]; [by intros _ ?%elem_of_nil|]. simpl.
  destruct (ValidateProjectName (Project q)) eqn:E; [done|]. intros Hv [->|Hp]%elem_of_cons; [|auto].
  by apply ValidateProjectName_name.
Qed.

Lemma must_refuse_refusal ha : must_refuse ha →
  refusal cfg ha = None → ∃ e, RobotName (ClusterName cfg) (SANamespace (SARef (Spec ha))) (SAName (SARef (Spec ha))) = Err e.
Proof.
  intros Hm. unfold refusal. destruct (String.eqb _ _ && _ && _ && _ && _); [done|].
  destruct (String.eqb_spec (Issuer (Trust (Spec ha))) (UString (OIDCIssuer cfg))); [|done].
  destruct (String.eqb_spec (Audience (Trust (Spec ha))) (CfgAudience cfg)); [|done].
  destruct (Z.gtb_spec (len (haName ha)) HarborAccessNameMaxLen); [done|].
  destruct (all_valid_projects (SPermissions (Spec ha))) eqn:Ep; [|done]. unfold TTL_Err.
  destruct (String.eqb_spec (invalid (TokenTTL (Spec ha))) ""); [|by rewrite bool_decide_eq_true_2].
  intros _. destruct Hm as [| |?|p Hp Hn| |n -> Hlen Hn]; try done.
  - unfold HarborAccessNameMaxLen in *. lia.
  - exfalso. by eapply Hn, all_valid_projects_spec.
  - unfold RobotName, robotName. unfold natural_name, robotNamePrefix, RobotNameCap. apply Z.leb_le in Hlen as ->.
    unfold IsValidHarborRobotName. rewrite <- match_segments_name in Hn. apply not_true_is_false in Hn as ->. eauto.
Qed.

Lemma calls_must_refuse ha : must_refuse ha → calls refused_call (reconcileNormal cfg retry ha).
Proof.
  intros Hm. unfold reconcileNormal. destruct (refusal cfg ha) eqn:E; [apply calls_refuse|].
  destruct (must_refuse_refusal ha Hm E) as [e ->]. apply calls_refuse.
Qed.

End Refusal.

(** A bridge for another issuer reads an object whose robot exists. *)
Definition foreign_cfg : Config :=
  MkConfig "prod" "bridge" (MkURL "https" None "other" "" (λ _, "https://other")) None "" "" (MkURL "https" None "harbor" "" (λ _, "https://harbor"))
    "/creds" "robot$" true "info" "" false "harbor" None "" Hour true.
Definition foreign_demo : demo := MkDemo [FinalizerName] None (Some (demo_robot (RobotDescription "prod" "team-a" "app") false)).
Definition foreign_run := play (demo_serve foreign_demo) tt (Reconcile foreign_cfg 5 "team-a" "app") [].


(** ** Deletion, end to end *)

Lemma listed_env (env : log ans → ∀ c, ans c → Prop) h robots :
  log_env env [] h → listed h robots → ∃ h0, env h0 HList (Ok robots).
Proof.
  intros Hl Hr. induction Hl as [|h c r Hl IH Hc]; [by apply elem_of_nil in Hr|].
  unfold listed in Hr. simpl in Hr. apply elem_of_app in Hr as [Hr|Hr]; [|by apply IH].
  destruct c; try (by apply elem_of_nil in Hr). destruct r as [l|]; [|by apply elem_of_nil in Hr].
  apply list_elem_of_singleton in Hr as ->. eauto.
Qed.

Lemma log_env_suffix (env : log ans → ∀ c, ans c → Prop) post pre : log_env env [] (post ++ pre) → log_env env [] pre.
Proof.
  induction post as [|e post IH]; [done|]. simpl. inversion 1; subst. by apply IH.
Qed.

(** C5: Deleting a HarborAccess leaves no robot behind. Let Harbor answer the
    listing as documented while other actors create and delete robots. When a pass
    drops a finalizer, every robot of the HarborAccess that Harbor held during the
    listing has been deleted by this pass. *)
Theorem release_leaves_no_robot `{AL : ApimachineryLaws} cfg retry env `{KE : !KubeEnv env, HE : !HarborEnv env}
    ns name world prefix h' o post before after x pre f id m r :
  world_ok world →
  (∀ h a, env h HList a → ∃ l, runs (honest_listing world) (List prefix) [] l a) →
  runs env (Reconcile cfg retry ns name) [] h' o →
  h' = post ++ existT (PatchHA before after) x :: pre →
  f ∈ Finalizers (Meta before) → f ∉ Finalizers (Meta after) →
  (∀ t, world t !! id = Some m) → fromHarborRobot prefix m = Ok r →
  robotOwnedBy (ClusterName cfg) r ns name = true → revoked pre id.
Proof.
  intros Hw Hlist Hr -> Hf Hnf Hm Hrob Hown.
  pose proof (Reconcile_allowed cfg retry env ns name _ _ Hr) as Hall.
  apply log_ok_at in Hall; [|exists pre; by rewrite app_nil_r]. cbn in Hall.
  destruct Hall as (robots & Hl & Hrev & _); [eauto|].
  apply runs_log_env, log_env_suffix in Hr.
  destruct (listed_env env pre robots) as (h0 & He); [by inversion Hr|done|].
  apply Hlist in He as (l & He). destruct (List_complete_lemma world prefix [] l robots id m) as (r' & Hr' & E); [done..|].
  rewrite Hrob in E. injection E as <-.
  assert (ID r = id) as <- by (apply fromHarborRobot_Ok in Hrob as [-> _]; by destruct (Hw _ _ _ (Hm O))).
  by apply Hrev.
Qed.

(** A Harbor that holds the robot of an object being deleted. *)
Definition held_mrobot : mRobot :=
  MkMRobot 7 "robot$bridge-prod.apps.puller" (RobotDescription "prod" "team-a" "app") true false (-1) "" "system" (-1)
    (Some <$> toHarborPermissions [MkPerm "team" "pull"]).
Definition held_world : nat → gmap Z mRobot := λ _, {[7 := held_mrobot]}.

Definition held_env (h : log ans) (c : call) (r : ans c) : Prop :=
  demo_env h c r ∧
  match c as c return ans c → Prop with
  | HList => λ a, ∃ l, runs (honest_listing held_world) (List "robot$") [] l a
  | _ => λ _, True
  end r.

Lemma held_kube : KubeEnv held_env.
Proof. constructor; intros; match goal with Hd : held_env _ _ _ |- _ => destruct Hd as [[Ha _] _] end; by apply Ha. Qed.
Lemma held_harbor : HarborEnv held_env.
Proof. constructor; intros; match goal with Hd : held_env _ _ _ |- _ => destruct Hd as [[_ Ha] _] end; by apply Ha. Qed.

Lemma held_world_ok : world_ok held_world.
Proof. unfold held_world. intros t id m [<- <-]%lookup_singleton_Some. split; [done|]. unfold int64_max; simpl; lia. Qed.

Lemma held_listing :
  runs (honest_listing held_world) (List "robot$") []
    [existT (ListRobot 1 pageSize "id" (id_range 1)) (Ok [Some held_mrobot])]
    (Ok [demo_robot (RobotDescription "prod" "team-a" "app") false]).
Proof.
  apply (List_one_page _ _ _ 7); [|vm_compute; reflexivity|reflexivity].
  intros from Hf _ _ _ E. apply id_range_inj in E; [|done..]. rewrite <- E. unfold held_world.
  exists [held_mrobot]. split; [done|]. split; [|split].
  - intros m ->%list_elem_of_singleton. split; [apply lookup_singleton_eq|done].
  - repeat constructor.
  - intros id m [_ <-]%lookup_singleton_Some _. left. by apply list_elem_of_singleton.
Qed.

Lemma held_serve_ok s h c : held_env h c (demo_serve demo_deleted s c).1.
Proof. split; [apply demo_serve_ok|]. destruct c; try done. eexists. apply held_listing. Qed.

Lemma release_leaves_no_robot_witness : revoked (tail (demo_log demo_deleted)) 7.
Proof.
  pose (ha := demo_ha "team-a" "app" [FinalizerName] (Some 1)).
  apply (release_leaves_no_robot demo_cfg 5 held_env (KE := held_kube) (HE := held_harbor) "team-a" "app" held_world "robot$"
    (demo_log demo_deleted) (demo_out demo_deleted) [] ha (dropFinalizers ha [FinalizerName]) (Ok (dropFinalizers ha [FinalizerName]))
    _ FinalizerName 7 held_mrobot (demo_robot (RobotDescription "prod" "team-a" "app") false)).
  - apply held_world_ok.
  - intros h a [_ Ha]. exact Ha.
  - apply play_runs_in, held_serve_ok.
  - vm_compute. reflexivity.
  - left.
  - vm_compute. by intros ?%elem_of_nil.
  - intros t. apply lookup_singleton_eq.
  - vm_compute. reflexivity.
  - vm_compute. reflexivity.
Defined.

(** ** The rotation schedule *)

(** A Secret that holds this robot's credentials is rotated exactly when the promise
    and the safety margin have passed. *)
Lemma rotationReason_due ha s robot pw nb now :
  Credentials s = Ok (WireName robot, pw) → RobotID s = Some (ID robot) → RotationNotBefore s = Some nb →
  rotationReason ha (Some s) robot now = (if now <? nb + RotationSafetyMargin then "" else "scheduled rotation").
Proof.
  intros Hc Hid Hnb. unfold rotationReason. rewrite Hc, String.eqb_refl, Hid, Z.eqb_refl, Hnb. simpl.
  unfold Before, Add. by destruct (now <? nb + RotationSafetyMargin).
Qed.

Lemma written_fields cfg ha existing robot pw nb :
  pw ≠ EmptyString → WireName robot ≠ EmptyString → int64_min ≤ ID robot ≤ int64_max → 0 ≤ nb < max_instant - Second →
  let s := match existing with Some e => updatedSecret cfg ha e robot pw nb | None => newSecret cfg ha robot pw nb end in
  Credentials s = Ok (WireName robot, pw) ∧ RobotID s = Some (ID robot) ∧ RotationNotBefore s = Some (round_up_second nb).
Proof.
  intros Hpw Hwn Hid Hnb s.
  assert (Data s = robotData robot pw) as HD.
  { destruct existing; [|done]. unfold s, updatedSecret. cbn [Data]. by apply String.eqb_neq in Hpw as ->. }
  assert (∀ k v, robotAnnotations robot nb !! k = Some v → Annotations (SMeta s) !! k = Some v) as HA.
  { intros k v Hk. destruct existing; [|done]. unfold s, updatedSecret. cbn [SMeta Annotations].
    by apply lookup_union_Some_l. }
  split_and!.
  - apply Credentials_spec. rewrite HD. unfold robotData. rewrite index_insert, index_insert_ne, index_insert by done. done.
  - apply RobotID_stamped; [done|]. apply HA. apply lookup_insert_eq.
  - unfold RotationNotBefore. erewrite HA; [by apply FormatRotationNotBefore_parse|].
    unfold robotAnnotations. rewrite lookup_insert_ne by done. apply lookup_insert_eq.
Qed.

(** The written promise is the one honoured. After a pass stores a password with
    the promise not to rotate before [nb], in a new Secret or on top of an existing
    one, later passes that read this Secret for this robot keep the password until a
    minute after [nb], and rotate it within a second of that instant. *)
Theorem promise_honoured cfg ha existing robot pw nb ha' now :
  pw ≠ EmptyString → WireName robot ≠ EmptyString → int64_min ≤ ID robot ≤ int64_max → 0 ≤ nb < max_instant - Second →
  let s := match existing with Some e => updatedSecret cfg ha e robot pw nb | None => newSecret cfg ha robot pw nb end in
  (now < nb + RotationSafetyMargin → rotationReason ha' (Some s) robot now = "") ∧
  (nb + RotationSafetyMargin + Second ≤ now → rotationReason ha' (Some s) robot now = "scheduled rotation").
Proof.
  intros Hpw Hwn Hid Hnb s. destruct (written_fields cfg ha existing robot pw nb) as (Hc & Hi & Hn); [done..|].
  fold s in Hc, Hi, Hn. destruct (round_up_second_bounds nb) as [Hb _].
  rewrite (rotationReason_due ha' s robot pw _ now Hc Hi Hn).
  destruct (Z.ltb_spec now (round_up_second nb + RotationSafetyMargin)); split; intros; done || lia.
Qed.

Lemma promise_honoured_witness :
  let t := 63925000000 * Second in
  let s := newSecret demo_cfg (demo_ha "team-a" "app" [] None) (demo_robot "" false) "pw" (t + PasswordRotationInterval) in
  (t + 23 * Hour < t + PasswordRotationInterval + RotationSafetyMargin →
     rotationReason (demo_ha "team-a" "app" [] None) (Some s) (demo_robot "" false) (t + 23 * Hour) = "") ∧
  (t + PasswordRotationInterval + RotationSafetyMargin + Second ≤ t + 23 * Hour →
     rotationReason (demo_ha "team-a" "app" [] None) (Some s) (demo_robot "" false) (t + 23 * Hour) = "scheduled rotation").
Proof.
  intros t. apply (promise_honoured demo_cfg (demo_ha "team-a" "app" [] None) None); [done|done|by vm_compute|by vm_compute].
Defined.

Lemma resyncAfter_bounds ha : 54 * Minute < resyncAfter ha ≤ ResyncInterval.
Proof.
  unfold resyncAfter, ResyncInterval, Hour, Minute, Second.
  change (60 * (60 * 1000000000) / 10 / 1000000000) with 360.
  pose proof (Z.mod_pos_bound (fnv32a (UID (Meta ha))) 360 ltac:(lia)). lia.
Qed.

(** The next pass comes in time. A Ready object is reconciled again after at least
    a second and at most the resync interval, and no later than the instant its
    rotation is due. *)
Theorem requeueAfter_bounds ha nb now :
  Second ≤ requeueAfter ha nb now ≤ ResyncInterval ∧
  requeueAfter ha nb now ≤ Z.max Second (nb + RotationSafetyMargin - now).
Proof.
  pose proof (resyncAfter_bounds ha) as Hr. unfold requeueAfter. set (next := resyncAfter ha) in *. clearbody next.
  unfold Sub, Add, sat64, ResyncInterval, RotationSafetyMargin, Hour, Minute, Second, int64_min, int64_max in *.
  set (x := nb + 60 * 1000000000 - now).
  destruct (Z.ltb_spec (Z.max (- 2 ^ 63) (Z.min (2 ^ 63 - 1) x)) next);
    (match goal with |- context [if ?a <? ?b then _ else _] => destruct (Z.ltb_spec a b) end);
    subst x; lia.
Qed.
