(* ===== verification/Janitor.v ===== *)
(** * The janitor

    Models bridge/controlplane/janitor.go: the periodic sweep that revokes robots no
    HarborAccess uses any more, removes orphaned robot Secrets and releases the
    finalizers of objects the bridge no longer selects. Log lines are dropped. The
    owners map is a [gmap]; where the code ranges over it the model takes the order
    of [map_to_list]. *)

From S2P Require Import Prelude Effects GoStrings GoStd GoTime Naming HarborPerms HarborClient Api RobotSecret.
From S2P Require Import Contract Config Kube Reconciler ReconcilerSpec ReconcilerProofs ReconcilerProps.

Definition key : Type := string * string.

Section Janitor.
Context `{Apimachinery}.
Variable cfg : Config.

(** Why the robot must go given its owner ([None] = gone); "" when it is in use. *)
Definition robotVerdict (robot : Robot) (legacy : bool) (owner : option HarborAccess) : string :=
  match owner with
  | None => "owning HarborAccess is gone"
  | Some owner =>
      if negb (Selects cfg owner) then "owning HarborAccess is no longer selected by this bridge"
      else if legacy then "pre-ADR-0018 robot superseded by the dot-named robot"
      else match RobotName (ClusterName cfg) (SANamespace (SARef (Spec owner))) (SAName (SARef (Spec owner))) with
      | Err e => if errors_Is e ErrInvalidRobotName
                 then "owning HarborAccess's serviceAccountRef maps to no robot name Harbor accepts" else ""
      | Ok want => if String.eqb want (Name robot) then "" else "owning HarborAccess now uses robot " +:+ want
      end
  end.

Definition secretVerdict (s : Secret) (owner : option HarborAccess) : string :=
  match owner with
  | None => "owning HarborAccess gone"
  | Some owner =>
      if negb (Selects cfg owner) then "owning HarborAccess no longer selected by this bridge"
      else if negb (String.eqb (OName (SMeta s)) (SecretName (haNS owner) (haName owner)))
      then "not at the name its HarborAccess uses (" +:+ SecretName (haNS owner) (haName owner) +:+ ")"
      else ""
  end.

Definition servedHere (ha : HarborAccess) : bool :=
  match SRobot (Status ha) with Some _ => statusRobotIsOurs cfg ha | None => false end.

Definition listOwners : control (res (gmap key HarborAccess)) :=
  r ← trigger ListHA;
  match (r : res (list HarborAccess)) with
  | Err e => Ret (Err e)
  | Ok items => Ret (Ok (foldl (λ m ha, <[(haNS ha, haName ha) := ha]> m) ∅ items))
  end.

Definition liveOwner (k : key) : control (res (option HarborAccess)) :=
  r ← trigger (GetHA (fst k) (snd k));
  match r with
  | Err e => if IsNotFound e then Ret (Ok None) else Ret (Err e)
  | Ok ha => Ret (Ok (Some ha))
  end.

Definition listRobotSecrets : control (res (list Secret)) :=
  trigger (ListSecrets (CfgNamespace cfg)
    (<[LabelManagedBy := LabelManagedByValue]> (<[LabelCluster := ClusterName cfg]> ∅))).

(** One round of [sweepRobots]. *)
Definition sweepRobot (owners : gmap key HarborAccess) (robot : Robot) : control unit :=
  let cluster := ClusterName cfg in
  let legacy := OwnsLegacyRobot cluster (Name robot) in
  if negb (OwnsRobot cluster (Name robot)) && negb legacy then Ret tt
  else if negb (RobotBelongsToCluster (Description robot) cluster) then Ret tt
  else match ParseRobotDescription (Description robot) with
  | None => Ret tt
  | Some owner =>
      if String.eqb (robotVerdict robot legacy (owners !! owner)) "" then Ret tt
      else
        l ← liveOwner owner;
        match l with
        | Err _ => Ret tt
        | Ok live =>
            if String.eqb (robotVerdict robot legacy live) "" then Ret tt
            else _ ← trigger (HDelete (ID robot)); Ret tt
        end
  end.

Definition sweepRobots (robots : list Robot) (owners : gmap key HarborAccess) : control unit :=
  for_all robots (sweepRobot owners).

(** One round of [sweepSecrets]. *)
Definition sweepSecret (owners : gmap key HarborAccess) (s : Secret) : control unit :=
  match Owner s with
  | None => Ret tt
  | Some owner =>
      if String.eqb (secretVerdict s (owners !! owner)) "" then Ret tt
      else
        l ← liveOwner owner;
        match l with
        | Err _ => Ret tt
        | Ok live =>
            if String.eqb (secretVerdict s live) "" then Ret tt
            else _ ← deleteSecret s; Ret tt
        end
  end.

Definition sweepSecrets (secrets : list Secret) (owners : gmap key HarborAccess) : control unit :=
  for_all secrets (sweepSecret owners).

(** The finalizers [releaseUnselected] may drop from an object. *)
Definition releasable (ha : HarborAccess) : list string :=
  filter (λ f, ContainsFinalizer (Finalizers (Meta ha)) f
               && (negb (String.eqb f FinalizerName) || servedHere ha) = true) (ReleasedFinalizers cfg).

Definition candidates (owners : gmap key HarborAccess) : list (HarborAccess * list string) :=
  filter (λ c, snd c ≠ [])
    ((λ p, (snd p, releasable (snd p))) <$> filter (λ p, Selects cfg (snd p) = false) (map_to_list owners)).

Definition releaseCandidate (robots : list Robot) (c : HarborAccess * list string) : control unit :=
  let ha := fst c in
  if existsb (λ r, robotOwnedBy (ClusterName cfg) r (haNS ha) (haName ha)) robots then Ret tt
  else if existsb (λ r, bool_decide (is_Some (misnamedFor cfg ha r))) robots then Ret tt
  else _ ← trigger (PatchHA ha (dropFinalizers ha (snd c))); Ret tt.

Definition releaseUnselected (owners : gmap key HarborAccess) : control unit :=
  if String.eqb (Finalizer cfg) FinalizerName then Ret tt
  else match candidates owners with
  | [] => Ret tt
  | cs =>
      r ← trigger HList;
      match r with
      | Err _ => Ret tt
      | Ok robots => for_all cs (releaseCandidate robots)
      end
  end.

Definition Sweep : control (option gerr) :=
  robots ← trigger HList;
  secrets ← listRobotSecrets;
  o ← listOwners;
  match o with
  | Err e => Ret (Some (EWrap "list HarborAccess objects" e))
  | Ok owners =>
      _ ← (match robots with Ok robots => sweepRobots robots owners | Err _ => Ret tt end : control unit);
      _ ← (match secrets with Ok secrets => sweepSecrets secrets owners | Err _ => Ret tt end : control unit);
      match robots with
      | Err e => Ret (Some (EWrap "list robots" e))
      | Ok _ => _ ← releaseUnselected owners; Ret None
      end
  end.

(** [Start]: a sweep at once and one per tick until the context ends; errors are only logged. *)
Fixpoint sweeps (ticks : nat) : control unit :=
  match ticks with
  | O => Ret tt
  | S ticks => _ ← Sweep; sweeps ticks
  end.
Definition Start (ticks : nat) : control unit := _ ← Sweep; sweeps ticks.
End Janitor.

(** ** What a sweep may do *)

(** The owner as the live read right before the call reported it. *)
Definition just_read (h : log ans) (k : key) (live : option HarborAccess) : Prop :=
  match h with
  | existT (GetHA ns name) (Ok ha) :: _ => k = (ns, name) ∧ live = Some ha
  | existT (GetHA ns name) (Err e) :: _ => k = (ns, name) ∧ IsNotFound e = true ∧ live = None
  | _ => False
  end.

(** The Secrets of the bridge's namespace listed under the bridge's and the cluster's label. *)
Definition listed_secrets_of (cfg : Config) (e : event ans) : list Secret :=
  match e with
  | existT (ListSecrets ns labels) (Ok l) =>
      if decide (ns = CfgNamespace cfg ∧ labels !! LabelManagedBy = Some LabelManagedByValue
                 ∧ labels !! LabelCluster = Some (ClusterName cfg)) then l else []
  | _ => []
  end.

(** The bridge has a selector and it does not match the object. *)
Definition unselected (cfg : Config) (ha : HarborAccess) : Prop :=
  ∃ sel, HarborAccessSelector cfg = Some sel ∧ SelEmpty sel = false ∧ SelMatches sel (Labels (Meta ha)) = false.

(** Nobody uses the robot: its HarborAccess is gone, out of this bridge's scope, or
    served under another robot name; a name of the older form is never in use. *)
Inductive robot_unused (cfg : Config) (r : Robot) : option HarborAccess → Prop :=
  | owner_gone : robot_unused cfg r None
  | owner_unselected ha : unselected cfg ha → robot_unused cfg r (Some ha)
  | older_name ha : named_before (ClusterName cfg) (Name r) → robot_unused cfg r (Some ha)
  | other_robot ha n : RobotName (ClusterName cfg) (SANamespace (SARef (Spec ha))) (SAName (SARef (Spec ha))) = Ok n →
      n ≠ Name r → robot_unused cfg r (Some ha)
  | unnameable ha e : RobotName (ClusterName cfg) (SANamespace (SARef (Spec ha))) (SAName (SARef (Spec ha))) = Err e →
      errors_Is e ErrInvalidRobotName = true → robot_unused cfg r (Some ha).

Inductive secret_unused (cfg : Config) (s : Secret) : option HarborAccess → Prop :=
  | secret_owner_gone : secret_unused cfg s None
  | secret_owner_unselected ha : unselected cfg ha → secret_unused cfg s (Some ha)
  | secret_elsewhere ha : OName (SMeta s) ≠ SecretName (haNS ha) (haName ha) → secret_unused cfg s (Some ha).

(** The Secret carries the bridge's label and the owner's. *)
Definition labelled_for (s : Secret) (ns name : string) : Prop :=
  index (Labels (SMeta s)) LabelManagedBy = LabelManagedByValue ∧ index (Labels (SMeta s)) LabelHarborAccessNamespace = ns
  ∧ index (Labels (SMeta s)) LabelHarborAccessName = name ∧ ns ≠ EmptyString ∧ name ≠ EmptyString.

(** No robot in the newest listing, under whatever name, carries a description the
    bridge writes for the object. *)
Definition no_robot_listed (cfg : Config) (h : log ans) (ha : HarborAccess) : Prop :=
  ∃ robots, head (h ≫= listing_of) = Some robots ∧
    (describable (ClusterName cfg) (haNS ha) (haName ha) → ∀ r, r ∈ robots →
       Description r ≠ RobotDescription (ClusterName cfg) (haNS ha) (haName ha) ∧
       Description r ≠ SuspendedRobotDescription (ClusterName cfg) (haNS ha) (haName ha)).

Definition sweep_allowed (cfg : Config) (h : log ans) (c : call) : Prop :=
  match c with
  | HDelete id => ∃ r ns name live, seen h r ∧ ID r = id ∧ robot_of (ClusterName cfg) ns name r ∧
      just_read h (ns, name) live ∧ robot_unused cfg r live
  | DeleteSecret sns sname uid => ∃ s ns name live, s ∈ h ≫= listed_secrets_of cfg ∧
      Namespace (SMeta s) = sns ∧ OName (SMeta s) = sname ∧ UID (SMeta s) = uid ∧ labelled_for s ns name ∧
      just_read h (ns, name) live ∧ secret_unused cfg s live
  | PatchHA before after => unselected cfg before ∧ no_robot_listed cfg h before ∧
      ∀ f, f ∈ Finalizers (Meta before) → f ∉ Finalizers (Meta after) →
        f = FinalizerName +:+ "-" +:+ CfgInstance cfg ∨ f = FinalizerName ∧ is_Some (SRobot (Status before))
  | HCreate _ _ _ | HRefreshSecret _ | HUpdate _ _ _ | CreateSecret _ | UpdateSecret _ | UpdateStatus _ => False
  | _ => True
  end.

Lemma not_Selects cfg ha : Selects cfg ha = false → unselected cfg ha.
Proof.
  unfold Selects, selective, unselected. destruct (HarborAccessSelector cfg) as [sel|]; [|done].
  destruct (SelEmpty sel) eqn:E; simpl; [done|]. eauto.
Qed.

Lemma robotVerdict_unused cfg r live :
  robotVerdict cfg r (OwnsLegacyRobot (ClusterName cfg) (Name r)) live ≠ "" → robot_unused cfg r live.
Proof.
  unfold robotVerdict. destruct live as [ha|]; [|constructor].
  destruct (Selects cfg ha) eqn:Es; [|by constructor; apply not_Selects]. simpl negb. cbv iota.
  destruct (OwnsLegacyRobot _ _) eqn:El; [by constructor; apply OwnsLegacyRobot_named|].
  destruct (RobotName _ _ _) as [n|e] eqn:En; [destruct (String.eqb_spec n (Name r))|destruct (errors_Is e _) eqn:Ee]; try done;
    intros _; [by eapply other_robot|by eapply unnameable].
Qed.

Lemma secretVerdict_unused cfg s live : secretVerdict cfg s live ≠ "" → secret_unused cfg s live.
Proof.
  unfold secretVerdict. destruct live as [ha|]; [|constructor].
  destruct (Selects cfg ha) eqn:Es; [|by constructor; apply not_Selects]. simpl negb. cbv iota.
  destruct (String.eqb_spec (OName (SMeta s)) (SecretName (haNS ha) (haName ha))); [done|]. intros _. by constructor.
Qed.

Lemma Owner_labelled s ns name : Owner s = Some (ns, name) → labelled_for s ns name.
Proof.
  unfold Owner, IsManaged. destruct (String.eqb_spec (index (Labels (SMeta s)) LabelManagedBy) LabelManagedByValue); [|done].
  simpl negb. cbv iota zeta.
  destruct (String.eqb_spec (index (Labels (SMeta s)) LabelHarborAccessNamespace) ""); [done|].
  destruct (String.eqb_spec (index (Labels (SMeta s)) LabelHarborAccessName) ""); [done|]. by intros [= <- <-].
Qed.

(** A robot the bridge described for the object is its own or misnamed. *)
Lemma described_claimed cfg ha r :
  robotOwnedBy (ClusterName cfg) r (haNS ha) (haName ha) = false → misnamedFor cfg ha r = None →
  describable (ClusterName cfg) (haNS ha) (haName ha) →
  Description r ≠ RobotDescription (ClusterName cfg) (haNS ha) (haName ha) ∧
  Description r ≠ SuspendedRobotDescription (ClusterName cfg) (haNS ha) (haName ha).
Proof.
  intros Ho Hm Hd. set (c := ClusterName cfg) in *.
  assert (¬ (RobotBelongsToCluster (Description r) c = true ∧ ParseRobotDescription (Description r) = Some (haNS ha, haName ha)))
    as Hn.
  { intros [Hb Hp]. unfold misnamedFor, misnamedRobot in Hm. fold c in Hm. rewrite Hb, Hp in Hm.
    unfold robotOwnedBy in Ho. rewrite Hb, Hp, !String.eqb_refl in Ho.
    destruct (OwnsRobot c (Name r)), (OwnsLegacyRobot c (Name r)); simpl in *; try done.
    by rewrite !String.eqb_refl in Hm. }
  destruct (description_reads c (haNS ha) (haName ha) c Hd) as (H1 & H2 & H3 & H4).
  rewrite String.eqb_refl in H3, H4. split; intros E; apply Hn; rewrite E; done.
Qed.

(** ** A sweep stays within it *)

Section Proofs.
Context `{AL : ApimachineryLaws} (cfg : Config).
Notation ok := (sweep_allowed cfg).

(** What the loops need of the log: the listed robots and Secrets. *)
Definition known (robots : list Robot) (secrets : list Secret) (h : log ans) : Prop :=
  (∀ r, r ∈ robots → seen h r) ∧ (∀ s, s ∈ secrets → s ∈ h ≫= listed_secrets_of cfg).

Lemma known_cons robots secrets h e : known robots secrets h → known robots secrets (e :: h).
Proof. intros [Hr Hs]. split; intros; apply (bind_app_in _ [e]); auto. by apply Hr. Qed.

Lemma wp_liveOwner k h Q :
  (∀ e r, (∀ live, r = Ok live → just_read (e :: h) k live) → Q (e :: h) r) →
  wp any_env ok h (liveOwner k) Q.
Proof.
  intros HQ. unfold liveOwner. wp_call; [done|]. intros [ha|e] _.
  - apply HQ. intros live [= <-]. simpl. by destruct k.
  - destruct (IsNotFound e) eqn:E; apply HQ; intros live [= <-]. simpl. by destruct k.
Qed.

Lemma wp_sweepRobot robots secrets owners r h Q :
  r ∈ robots → known robots secrets h → (∀ h', known robots secrets h' → Q h' tt) →
  wp any_env ok h (sweepRobot cfg owners r) Q.
Proof.
  intros Hr Hk HQ. unfold sweepRobot.
  destruct (negb (OwnsRobot _ _) && negb _) eqn:E1; [by apply HQ|].
  destruct (RobotBelongsToCluster (Description r) (ClusterName cfg)) eqn:E2; simpl negb; cbv iota; [|by apply HQ].
  destruct (ParseRobotDescription (Description r)) as [[ns name]|] eqn:E3; [|by apply HQ].
  destruct (String.eqb _ _); [by apply HQ|].
  apply wp_bind, wp_liveOwner. intros e [live|err] Hl; cbv beta iota; [|by apply HQ, known_cons].
  destruct (String.eqb_spec (robotVerdict cfg r (OwnsLegacyRobot (ClusterName cfg) (Name r)) live) "") as [|Hv];
    [by apply HQ, known_cons|].
  wp_call; [|intros x _; by apply HQ, known_cons, known_cons].
  exists r, ns, name, live. destruct (known_cons _ _ _ e Hk) as [Hk' _].
  split_and!; [by apply Hk'|done| |by apply Hl|by apply robotVerdict_unused].
  apply robotOwnedBy_text, robotOwnedBy_spec. split_and!; [|done..].
  apply andb_false_iff in E1 as [E1%negb_false_iff|E1%negb_false_iff]; auto.
Qed.

Lemma wp_sweepSecret robots secrets owners s h Q :
  s ∈ secrets → known robots secrets h → (∀ h', known robots secrets h' → Q h' tt) →
  wp any_env ok h (sweepSecret cfg owners s) Q.
Proof.
  intros Hs Hk HQ. unfold sweepSecret. destruct (Owner s) as [[ns name]|] eqn:Eo; [|by apply HQ].
  destruct (String.eqb _ _); [by apply HQ|].
  apply wp_bind, wp_liveOwner. intros e [live|err] Hl; cbv beta iota; [|by apply HQ, known_cons].
  destruct (String.eqb_spec (secretVerdict cfg s live) "") as [|Hv]; [by apply HQ, known_cons|].
  unfold deleteSecret. apply wp_bind. wp_call.
  - exists s, ns, name, live. destruct (known_cons _ _ _ e Hk) as [_ Hk'].
    split_and!; auto using Owner_labelled, secretVerdict_unused.
  - intros [u|err] _; cbv beta iota; [by apply HQ, known_cons, known_cons|].
    destruct (IsNotFound err); by apply HQ, known_cons, known_cons.
Qed.

(** A loop whose rounds keep [known]. *)
Lemma wp_sweep_loop {A} robots secrets (l : list A) body h Q :
  known robots secrets h →
  (∀ x h Q, x ∈ l → known robots secrets h → (∀ h', known robots secrets h' → Q h' tt) → wp any_env ok h (body x) Q) →
  (∀ h', known robots secrets h' → Q h' tt) →
  wp any_env ok h (for_all l body) Q.
Proof.
  intros Hk Hbody HQ. apply (wp_for_all _ _ (λ _, known robots secrets) l []); [done| |done].
  intros pre x post h' -> Hk'. apply Hbody; [set_solver|done|done].
Qed.

Lemma existsb_false {A} (f : A → bool) l : existsb f l = false → Forall (λ x, f x = false) l.
Proof. induction l as [|x l IH]; simpl; [done|]. intros [? ?]%orb_false_iff. constructor; auto. Qed.

Lemma candidates_spec owners ha fs :
  (ha, fs) ∈ candidates cfg owners → Selects cfg ha = false ∧
    ∀ f, f ∈ fs → f ∈ ReleasedFinalizers cfg ∧ (f = FinalizerName → is_Some (SRobot (Status ha))).
Proof.
  unfold candidates. rewrite list_elem_of_filter, list_elem_of_fmap. intros (_ & [k x] & [= -> ->] & Hx).
  apply list_elem_of_filter in Hx as [Hs _]. simpl in Hs. split; [done|].
  intros f Hf. unfold releasable in Hf. apply list_elem_of_filter in Hf as [Hf ?]. split; [done|]. intros ->.
  apply andb_true_iff in Hf as [_ Hf]. rewrite String.eqb_refl in Hf. unfold servedHere in Hf.
  destruct (SRobot (Status x)); [eauto|done].
Qed.

Lemma wp_releaseCandidate robots owners c h Q :
  selective cfg = true → c ∈ candidates cfg owners → head (h ≫= listing_of) = Some robots →
  (∀ h', head (h' ≫= listing_of) = Some robots → Q h' tt) →
  wp any_env ok h (releaseCandidate cfg robots c) Q.
Proof.
  intros Hsel Hc Hl HQ. destruct c as [ha fs]. apply candidates_spec in Hc as [Hs Hf].
  unfold releaseCandidate. cbn [fst snd].
  destruct (existsb _ robots) eqn:E1; [by apply HQ|]. destruct (existsb (λ r, bool_decide _) robots) eqn:E2; [by apply HQ|].
  wp_call; [|intros r _; by apply HQ]. split_and!; [by apply not_Selects| |].
  - exists robots. split; [done|]. apply existsb_false in E1, E2. rewrite Forall_forall in *. intros Hd r Hr.
    apply described_claimed; [by apply E1| |done]. specialize (E2 r Hr). apply bool_decide_eq_false in E2.
    destruct (misnamedFor cfg ha r); [|done]. exfalso. eauto.
  - intros f Hf1 Hf2. destruct (decide (f ∈ fs)) as [Hin|Hin].
    + destruct (Hf f Hin) as [Hrel Hst]. unfold ReleasedFinalizers, Finalizer in Hrel. rewrite Hsel in Hrel. simpl in Hrel.
      apply elem_of_cons in Hrel as [E| ->%list_elem_of_singleton]; [by left|right; auto].
    + exfalso. apply Hf2. by apply (proj2 (foldl_remove fs (Finalizers (Meta ha)) f)).
Qed.

Lemma Finalizer_selective : Finalizer cfg ≠ FinalizerName → selective cfg = true.
Proof. unfold Finalizer. by destruct (selective cfg). Qed.

Lemma wp_releaseUnselected owners h Q :
  (∀ h', Q h' tt) → wp any_env ok h (releaseUnselected cfg owners) Q.
Proof.
  intros HQ. unfold releaseUnselected. destruct (String.eqb_spec (Finalizer cfg) FinalizerName) as [|Hne]; [apply HQ|].
  apply Finalizer_selective in Hne.
  destruct (candidates cfg owners) as [|c cs] eqn:Ec; [apply HQ|].
  wp_call; [done|]. intros [robots|e] _; [|apply HQ].
  apply (wp_for_all _ _ (λ _ h, head (h ≫= listing_of) = Some robots) (c :: cs) []); [done| |intros; apply HQ].
  intros pre x post h' Hx Hl. apply (wp_releaseCandidate robots owners); [done| |done|done].
  rewrite Ec, Hx. set_solver.
Qed.

Lemma wp_Sweep h Q : (∀ h' o, Q h' o) → wp any_env ok h (Sweep cfg) Q.
Proof.
  intros HQ. unfold Sweep. wp_call; [done|]. intros robots _. unfold listRobotSecrets. wp_call; [done|].
  intros secrets _. unfold listOwners. apply wp_bind. wp_call; [done|]. intros [items|e] _; cbv beta iota; [|apply HQ].
  set (rs := match robots with Ok l => l | Err _ => [] end : list Robot).
  set (ss := match secrets with Ok l => l | Err _ => [] end : list Secret).
  match goal with |- wp _ _ ?h _ _ => assert (known rs ss h) as Hk end.
  { split.
    - intros r Hr. apply (bind_app_in _ [_; _] (_ :: _)), here. by destruct robots as [l|]; [|apply elem_of_nil in Hr].
    - intros s Hs. apply (bind_app_in _ [_] (_ :: _)), here.
      destruct secrets as [l|]; [|by apply elem_of_nil in Hs]. simpl. by rewrite decide_True. }
  match type of Hk with known _ _ ?h => generalize h Hk end. clear Hk. intros h0 Hk.
  assert (∀ owners h0 Q', known rs ss h0 → (∀ h', known rs ss h' → Q' h' tt) →
    wp any_env ok h0 (match robots with Ok robots => sweepRobots cfg robots owners | Err _ => Ret tt end) Q') as Hrobots.
  { intros owners h1 Q' Hk1 HQ'. destruct robots as [l|]; [|by apply HQ'].
    apply (wp_sweep_loop rs ss); [done| |done]. intros x h2 Q'' Hx Hk2 HQ''. by apply (wp_sweepRobot rs ss). }
  assert (∀ owners h0 Q', known rs ss h0 → (∀ h', known rs ss h' → Q' h' tt) →
    wp any_env ok h0 (match secrets with Ok secrets => sweepSecrets cfg secrets owners | Err _ => Ret tt end) Q') as Hsecrets.
  { intros owners h1 Q' Hk1 HQ'. destruct secrets as [l|]; [|by apply HQ'].
    apply (wp_sweep_loop rs ss); [done| |done]. intros x h2 Q'' Hx Hk2 HQ''. by apply (wp_sweepSecret rs ss). }
  apply wp_bind, Hrobots; [done|]. intros h1 Hk1. apply wp_bind, Hsecrets; [done|]. intros h2 Hk2.
  destruct robots; [|by apply HQ]. apply wp_bind, wp_releaseUnselected. intros h3. by apply HQ.
Qed.
End Proofs.


(** The same holds for as long as the janitor runs. *)
Lemma Start_deletes_only_unused `{AL : ApimachineryLaws} cfg ticks h' o :
  runs any_env (Start cfg ticks) [] h' o → log_ok (sweep_allowed cfg) [] h'.
Proof.
  apply wp_calls. unfold Start. apply wp_bind, wp_Sweep. intros h _. clear h' o. revert h.
  induction ticks as [|ticks IH]; intros h; cbn [sweeps]; [done|]. apply wp_bind, wp_Sweep. intros h' _. apply IH.
Qed.

(** The janitor never revokes a robot in use. A sweep that deletes a robot after
    reading its live owner: the owner does not both select this bridge and map to the
    robot's (dot-delimited) name. *)
Theorem Sweep_spares_current_robot `{AL : ApimachineryLaws} cfg h' o post id x ns name ha rest :
  ContainsByte (ClusterName cfg) "." = false →
  runs any_env (Sweep cfg) [] h' o →
  h' = post ++ existT (HDelete id) x :: existT (GetHA ns name) (Ok ha) :: rest →
  ∃ r, seen rest r ∧ ID r = id ∧ robot_of (ClusterName cfg) ns name r ∧
    ¬ (Selects cfg ha = true ∧ OwnsRobot (ClusterName cfg) (Name r) = true ∧
       RobotName (ClusterName cfg) (SANamespace (SARef (Spec ha))) (SAName (SARef (Spec ha))) = Ok (Name r)).
Proof.
  intros Hdot Hr ->. assert (log_ok (sweep_allowed cfg) [] (post ++ existT (HDelete id) x :: existT (GetHA ns name) (Ok ha) :: rest))
    as Hl by (revert Hr; apply wp_calls; by apply wp_Sweep).
  apply log_ok_at in Hl; [|eexists; by rewrite app_nil_r].
  destruct Hl as (r & ns' & name' & live & Hseen & Hid & Hown & [[= -> ->] ->] & Hv).
  exists r. split_and!; [exact Hseen|done..|]. intros (Hsel & Ho & Hn).
  inversion Hv as [|? (sel & E & E1 & E2)|? Hb%OwnsLegacyRobot_named|? n En Hne|? e En He]; subst.
  - unfold Selects, selective in Hsel. by rewrite E, E1, E2 in Hsel.
  - by rewrite (legacy_disjoint (ClusterName cfg) (ClusterName cfg)) in Hb.
  - rewrite Hn in En. by injection En as <-.
  - by rewrite Hn in En.
Qed.

(** ** A concrete sweep *)

(** Harbor holds the robot of a previous ServiceAccount of team-a/app. *)
Definition sweep_demo : demo :=
  MkDemo [] None (Some (MkRobot 8 "bridge-prod.apps.old" "robot$bridge-prod.apps.old" (RobotDescription "prod" "team-a" "app")
    false (-1) [] false "")).
Definition sweep_run := play (demo_serve sweep_demo) tt (@Sweep list_apimachinery demo_cfg) [].


Lemma Sweep_spares_current_robot_witness :
  let ha := demo_ha "team-a" "app" [] None in
  ∃ r, seen (tail (tail sweep_run.1.2)) r ∧ ID r = 8 ∧ robot_of "prod" "team-a" "app" r ∧
    ¬ (Selects demo_cfg ha = true ∧ OwnsRobot "prod" (Name r) = true ∧
       RobotName "prod" (SANamespace (SARef (Spec ha))) (SAName (SARef (Spec ha))) = Ok (Name r)).
Proof.
  intros ha.
  apply (@Sweep_spares_current_robot list_apimachinery list_apimachinery_laws demo_cfg sweep_run.1.2 sweep_run.2
    [] 8 None "team-a" "app" ha (tail (tail sweep_run.1.2))).
  - reflexivity.
  - apply play_runs_in. done.
  - vm_compute. reflexivity.
Defined.
