(* ===== verification/RateLimit.v ===== *)
(** * Per-source rate limit

    Models bridge/dataplane/ratelimit.go: a token bucket per source address, idle
    buckets dropped, and the source address of a request. The token bucket itself
    (golang.org/x/time/rate) is a parameter: its constructor and [AllowN], a state
    transformer. The mutex makes [Allow] atomic, so concurrent requests are some
    sequence of calls. *)

From S2P Require Import Prelude GoStrings GoStd GoTime.

Definition sourceIdleTTL : Duration := 10 * Minute.
Definition pruneInterval : Duration := Minute.

(** ** [sourceIP] *)

(** The part of [s] before and after the last [c]. *)
Fixpoint CutLast (s : string) (c : ascii) : option (string * string) :=
  match s with
  | EmptyString => None
  | String a s =>
      match CutLast s c with
      | Some (x, y) => Some (String a x, y)
      | None => if Ascii.eqb a c then Some (EmptyString, s) else None
      end
  end.

(** [net.SplitHostPort]: the host and the port, [None] for its errors. *)
Definition SplitHostPort (hostport : string) : option (string * string) :=
  match CutLast hostport ":" with
  | None => None
  | Some (before, port) =>
      match before with
      | String "["%char inner =>
          (* the first ']' must be the byte before the last ':' *)
          match Cut inner "]" with
          | Some (host, EmptyString) =>
              if ContainsByte host "[" || ContainsByte port "[" || ContainsByte port "]" then None
              else Some (host, port)
          | _ => None
          end
      | _ =>
          if ContainsByte before ":" then None
          else if ContainsByte hostport "[" || ContainsByte hostport "]" then None
          else Some (before, port)
      end
  end.

Definition sourceIP (remoteAddr : string) : string :=
  match SplitHostPort remoteAddr with
  | None => remoteAddr
  | Some (host, _) => host
  end.

(** ** The limiter *)

Section Limiter.
(** [rate.Limit] with its test against zero, and [rate.Limiter]. *)
Context {Limit Bucket : Type} (not_positive : Limit → bool).
Context (NewLimiter : Limit → Z → Bucket) (AllowN : Bucket → Time → Z → bool * Bucket).

Record sourceBucket := MkBucket { limiter : Bucket; seen : Time }.

Record SourceLimiter := MkLimiter {
  limit : Limit; burst : Z; sources : gmap string sourceBucket; lastPrune : Time
}.

Definition NewSourceLimiter (perSecond : Limit) (burst : Z) : option SourceLimiter :=
  if not_positive perSecond then None
  else Some (MkLimiter perSecond (if burst <? 1 then 1 else burst) ∅ zero_time).

(** The buckets the pruning loop keeps. *)
Definition keep_recent (now : Time) (m : gmap string sourceBucket) : gmap string sourceBucket :=
  filter (λ kb, ¬ (sourceIdleTTL < Sub now (seen kb.2))) m.

Definition prune (s : SourceLimiter) (now : Time) : SourceLimiter :=
  if pruneInterval <? Sub now (lastPrune s)
  then MkLimiter (limit s) (burst s) (keep_recent now (sources s)) now
  else s.

(** [Allow] at the instant [now]; [None] is the nil limiter. *)
Definition Allow (o : option SourceLimiter) (source : string) (now : Time) : bool * option SourceLimiter :=
  match o with
  | None => (true, None)
  | Some s =>
      let s := prune s now in
      let b := match sources s !! source with
               | Some b => limiter b
               | None => NewLimiter (limit s) (burst s)
               end in
      let '(ok, b) := AllowN b now 1 in
      (ok, Some (MkLimiter (limit s) (burst s) (<[source := MkBucket b now]> (sources s)) (lastPrune s)))
  end.

(** The answers a sequence of requests gets, in order, and the limiter after it. *)
Fixpoint serve_all (o : option SourceLimiter) (reqs : list (string * Time)) : list bool * option SourceLimiter :=
  match reqs with
  | [] => ([], o)
  | (source, now) :: reqs =>
      let '(ok, o) := Allow o source now in
      let '(oks, o) := serve_all o reqs in (ok :: oks, o)
  end.

(** ** Specification: one private bucket per source, never dropped *)

Fixpoint private (b : Bucket) (times : list Time) : list bool :=
  match times with
  | [] => []
  | t :: times => let '(ok, b) := AllowN b t 1 in ok :: private b times
  end.

(** The answers (the times) of the requests of [source]. *)
Definition of_source {A} (source : string) (reqs : list (string * Time)) (l : list A) : list A :=
  (λ p : (string * Time) * A, p.2) <$> filter (λ p, p.1.1 = source) (zip reqs l).

(** The instants never go back: they are read under the mutex. *)
Inductive monotone : Time → list (string * Time) → Prop :=
| monotone_nil t : monotone t []
| monotone_cons t source now reqs : t ≤ now → monotone now reqs → monotone t ((source, now) :: reqs).

(** The buckets a private limiter goes through, with the instant of the last use. *)
Inductive used (fresh : Bucket) : Bucket → Time → Prop :=
| used_first t : zero_time ≤ t → used fresh (AllowN fresh t 1).2 t
| used_again b t t' : used fresh b t → t ≤ t' → used fresh (AllowN b t' 1).2 t'.

(** A bucket left alone for [sourceIdleTTL] has refilled: it behaves as a new one. *)
Definition refills (fresh : Bucket) : Prop :=
  ∀ b t t', used fresh b t → sourceIdleTTL < Sub t' t → AllowN b t' 1 = AllowN fresh t' 1.

Lemma prune_limit s now : limit (prune s now) = limit s ∧ burst (prune s now) = burst s.
Proof. unfold prune. by case_match. Qed.

Lemma prune_lookup s now source :
  sources (prune s now) !! source = sources s !! source ∨
  sources (prune s now) !! source = None ∧
    ∃ b, sources s !! source = Some b ∧ sourceIdleTTL < Sub now (seen b).
Proof.
  unfold prune. case_match; [|by left]. simpl. unfold keep_recent.
  destruct (sources s !! source) as [b|] eqn:E.
  - destruct (decide (sourceIdleTTL < Sub now (seen b))) as [Hi|Hi].
    + right. split; [|eauto]. apply map_lookup_filter_None. right. intros x Hx. rewrite E in Hx. injection Hx as <-. auto.
    + left. apply map_lookup_filter_Some. done.
  - left. apply map_lookup_filter_None. by left.
Qed.

Lemma Sub_mono t t' u : t ≤ t' → Sub t u ≤ Sub t' u.
Proof. unfold Sub, sat64. lia. Qed.

(** What the limiter holds for one source, against the private bucket [rb]. *)
Definition tracks (fresh : Bucket) (rb : option (Bucket * Time)) (now : Time) (o : option sourceBucket) : Prop :=
  match rb with
  | None => o = None
  | Some (b, t) => used fresh b t ∧ t ≤ now ∧ (o = Some (MkBucket b t) ∨ o = None ∧ sourceIdleTTL < Sub now t)
  end.

Lemma tracks_later fresh rb now now' o : now ≤ now' → tracks fresh rb now o → tracks fresh rb now' o.
Proof.
  destruct rb as [[b t]|]; [|done]. simpl. intros Hle (Hu & Ht & [Ho|[Ho Hi]]); split_and!; [done|lia|auto|done|lia|].
  right. split; [done|]. eapply Z.lt_le_trans; [done|by apply Sub_mono].
Qed.

Lemma tracks_prune fresh rb now s source :
  tracks fresh rb now (sources s !! source) → tracks fresh rb now (sources (prune s now) !! source).
Proof.
  destruct (prune_lookup s now source) as [->|(-> & b & -> & Hi)]; [done|].
  destruct rb as [[b' t]|]; simpl; [|done]. intros (Hu & Ht & [Ho|[Ho _]]); [|done].
  injection Ho as ->. simpl in Hi. auto 6.
Qed.

(** The bucket [AllowN] runs on answers as the private one. *)
Lemma tracks_answer fresh rb now o :
  refills fresh → tracks fresh rb now o →
  AllowN (match o with Some b => limiter b | None => fresh end) now 1 =
  AllowN (match rb with Some (b, _) => b | None => fresh end) now 1.
Proof.
  intros Hr. destruct rb as [[b t]|]; simpl; [|by intros ->].
  intros (Hu & Ht & [->|[-> Hi]]); [done|]. symmetry. by eapply Hr.
Qed.

Lemma serve_all_private fresh source reqs s now rb :
  fresh = NewLimiter (limit s) (burst s) → refills fresh → zero_time ≤ now → monotone now reqs →
  tracks fresh rb now (sources s !! source) →
  of_source source reqs (serve_all (Some s) reqs).1 =
  private (match rb with Some (b, _) => b | None => fresh end) (of_source source reqs (snd <$> reqs)).
Proof.
  intros Hf Hr Hz Hm. revert s rb Hf Hz. induction Hm as [|now src t reqs Hle Hm IH]; intros s rb Hf Hz Ht; [done|].
  apply (tracks_later _ _ _ t) in Ht; [|done]. apply tracks_prune in Ht.
  destruct (prune_limit s t) as [El Eb].
  cbn [serve_all Allow]. rewrite El, Eb, <- Hf.
  destruct (AllowN _ t 1) as [ok b] eqn:E.
  set (s' := MkLimiter (limit s) (burst s) (<[src := MkBucket b t]> (sources (prune s t))) (lastPrune (prune s t))).
  destruct (serve_all (Some s') reqs) as [oks o'] eqn:Es.
  assert (∀ rb', tracks fresh rb' t (sources s' !! source) →
    of_source source reqs oks =
    private (match rb' with Some (b, _) => b | None => fresh end) (of_source source reqs (snd <$> reqs))) as IH'.
  { intros rb' Ht'. specialize (IH s' rb' Hf ltac:(lia) Ht'). by rewrite Es in IH. }
  unfold of_source in *. cbn [zip zip_with fst snd fmap list_fmap].
  destruct (decide (src = source)) as [->|Hne].
  - rewrite !filter_cons_True by done. cbn [fmap list_fmap private snd].
    rewrite (tracks_answer fresh rb t _ Hr Ht) in E.
    assert (used fresh b t) as Hu.
    { replace b with (AllowN (match rb with Some (b, _) => b | None => fresh end) t 1).2 by (by rewrite E).
      destruct rb as [[b0 t0]|]; [|apply used_first; lia]. destruct Ht as (Hu & Hle' & _). by eapply used_again. }
    rewrite E. f_equal. apply (IH' (Some (b, t))). split_and!; [done|lia|]. left. apply lookup_insert_eq.
  - rewrite !filter_cons_False by done. apply (IH' rb). simpl. by rewrite lookup_insert_ne.
Qed.

(** C39: Sources do not interfere, and dropping idle buckets is unobservable. Whatever
    mix of requests the limiter serves, the answers each source gets are those a
    bucket of its own, never dropped, would give to its requests alone, provided
    the token bucket refills within the idle time. *)
Theorem Allow_isolates perSecond b s reqs source :
  NewSourceLimiter perSecond b = Some s → refills (NewLimiter (limit s) (burst s)) → monotone zero_time reqs →
  of_source source reqs (serve_all (Some s) reqs).1 =
  private (NewLimiter (limit s) (burst s)) (of_source source reqs (snd <$> reqs)).
Proof.
  unfold NewSourceLimiter. destruct (not_positive perSecond); [done|]. intros [= <-] Hr Hm.
  by apply (serve_all_private _ _ _ _ zero_time None).
Qed.

(** Buckets are recent as of the last pruning. *)
Definition recent (s : SourceLimiter) : Prop :=
  map_Forall (λ _ b, lastPrune s - seen b ≤ sourceIdleTTL) (sources s).

Lemma Sub_bound t u d : d < int64_max → Sub t u ≤ d → t - u ≤ d.
Proof. unfold Sub, sat64, int64_min, int64_max. lia. Qed.

Lemma prune_recent s now : recent s → recent (prune s now) ∧ now - lastPrune (prune s now) ≤ pruneInterval.
Proof.
  intros Hs. unfold prune. destruct (Z.ltb_spec pruneInterval (Sub now (lastPrune s))) as [|Hle]; simpl.
  - split; [|unfold pruneInterval, Minute, Second; lia]. intros k b Hb. simpl.
    apply map_lookup_filter_Some in Hb as [_ Hb]. simpl in Hb. apply Sub_bound; [done|lia].
  - split; [done|]. by apply Sub_bound.
Qed.

(** Memory is bounded by recent traffic. After every request of a monotone
    sequence the limiter holds buckets only of sources seen in the last eleven
    minutes, the idle time plus the pruning interval. *)
Theorem Allow_forgets perSecond b s reqs now source :
  NewSourceLimiter perSecond b = Some s → monotone zero_time (reqs ++ [(source, now)]) →
  match (serve_all (Some s) (reqs ++ [(source, now)])).2 with
  | None => False
  | Some s' => map_Forall (λ _ b, now - seen b ≤ sourceIdleTTL + pruneInterval) (sources s')
  end.
Proof.
  unfold NewSourceLimiter. destruct (not_positive perSecond); [done|]. intros [= <-].
  set (s := MkLimiter _ _ _ _).
  assert (recent s) as Hs by apply map_Forall_empty.
  assert (lastPrune s ≤ zero_time) as Hp by (simpl; unfold zero_time; lia).
  revert Hs Hp. generalize s zero_time. clear s.
  induction reqs as [|[src t] reqs IH]; intros s t0 Hs Hp Hm; cbn [serve_all app Allow].
  - inversion_clear Hm as [|???? Hle _]. destruct (prune_recent s now Hs) as [Hr Hb].
    destruct (AllowN _ now 1) as [ok b']. simpl. intros k x Hx.
    apply lookup_insert_Some in Hx as [[<- <-]|[_ Hx]]; [simpl; unfold sourceIdleTTL, pruneInterval, Minute, Second; lia|].
    specialize (Hr k x Hx). simpl in Hr. lia.
  - inversion_clear Hm as [|???? Hle Hm']. destruct (prune_recent s t Hs) as [Hr Hb].
    destruct (AllowN _ t 1) as [ok b'].
    set (s' := MkLimiter _ _ _ _).
    assert (lastPrune (prune s t) ≤ t) as Hp' by (unfold prune; destruct (_ <? _); simpl; lia).
    assert (recent s') as Hs'.
    { intros k x Hx. unfold s' in Hx. simpl in Hx.
      apply lookup_insert_Some in Hx as [[<- <-]|[_ Hx]]; [|by apply (Hr k)].
      simpl. unfold sourceIdleTTL, Minute, Second. lia. }
    specialize (IH s' t Hs' Hp' Hm'). by destruct (serve_all (Some s') _).
Qed.
End Limiter.

(** ** A token bucket *)

(** A bucket of [limit] tokens a second and at most [burst] tokens, counted in
    nanotokens; a refused request leaves it unchanged. *)
Record TokenBucket := MkTB { tb_limit : Z; tb_burst : Z; tb_tokens : Z; tb_last : Time }.

Definition tb_new (limit burst : Z) : TokenBucket := MkTB limit burst (burst * Second) zero_time.

Definition tb_available (b : TokenBucket) (now : Time) : Z :=
  Z.min (tb_burst b * Second) (tb_tokens b + tb_limit b * (now - tb_last b)).

Definition tb_allow (b : TokenBucket) (now : Time) (n : Z) : bool * TokenBucket :=
  if n * Second <=? tb_available b now
  then (true, MkTB (tb_limit b) (tb_burst b) (tb_available b now - n * Second) now)
  else (false, b).

(** What a bucket that has been used looks like. *)
Definition tb_inv (limit burst : Z) (b : TokenBucket) (t : Time) : Prop :=
  tb_limit b = limit ∧ tb_burst b = burst ∧ 0 ≤ tb_tokens b ∧ tb_last b ≤ t.

Lemma tb_used limit burst b t : 0 < burst → used tb_allow (tb_new limit burst) b t → tb_inv limit burst b t.
Proof.
  intros Hb. assert (∀ b t, tb_inv limit burst b t → tb_inv limit burst (tb_allow b t 1).2 t) as Hstep.
  { intros b0 t0 (El & Eb & Ht & Hl). unfold tb_allow.
    destruct (Z.leb_spec (1 * Second) (tb_available b0 t0)); simpl; split_and!; simpl; done || lia. }
  induction 1 as [t Ht|b t t' Hu (El & Eb & Ht & Hl) Hle]; apply Hstep; split_and!; simpl; unfold Second; done || lia.
Qed.

(** A bucket that fills within the idle time satisfies the limiter's hypothesis. *)
Lemma tb_refills limit burst :
  0 < burst → burst * Second ≤ limit * sourceIdleTTL → 0 < limit → refills tb_allow (tb_new limit burst).
Proof.
  intros Hb Hfill Hl b t t' Hu Hidle. destruct (tb_used _ _ _ _ Hb Hu) as (El & Eb & Ht & Hlast).
  assert (0 ≤ t) as Ht0. { clear -Hu. induction Hu; unfold zero_time in *; lia. }
  assert (sourceIdleTTL < t' - t) as Hd.
  { unfold Sub, sat64, sourceIdleTTL, Minute, Second, int64_min, int64_max in *. lia. }
  assert (tb_available b t' = burst * Second) as E1. { unfold tb_available. rewrite El, Eb. nia. }
  assert (tb_available (tb_new limit burst) t' = burst * Second) as E2.
  { unfold tb_available, tb_new, zero_time, sourceIdleTTL, Minute, Second in *. simpl. nia. }
  unfold tb_allow. rewrite E1, E2, El, Eb. destruct (Z.leb_spec (1 * Second) (burst * Second)); [done|].
  unfold Second in *. lia.
Qed.

Definition demo_limiter : option (@SourceLimiter Z TokenBucket) := NewSourceLimiter (λ l, l <=? 0) 20 2.
Definition demo_requests : list (string * Time) :=
  [("10.0.0.1", Hour); ("10.0.0.1", Hour); ("10.0.0.1", Hour); ("10.0.0.2", Hour); ("10.0.0.2", 2 * Hour);
   ("10.0.0.1", 2 * Hour)].

Lemma Allow_isolates_witness :
  of_source "10.0.0.1" demo_requests (serve_all tb_new tb_allow demo_limiter demo_requests).1
    = private tb_allow (tb_new 20 2) (of_source "10.0.0.1" demo_requests (snd <$> demo_requests)) ∧
  of_source "10.0.0.1" demo_requests (serve_all tb_new tb_allow demo_limiter demo_requests).1 = [true; true; false; true].
Proof.
  split; [|by vm_compute].
  apply (Allow_isolates (λ l, l <=? 0) tb_new tb_allow 20 2 (MkLimiter 20 2 ∅ zero_time)); [done| |].
  - apply tb_refills; by vm_compute.
  - unfold demo_requests. repeat constructor; by vm_compute.
Defined.

Lemma Allow_forgets_witness :
  match (serve_all tb_new tb_allow demo_limiter (demo_requests ++ [("10.0.0.1", 2 * Hour)])).2 with
  | None => False
  | Some s' => map_Forall (λ _ b, 2 * Hour - seen b ≤ sourceIdleTTL + pruneInterval) (sources s')
  end.
Proof.
  apply (Allow_forgets (λ l, l <=? 0) tb_new tb_allow 20 2 (MkLimiter 20 2 ∅ zero_time)); [done|].
  unfold demo_requests. repeat constructor; by vm_compute.
Defined.

(** The source of a request is the peer's address without the port. *)
Lemma sourceIP_examples :
  sourceIP "10.1.2.3:41000" = "10.1.2.3" ∧ sourceIP "[fd00::1]:41000" = "fd00::1" ∧ sourceIP "fd00::1" = "fd00::1" ∧
  sourceIP "pipe" = "pipe" ∧ sourceIP "[::1]x:80" = "[::1]x:80".
Proof. by vm_compute. Qed.
