(* ===== verification/KeySet.v ===== *)
(** * The signing-key cache

    Models bridge/dataplane/oidc_keyset.go: the key set the token verifier asks, with
    its rate-limited background refresh. The critical sections are functions on the
    state the mutex guards; the goroutines (one per fetch) and the callers of
    VerifySignature interleave as the rules of a step relation, so every theorem
    about reachable states holds for all schedules. go-jose (parsing a token, checking
    a signature, decoding a JWKS document) is a parameter. *)

From S2P Require Import Prelude GoStrings GoStd GoTime Naming.

Definition jwksMinRefresh : Duration := 30 * Second.
Definition jwksMaxAge : Duration := 10 * Minute.
Definition jwksFetchTimeout : Duration := 10 * Second.
Definition maxJWKSSize : Z := Z.shiftl 1 20.

(** What the HTTP client's [Do] and reading the body gave. *)
Inductive jwks_response :=
| DoFailed (e : gerr)
| Responded (status : Z) (body : string) (read_error : option gerr).

Section KeySet.
Context {jws key : Type}.
(** [jose.ParseSigned], the key IDs of [jws.Signatures], [jws.Verify]. *)
Context (ParseSigned : string → res jws) (signatures : jws → list string) (VerifyKey : jws → key → option string).
(** [JSONWebKey.KeyID], [JSONWebKey.IsPublic], and decoding a [JSONWebKeySet]. *)
Context (KeyID : key → string) (IsPublic : key → bool) (decodeJWKS : string → res (list key)).

(** ** State *)

(** [done] is whether the channel is closed. *)
Record keyFetch := MkFetch { f_done : bool; f_keys : list key; f_err : option gerr }.

(** The fields the mutex guards. [inflight] points into the fetches ever started,
    by index; [fetches] is the heap of these. *)
Record cachedKeySet := MkKeySet {
  keys : list key; fetchedAt : Time; doneAt : Time; lastErr : option gerr; inflight : option nat;
  fetches : list keyFetch
}.

Definition newCachedKeySet : cachedKeySet := MkKeySet [] zero_time zero_time None None [].

(** ** Pure parts *)

Definition holdsKey (ks : list key) (keyID : string) : bool :=
  if String.eqb keyID "" then false else existsb (λ k, String.eqb (KeyID k) keyID) ks.

Fixpoint verifyWith (j : jws) (ks : list key) (keyID : string) : option string :=
  match ks with
  | [] => None
  | k :: ks =>
      if negb (String.eqb keyID "") && negb (String.eqb (KeyID k) keyID) then verifyWith j ks keyID
      else match VerifyKey j k with
           | Some payload => Some payload
           | None => verifyWith j ks keyID
           end
  end.

Definition fetch (a : jwks_response) : res (list key) :=
  match a with
  | DoFailed e => Err (EWrap "fetch JWKS" e)
  | Responded status body read_error =>
      if negb (status =? 200) then Err (EMsg "fetch JWKS")
      else match read_error with
      | Some e => Err (EWrap "read JWKS" e)
      | None =>
          let body := slice_to body (maxJWKSSize + 1) in
          if len body >? maxJWKSSize then Err (EMsg "JWKS larger than the maximum")
          else match decodeJWKS body with
          | Err e => Err (EWrap "decode JWKS" e)
          | Ok set => if existsb IsPublic set then Ok set else Err (EMsg "JWKS contains no public key")
          end
      end
  end.

(** ** Critical sections *)

Definition mayFetchLocked (k : cachedKeySet) (now : Time) : bool :=
  match inflight k with
  | Some _ => false
  | None => IsZero (doneAt k) || (jwksMinRefresh <=? Sub now (doneAt k))
  end.

Definition startFetchLocked (k : cachedKeySet) : nat * cachedKeySet :=
  let f := length (fetches k) in
  (f, MkKeySet (keys k) (fetchedAt k) (doneAt k) (lastErr k) (Some f) (fetches k ++ [MkFetch false [] None])).

Definition cachedKeys (k : cachedKeySet) (now : Time) : list key * cachedKeySet :=
  let stale := IsZero (fetchedAt k) || (jwksMaxAge <? Sub now (fetchedAt k)) in
  (keys k, if stale && mayFetchLocked k now then (startFetchLocked k).2 else k).

(** The locked part of [refreshedKeys]: the keys and the error at once, or the fetch
    to wait for. *)
Definition refreshedKeys (k : cachedKeySet) (now : Time) : (list key * option gerr + nat) * cachedKeySet :=
  match inflight k with
  | Some f => (inr f, k)
  | None =>
      if negb (mayFetchLocked k now)
      then (inl (keys k, match lastErr k with Some e => Some (EWrap "last JWKS fetch failed" e) | None => None end), k)
      else let '(f, k) := startFetchLocked k in (inr f, k)
  end.

(** The locked part of [runFetch]: [f] ended with the result [r]. *)
Definition runFetch (k : cachedKeySet) (f : nat) (r : res (list key)) (now : Time) : cachedKeySet :=
  let err := match r with Ok _ => None | Err e => Some e end in
  let ks := match r with Ok ks => ks | Err _ => keys k end in
  MkKeySet ks (match r with Ok _ => now | Err _ => fetchedAt k end) now err None
    (<[f := MkFetch false ks err]> (fetches k)).

(** [close(f.done)]. *)
Definition close_done (k : cachedKeySet) (f : nat) : cachedKeySet :=
  MkKeySet (keys k) (fetchedAt k) (doneAt k) (lastErr k) (inflight k)
    (match fetches k !! f with
     | Some x => <[f := MkFetch true (f_keys x) (f_err x)]> (fetches k)
     | None => fetches k
     end).

(** ** VerifySignature *)

(** Where a caller of [VerifySignature] stands: about to read the cache, about to
    ask for a refresh, waiting for a fetch, or returned (with the mark of
    [markKeysUnavailable]). *)
Inductive caller :=
| Calling (raw : string)
| Refreshing (raw : string) (j : jws) (keyID : string) (cached : list key)
| Waiting (raw : string) (j : jws) (keyID : string) (cached : list key) (f : nat)
| Returned (raw : string) (r : res string) (unavailable : bool).

(** The code after [refreshedKeys] returned. *)
Definition judge (raw : string) (j : jws) (keyID : string) (cached ks : list key) (refreshErr : option gerr) : caller :=
  match verifyWith j ks keyID with
  | Some payload => Returned raw (Ok payload) false
  | None =>
      match refreshErr with
      | Some e =>
          if negb (holdsKey cached keyID) && negb (holdsKey ks keyID)
          then Returned raw (Err (EWrap "failed to verify token signature" e)) true
          else Returned raw (Err (EMsg "failed to verify token signature")) false
      | None => Returned raw (Err (EMsg "failed to verify token signature")) false
      end
  end.

(** [VerifySignature] up to and including [verifyWith] on the cached keys. *)
Definition verify_cached (k : cachedKeySet) (now : Time) (raw : string) : caller * cachedKeySet :=
  match ParseSigned raw with
  | Err e => (Returned raw (Err (EWrap "malformed jwt" e)) false, k)
  | Ok j =>
      match signatures j with
      | [keyID] =>
          let '(cached, k) := cachedKeys k now in
          match verifyWith j cached keyID with
          | Some payload => (Returned raw (Ok payload) false, k)
          | None => (Refreshing raw j keyID cached, k)
          end
      | _ => (Returned raw (Err (EMsg "jwt must carry exactly one signature")) false, k)
      end
  end.

Definition verify_refresh (k : cachedKeySet) (now : Time) (raw : string) (j : jws) (keyID : string)
    (cached : list key) : caller * cachedKeySet :=
  match refreshedKeys k now with
  | (inl (ks, e), k) => (judge raw j keyID cached ks e, k)
  | (inr f, k) => (Waiting raw j keyID cached f, k)
  end.

(** ** The system *)

Inductive fetch_event := FetchStarted (t : Time) | FetchEnded (t : Time) (r : res (list key)).

(** The key set with its goroutines: [running] before the locked part of
    [runFetch], [closing] between it and the close of the channel. [trace] and
    [cancelled] record, for the theorems only, the fetches (latest first) and the
    callers whose context ended while they waited. *)
Record system := MkSystem {
  clock : Time; ks : cachedKeySet; callers : list caller; running : list nat; closing : list nat;
  trace : list fetch_event; cancelled : list nat
}.

Definition init (t : Time) : system := MkSystem t newCachedKeySet [] [] [] [] [].

(** A critical section replaced the key set by [k]: a fetch it started runs. *)
Definition with_keyset (s : system) (k : cachedKeySet) (i : nat) (c : caller) : system :=
  let started := bool_decide (length (fetches (ks s)) < length (fetches k))%nat in
  MkSystem (clock s) k (<[i := c]> (callers s))
    (if started then length (fetches (ks s)) :: running s else running s) (closing s)
    (if started then FetchStarted (clock s) :: trace s else trace s) (cancelled s).

Inductive step (s : system) : system → Prop :=
| step_tick t : clock s ≤ t →
    step s (MkSystem t (ks s) (callers s) (running s) (closing s) (trace s) (cancelled s))
| step_call raw :
    step s (MkSystem (clock s) (ks s) (callers s ++ [Calling raw]) (running s) (closing s) (trace s) (cancelled s))
| step_cached i raw c k : callers s !! i = Some (Calling raw) →
    verify_cached (ks s) (clock s) raw = (c, k) → step s (with_keyset s k i c)
| step_refresh i raw j keyID cached c k : callers s !! i = Some (Refreshing raw j keyID cached) →
    verify_refresh (ks s) (clock s) raw j keyID cached = (c, k) → step s (with_keyset s k i c)
| step_wake i raw j keyID cached f x : callers s !! i = Some (Waiting raw j keyID cached f) →
    fetches (ks s) !! f = Some x → f_done x = true →
    step s (with_keyset s (ks s) i (judge raw j keyID cached (f_keys x) (f_err x)))
| step_cancel i raw j keyID cached f cause : callers s !! i = Some (Waiting raw j keyID cached f) →
    step s (MkSystem (clock s) (ks s)
      (<[i := judge raw j keyID cached [] (Some (EWrap "waiting for the JWKS fetch" cause))]> (callers s))
      (running s) (closing s) (trace s) (i :: cancelled s))
| step_fetched pre f post a : running s = pre ++ f :: post →
    step s (MkSystem (clock s) (runFetch (ks s) f (fetch a) (clock s)) (callers s) (pre ++ post) (f :: closing s)
      (FetchEnded (clock s) (fetch a) :: trace s) (cancelled s))
| step_close pre f post : closing s = pre ++ f :: post →
    step s (MkSystem (clock s) (close_done (ks s) f) (callers s) (running s) (pre ++ post) (trace s) (cancelled s)).

Inductive reachable : system → Prop :=
| reachable_init t : zero_time < t → reachable (init t)
| reachable_step s s' : reachable s → step s s' → reachable s'.

(** ** Specification *)

(** The fetches of a trace: one at a time, each at least [jwksMinRefresh] after the
    end of the one before. *)
Fixpoint spaced (tr : list fetch_event) : Prop :=
  match tr with
  | [] => True
  | FetchStarted t :: tr =>
      match tr with [] => True | FetchEnded t' _ :: _ => t' + jwksMinRefresh ≤ t | FetchStarted _ :: _ => False end
      ∧ spaced tr
  | FetchEnded t _ :: tr =>
      match tr with FetchStarted t' :: _ => t' ≤ t | _ => False end ∧ spaced tr
  end.

(** The keys of the last fetch that succeeded; none before the first. *)
Fixpoint last_good (tr : list fetch_event) : list key :=
  match tr with
  | FetchEnded _ (Ok set) :: _ => set
  | _ :: tr => last_good tr
  | [] => []
  end.

Definition fetched (tr : list fetch_event) (k : key) : Prop := ∃ t set, FetchEnded t (Ok set) ∈ tr ∧ k ∈ set.
Definition failed (tr : list fetch_event) : Prop := ∃ t e, FetchEnded t (Err e) ∈ tr.

(** [payload] is what a fetched key certifies for the token. *)
Definition certified (tr : list fetch_event) (raw payload : string) : Prop :=
  ∃ j keyID k, ParseSigned raw = Ok j ∧ signatures j = [keyID] ∧ fetched tr k ∧
    (keyID = EmptyString ∨ KeyID k = keyID) ∧ VerifyKey j k = Some payload.

(** ** Invariants *)

Record sched_inv (s : system) : Prop := {
  sched_clock : zero_time < clock s;
  sched_running : running s = option_list (inflight (ks s));
  sched_spaced : spaced (trace s);
  sched_last : match inflight (ks s) with
               | Some _ => ∃ t tr, trace s = FetchStarted t :: tr ∧ t ≤ clock s
               | None => match trace s with
                         | [] => doneAt (ks s) = zero_time
                         | FetchEnded t _ :: _ => doneAt (ks s) = t ∧ zero_time < t ≤ clock s
                         | FetchStarted _ :: _ => False
                         end
               end;
  sched_keys : keys (ks s) = last_good (trace s)
}.

Record heap_inv (s : system) : Prop := {
  heap_live : ∀ f x, fetches (ks s) !! f = Some x → f_done x = true ∨ f ∈ running s ∨ f ∈ closing s;
  heap_bound : ∀ f, f ∈ running s ∨ f ∈ closing s → (f < length (fetches (ks s)))%nat;
  heap_keys : ∀ f x k, fetches (ks s) !! f = Some x → k ∈ f_keys x → fetched (trace s) k;
  heap_err : ∀ f x e, fetches (ks s) !! f = Some x → f_err x = Some e → failed (trace s);
  heap_last : ∀ e, lastErr (ks s) = Some e → failed (trace s)
}.

Definition caller_ok (n : nat) (tr : list fetch_event) (gone : Prop) (c : caller) : Prop :=
  match c with
  | Calling _ => True
  | Refreshing raw j keyID cached =>
      ParseSigned raw = Ok j ∧ signatures j = [keyID] ∧ verifyWith j cached keyID = None
  | Waiting raw j keyID cached f =>
      ParseSigned raw = Ok j ∧ signatures j = [keyID] ∧ (f < n)%nat
  | Returned raw (Ok payload) u => u = false ∧ certified tr raw payload
  | Returned raw (Err _) u => u = true → failed tr ∨ gone
  end.

Definition callers_inv (s : system) : Prop :=
  ∀ i c, callers s !! i = Some c → caller_ok (length (fetches (ks s))) (trace s) (i ∈ cancelled s) c.

Definition inv (s : system) : Prop := sched_inv s ∧ heap_inv s ∧ callers_inv s.

(** *** Facts that only grow *)

Lemma fetched_mono tr tr' k : tr ⊆ tr' → fetched tr k → fetched tr' k.
Proof. intros Hs (t & set & He & Hk). exists t, set. auto. Qed.
Lemma failed_mono tr tr' : tr ⊆ tr' → failed tr → failed tr'.
Proof. intros Hs (t & e & He). exists t, e. auto. Qed.
Lemma certified_mono tr tr' raw p : tr ⊆ tr' → certified tr raw p → certified tr' raw p.
Proof. intros Hs (j & kid & k & ? & ? & Hk & ? & ?). exists j, kid, k. split_and!; try done. by eapply fetched_mono. Qed.

Lemma caller_ok_mono n n' tr tr' (gone gone' : Prop) c :
  (n ≤ n')%nat → tr ⊆ tr' → (gone → gone') → caller_ok n tr gone c → caller_ok n' tr' gone' c.
Proof.
  intros Hn Ht Hg. destruct c as [raw|raw j kid ca|raw j kid ca f|raw [p|e] u]; simpl; [done|done| | |].
  - intros (? & ? & ?). split_and!; [done|done|lia].
  - intros [-> Hc]. split; [done|by eapply certified_mono].
  - intros H Hu. destruct (H Hu) as [?|?]; [left; by eapply failed_mono|auto].
Qed.

Lemma last_good_fetched tr k : k ∈ last_good tr → fetched tr k.
Proof.
  induction tr as [|[t|t [set|e]] tr IH]; simpl; intros Hk; [by apply not_elem_of_nil in Hk| | |].
  - eapply fetched_mono; [|by apply IH]. set_solver.
  - exists t, set. split; [left|done].
  - eapply fetched_mono; [|by apply IH]. set_solver.
Qed.

Lemma verifyWith_Some j l keyID p :
  verifyWith j l keyID = Some p →
  ∃ k, k ∈ l ∧ (keyID = EmptyString ∨ KeyID k = keyID) ∧ VerifyKey j k = Some p.
Proof.
  induction l as [|k l IH]; simpl; [done|].
  destruct (String.eqb_spec keyID ""), (String.eqb_spec (KeyID k) keyID); simpl;
    try (destruct (VerifyKey j k) eqn:E; [intros [= <-]; exists k; split_and!; [left|auto|done]|]);
    intros H; destruct (IH H) as (k' & ? & ? & ?); exists k'; split_and!; try done; by right.
Qed.

(** *** Critical sections *)

(** What a critical section of a caller does to the key set: nothing, or it starts a
    fetch when one may start. *)
Definition section_of (k : cachedKeySet) (now : Time) (k' : cachedKeySet) : Prop :=
  k' = k ∨ mayFetchLocked k now = true ∧ k' = (startFetchLocked k).2.

Lemma verify_cached_section k now raw c k' : verify_cached k now raw = (c, k') → section_of k now k'.
Proof.
  unfold verify_cached, section_of. intros H. destruct (ParseSigned raw) as [j|]; [|simplify_eq; by left].
  destruct (signatures j) as [|kid [|]]; [simplify_eq; by left| |simplify_eq; by left].
  unfold cachedKeys in H.
  destruct ((IsZero (fetchedAt k) || (jwksMaxAge <? Sub now (fetchedAt k))) && mayFetchLocked k now) eqn:E;
    bsimpl; destruct (verifyWith j (keys k) kid); simplify_eq; auto.
Qed.

Lemma verify_refresh_section k now raw j kid ca c k' : verify_refresh k now raw j kid ca = (c, k') → section_of k now k'.
Proof.
  unfold verify_refresh, refreshedKeys, section_of. intros H.
  destruct (inflight k); [simplify_eq; by left|].
  destruct (mayFetchLocked k now) eqn:E; simpl in H; simplify_eq; auto.
Qed.

Lemma section_fetches k now k' :
  section_of k now k' → (length (fetches k) ≤ length (fetches k'))%nat ∧ keys k' = keys k ∧ lastErr k' = lastErr k ∧ doneAt k' = doneAt k.
Proof. intros [->|[_ ->]]; simpl; rewrite ?length_app; split_and!; done || lia. Qed.

Lemma with_keyset_same s i c :
  with_keyset s (ks s) i c =
  MkSystem (clock s) (ks s) (<[i := c]> (callers s)) (running s) (closing s) (trace s) (cancelled s).
Proof. unfold with_keyset. rewrite bool_decide_false by lia. done. Qed.

Lemma with_keyset_start s i c :
  with_keyset s (startFetchLocked (ks s)).2 i c =
  MkSystem (clock s) (startFetchLocked (ks s)).2 (<[i := c]> (callers s)) (length (fetches (ks s)) :: running s)
    (closing s) (FetchStarted (clock s) :: trace s) (cancelled s).
Proof. unfold with_keyset. rewrite bool_decide_true; [done|]. simpl. rewrite length_app. simpl. lia. Qed.

Lemma callers_insert s i c n tr :
  callers_inv s → (length (fetches (ks s)) ≤ n)%nat → trace s ⊆ tr → caller_ok n tr (i ∈ cancelled s) c →
  ∀ i' c', <[i := c]> (callers s) !! i' = Some c' → caller_ok n tr (i' ∈ cancelled s) c'.
Proof.
  intros Hi Hn Ht Hc i' c' Hl. apply list_lookup_insert_Some in Hl as [(<- & <- & _)|[_ Hl]]; [done|].
  eapply caller_ok_mono; [done|done|by auto|by apply Hi].
Qed.

Lemma section_inv s k i c :
  inv s → section_of (ks s) (clock s) k → caller_ok (length (fetches k)) (trace s) (i ∈ cancelled s) c →
  inv (with_keyset s k i c).
Proof.
  intros (Hs & Hh & Hc) [->|[Hm ->]] Hok.
  - rewrite with_keyset_same. split_and!; [destruct Hs; by constructor|destruct Hh; by constructor|]. intros i' c'. simpl. by apply (callers_insert s i c).
  - rewrite with_keyset_start. unfold mayFetchLocked in Hm.
    destruct (inflight (ks s)) as [|] eqn:Ei; [done|].
    assert (trace s ⊆ FetchStarted (clock s) :: trace s) as Hsub by set_solver.
    split_and!.
    + destruct Hs as [Hclk Hr Hsp Hl Hk]. rewrite Ei in Hr, Hl.
      constructor; simpl; [done|by rewrite Hr| |by eauto using Z.le_refl|done].
      split; [|done]. destruct (trace s) as [|[t|t r] tr]; [done|done|]. destruct Hl as [Hd Ht].
      apply orb_true_iff in Hm as [Hz|Hz].
      * unfold IsZero in Hz. lia.
      * apply Z.leb_le in Hz. rewrite Hd in Hz. unfold Sub, sat64, jwksMinRefresh, Second, int64_min, int64_max in *. lia.
    + destruct Hh as [Hlive Hb Hk He Hl]. constructor; simpl.
      * intros f x Hx. apply lookup_snoc_Some in Hx as [[_ Hx]|[-> <-]]; [|right; left; left].
        destruct (Hlive f x Hx) as [?|[?|?]]; auto. right. left. by right.
      * intros f. rewrite length_app. simpl. intros [Hf|Hf].
        -- apply elem_of_cons in Hf as [->|Hf]; [lia|]. specialize (Hb f (or_introl Hf)). lia.
        -- specialize (Hb f (or_intror Hf)). lia.
      * intros f x k' Hx Hk'. apply lookup_snoc_Some in Hx as [[_ Hx]|[-> <-]]; [|by apply not_elem_of_nil in Hk'].
        eapply fetched_mono; [exact Hsub|by eapply Hk].
      * intros f x e Hx Hx'. apply lookup_snoc_Some in Hx as [[_ Hx]|[-> <-]]; [|done].
        eapply failed_mono; [exact Hsub|by eapply He].
      * intros e He'. eapply failed_mono; [exact Hsub|by eapply Hl].
    + intros i' c'. simpl. apply (callers_insert s i c); [done|rewrite length_app; lia|done|].
      by apply (caller_ok_mono _ _ (trace s) _ (i ∈ cancelled s) _ _ (le_n _) Hsub).
Qed.

(** What a caller holds after each of its own steps. *)
Lemma judge_ok n tr gone raw j keyID cached l e :
  ParseSigned raw = Ok j → signatures j = [keyID] → (∀ k, k ∈ l → fetched tr k) →
  (∀ x, e = Some x → failed tr ∨ gone) → caller_ok n tr gone (judge raw j keyID cached l e).
Proof.
  intros Hp Hs Hl He. unfold judge. destruct (verifyWith j l keyID) as [p|] eqn:E.
  - apply verifyWith_Some in E as (k & Hk & Hid & Hv). split; [done|]. exists j, keyID, k. auto 6.
  - destruct e as [x|]; [|done]. destruct (_ && _); simpl; [|done]. intros _. by eapply He.
Qed.

Lemma verify_cached_ok s i raw c k :
  inv s → verify_cached (ks s) (clock s) raw = (c, k) →
  caller_ok (length (fetches k)) (trace s) (i ∈ cancelled s) c.
Proof.
  intros (Hs & _ & _) H. unfold verify_cached in H. destruct (ParseSigned raw) as [j|] eqn:Ep; [|by simplify_eq].
  destruct (signatures j) as [|kid [|]] eqn:Es; [by simplify_eq| |by simplify_eq].
  unfold cachedKeys in H. destruct (verifyWith j (keys (ks s)) kid) as [p|] eqn:E; simplify_eq; [|done].
  apply verifyWith_Some in E as (k & Hk & Hid & Hv). split; [done|]. exists j, kid, k. split_and!; try done.
  apply last_good_fetched. by rewrite <- (sched_keys s Hs).
Qed.

Lemma verify_refresh_ok s i raw j keyID cached c k :
  inv s → callers s !! i = Some (Refreshing raw j keyID cached) →
  verify_refresh (ks s) (clock s) raw j keyID cached = (c, k) →
  caller_ok (length (fetches k)) (trace s) (i ∈ cancelled s) c.
Proof.
  intros (Hs & Hh & Hc) Hi H. destruct (Hc _ _ Hi) as (Hp & Hsig & _).
  unfold verify_refresh, refreshedKeys in H. destruct (inflight (ks s)) as [f|] eqn:Ei.
  - simplify_eq. split_and!; [done|done|]. apply (heap_bound s Hh). left. rewrite (sched_running s Hs), Ei. left.
  - destruct (mayFetchLocked (ks s) (clock s)); simpl in H; simplify_eq.
    + split_and!; [done|done|]. simpl. rewrite length_app. simpl. lia.
    + apply judge_ok; [done|done| |].
      * intros k Hk. apply last_good_fetched. by rewrite <- (sched_keys s Hs).
      * intros x Hx. left. destruct (lastErr (ks s)) as [e|] eqn:El; [|done]. by eapply (heap_last s Hh).
Qed.

Lemma running_inflight s pre f post :
  sched_inv s → running s = pre ++ f :: post → inflight (ks s) = Some f ∧ pre = [] ∧ post = [].
Proof.
  intros Hs Hr. rewrite (sched_running s Hs) in Hr.
  destruct (inflight (ks s)) as [f'|]; simpl in Hr; destruct pre as [|? [|]]; simplify_list_eq; done.
Qed.

Lemma fetched_inv s pre f post a :
  inv s → running s = pre ++ f :: post →
  inv (MkSystem (clock s) (runFetch (ks s) f (fetch a) (clock s)) (callers s) (pre ++ post) (f :: closing s)
        (FetchEnded (clock s) (fetch a) :: trace s) (cancelled s)).
Proof.
  intros (Hs & Hh & Hc) Hr. destruct (running_inflight s pre f post Hs Hr) as (Ei & -> & ->). simpl in Hr |- *.
  destruct Hs as [Hclk _ Hsp Hl Hk]. rewrite Ei in Hl. destruct Hl as (t & tr & Et & Ht).
  set (tr' := FetchEnded (clock s) (fetch a) :: trace s).
  assert (trace s ⊆ tr') as Hsub by (unfold tr'; set_solver).
  assert (∀ k, k ∈ match fetch a with Ok l => l | Err _ => keys (ks s) end → fetched tr' k) as Hf.
  { unfold tr'. destruct (fetch a) as [l|e]; intros k Hin.
    - exists (clock s), l. split; [left|done].
    - eapply fetched_mono; [exact Hsub|]. apply last_good_fetched. by rewrite <- Hk. }
  assert (∀ e, match fetch a with Ok _ => None | Err e => Some e end = Some e → failed tr') as He.
  { unfold tr'. destruct (fetch a) as [l|e]; [done|]. intros _ [= <-]. exists (clock s), e. left. }
  split_and!.
  - constructor; simpl; [done|done| |by split; [|lia]|].
    + unfold tr'. rewrite Et in Hsp |- *. done.
    + destruct (fetch a); done.
  - destruct Hh as [Hlive Hb Hk' He' Hl']. constructor; simpl.
    + intros f' x Hx. apply list_lookup_insert_Some in Hx as [(<- & _ & _)|[Hne Hx]]; [right; right; left|].
      destruct (Hlive f' x Hx) as [?|[Hin|?]]; [by left| |right; right; by right].
      rewrite Hr in Hin. by apply list_elem_of_singleton in Hin.
    + intros f' Hin. rewrite length_insert. apply Hb.
      destruct Hin as [Hin|Hin]; [by apply not_elem_of_nil in Hin|].
      apply elem_of_cons in Hin as [->|Hin]; [|by right]. left. rewrite Hr. left.
    + intros f' x k Hx Hin. apply list_lookup_insert_Some in Hx as [(<- & <- & _)|[_ Hx]]; [by apply Hf|].
      eapply fetched_mono; [exact Hsub|by eapply Hk'].
    + intros f' x e Hx Hxe. apply list_lookup_insert_Some in Hx as [(<- & <- & _)|[_ Hx]]; [by eapply He|].
      eapply failed_mono; [exact Hsub|by eapply He'].
    + done.
  - intros i c Hi. simpl in *. rewrite length_insert. by eapply caller_ok_mono; [done|exact Hsub| |by apply Hc].
Qed.

Lemma close_fetches k f f' x' :
  fetches (close_done k f) !! f' = Some x' →
  ∃ x, fetches k !! f' = Some x ∧ f_keys x' = f_keys x ∧ f_err x' = f_err x ∧ (f_done x' = true ∨ f' ≠ f ∧ x' = x).
Proof.
  unfold close_done. simpl. destruct (fetches k !! f) as [y|] eqn:E.
  - intros Hx. apply list_lookup_insert_Some in Hx as [(<- & <- & _)|[Hne Hx]]; simpl; eauto 8.
  - intros Hx. exists x'. split_and!; try done. right. split; [|done]. intros ->. by rewrite E in Hx.
Qed.

Lemma length_close k f : length (fetches (close_done k f)) = length (fetches k).
Proof. unfold close_done. simpl. destruct (fetches k !! f); [apply length_insert|done]. Qed.

Lemma close_inv s pre f post :
  inv s → closing s = pre ++ f :: post →
  inv (MkSystem (clock s) (close_done (ks s) f) (callers s) (running s) (pre ++ post) (trace s) (cancelled s)).
Proof.
  intros (Hs & Hh & Hc) Hcl. split_and!; [destruct Hs; by constructor| |].
  - destruct Hh as [Hlive Hb Hk He Hl]. constructor; cbn [running closing trace ks] in *.
    + intros f' x' Hx'. apply close_fetches in Hx' as (x & Hx & _ & _ & [?|[Hne ->]]); [by left|].
      destruct (Hlive f' x Hx) as [?|[?|Hin]]; [by left|right; by left|]. right. right.
      rewrite Hcl in Hin. set_solver.
    + intros f' Hin. rewrite length_close. apply Hb. rewrite Hcl. set_solver.
    + intros f' x' k Hx' Hin. apply close_fetches in Hx' as (x & Hx & Ek & _). rewrite Ek in Hin. by eapply Hk.
    + intros f' x' e Hx' Hin. apply close_fetches in Hx' as (x & Hx & _ & Ee & _). rewrite Ee in Hin. by eapply He.
    + done.
  - intros i c Hi. cbn [ks callers trace cancelled] in *. rewrite length_close. by apply Hc.
Qed.

Lemma step_inv s s' : inv s → step s s' → inv s'.
Proof.
  intros Hi Hst. destruct Hst as [t Ht|raw|i raw c k Hl Hv|i raw j kid ca c k Hl Hv|i raw j kid ca f x Hl Hx Hd
                                 |i raw j kid ca f cause Hl|pre f post a Hr|pre f post Hcl].
  - destruct Hi as ([Hclk Hr Hsp Hlast Hk] & Hh & Hc). split_and!; [|destruct Hh; by constructor|done].
    constructor; simpl; [lia|done|done| |done]. destruct (inflight (ks s)).
    + destruct Hlast as (t0 & tr & ? & ?). exists t0, tr. split; [done|lia].
    + destruct (trace s) as [|[|] ]; [done|done|]. destruct Hlast. split; [done|lia].
  - destruct Hi as (Hs & Hh & Hc). split_and!; [destruct Hs; by constructor|destruct Hh; by constructor|].
    intros i c Hl. simpl in *. apply lookup_snoc_Some in Hl as [[_ Hl]|[_ <-]]; [by apply Hc|done].
  - apply section_inv; [done|by eapply verify_cached_section|by eapply verify_cached_ok].
  - apply section_inv; [done|by eapply verify_refresh_section|by eapply verify_refresh_ok].
  - apply section_inv; [done|by left|]. destruct Hi as (Hs & Hh & Hc). destruct (Hc _ _ Hl) as (? & ? & _).
    apply judge_ok; [done|done| |].
    + intros k Hk. by eapply (heap_keys s Hh).
    + intros e He. left. by eapply (heap_err s Hh).
  - destruct Hi as (Hs & Hh & Hc). split_and!; [destruct Hs; by constructor|destruct Hh; by constructor|].
    destruct (Hc _ _ Hl) as (? & ? & _). intros i' c' Hl'. simpl in *.
    apply list_lookup_insert_Some in Hl' as [(<- & <- & _)|[_ Hl']].
    + apply judge_ok; [done|done| |].
      * intros k Hk. by apply not_elem_of_nil in Hk.
      * intros e _. right. left.
    + eapply caller_ok_mono; [done|done| |by apply Hc]. intros ?. by right.
  - by apply fetched_inv.
  - by apply close_inv.
Qed.

Lemma reachable_inv s : reachable s → inv s.
Proof.
  induction 1 as [t Ht|s s' _ IH Hst]; [|by eapply step_inv].
  split_and!; [by constructor| |done]. constructor; simpl; [done| |done|done|done].
  intros f [Hf|Hf]; by apply not_elem_of_nil in Hf.
Qed.

(** ** Theorems *)

(** C35: The issuer is not hammered. However many callers ask, with whatever tokens, and
    however they and the fetches interleave: at most one fetch runs at a time, and
    each starts at least thirty seconds after the one before ended. *)
Theorem fetches_spaced s : reachable s → (length (running s) ≤ 1)%nat ∧ spaced (trace s).
Proof.
  intros Hr. destruct (reachable_inv s Hr) as (Hs & _). split; [|apply (sched_spaced s Hs)].
  rewrite (sched_running s Hs). destruct (inflight (ks s)); simpl; lia.
Qed.

Lemma trace_public s t set : reachable s → FetchEnded t (Ok set) ∈ trace s → existsb IsPublic set = true.
Proof.
  induction 1 as [|s s' _ IH Hst]; [by intros ?%not_elem_of_nil|].
  destruct Hst; simpl; try exact IH; try (unfold with_keyset; case_bool_decide; simpl; [|exact IH]);
    try (intros [?|?]%elem_of_cons; [done|by apply IH]).
  intros [E|?]%elem_of_cons; [|by apply IH]. injection E as -> E. revert E. unfold fetch.
  destruct a as [|st body [|]]; [done|by destruct (negb _)|]. destruct (negb _); [done|]. destruct (_ >? _); [done|].
  destruct (decodeJWKS _) as [l|]; [|done]. destruct (existsb IsPublic l) eqn:Ep; [|done]. by intros [= ->].
Qed.

Lemma last_good_success tr : (∃ t set, FetchEnded t (Ok set) ∈ tr) → ∃ t, FetchEnded t (Ok (last_good tr)) ∈ tr.
Proof.
  induction tr as [|[t|t [set|e]] tr IH]; simpl; intros (t' & set' & Hin).
  - by apply not_elem_of_nil in Hin.
  - apply elem_of_cons in Hin as [?|Hin]; [done|]. destruct IH as [t'' ?]; [by eauto|]. exists t''. by right.
  - exists t. left.
  - apply elem_of_cons in Hin as [?|Hin]; [done|]. destruct IH as [t'' ?]; [by eauto|]. exists t''. by right.
Qed.

(** The last good keys stay in use. The keys held are always those of the last
    fetch that succeeded: a failed fetch, an error page or a document without keys
    never removes them, and from the first success on a public key is held. *)
Theorem last_good_keys_kept s :
  reachable s →
  keys (ks s) = last_good (trace s) ∧
  ((∃ t set, FetchEnded t (Ok set) ∈ trace s) → existsb IsPublic (keys (ks s)) = true).
Proof.
  intros Hr. destruct (reachable_inv s Hr) as (Hs & _). split; [apply (sched_keys s Hs)|].
  rewrite (sched_keys s Hs). intros [t Ht]%last_good_success. by eapply trace_public.
Qed.

(** A known key never waits. A token some held key verifies is answered in the
    caller's first critical section, with that payload: while a fetch runs, after a
    fetch failed, and when the keys are stale. *)
Theorem known_key_answered_at_once s raw j keyID payload :
  reachable s → ParseSigned raw = Ok j → signatures j = [keyID] →
  verifyWith j (last_good (trace s)) keyID = Some payload →
  (verify_cached (ks s) (clock s) raw).1 = Returned raw (Ok payload) false.
Proof.
  intros Hr Hp Hs Hv. destruct (reachable_inv s Hr) as (Hi & _). rewrite <- (sched_keys s Hi) in Hv.
  unfold verify_cached, cachedKeys. rewrite Hp, Hs, Hv. done.
Qed.

(** C36: Answers are sound. A caller is handed a payload only when a key some successful
    fetch delivered, the one the token names, verifies the token's one signature;
    and it is told that the keys were unavailable only when a fetch failed or its
    own request ended while it waited. *)
Theorem verify_answers_sound s i raw r unavailable :
  reachable s → callers s !! i = Some (Returned raw r unavailable) →
  match r with
  | Ok payload => unavailable = false ∧ certified (trace s) raw payload
  | Err _ => unavailable = true → failed (trace s) ∨ i ∈ cancelled s
  end.
Proof.
  intros Hr Hi. destruct (reachable_inv s Hr) as (_ & _ & Hc). specialize (Hc i _ Hi). by destruct r.
Qed.

Lemma judge_returned raw j keyID cached l e : ∃ r u, judge raw j keyID cached l e = Returned raw r u.
Proof. unfold judge. repeat case_match; eauto. Qed.

Lemma wake_returns s i raw j keyID cached f :
  inv s → callers s !! i = Some (Waiting raw j keyID cached f) → f ∉ running s → f ∉ closing s →
  ∃ s' r u, rtc step s s' ∧ cancelled s' = cancelled s ∧ trace s' = trace s ∧ callers s' !! i = Some (Returned raw r u).
Proof.
  intros (Hs & Hh & Hc) Hi Hr Hcl. destruct (Hc _ _ Hi) as (_ & _ & Hf).
  apply lookup_lt_is_Some in Hf as [x Hx].
  destruct (heap_live s Hh f x Hx) as [Hd|[?|?]]; [|done..].
  destruct (judge_returned raw j keyID cached (f_keys x) (f_err x)) as (r & u & E).
  eexists _, r, u. split_and!; [eapply rtc_once, step_wake; eassumption| | |];
    rewrite with_keyset_same; [done|done|]. simpl. rewrite E. apply list_lookup_insert_eq. by eapply lookup_lt_Some.
Qed.

Lemma close_all s i raw j keyID cached f :
  inv s → callers s !! i = Some (Waiting raw j keyID cached f) → f ∉ running s →
  ∃ s' r u, rtc step s s' ∧ cancelled s' = cancelled s ∧ trace s' = trace s ∧ callers s' !! i = Some (Returned raw r u).
Proof.
  remember (length (closing s)) as n eqn:En. revert s En. induction n as [|n IH]; intros s En Hinv Hi Hr.
  - symmetry in En. apply nil_length_inv in En. eapply wake_returns; try done. rewrite En. apply not_elem_of_nil.
  - destruct (closing s) as [|g l] eqn:Ec; [done|].
    set (s1 := MkSystem (clock s) (close_done (ks s) g) (callers s) (running s) ([] ++ l) (trace s) (cancelled s)).
    assert (step s s1) as Hst by (by apply step_close).
    destruct (IH s1) as (s' & r & u & Hs' & Hca & Htr & Hret); [simpl in *; lia|by eapply step_inv|done|done|].
    exists s', r, u. split_and!; [by eapply rtc_l|done..].
Qed.

(** Nobody waits for a wake-up that never comes. From every reachable state in which
    a caller waits, whatever the running fetch answers, letting the fetch end and
    its goroutine finish lets the caller return, without its context ending. *)
Theorem waiting_caller_returns s i raw j keyID cached f a :
  reachable s → callers s !! i = Some (Waiting raw j keyID cached f) →
  ∃ s' r u, rtc step s s' ∧ cancelled s' = cancelled s ∧ callers s' !! i = Some (Returned raw r u) ∧
    trace s' = match running s with [] => trace s | _ => FetchEnded (clock s) (fetch a) :: trace s end.
Proof.
  intros Hr Hi. pose proof (reachable_inv s Hr) as Hinv.
  destruct (running s) as [|g l] eqn:Er.
  - destruct (close_all s i raw j keyID cached f) as (s' & r & u & ? & ? & ? & ?); [done|done|rewrite Er; apply not_elem_of_nil|].
    by exists s', r, u.
  - destruct (running_inflight s [] g l) as (_ & _ & ->); [apply Hinv|done|].
    assert (step s (MkSystem (clock s) (runFetch (ks s) g (fetch a) (clock s)) (callers s) ([] ++ []) (g :: closing s)
      (FetchEnded (clock s) (fetch a) :: trace s) (cancelled s))) as Hst by (by apply step_fetched).
    set (s1 := MkSystem _ _ _ _ _ _ _) in Hst.
    destruct (close_all s1 i raw j keyID cached f) as (s' & r & u & Hs' & ? & Htr & ?);
      [by eapply step_inv|done|apply not_elem_of_nil|].
    exists s', r, u. split_and!; [by eapply rtc_l|done|done|by rewrite Htr].
Qed.
End KeySet.

(** ** A concrete key set *)

(** Tokens and keys are their key IDs, a document is one key: a key verifies the
    tokens that name it. *)
Module Toy.
Definition parse (raw : string) : res string := if String.eqb raw "" then Err (EMsg "empty") else Ok raw.
Definition sigs (j : string) : list string := [j].
Definition verify (j k : string) : option string := if String.eqb j k then Some ("claims of " +:+ k) else None.
Definition id (k : string) : string := k.
Definition public (k : string) : bool := true.
Definition decode (body : string) : res (list string) := Ok [body].

Notation toy_step := (step parse sigs verify id public decode).
Notation toy_reachable := (reachable parse sigs verify id public decode).

(** A caller waits for the first fetch. *)
Definition waiting : @system string string := MkSystem Hour
  (MkKeySet [] zero_time zero_time None (Some 0%nat) [MkFetch false [] None])
  [Waiting "k1" "k1" "k1" [] 0%nat] [0%nat] [] [FetchStarted Hour] [].

Lemma waiting_reachable : toy_reachable waiting.
Proof.
  pose proof (reachable_init parse sigs verify id public decode Hour eq_refl) as H0.
  pose proof (reachable_step _ _ _ _ _ _ _ _ H0 (step_call _ _ _ _ _ _ _ "k1")) as H1.
  pose proof (λ raw c k e e', reachable_step _ _ _ _ _ _ _ _ H1 (step_cached _ _ _ _ _ _ _ 0%nat raw c k e e')) as H2.
  specialize (H2 _ _ _ eq_refl eq_refl).
  pose proof (λ raw j i ca c k e e', reachable_step _ _ _ _ _ _ _ _ H2 (step_refresh _ _ _ _ _ _ _ 0%nat raw j i ca c k e e')) as H3.
  exact (H3 _ _ _ _ _ _ eq_refl eq_refl).
Qed.

(** The fetch has delivered the key, and the caller has its answer. *)
Definition answered : @system string string := MkSystem Hour
  (MkKeySet ["k1"] Hour Hour None None [MkFetch true ["k1"] None])
  [Returned "k1" (Ok "claims of k1") false] [] [] [FetchEnded Hour (Ok ["k1"]); FetchStarted Hour] [].

Lemma fetch_k1 : fetch public decode (Responded 200 "k1" None) = Ok ["k1"].
Proof. vm_compute. reflexivity. Qed.

Lemma answered_reachable : toy_reachable answered.
Proof.
  pose proof (reachable_step _ _ _ _ _ _ _ _ waiting_reachable
    (step_fetched _ _ _ _ _ _ waiting [] 0%nat [] (Responded 200 "k1" None) eq_refl)) as H1.
  rewrite fetch_k1 in H1.
  pose proof (λ e, reachable_step _ _ _ _ _ _ _ _ H1 (step_close _ _ _ _ _ _ _ [] 0%nat [] e)) as H2.
  specialize (H2 eq_refl).
  pose proof (λ raw j i ca f x e e' e'', reachable_step _ _ _ _ _ _ _ _ H2
    (step_wake _ _ _ _ _ _ _ 0%nat raw j i ca f x e e' e'')) as H3.
  exact (H3 _ _ _ _ _ _ eq_refl eq_refl eq_refl).
Qed.

Lemma fetches_spaced_witness : (length (running answered) ≤ 1)%nat ∧ spaced (trace answered).
Proof. apply (fetches_spaced parse sigs verify id public decode). exact answered_reachable. Defined.

Lemma last_good_keys_kept_witness :
  keys (ks answered) = last_good (trace answered) ∧
  ((∃ t set, FetchEnded t (Ok set) ∈ trace answered) → existsb public (keys (ks answered)) = true).
Proof. apply (last_good_keys_kept parse sigs verify id public decode). exact answered_reachable. Defined.

Lemma known_key_answered_at_once_witness :
  (verify_cached parse sigs verify id (ks answered) (clock answered) "k1").1 = Returned "k1" (Ok "claims of k1") false.
Proof.
  apply (known_key_answered_at_once parse sigs verify id public decode answered "k1" "k1" "k1");
    [exact answered_reachable|reflexivity..].
Defined.

Lemma verify_answers_sound_witness :
  false = false ∧ certified parse sigs verify id (trace answered) "k1" "claims of k1".
Proof.
  apply (verify_answers_sound parse sigs verify id public decode answered 0 "k1" (Ok "claims of k1") false);
    [exact answered_reachable|reflexivity].
Defined.

Lemma waiting_caller_returns_witness :
  ∃ s' r u, rtc toy_step waiting s' ∧ cancelled s' = cancelled waiting ∧ callers s' !! 0%nat = Some (Returned "k1" r u) ∧
    trace s' = FetchEnded Hour (fetch public decode (DoFailed (EMsg "timeout"))) :: trace waiting.
Proof.
  apply (waiting_caller_returns parse sigs verify id public decode waiting 0 "k1" "k1" "k1" [] 0 (DoFailed (EMsg "timeout")));
    [exact waiting_reachable|reflexivity].
Defined.
End Toy.
