(* ===== verification/Utf8.v ===== *)
(** * UTF-8

    Package [unicode/utf8] as the sources use it: decoding a string into its
    runes, which fails on invalid UTF-8 as [utf8.ValidString] does, and encoding
    a rune. *)

From S2P Require Import Prelude.
From S2P Require Import GoStrings.
From S2P Require Import GoStd.

(** A byte [10xxxxxx] within the bounds the lead byte allows, and its payload. *)
Definition cont (lo hi : Z) (c : ascii) : bool := (lo <=? byte_val c) && (byte_val c <=? hi).
Definition payload (c : ascii) : Z := Z.land (byte_val c) 63.

(** The bounds of the second byte of a three-byte and a four-byte sequence. *)
Definition lo3 (a : Z) : Z := if a =? 0xE0 then 0xA0 else 0x80.
Definition hi3 (a : Z) : Z := if a =? 0xED then 0x9F else 0xBF.
Definition lo4 (a : Z) : Z := if a =? 0xF0 then 0x90 else 0x80.
Definition hi4 (a : Z) : Z := if a =? 0xF4 then 0x8F else 0xBF.

(** The runes of a string, [None] when it is not valid UTF-8. *)
Fixpoint runes (s : string) : option (list Z) :=
  match s with
  | EmptyString => Some []
  | String a s1 =>
      let x := byte_val a in
      if x <? 0x80 then cons x <$> runes s1 else
      match s1 with
      | EmptyString => None
      | String b s2 =>
          if (0xC2 <=? x) && (x <=? 0xDF) then
            if cont 0x80 0xBF b then cons (Z.shiftl (x - 0xC0) 6 + payload b) <$> runes s2 else None
          else
          match s2 with
          | EmptyString => None
          | String c s3 =>
              if (0xE0 <=? x) && (x <=? 0xEF) then
                if cont (lo3 x) (hi3 x) b && cont 0x80 0xBF c
                then cons (Z.shiftl (x - 0xE0) 12 + Z.shiftl (payload b) 6 + payload c) <$> runes s3 else None
              else
              match s3 with
              | EmptyString => None
              | String d s4 =>
                  if (0xF0 <=? x) && (x <=? 0xF4) && cont (lo4 x) (hi4 x) b && cont 0x80 0xBF c && cont 0x80 0xBF d
                  then cons (Z.shiftl (x - 0xF0) 18 + Z.shiftl (payload b) 12 + Z.shiftl (payload c) 6 + payload d)
                         <$> runes s4
                  else None
              end
          end
      end
  end.

Definition ValidString (s : string) : bool := bool_decide (is_Some (runes s)).

(** ** Concatenation *)

Lemma runes_app s t rs : runes s = Some rs → runes (s +:+ t) = app rs <$> runes t.
Proof.
  revert rs. induction s as [s IH] using (induction_ltof1 _ String.length). unfold ltof in IH. intros rs.
  assert (Hid : ∀ o : option (list Z), app [] <$> o = o) by (by intros []).
  destruct s as [|a s1]; [intros [= <-]; by rewrite Hid|].
  rewrite app_cons. cbn [runes].
  assert (step : ∀ x s', (String.length s' < String.length (String a s1))%nat →
    cons x <$> runes s' = Some rs → cons x <$> runes (s' +:+ t) = app rs <$> runes t).
  { intros x s' Hl E. destruct (runes s') as [r|] eqn:Er; [|done]. injection E as <-.
    rewrite (IH s' Hl r Er). by destruct (runes t). }
  destruct (byte_val a <? 0x80); [apply step; cbn; lia|].
  destruct s1 as [|b s2]; [done|]. rewrite app_cons.
  destruct ((_ <=? _) && _); [destruct (cont _ _ b); [apply step; cbn; lia|done]|].
  destruct s2 as [|c s3]; [done|]. rewrite app_cons.
  destruct ((_ <=? _) && _); [destruct (cont _ _ b && _); [apply step; cbn; lia|done]|].
  destruct s3 as [|d s4]; [done|]. rewrite app_cons.
  destruct (_ && cont 0x80 0xBF d); [apply step; cbn; lia|done].
Qed.

(** A byte below 0x80 is a rune of its own: what comes before and after it is valid
    on its own. *)
Lemma runes_split s c t rs : byte_val c < 0x80 → runes (s +:+ String c t) = Some rs →
  ∃ r1 r2, runes s = Some r1 ∧ runes t = Some r2 ∧ rs = r1 ++ byte_val c :: r2.
Proof.
  intros Hc. revert rs. induction s as [s IH] using (induction_ltof1 _ String.length). unfold ltof in IH. intros rs.
  assert (Hcont : ∀ lo hi, 0x80 ≤ lo → cont lo hi c = false) by (intros; unfold cont; lia).
  destruct s as [|a s1].
  { rewrite app_nil_l. cbn [runes]. assert (byte_val c <? 0x80 = true) as -> by lia.
    destruct (runes t) as [r|]; [|done]. intros [= <-]. by exists [], r. }
  rewrite app_cons. cbn [runes].
  assert (step : ∀ x s', (String.length s' < String.length (String a s1))%nat →
    cons x <$> runes (s' +:+ String c t) = Some rs →
    ∃ r1 r2, cons x <$> runes s' = Some r1 ∧ runes t = Some r2 ∧ rs = r1 ++ byte_val c :: r2).
  { intros x s' Hl E. destruct (runes (s' +:+ _)) as [r|] eqn:Er; [|done]. injection E as <-.
    destruct (IH s' Hl r Er) as (r1 & r2 & -> & -> & ->). by exists (x :: r1), r2. }
  assert (Hlo3 : 0x80 ≤ lo3 (byte_val a)) by (unfold lo3; case_match; lia).
  assert (Hlo4 : 0x80 ≤ lo4 (byte_val a)) by (unfold lo4; case_match; lia).
  destruct (byte_val a <? 0x80); [apply step; cbn; lia|].
  destruct s1 as [|b s2]; [rewrite app_nil_l|rewrite app_cons].
  { rewrite !Hcont by done. rewrite andb_false_r. by repeat case_step. }
  destruct ((0xC2 <=? _) && _); [destruct (cont _ _ b); [apply step; cbn; lia|done]|].
  destruct s2 as [|d s3]; [rewrite app_nil_l|rewrite app_cons].
  { rewrite !Hcont by done. rewrite !andb_false_r. by repeat case_step. }
  destruct ((0xE0 <=? _) && _); [destruct (cont _ _ b && _); [apply step; cbn; lia|done]|].
  destruct s3 as [|e s4]; [rewrite app_nil_l|rewrite app_cons].
  { rewrite !Hcont by done. rewrite !andb_false_r. by repeat case_step. }
  destruct (_ && cont 0x80 0xBF e); [apply step; cbn; lia|done].
Qed.

(** ** The first rune *)

(** The width of the first rune, 0 when the string does not start with a valid one:
    [utf8.DecodeRuneInString], whose answer for an invalid byte is the replacement
    character with width 1. *)
Definition width (s : string) : nat :=
  match s with
  | EmptyString => 0
  | String a s1 =>
      let x := byte_val a in
      if x <? 0x80 then 1 else
      match s1 with
      | EmptyString => 0
      | String b s2 =>
          if (0xC2 <=? x) && (x <=? 0xDF) then if cont 0x80 0xBF b then 2 else 0
          else
          match s2 with
          | EmptyString => 0
          | String c s3 =>
              if (0xE0 <=? x) && (x <=? 0xEF) then if cont (lo3 x) (hi3 x) b && cont 0x80 0xBF c then 3 else 0
              else
              match s3 with
              | EmptyString => 0
              | String d s4 =>
                  if (0xF0 <=? x) && (x <=? 0xF4) && cont (lo4 x) (hi4 x) b && cont 0x80 0xBF c && cont 0x80 0xBF d
                  then 4 else 0
              end
          end
      end
  end.

(** [utf8.AppendRune]: three bytes of the replacement character for a rune that has
    no encoding. *)
Definition rune_byte (x : Z) : ascii := byte_of (Z.to_N x).
Definition tail_byte (x : Z) (shift : Z) : ascii := rune_byte (0x80 + Z.land (Z.shiftr x shift) 63).

Definition AppendRune (r : Z) : string :=
  if (0 <=? r) && (r <? 0x80) then String (rune_byte r) EmptyString
  else if (0x80 <=? r) && (r <? 0x800) then String (rune_byte (0xC0 + Z.shiftr r 6)) (String (tail_byte r 0) EmptyString)
  else if (0x800 <=? r) && (r <? 0x10000) && negb ((0xD800 <=? r) && (r <=? 0xDFFF)) then
    String (rune_byte (0xE0 + Z.shiftr r 12)) (String (tail_byte r 6) (String (tail_byte r 0) EmptyString))
  else if (0x10000 <=? r) && (r <=? 0x10FFFF) then
    String (rune_byte (0xF0 + Z.shiftr r 18))
      (String (tail_byte r 12) (String (tail_byte r 6) (String (tail_byte r 0) EmptyString)))
  else String (byte_of 0xEF) (String (byte_of 0xBF) (String (byte_of 0xBD) EmptyString)).

Definition replacement : string := AppendRune 0xFFFD.

Lemma valid_width s : ValidString s = true → s ≠ EmptyString →
  (0 < width s)%nat ∧ (width s ≤ String.length s)%nat ∧ ValidString (drop_str (width s) s) = true.
Proof.
  unfold ValidString. rewrite !bool_decide_eq_true. intros [rs H] Hne. destruct s as [|a s1]; [done|].
  cbn [runes width] in *.
  assert (Hf : ∀ x (t : string), cons x <$> runes t = Some rs → is_Some (runes t)) by (intros x t E; destruct (runes t); [by eexists|done]).
  destruct (byte_val a <? 0x80); [apply Hf in H; split_and!; [lia|cbn; lia|done]|].
  destruct s1 as [|b s2]; [done|].
  destruct ((0xC2 <=? _) && _); [destruct (cont _ _ b); [|done]; apply Hf in H; split_and!; [lia|cbn; lia|done]|].
  destruct s2 as [|c s3]; [done|].
  destruct ((0xE0 <=? _) && _); [destruct (cont _ _ b && _); [|done]; apply Hf in H; split_and!; [lia|cbn; lia|done]|].
  destruct s3 as [|d s4]; [done|].
  destruct (_ && cont 0x80 0xBF d); [|done]. apply Hf in H. split_and!; [lia|cbn; lia|done].
Qed.

(** The bytes of a rune beyond ASCII are all beyond ASCII. *)
Lemma width_bytes s : (1 < width s)%nat → all_bytes (λ c, 0x80 <=? byte_val c) (take_str (width s) s) = true.
Proof.
  destruct s as [|a s1]; [cbn; lia|]. cbn [width].
  assert (Hc : ∀ lo hi c, 0x80 ≤ lo → cont lo hi c = true → 0x80 <=? byte_val c = true) by (unfold cont; lia).
  assert (Hlo3 : 0x80 ≤ lo3 (byte_val a)) by (unfold lo3; case_match; lia).
  assert (Hlo4 : 0x80 ≤ lo4 (byte_val a)) by (unfold lo4; case_match; lia).
  destruct (byte_val a <? 0x80) eqn:Ha; [lia|]. assert (0x80 <=? byte_val a = true) as Ha' by lia.
  repeat (case_step; try lia); intros _; bsimpl; cbn [take_str all_bytes]; rewrite Ha';
    repeat (erewrite Hc; [|..|eassumption]; [|done]); done.
Qed.
