(* ===== verification/Json.v ===== *)
(** * JSON

    Package [encoding/json] as the sources use it: the values a text decodes to, the
    scanner that reads a value from a text, the encoder that writes one, the decoding
    of a value into a Go variable, and the proof that a value that was written is
    read back. *)

From S2P Require Import Prelude GoStrings GoStd Utf8.

(** ** Values *)

Inductive json :=
| JNull | JBool (b : bool) | JNumber (literal : string) | JString (s : string)
| JArray (l : list json) | JObject (fields : list (string * json)).

(** ** encoding/json: decoding a value into a Go variable *)

(** A Go string variable holding [old]; [null] leaves it. *)
Definition decode_string (old : string) (j : json) : res string :=
  match j with
  | JString s => Ok s
  | JNull => Ok old
  | _ => Err (EMsg "json: cannot unmarshal into Go value of type string")
  end.

Fixpoint decode_strings (l : list json) : res (list string) :=
  match l with
  | [] => Ok []
  | j :: l =>
      match decode_string "" j, decode_strings l with
      | Ok s, Ok ss => Ok (s :: ss)
      | Err e, _ => Err e
      | _, Err e => Err e
      end
  end.

(** A [[]string] variable. *)
Definition decode_slice (j : json) : res (list string) :=
  match j with
  | JArray l => decode_strings l
  | JNull => Ok []
  | _ => Err (EMsg "json: cannot unmarshal into Go value of type []string")
  end.

(** Field names match up to Unicode simple case folding: ASCII letters, and the long s
    and the Kelvin sign, which fold to ASCII. *)
Fixpoint fold_name (s : string) : string :=
  match s with
  | String "197"%char (String "191"%char s) => String "S" (fold_name s)
  | String "226"%char (String "132"%char (String "170"%char s)) => String "K" (fold_name s)
  | String c s => String (if in_range "a" "z" c then Ascii.ascii_of_N (Ascii.N_of_ascii c - 32) else c) (fold_name s)
  | EmptyString => EmptyString
  end.

Definition is_field (name key : string) : bool := String.eqb (fold_name name) (fold_name key).

(** A struct variable holding [old]: the fields of the object in order, each decoded by
    [set]; [null] leaves the struct. *)
Fixpoint decode_fields {A} (set : A → string → json → res A) (old : A) (fields : list (string * json)) : res A :=
  match fields with
  | [] => Ok old
  | (k, j) :: fields =>
      match set old k j with
      | Ok a => decode_fields set a fields
      | Err e => Err e
      end
  end.

Definition decode_struct {A} (set : A → string → json → res A) (old : A) (j : json) : res A :=
  match j with
  | JObject fields => decode_fields set old fields
  | JNull => Ok old
  | _ => Err (EMsg "json: cannot unmarshal into Go value of a struct type")
  end.

(** A [*int] variable holding [old]. *)
Definition decode_int_ptr (old : option Z) (j : json) : res (option Z) :=
  match j with
  | JNull => Ok None
  | JNumber n => match ParseInt n with
                 | Some z => Ok (Some z)
                 | None => Err (EMsg "json: cannot unmarshal number into Go value of type int")
                 end
  | _ => Err (EMsg "json: cannot unmarshal into Go value of type int")
  end.

(** An [int] variable holding [old]. *)
Definition decode_int (old : Z) (j : json) : res Z :=
  match j with
  | JNull => Ok old
  | JNumber n => match ParseInt n with
                 | Some z => Ok z
                 | None => Err (EMsg "json: cannot unmarshal number into Go value of type int")
                 end
  | _ => Err (EMsg "json: cannot unmarshal into Go value of type int")
  end.

(** ** Reading a value from a text *)

Definition quote : ascii := ascii_of_nat 34.
Definition rsolidus : ascii := ascii_of_nat 92.

Definition is_json_space (c : ascii) : bool :=
  let n := byte_val c in (n =? 32) || (n =? 9) || (n =? 10) || (n =? 13).

Fixpoint skip_space (s : string) : string :=
  match s with
  | String c s' => if is_json_space c then skip_space s' else s
  | EmptyString => s
  end.

(** A byte prepended to what a string literal holds. *)
Definition prepend (t : string) (r : option (string * string)) : option (string * string) :=
  match r with Some (s, rest) => Some (t +:+ s, rest) | None => None end.

Definition hex_val (c : ascii) : option Z :=
  let n := byte_val c in
  if in_range "0" "9" c then Some (n - 48)
  else if in_range "a" "f" c then Some (n - 87)
  else if in_range "A" "F" c then Some (n - 55)
  else None.

(** The four digits after [\u]. *)
Definition hex4 (a b c d : ascii) : option Z :=
  match hex_val a, hex_val b, hex_val c, hex_val d with
  | Some a, Some b, Some c, Some d => Some (((a * 16 + b) * 16 + c) * 16 + d)
  | _, _, _, _ => None
  end.

Definition is_surrogate (r : Z) : bool := (0xD800 <=? r) && (r <=? 0xDFFF).

(** [utf16.DecodeRune] of the pair; [None] for its replacement character. *)
Definition surrogate_pair (r1 r2 : Z) : option Z :=
  if (0xD800 <=? r1) && (r1 <? 0xDC00) && (0xDC00 <=? r2) && (r2 <? 0xE000)
  then Some ((r1 - 0xD800) * 0x400 + (r2 - 0xDC00) + 0x10000) else None.

(** The escape of one letter. *)
Definition simple_escape (c : ascii) : option ascii :=
  if Ascii.eqb c quote || Ascii.eqb c rsolidus || Ascii.eqb c "/" then Some c
  else if Ascii.eqb c "b" then Some (ascii_of_nat 8)
  else if Ascii.eqb c "f" then Some (ascii_of_nat 12)
  else if Ascii.eqb c "n" then Some (ascii_of_nat 10)
  else if Ascii.eqb c "r" then Some (ascii_of_nat 13)
  else if Ascii.eqb c "t" then Some (ascii_of_nat 9)
  else None.

(** The rest of a string literal: what it denotes and the text after its closing
    quote. [copy] counts the remaining bytes of a rune that is copied. Bytes that are
    not UTF-8 become the replacement character, as does a lone surrogate escape. *)
Fixpoint read_string (copy : nat) (s : string) {struct s} : option (string * string) :=
  match s with
  | EmptyString => None
  | String c s1 =>
      match copy with
      | S k => prepend (String c EmptyString) (read_string k s1)
      | O =>
          if Ascii.eqb c quote then Some (EmptyString, s1)
          else if byte_val c <? 32 then None
          else if Ascii.eqb c rsolidus then
            match s1 with
            | EmptyString => None
            | String e s2 =>
                if Ascii.eqb e "u" then
                  match s2 with
                  | String h1 (String h2 (String h3 (String h4 s3))) =>
                      match hex4 h1 h2 h3 h4 with
                      | None => None
                      | Some r =>
                          if is_surrogate r then
                            match s3 with
                            | String b (String u (String g1 (String g2 (String g3 (String g4 s4))))) =>
                                if Ascii.eqb b rsolidus && Ascii.eqb u "u" then
                                  match hex4 g1 g2 g3 g4 with
                                  | Some r2 =>
                                      match surrogate_pair r r2 with
                                      | Some rune => prepend (AppendRune rune) (read_string 0 s4)
                                      | None => prepend replacement (read_string 0 s3)
                                      end
                                  | None => prepend replacement (read_string 0 s3)
                                  end
                                else prepend replacement (read_string 0 s3)
                            | _ => prepend replacement (read_string 0 s3)
                            end
                          else prepend (AppendRune r) (read_string 0 s3)
                      end
                  | _ => None
                  end
                else match simple_escape e with
                     | Some x => prepend (String x EmptyString) (read_string 0 s2)
                     | None => None
                     end
            end
          else match width s with
               | O => prepend replacement (read_string 0 s1)
               | S k => prepend (String c EmptyString) (read_string k s1)
               end
      end
  end.

(** The text after the byte [c], when it is next. *)
Definition expect (c : ascii) (s : string) : option string :=
  match s with
  | String d s' => if Ascii.eqb d c then Some s' else None
  | EmptyString => None
  end.

(** A run of digits. *)
Fixpoint read_digits (s : string) : string * string :=
  match s with
  | String c s' => if in_range "0" "9" c then let '(ds, rest) := read_digits s' in (String c ds, rest) else (EmptyString, s)
  | EmptyString => (EmptyString, EmptyString)
  end.

Definition digits1 (s : string) : option (string * string) :=
  match read_digits s with (EmptyString, _) => None | r => Some r end.

(** The integer part, without a leading zero. *)
Definition read_int (s : string) : option (string * string) :=
  match expect "0" s with
  | Some rest => Some ("0", rest)
  | None => digits1 s
  end.

Definition read_frac (s : string) : option (string * string) :=
  match expect "." s with
  | Some rest => match digits1 rest with Some (ds, rest) => Some (String "." ds, rest) | None => None end
  | None => Some (EmptyString, s)
  end.

Definition read_exp (s : string) : option (string * string) :=
  match s with
  | String e rest =>
      if Ascii.eqb e "e" || Ascii.eqb e "E" then
        let '(sign, rest) := match rest with
                             | String c r => if Ascii.eqb c "+" || Ascii.eqb c "-" then (String c EmptyString, r) else (EmptyString, rest)
                             | EmptyString => (EmptyString, rest)
                             end in
        match digits1 rest with Some (ds, rest) => Some (String e (sign +:+ ds), rest) | None => None end
      else Some (EmptyString, s)
  | EmptyString => Some (EmptyString, s)
  end.

Definition read_number (s : string) : option (string * string) :=
  let '(sign, s) := match expect "-" s with Some r => ("-", r) | None => ("", s) end in
  match read_int s with
  | None => None
  | Some (i, s) =>
      match read_frac s with
      | None => None
      | Some (f, s) =>
          match read_exp s with
          | None => None
          | Some (e, s) => Some (sign +:+ i +:+ f +:+ e, s)
          end
      end
  end.

(** The scanner refuses deeper nesting. *)
Definition maxNestingDepth : nat := 100 * 100.

(** One value at the start of [s], and the text after it. Every call consumes a
    byte, so a fuel of one more than the bytes of the text is enough. *)
Fixpoint read_value (fuel : nat) (depth : nat) (s : string) : option (json * string) :=
  match fuel with
  | O => None
  | S fuel =>
      match skip_space s with
      | EmptyString => None
      | String c s1 =>
          if Ascii.eqb c "{" then
            if (maxNestingDepth <=? depth)%nat then None
            else match expect "}" (skip_space s1) with
                 | Some s2 => Some (JObject [], s2)
                 | None => match read_members fuel (S depth) s1 with Some (fs, r) => Some (JObject fs, r) | None => None end
                 end
          else if Ascii.eqb c "[" then
            if (maxNestingDepth <=? depth)%nat then None
            else match expect "]" (skip_space s1) with
                 | Some s2 => Some (JArray [], s2)
                 | None => match read_elements fuel (S depth) s1 with Some (l, r) => Some (JArray l, r) | None => None end
                 end
          else if Ascii.eqb c quote then
            match read_string 0 s1 with Some (t, r) => Some (JString t, r) | None => None end
          else if Ascii.eqb c "-" || in_range "0" "9" c then
            match read_number (String c s1) with Some (n, r) => Some (JNumber n, r) | None => None end
          else match CutPrefix (String c s1) "null" with
          | Some r => Some (JNull, r)
          | None =>
              match CutPrefix (String c s1) "true" with
              | Some r => Some (JBool true, r)
              | None => match CutPrefix (String c s1) "false" with Some r => Some (JBool false, r) | None => None end
              end
          end
      end
  end
with read_elements (fuel : nat) (depth : nat) (s : string) : option (list json * string) :=
  match fuel with
  | O => None
  | S fuel =>
      match read_value fuel depth s with
      | None => None
      | Some (j, r) =>
          match expect "," (skip_space r) with
          | Some r => match read_elements fuel depth r with Some (l, r) => Some (j :: l, r) | None => None end
          | None => match expect "]" (skip_space r) with Some r => Some ([j], r) | None => None end
          end
      end
  end
with read_members (fuel : nat) (depth : nat) (s : string) : option (list (string * json) * string) :=
  match fuel with
  | O => None
  | S fuel =>
      match expect quote (skip_space s) with
      | None => None
      | Some s1 =>
          match read_string 0 s1 with
          | None => None
          | Some (k, r) =>
              match expect ":" (skip_space r) with
              | None => None
              | Some r =>
                  match read_value fuel depth r with
                  | None => None
                  | Some (j, r) =>
                      match expect "," (skip_space r) with
                      | Some r => match read_members fuel depth r with Some (l, r) => Some ((k, j) :: l, r) | None => None end
                      | None => match expect "}" (skip_space r) with Some r => Some ([(k, j)], r) | None => None end
                      end
                  end
              end
          end
      end
  end.

Definition syntaxError : gerr := EMsg "invalid character or unexpected end of JSON input".

(** [json.NewDecoder(r).Decode]: the first value of the text. *)
Definition DecodeFirst (text : string) : res json :=
  match read_value (S (String.length text)) 0 text with
  | Some (j, _) => Ok j
  | None => Err syntaxError
  end.

(** [json.Unmarshal]: the text holds one value and white space. *)
Definition Unmarshal (text : string) : res json :=
  match read_value (S (String.length text)) 0 text with
  | Some (j, rest) => match skip_space rest with EmptyString => Ok j | _ => Err syntaxError end
  | None => Err syntaxError
  end.

(** ** Writing a value *)

Definition escape_u (n : Z) : string :=
  String rsolidus (String "u" (String "0" (String "0" (String (hex_digit (Z.shiftr n 4)) (String (hex_digit (Z.land n 15)) EmptyString))))).

(** The bytes of an ASCII character in a literal; [<], [>] and [&] are escaped. *)
Definition quote_byte (c : ascii) : string :=
  if Ascii.eqb c quote || Ascii.eqb c rsolidus then String rsolidus (String c EmptyString)
  else if byte_val c =? 8 then String rsolidus "b"
  else if byte_val c =? 12 then String rsolidus "f"
  else if byte_val c =? 10 then String rsolidus "n"
  else if byte_val c =? 13 then String rsolidus "r"
  else if byte_val c =? 9 then String rsolidus "t"
  else if (byte_val c <? 32) || ContainsByte "<>&" c then escape_u (byte_val c)
  else String c EmptyString.

(** U+2028 and U+2029. *)
Definition line_separator (s : string) : option string :=
  match s with
  | String a (String b (String c _)) =>
      if (byte_val a =? 0xE2) && (byte_val b =? 0x80) && ((byte_val c =? 0xA8) || (byte_val c =? 0xA9))
      then Some (String rsolidus ("u202" +:+ String (hex_digit (Z.land (byte_val c) 15)) EmptyString)) else None
  | _ => None
  end.

(** The body of a literal. [copy] counts the remaining bytes of a rune that is
    copied, [skip] those of one that was escaped. *)
Fixpoint quote_body (copy skip : nat) (s : string) {struct s} : string :=
  match s with
  | EmptyString => EmptyString
  | String c s1 =>
      match skip, copy with
      | S k, _ => quote_body 0 k s1
      | O, S k => String c (quote_body k 0 s1)
      | O, O =>
          if byte_val c <? 0x80 then quote_byte c +:+ quote_body 0 0 s1
          else match width s with
               | O => String rsolidus "ufffd" +:+ quote_body 0 0 s1
               | S k => match line_separator s with
                        | Some t => t +:+ quote_body 0 k s1
                        | None => String c (quote_body k 0 s1)
                        end
               end
      end
  end.

Definition quote_string (s : string) : string :=
  String quote (quote_body 0 0 s +:+ String quote EmptyString).

Fixpoint print (j : json) : string :=
  match j with
  | JNull => "null"
  | JBool true => "true"
  | JBool false => "false"
  | JNumber n => n
  | JString s => quote_string s
  | JArray l => "[" +:+ Join (map print l) "," +:+ "]"
  | JObject fs => "{" +:+ Join (map (λ f, quote_string f.1 +:+ ":" +:+ print f.2) fs) "," +:+ "}"
  end.

(** [json.NewEncoder(w).Encode]: the value and a line break. *)
Definition Encode (j : json) : string := print j +:+ String (ascii_of_nat 10) EmptyString.

(** ** A value that was written is read back *)

Lemma prepend_app t u r : prepend t (prepend u r) = prepend (t +:+ u) r.
Proof. destruct r as [[s rest]|]; [|done]. cbn. by rewrite str_app_assoc. Qed.

Lemma read_quote_byte c t : byte_val c < 0x80 → read_string 0 (quote_byte c +:+ t) = prepend (String c EmptyString) (read_string 0 t).
Proof. destruct c as [[] [] [] [] [] [] [] []]; intros H; first [vm_compute in H; discriminate H | reflexivity]. Qed.

Lemma read_copy k s t : (k ≤ String.length s)%nat →
  read_string k (take_str k s +:+ t) = prepend (take_str k s) (read_string 0 t).
Proof.
  revert s. induction k as [|k IH]; intros s Hk.
  { cbn [take_str]. rewrite app_nil_l. by destruct (read_string 0 t) as [[]|]. }
  destruct s as [|c s]; [cbn in Hk; lia|]. cbn [take_str]. rewrite app_cons. cbn [read_string].
  rewrite IH by (cbn in Hk; lia). by rewrite prepend_app.
Qed.

Lemma quote_copy k s : (k ≤ String.length s)%nat → quote_body k 0 s = take_str k s +:+ quote_body 0 0 (drop_str k s).
Proof.
  revert s. induction k as [|k IH]; intros s Hk; [done|]. destruct s as [|c s]; [cbn in Hk; lia|].
  cbn [quote_body take_str drop_str]. rewrite IH by (cbn in Hk; lia). done.
Qed.

Lemma quote_skip k s : (k ≤ String.length s)%nat → quote_body 0 k s = quote_body 0 0 (drop_str k s).
Proof.
  revert s. induction k as [|k IH]; intros s Hk; [done|]. destruct s as [|c s]; [cbn in Hk; lia|].
  cbn [quote_body drop_str]. apply IH. cbn in Hk; lia.
Qed.

(** The width of a rune does not depend on what follows it. *)
Lemma width_take s t : (0 < width s)%nat → width (take_str (width s) s +:+ t) = width s.
Proof.
  destruct s as [|a s1]; [cbn; lia|]. cbn [width].
  destruct (byte_val a <? 0x80) eqn:Ha; [intros _; cbn [take_str]; rewrite app_cons; cbn [width]; by rewrite Ha|].
  destruct s1 as [|b s2]; [lia|].
  destruct ((0xC2 <=? _) && _) eqn:E2.
  { destruct (cont _ _ b) eqn:Hb; [|lia]. intros _. cbn [take_str]. rewrite !app_cons. cbn [width]. by rewrite Ha, E2, Hb. }
  destruct s2 as [|c s3]; [lia|].
  destruct ((0xE0 <=? _) && _) eqn:E3.
  { destruct (cont _ _ b && _) eqn:Hb; [|lia]. intros _. cbn [take_str]. rewrite !app_cons. cbn [width]. by rewrite Ha, E2, E3, Hb. }
  destruct s3 as [|d s4]; [lia|].
  destruct (_ && cont 0x80 0xBF d) eqn:Hb; [|lia]. intros _. cbn [take_str]. rewrite !app_cons. cbn [width].
  by rewrite Ha, E2, E3, Hb.
Qed.

Lemma line_separator_read s t : line_separator s = Some t →
  width s = 3%nat ∧ ∀ u, read_string 0 (t +:+ u) = prepend (take_str 3 s) (read_string 0 u).
Proof.
  destruct s as [|a [|b [|c s]]]; try done. cbn [line_separator].
  destruct (_ && _) eqn:E; [|done]. intros [= <-]. bsimpl.
  assert (a = byte_of 0xE2 ∧ b = byte_of 0x80 ∧ (c = byte_of 0xA8 ∨ c = byte_of 0xA9)) as (-> & -> & Hc).
  { assert (∀ x n, byte_val x =? Z.of_N n = true → x = byte_of n) as Hb.
    { intros x n Hx. apply Z.eqb_eq in Hx. unfold byte_val in Hx. apply N2Z.inj in Hx. rewrite <- Hx.
      unfold byte_of. by rewrite Ascii.ascii_N_embedding. }
    split_and!; [by apply Hb|by apply Hb|]. destruct H0 as [H0|H0]; [left|right]; by apply Hb. }
  destruct Hc as [-> | ->]; by split.
Qed.

Lemma read_quote_body n s rest : (String.length s ≤ n)%nat → ValidString s = true →
  read_string 0 (quote_body 0 0 s +:+ String quote rest) = Some (s, rest).
Proof.
  revert s. induction n as [|n IH]; intros s Hn Hv.
  { assert (s = EmptyString) as -> by (apply str_length_0; lia). reflexivity. }
  destruct s as [|c s1]; [reflexivity|].
  destruct (valid_width (String c s1) Hv) as (Hw & Hle & Hv'); [done|]. cbn [quote_body].
  assert (IH' : read_string 0 (quote_body 0 0 (drop_str (width (String c s1)) (String c s1)) +:+ String quote rest) =
    Some (drop_str (width (String c s1)) (String c s1), rest)).
  { apply IH; [|done]. destruct (width (String c s1)) as [|k] eqn:Ek; [lia|]. cbn [drop_str].
    pose proof (f_equal String.length (take_drop_str k s1)) as Hl. rewrite str_length_app in Hl. cbn in Hn. lia. }
  destruct (byte_val c <? 0x80) eqn:Hc.
  - assert (width (String c s1) = 1%nat) as Hw1 by (cbn [width]; by rewrite Hc). rewrite Hw1 in IH'. cbn [drop_str] in IH'.
    rewrite str_app_assoc, read_quote_byte, IH' by lia. done.
  - destruct (width (String c s1)) as [|k] eqn:Ek; [lia|]. cbn [drop_str] in *. cbn [String.length] in Hle.
    destruct (line_separator (String c s1)) as [t|] eqn:El.
    + destruct (line_separator_read _ t El) as [Hw3 Hr]. rewrite Ek in Hw3. injection Hw3 as ->.
      rewrite quote_skip by lia. rewrite str_app_assoc, Hr, IH'. cbn. do 2 f_equal.
      destruct s1 as [|x [|y s1]]; [cbn in Hle; lia..|]. done.
    + rewrite quote_copy by lia. rewrite app_cons, str_app_assoc.
      set (u := quote_body 0 0 (drop_str k s1) +:+ String quote rest) in *.
      cbn [read_string].
      assert (Ascii.eqb c quote = false ∧ byte_val c <? 32 = false ∧ Ascii.eqb c rsolidus = false) as (-> & -> & ->).
      { split_and!; [|lia|]; apply not_true_is_false; intros ->%Ascii.eqb_eq; done. }
      assert (width (String c (take_str k s1 +:+ u)) = S k) as ->.
      { pose proof (width_take (String c s1) u) as Hwt. rewrite Ek in Hwt. cbn [take_str] in Hwt. rewrite app_cons in Hwt.
        apply Hwt. lia. }
      rewrite read_copy, prepend_app, IH' by lia. cbn [prepend]. by rewrite str_app_assoc, take_drop_str.
Qed.

Lemma read_quoted s rest : ValidString s = true →
  read_string 0 (quote_body 0 0 s +:+ String quote rest) = Some (s, rest).
Proof. by apply (read_quote_body (String.length s)). Qed.

(** *** Numbers *)

(** What ends a number: any byte that cannot continue one. *)
Definition delimited (rest : string) : bool :=
  match rest with
  | EmptyString => true
  | String c _ => negb (in_range "0" "9" c || Ascii.eqb c "." || Ascii.eqb c "e" || Ascii.eqb c "E")
  end.

Lemma digit_in_range d : 0 ≤ d ≤ 9 → in_range "0" "9" (digit d) = true.
Proof.
  intros H. unfold digit, in_range. rewrite Ascii.N_ascii_embedding by lia.
  change (N_of_ascii "0") with 48%N. change (N_of_ascii "9") with 57%N.
  apply andb_true_iff. split; apply N.leb_le; lia.
Qed.

Lemma digit_zero d : 0 ≤ d ≤ 9 → Ascii.eqb (digit d) "0" = (d =? 0).
Proof.
  intros H. destruct (Z.eqb_spec d 0) as [->|]; [done|]. apply Ascii.eqb_neq. intros E.
  apply (f_equal N_of_ascii) in E. unfold digit in E. rewrite Ascii.N_ascii_embedding in E by lia.
  change (N_of_ascii "0") with 48%N in E. lia.
Qed.

Lemma format_go_digits fuel n acc : 0 ≤ n → all_bytes (in_range "0" "9") acc = true →
  all_bytes (in_range "0" "9") (format_go fuel n acc) = true.
Proof.
  revert n acc. induction fuel as [|fuel IH]; intros n acc Hn Ha; [done|]. cbn [format_go].
  pose proof (Z.mod_pos_bound n 10 ltac:(lia)) as Hm.
  assert (all_bytes (in_range "0" "9") (String (digit (n mod 10)) acc) = true).
  { cbn [all_bytes]. rewrite digit_in_range by lia. done. }
  destruct (n / 10 =? 0); [done|]. apply IH; [|done]. apply Z.div_pos; lia.
Qed.

(** The first digit is zero only for the number zero. *)
Lemma format_go_leading fuel n acc : 0 ≤ n < 10 ^ Z.of_nat fuel → (0 < fuel)%nat →
  ∃ d t, format_go fuel n acc = String (digit d) t ∧ 0 ≤ d ≤ 9 ∧ (d = 0 → n = 0 ∧ t = acc).
Proof.
  revert n acc. induction fuel as [|fuel IH]; intros n acc Hn Hf; [lia|]. cbn [format_go].
  pose proof (Z.mod_pos_bound n 10 ltac:(lia)) as Hm. pose proof (Z.div_mod n 10 ltac:(lia)) as Hdm.
  destruct (Z.eqb_spec (n / 10) 0) as [E|E].
  - exists (n mod 10), acc. split_and!; [done|lia|lia|]. intros E0. split; [lia|done].
  - rewrite Nat2Z.inj_succ, Z.pow_succ_r in Hn by lia.
    assert (0 ≤ n / 10) by (apply Z.div_pos; lia).
    assert (n / 10 < 10 ^ Z.of_nat fuel) by (apply Z.div_lt_upper_bound; lia).
    destruct fuel as [|fuel]; [cbn in *; lia|].
    destruct (IH (n / 10) (String (digit (n mod 10)) acc)) as (d & t & -> & Hd & Hz); [lia|lia|].
    exists d, t. split_and!; [done|lia|lia|]. intros ->. destruct Hz; [done|lia].
Qed.

Lemma read_digits_all ds rest : all_bytes (in_range "0" "9") ds = true →
  match rest with String c _ => in_range "0" "9" c = false | EmptyString => True end →
  read_digits (ds +:+ rest) = (ds, rest).
Proof.
  induction ds as [|c ds IH]; intros Hd Hr.
  - rewrite app_nil_l. destruct rest as [|c rest]; [done|]. cbn [read_digits]. by rewrite Hr.
  - cbn [all_bytes] in Hd. apply andb_true_iff in Hd as [Hc Hd]. rewrite app_cons. cbn [read_digits]. by rewrite Hc, IH.
Qed.

Lemma delimited_spec rest : delimited rest = true →
  match rest with String c _ => in_range "0" "9" c = false | EmptyString => True end ∧
  expect "." rest = None ∧ read_exp rest = Some (EmptyString, rest).
Proof.
  destruct rest as [|c rest]; [done|]. cbn [delimited expect read_exp]. intros H. bsimpl.
  by repeat match goal with E : _ = false |- _ => rewrite E; clear E end.
Qed.

Lemma read_int_digits n rest : 0 ≤ n < 10 ^ 20 → delimited rest = true →
  read_int (format_go 20 n EmptyString +:+ rest) = Some (format_go 20 n EmptyString, rest).
Proof.
  intros Hn Hd. destruct (delimited_spec rest Hd) as (Hr & _).
  pose proof (format_go_digits 20 n EmptyString ltac:(lia) eq_refl) as Hall.
  destruct (format_go_leading 20 n EmptyString) as (d & t & E & Hdd & Hz); [done|lia|].
  unfold read_int. rewrite E in Hall |- *. rewrite app_cons. cbn [expect]. rewrite digit_zero by done.
  destruct (Z.eqb_spec d 0) as [->|].
  - destruct (Hz eq_refl) as [_ ->]. by rewrite app_nil_l.
  - rewrite <- app_cons. unfold digits1. by rewrite read_digits_all.
Qed.

Lemma read_FormatInt i rest : int64_min ≤ i ≤ int64_max → delimited rest = true →
  read_number (FormatInt i +:+ rest) = Some (FormatInt i, rest).
Proof.
  intros Hi Hd. destruct (delimited_spec rest Hd) as (_ & Hdot & Hexp).
  assert (int64_min = - 9223372036854775808) as Hmin by done.
  assert (int64_max = 9223372036854775807) as Hmax by done.
  unfold read_number, FormatInt. destruct (i <? 0) eqn:Ei.
  - rewrite app_cons. cbn [expect]. rewrite eqb_refl_ascii. rewrite read_int_digits by (done || lia).
    unfold read_frac. rewrite Hdot, Hexp. by rewrite !str_app_nil_r.
  - destruct (format_go_leading 20 i EmptyString) as (d & t & E & Hdd & _); [lia|lia|].
    assert (expect "-" (format_go 20 i EmptyString +:+ rest) = None) as ->.
    { rewrite E, app_cons. cbn [expect]. assert (Ascii.eqb (digit d) "-" = false) as ->; [|done].
      apply Ascii.eqb_neq. intros E'. pose proof (digit_in_range d Hdd) as Hr. by rewrite E' in Hr. }
    rewrite read_int_digits by (done || lia). unfold read_frac. rewrite Hdot, Hexp. by rewrite !str_app_nil_r.
Qed.

(** *** Values *)

(** A value as the programs write it: valid UTF-8 and 64-bit integers. *)
Fixpoint wf_json (j : json) : Prop :=
  match j with
  | JNull | JBool _ => True
  | JNumber n => ∃ i, int64_min ≤ i ≤ int64_max ∧ n = FormatInt i
  | JString s => ValidString s = true
  | JArray l => foldr (λ j P, wf_json j ∧ P) True l
  | JObject fs => foldr (λ f P, (ValidString f.1 = true ∧ wf_json f.2) ∧ P) True fs
  end.

(** How deep a value is nested, and the recursion that reads it. *)
Fixpoint nesting (j : json) : nat :=
  match j with
  | JArray l => S (foldr (λ j n, Nat.max (nesting j) n) 0%nat l)
  | JObject fs => S (foldr (λ f n, Nat.max (nesting f.2) n) 0%nat fs)
  | _ => 0%nat
  end.

Fixpoint need (j : json) : nat :=
  match j with
  | JArray l => S (foldr (λ j n, S (need j) + n)%nat 0%nat l)
  | JObject fs => S (foldr (λ f n, S (need f.2) + n)%nat 0%nat fs)
  | _ => 1%nat
  end.

Lemma need_pos j : (0 < need j)%nat.
Proof. destruct j; cbn; lia. Qed.

Lemma FormatInt_head i : int64_min ≤ i ≤ int64_max → ∃ c t, FormatInt i = String c t ∧ (c = "-"%char ∨ in_range "0" "9" c = true).
Proof.
  intros Hi. unfold FormatInt. destruct (i <? 0) eqn:E; [by eexists _, _; split; [done|left]|].
  destruct (format_go_head 20 i EmptyString) as (d & t & -> & Hd); [lia|lia|].
  eexists _, _. split; [done|]. right. by apply digit_in_range.
Qed.

(** What a printed value starts with. *)
Definition value_start (c : ascii) : Prop :=
  is_json_space c = false ∧ Ascii.eqb c "]" = false ∧ Ascii.eqb c "}" = false.

Lemma value_start_number c : c = "-"%char ∨ in_range "0" "9" c = true → value_start c.
Proof.
  intros [->|H]; [done|]. unfold value_start. split_and!; [|apply not_true_is_false; intros ->%Ascii.eqb_eq; done..].
  unfold in_range in H. change (N_of_ascii "0") with 48%N in H. change (N_of_ascii "9") with 57%N in H.
  apply andb_true_iff in H as [H1%N.leb_le H2%N.leb_le]. unfold is_json_space, byte_val.
  repeat (apply orb_false_iff; split); apply Z.eqb_neq; lia.
Qed.

Lemma print_start j : wf_json j → ∃ c t, print j = String c t ∧ value_start c.
Proof.
  destruct j as [|[]|n|s|l|fs]; cbn [print wf_json]; intros Hw; try (by eexists _, _).
  destruct Hw as (i & Hi & ->). destruct (FormatInt_head i Hi) as (c & t & -> & Hc). exists c, t. split; [done|].
  by apply value_start_number.
Qed.

Lemma skip_start c s : is_json_space c = false → skip_space (String c s) = String c s.
Proof. cbn [skip_space]. by intros ->. Qed.

(** *** The members of an array and of an object *)

Section Round.
Context (n : nat).
Context (IH : ∀ j, (need j ≤ n)%nat → wf_json j → ∀ fuel depth rest, (need j ≤ fuel)%nat →
  (depth + nesting j ≤ maxNestingDepth)%nat → delimited rest = true →
  read_value fuel depth (print j +:+ rest) = Some (j, rest)).

Lemma read_elements_print l : l ≠ [] → foldr (λ j P, wf_json j ∧ P) True l →
  (foldr (λ j n, S (need j) + n)%nat 0%nat l ≤ S n)%nat → ∀ fuel depth rest, (foldr (λ j n, S (need j) + n) 0%nat l ≤ fuel)%nat →
  (depth + foldr (λ j n, Nat.max (nesting j) n) 0%nat l ≤ maxNestingDepth)%nat →
  read_elements fuel depth (Join (map print l) "," +:+ String "]" rest) = Some (l, rest).
Proof.
  induction l as [|j l IHl]; [done|]. intros _ [Hj Hl] Hn fuel depth rest Hf Hd. cbn [foldr] in *.
  destruct fuel as [|fuel]; [lia|]. cbn [read_elements].
  destruct l as [|j' l].
  - cbn [map Join]. rewrite IH; [|lia|done|lia|lia|done]. cbn [skip_space]. cbn. done.
  - change (Join (map print (j :: j' :: l)) ",") with (print j +:+ String "," (Join (map print (j' :: l)) ",")).
    rewrite str_app_assoc, app_cons. rewrite IH; [|lia|done|lia|lia|done].
    rewrite skip_start by done. cbn [expect]. rewrite eqb_refl_ascii.
    rewrite IHl; [done|done|done|cbn [foldr] in *; lia|cbn [foldr] in *; lia|cbn [foldr] in *; lia].
Qed.

Lemma read_members_print fs : fs ≠ [] → foldr (λ f P, (ValidString f.1 = true ∧ wf_json f.2) ∧ P) True fs →
  (foldr (λ f n, S (need f.2) + n)%nat 0%nat fs ≤ S n)%nat → ∀ fuel depth rest, (foldr (λ f n, S (need f.2) + n) 0%nat fs ≤ fuel)%nat →
  (depth + foldr (λ f n, Nat.max (nesting f.2) n) 0%nat fs ≤ maxNestingDepth)%nat →
  read_members fuel depth (Join (map (λ f, quote_string f.1 +:+ ":" +:+ print f.2) fs) "," +:+ String "}" rest) = Some (fs, rest).
Proof.
  induction fs as [|[k j] fs IHl]; [done|]. intros _ [[Hk Hj] Hl] Hn fuel depth rest Hf Hd. cbn [foldr fst snd] in *.
  destruct fuel as [|fuel]; [lia|]. cbn [read_members].
  assert (Hmember : ∀ u, delimited u = true →
    match expect quote (skip_space ((quote_string k +:+ ":" +:+ print j) +:+ u)) with
    | None => None
    | Some s1 => match read_string 0 s1 with
      | None => None
      | Some (k, r) => match expect ":" (skip_space r) with
        | None => None
        | Some r => match read_value fuel depth r with Some (j, r) => Some (k, j, r) | None => None end
        end
      end
    end = Some (k, j, u)).
  { intros u Hu. unfold quote_string. rewrite !str_app_assoc, app_cons, skip_start by done. cbn [expect].
    rewrite eqb_refl_ascii, !str_app_assoc.
    change (String quote "" +:+ ?x) with (String quote x). rewrite read_quoted by done.
    change (":" +:+ ?x) with (String ":" x). rewrite skip_start by done. cbn [expect]. rewrite eqb_refl_ascii. rewrite IH; [done|lia|done|lia|lia|done]. }
  destruct fs as [|f fs].
  - cbn [map Join]. specialize (Hmember (String "}" rest) eq_refl). revert Hmember.
    destruct (expect quote _) as [s1|]; [|done]. destruct (read_string 0 s1) as [[k' r1]|]; [|done].
    destruct (expect ":" _) as [r2|]; [|done]. destruct (read_value fuel depth r2) as [[j' r3]|]; [|done].
    intros [= -> -> ->]. done.
  - set (u := Join (map (λ f, quote_string f.1 +:+ ":" +:+ print f.2) (f :: fs)) "," +:+ String "}" rest).
    assert (Join (map (λ f, quote_string f.1 +:+ ":" +:+ print f.2) ((k, j) :: f :: fs)) "," +:+ String "}" rest =
      (quote_string k +:+ ":" +:+ print j) +:+ String "," u) as -> by apply (str_app_assoc (quote_string k +:+ ":" +:+ print j)).
    specialize (Hmember (String "," u) eq_refl). revert Hmember.
    assert (Hrest : read_members fuel depth u = Some (f :: fs, rest)).
    { apply IHl; [done|done|cbn [foldr] in *; lia..]. }
    clearbody u. destruct (expect quote _) as [s1|]; [|done]. destruct (read_string 0 s1) as [[k' r1]|]; [|done].
    destruct (expect ":" _) as [r2|]; [|done]. destruct (read_value fuel depth r2) as [[j' r3]|]; [|done].
    intros [= -> -> ->]. rewrite skip_start by done. cbn [expect]. by rewrite eqb_refl_ascii, Hrest.
Qed.
End Round.

Lemma read_value_print n : ∀ j, (need j ≤ n)%nat → wf_json j → ∀ fuel depth rest, (need j ≤ fuel)%nat →
  (depth + nesting j ≤ maxNestingDepth)%nat → delimited rest = true →
  read_value fuel depth (print j +:+ rest) = Some (j, rest).
Proof.
  induction n as [|n IH]; intros j Hn; [pose proof (need_pos j); lia|]. intros Hw fuel depth rest Hf Hd Hr.
  pose proof (need_pos j) as Hp. destruct fuel as [|fuel]; [lia|].
  destruct (print_start j Hw) as (c & t & Ept & Hs & Hs1 & Hs2).
  cbn [read_value]. rewrite Ept, app_cons, skip_start by done.
  destruct j as [|[]|m|s|l|fs]; cbn [print] in Ept |- *.
  - injection Ept as <- <-. reflexivity.
  - injection Ept as <- <-. reflexivity.
  - injection Ept as <- <-. reflexivity.
  - destruct Hw as (i & Hi & ->). destruct (FormatInt_head i Hi) as (c' & t' & E & Hc).
    rewrite E in Ept. injection Ept as -> ->.
    assert (Ascii.eqb c "{" = false ∧ Ascii.eqb c "[" = false ∧ Ascii.eqb c quote = false ∧
      Ascii.eqb c "-" || in_range "0" "9" c = true) as (-> & -> & -> & ->).
    { destruct Hc as [->|Hc]; [done|]. rewrite Hc, orb_true_r.
      split_and!; try done; apply not_true_is_false; intros ->%Ascii.eqb_eq; done. }
    rewrite <- app_cons, <- E, read_FormatInt by done. done.
  - unfold quote_string in *. injection Ept as <- <-.
    change (Ascii.eqb quote "{") with false. change (Ascii.eqb quote "[") with false. rewrite eqb_refl_ascii.
    rewrite str_app_assoc, app_cons, app_nil_l, read_quoted by done. done.
  - injection Ept as <- <-. cbn [nesting need] in *.
    change (Ascii.eqb "[" "{") with false. rewrite eqb_refl_ascii.
    rewrite (proj2 (Nat.leb_gt maxNestingDepth depth)) by lia.
    rewrite app_nil_l, str_app_assoc.
    destruct l as [|j l]; [done|].
    destruct (print_start j) as (c' & t' & E' & Hc1 & Hc2 & _); [apply Hw|].
    assert (expect "]" (skip_space (Join (map print (j :: l)) "," +:+ "]" +:+ rest)) = None) as ->.
    { assert (∃ u, Join (map print (j :: l)) "," +:+ "]" +:+ rest = String c' u) as [u ->].
      { destruct l; cbn [map Join]; rewrite E'; eexists; rewrite ?app_cons; reflexivity. }
      rewrite skip_start by done. cbn [expect]. by rewrite Hc2. }
    change ("]" +:+ rest) with (String "]" rest).
    rewrite (read_elements_print n IH (j :: l)) by (done || lia). done.
  - injection Ept as <- <-. cbn [nesting need] in *. rewrite eqb_refl_ascii.
    rewrite (proj2 (Nat.leb_gt maxNestingDepth depth)) by lia.
    rewrite app_nil_l, str_app_assoc.
    destruct fs as [|[k j] fs]; [done|].
    assert (expect "}" (skip_space (Join (map (λ f, quote_string f.1 +:+ ":" +:+ print f.2) ((k, j) :: fs)) "," +:+ "}" +:+ rest)) = None) as ->.
    { destruct fs; cbn [map Join]; unfold quote_string; rewrite ?app_cons; cbn [fst]; rewrite ?app_cons, skip_start by done; reflexivity. }
    change ("}" +:+ rest) with (String "}" rest).
    rewrite (read_members_print n IH ((k, j) :: fs)) by (done || lia). done.
Qed.

Lemma Join_length {A} (f : A → string) (g : A → nat) l :
  (∀ x, x ∈ l → (g x ≤ String.length (f x))%nat) →
  (foldr (λ x n, S (g x) + n)%nat 0%nat l ≤ S (String.length (Join (map f l) ",")))%nat.
Proof.
  induction l as [|x l IH]; intros H; [cbn; lia|]. cbn [foldr]. pose proof (H x ltac:(left)).
  assert (∀ y, y ∈ l → (g y ≤ String.length (f y))%nat) as Hl by (intros y Hy; apply H; by right).
  specialize (IH Hl). destruct l as [|y l]; [cbn in *; lia|].
  change (Join (map f (x :: y :: l)) ",") with (f x +:+ "," +:+ Join (map f (y :: l)) ",").
  rewrite !str_length_app. cbn [String.length] in *. cbn [foldr] in *. lia.
Qed.

Lemma need_length n : ∀ j, (need j ≤ n)%nat → wf_json j → (need j ≤ String.length (print j))%nat.
Proof.
  induction n as [|n IH]; intros j Hn Hw; [pose proof (need_pos j); lia|].
  destruct (print_start j Hw) as (c & t & E & _).
  destruct j as [|b|m|s|l|fs]; try (rewrite E; cbn; lia); cbn [print need wf_json] in *; rewrite !str_length_app; cbn [String.length].
  - enough (foldr (λ j n, S (need j) + n)%nat 0%nat l ≤ S (String.length (Join (map print l) ",")))%nat by lia.
    apply Join_length. intros x Hx. assert (need x ≤ n ∧ wf_json x)%nat as [? ?]; [|by apply IH].
    clear - Hx Hn Hw. induction Hx as [x l|x y l Hx IHx]; cbn [foldr] in *; [split; [lia|apply Hw]|].
    apply IHx; [lia|apply Hw].
  - enough (foldr (λ f n, S (need f.2) + n)%nat 0%nat fs ≤ S (String.length (Join (map (λ f, quote_string f.1 +:+ ":" +:+ print f.2) fs) ",")))%nat by lia.
    apply (Join_length _ (λ f : string * json, need f.2)). intros x Hx. assert (need x.2 ≤ n ∧ wf_json x.2)%nat as [? ?].
    { clear - Hx Hn Hw. induction Hx as [x l|x y l Hx IHx]; cbn [foldr] in *; [split; [lia|apply Hw]|].
      apply IHx; [lia|apply Hw]. }
    rewrite !str_length_app. assert (need x.2 ≤ String.length (print x.2))%nat by by apply IH. lia.
Qed.

Lemma read_print j rest : wf_json j → (nesting j ≤ maxNestingDepth)%nat → delimited rest = true →
  read_value (S (String.length (print j +:+ rest))) 0 (print j +:+ rest) = Some (j, rest).
Proof.
  intros Hw Hd Hr. apply (read_value_print (need j)); try done.
  pose proof (need_length (need j) j (le_n _) Hw). rewrite str_length_app. lia.
Qed.

Lemma Unmarshal_print j : wf_json j → (nesting j ≤ maxNestingDepth)%nat → Unmarshal (print j) = Ok j.
Proof.
  intros Hw Hd. unfold Unmarshal. rewrite <- (str_app_nil_r (print j)). by rewrite read_print.
Qed.

Lemma Unmarshal_Encode j : wf_json j → (nesting j ≤ maxNestingDepth)%nat → Unmarshal (Encode j) = Ok j.
Proof. intros Hw Hd. unfold Unmarshal, Encode. by rewrite read_print. Qed.

Lemma DecodeFirst_print j rest : wf_json j → (nesting j ≤ maxNestingDepth)%nat → delimited rest = true →
  DecodeFirst (print j +:+ rest) = Ok j.
Proof. intros Hw Hd Hr. unfold DecodeFirst. by rewrite read_print. Qed.

Lemma json_samples :
  Unmarshal (String quote ("a" +:+ String rsolidus "u003cb" +:+ String quote " ")) = Ok (JString "a<b") ∧
  Unmarshal "[1, -2.5e+3 ,{}]" = Ok (JArray [JNumber "1"; JNumber "-2.5e+3"; JObject []]) ∧
  Unmarshal "01" = Err syntaxError ∧ DecodeFirst "{} x" = Ok (JObject []) ∧ Unmarshal "{} x" = Err syntaxError.
Proof. vm_compute. by split_and!. Qed.

(** ** Errors *)

(** Decoding errors carry no sentinel. *)
Definition plain {A} (r : res A) : Prop := ∀ e s, r = Err e → errors_Is e s = false.

Lemma plain_Ok {A} (a : A) : plain (Ok a).
Proof. done. Qed.
Lemma plain_string old j : plain (decode_string old j).
Proof. intros e s. destruct j; simpl; intros H; by simplify_eq. Qed.
Lemma plain_map {A B} (f : A → B) r : plain r → plain (res_map f r).
Proof. intros Hr e s. destruct r; simpl; intros H; simplify_eq. by apply Hr. Qed.
Lemma plain_struct {A} (set : A → string → json → res A) old j : (∀ a k x, plain (set a k x)) → plain (decode_struct set old j).
Proof.
  intros Hs. destruct j as [| | | | |l]; simpl; try (intros e ? H; simplify_eq; done). revert old.
  induction l as [|[k x] l IH]; intros old e s; simpl; [done|]. pose proof (Hs old k x) as Hk.
  destruct (set old k x); intros H; simplify_eq; [by eapply IH|by apply Hk].
Qed.
Lemma plain_int_ptr old j : plain (decode_int_ptr old j).
Proof. intros e s H. destruct j; cbn in H; repeat case_step_in H; by simplify_eq. Qed.

Lemma plain_Unmarshal text : plain (Unmarshal text).
Proof. intros e s. unfold Unmarshal. intros H. repeat case_step_in H; by simplify_eq. Qed.

Create HintDb plain.
#[export] Hint Resolve plain_Ok plain_string plain_map plain_struct plain_int_ptr plain_Unmarshal : plain.
