(* ===== verification/JsonIndent.v ===== *)
(** * JSON texts with white space

    [json.MarshalIndent], with which the installer writes its state file, and the
    reader of [Json] on such texts. [text] is the relation between a value and any text
    of it with white space between its tokens; the reader returns the value of every
    such text, and the indented form is one. *)

From S2P Require Import Prelude GoStrings GoStd Utf8 Json.

(** ** Indented output *)

(** A line break and the indentation of a line at depth [d]. *)
Fixpoint spaces (d : nat) : string := match d with O => EmptyString | S d => "  " +:+ spaces d end.
Definition newline (d : nat) : string := String (ascii_of_nat 10) (spaces d).

Fixpoint indent (d : nat) (j : json) : string :=
  match j with
  | JArray ((_ :: _) as l) => "[" +:+ Join (map (λ j, newline (S d) +:+ indent (S d) j) l) "," +:+ newline d +:+ "]"
  | JObject ((_ :: _) as fs) =>
      "{" +:+ Join (map (λ f, newline (S d) +:+ quote_string f.1 +:+ ": " +:+ indent (S d) f.2) fs) "," +:+ newline d +:+ "}"
  | _ => print j
  end.

(** [json.MarshalIndent(v, "", "  ")]. *)
Definition MarshalIndent (j : json) : string := indent 0 j.

(** ** Texts of a value *)

Definition blank (w : string) : Prop := all_bytes is_json_space w = true.

Definition atomic (j : json) : bool :=
  match j with JArray (_ :: _) | JObject (_ :: _) => false | _ => true end.

(** [text n j s]: [s] is a text of [j], without white space around it, that the reader
    reads with fuel [n]; the same for the elements of an array and the members of an
    object. *)
Inductive text : nat → json → string → Prop :=
| text_atom j : wf_json j → atomic j = true → text 1 j (print j)
| text_array n l s : elements n l s → text (S n) (JArray l) (String "[" (s +:+ "]"))
| text_object n fs s : members n fs s → text (S n) (JObject fs) (String "{" (s +:+ "}"))
with elements : nat → list json → string → Prop :=
| elements_one n j w s w' : blank w → text n j s → blank w' → elements (S n) [j] (w +:+ s +:+ w')
| elements_more n m j l w s w' t : blank w → text n j s → blank w' → elements m l t →
    elements (S (n + m)) (j :: l) (w +:+ s +:+ w' +:+ String "," t)
with members : nat → list (string * json) → string → Prop :=
| members_one n k j w u s w' : blank w → ValidString k = true → blank u → text n j s → blank w' →
    members (S n) [(k, j)] (w +:+ quote_string k +:+ String ":" (u +:+ s +:+ w'))
| members_more n m k j fs w u s w' t : blank w → ValidString k = true → blank u → text n j s → blank w' → members m fs t →
    members (S (n + m)) ((k, j) :: fs) (w +:+ quote_string k +:+ String ":" (u +:+ s +:+ w' +:+ String "," t)).

Scheme text_ind3 := Induction for text Sort Prop
  with elements_ind3 := Induction for elements Sort Prop
  with members_ind3 := Induction for members Sort Prop.
Combined Scheme texts_ind from text_ind3, elements_ind3, members_ind3.

Lemma skip_blank w s : blank w → skip_space (w +:+ s) = skip_space s.
Proof.
  unfold blank. induction w as [|c w IH]; cbn [all_bytes]; [done|]. intros [Hc Hw]%andb_true_iff.
  rewrite app_cons. cbn [skip_space]. rewrite Hc. by apply IH.
Qed.

Lemma blank_delimited w s : blank w → delimited s = true → delimited (w +:+ s) = true.
Proof.
  destruct w as [|c w]; [done|]. intros [Hc _]%andb_true_iff _. cbn. unfold is_json_space in Hc.
  assert (Hb : byte_val c < 33) by (rewrite !orb_true_iff, !Z.eqb_eq in Hc; lia). unfold byte_val in Hb.
  apply negb_true_iff. repeat (apply orb_false_iff; split); try (apply not_true_is_false; intros ->%Ascii.eqb_eq; by vm_compute in Hb).
  unfold in_range. apply andb_false_iff. left. apply N.leb_gt. change (N_of_ascii "0") with 48%N. lia.
Qed.

(** A text starts with the first byte of a value. *)
Lemma text_start n j s : text n j s → ∃ c t, s = String c t ∧ value_start c.
Proof. destruct 1 as [j Hw _|n l s _|n fs s _]; [by apply print_start|by eexists _, _..]. Qed.

Lemma skip_text n j s rest : text n j s → skip_space (s +:+ rest) = s +:+ rest.
Proof. intros (c & t & -> & Hs & _)%text_start. rewrite app_cons. by apply skip_start. Qed.

(** ** The reader returns the value of every text of it *)

Definition nesting_elements (l : list json) : nat := foldr (λ j n, Nat.max (nesting j) n) 0%nat l.
Definition nesting_members (fs : list (string * json)) : nat := foldr (λ f n, Nat.max (nesting f.2) n) 0%nat fs.

Definition reads_value (n : nat) (j : json) (s : string) : Prop := ∀ fuel depth w rest, (n ≤ fuel)%nat →
  (depth + nesting j ≤ maxNestingDepth)%nat → blank w → delimited rest = true →
  read_value fuel depth (w +:+ s +:+ rest) = Some (j, rest).
Definition reads_elements (n : nat) (l : list json) (s : string) : Prop := ∀ fuel depth rest, (n ≤ fuel)%nat →
  (depth + nesting_elements l ≤ maxNestingDepth)%nat → read_elements fuel depth (s +:+ String "]" rest) = Some (l, rest).
Definition reads_members (n : nat) (fs : list (string * json)) (s : string) : Prop := ∀ fuel depth rest, (n ≤ fuel)%nat →
  (depth + nesting_members fs ≤ maxNestingDepth)%nat → read_members fuel depth (s +:+ String "}" rest) = Some (fs, rest).

Lemma read_value_blank fuel depth w s : blank w → read_value fuel depth (w +:+ s) = read_value fuel depth s.
Proof. intros Hw. destruct fuel; [done|]. cbn [read_value]. by rewrite skip_blank. Qed.

Lemma expect_other c d s : Ascii.eqb d c = false → expect c (String d s) = None.
Proof. intros H. cbn [expect]. by rewrite H. Qed.

Lemma expect_same c s : expect c (String c s) = Some s.
Proof. cbn [expect]. by rewrite eqb_refl_ascii. Qed.

(** The first token of a list of elements or members closes neither. *)
Lemma elements_open n l s rest : elements n l s → expect "]" (skip_space (s +:+ rest)) = None.
Proof.
  assert (H : ∀ n j w s u, blank w → text n j s → expect "]" (skip_space (w +:+ s +:+ u)) = None).
  { intros n' j w s' u Hw Ht. rewrite skip_blank, (skip_text _ _ _ _ Ht) by done.
    apply text_start in Ht as (c & t & -> & _ & Hc & _). by apply expect_other. }
  destruct 1; rewrite !str_app_assoc; by eapply H.
Qed.

Lemma members_open n fs s rest : members n fs s → expect "}" (skip_space (s +:+ rest)) = None.
Proof. by destruct 1; rewrite !str_app_assoc, skip_blank. Qed.

(** The name of a member and the colon after it. *)
Lemma read_name k w r : blank w → ValidString k = true →
  ∃ s1, expect quote (skip_space (w +:+ quote_string k +:+ String ":" r)) = Some s1 ∧ read_string 0 s1 = Some (k, String ":" r).
Proof.
  intros Hw Hk. unfold quote_string. rewrite skip_blank by done. rewrite app_cons, skip_start by done.
  eexists. split; [apply expect_same|]. rewrite str_app_assoc. change (String quote "" +:+ ?x) with (String quote x).
  by apply read_quoted.
Qed.

Lemma read_atom j : wf_json j → atomic j = true → reads_value 1 j (print j).
Proof.
  intros Hw Ha fuel depth w rest Hf Hd Hb Hr. rewrite read_value_blank by done.
  apply (read_value_print (need j)); try done. assert (need j = 1%nat) as -> by (by destruct j as [|[]|?|?|[]|[]]). done.
Qed.

(** What follows a value in a list: white space, then a comma or the closing byte. *)
Lemma after_value w c r : blank w → is_json_space c = false → Ascii.eqb c "," = false →
  expect "," (skip_space (w +:+ String c r)) = None ∧ expect c (skip_space (w +:+ String c r)) = Some r.
Proof. intros Hw Hc H. rewrite skip_blank, skip_start by done. split; [by apply expect_other|apply expect_same]. Qed.

Lemma after_comma w r : blank w → expect "," (skip_space (w +:+ String "," r)) = Some r.
Proof. intros Hw. rewrite skip_blank, skip_start by done. apply expect_same. Qed.

Lemma read_texts :
  (∀ n j s, text n j s → reads_value n j s) ∧ (∀ n l s, elements n l s → reads_elements n l s) ∧
  (∀ n fs s, members n fs s → reads_members n fs s).
Proof.
  apply texts_ind.
  - intros j Hw Ha. by apply read_atom.
  - intros n l s He IH fuel depth w rest Hf Hd Hw Hr. rewrite read_value_blank by done.
    destruct fuel as [|fuel]; [lia|]. rewrite app_cons, str_app_assoc. cbn [read_value]. rewrite skip_start by done.
    change (Ascii.eqb "[" "{") with false. rewrite eqb_refl_ascii. cbn [nesting] in Hd.
    rewrite (proj2 (Nat.leb_gt maxNestingDepth depth)) by lia. rewrite (elements_open _ _ _ _ He).
    change ("]" +:+ rest) with (String "]" rest). rewrite IH; [done|lia|unfold nesting_elements; lia].
  - intros n fs s He IH fuel depth w rest Hf Hd Hw Hr. rewrite read_value_blank by done.
    destruct fuel as [|fuel]; [lia|]. rewrite app_cons, str_app_assoc. cbn [read_value]. rewrite skip_start by done.
    rewrite eqb_refl_ascii. cbn [nesting] in Hd. rewrite (proj2 (Nat.leb_gt maxNestingDepth depth)) by lia.
    rewrite (members_open _ _ _ _ He). change ("}" +:+ rest) with (String "}" rest).
    rewrite IH; [done|lia|unfold nesting_members; lia].
  - intros n j w s w' Hw _ IH Hw' fuel depth rest Hf Hd. destruct fuel as [|fuel]; [lia|]. cbn [read_elements].
    unfold nesting_elements in Hd. cbn [foldr] in Hd.
    rewrite !str_app_assoc, IH; [|lia|lia|done|by apply blank_delimited].
    destruct (after_value w' "]" rest) as [-> ->]; done.
  - intros n m j l w s w' t Hw _ IH Hw' _ IHl fuel depth rest Hf Hd. destruct fuel as [|fuel]; [lia|]. cbn [read_elements].
    unfold nesting_elements in Hd. cbn [foldr] in Hd.
    rewrite !str_app_assoc, app_cons, IH; [|lia|lia|done|by apply blank_delimited].
    rewrite after_comma, IHl; [done|lia|unfold nesting_elements; lia|done].
  - intros n k j w u s w' Hw Hk Hu _ IH Hw' fuel depth rest Hf Hd. destruct fuel as [|fuel]; [lia|]. cbn [read_members].
    unfold nesting_members in Hd. cbn [foldr snd] in Hd. rewrite !str_app_assoc, app_cons, !str_app_assoc.
    destruct (read_name k w (u +:+ s +:+ w' +:+ String "}" rest) Hw Hk) as (s1 & -> & ->).
    rewrite skip_start, expect_same by done. rewrite IH; [|lia|lia|done|by apply blank_delimited].
    destruct (after_value w' "}" rest) as [-> ->]; done.
  - intros n m k j fs w u s w' t Hw Hk Hu _ IH Hw' _ IHf fuel depth rest Hf Hd. destruct fuel as [|fuel]; [lia|]. cbn [read_members].
    unfold nesting_members in Hd. cbn [foldr snd] in Hd. rewrite !str_app_assoc, !app_cons, !str_app_assoc, app_cons.
    destruct (read_name k w (u +:+ s +:+ w' +:+ String "," (t +:+ String "}" rest)) Hw Hk) as (s1 & -> & ->).
    rewrite skip_start, expect_same by done. rewrite IH; [|lia|lia|done|by apply blank_delimited].
    rewrite after_comma, IHf; [done|lia|unfold nesting_members; lia|done].
Qed.

(** ** The indented form *)

Lemma text_lengths :
  (∀ n j s, text n j s → (n ≤ String.length s)%nat) ∧ (∀ n l s, elements n l s → (n ≤ S (String.length s))%nat) ∧
  (∀ n fs s, members n fs s → (n ≤ S (String.length s))%nat).
Proof.
  apply texts_ind; intros; rewrite ?str_length_app; cbn [String.length]; rewrite ?str_length_app; cbn [String.length]; try lia.
  destruct (print_start j) as (c & t & -> & _); [done|]. cbn. lia.
Qed.

Lemma newline_blank d : blank (newline d).
Proof. unfold blank, newline. cbn [all_bytes]. apply andb_true_iff. split; [done|]. induction d as [|d IH]; [done|]. exact IH. Qed.
#[local] Hint Resolve newline_blank : core.

Section Indent.
Context (m : nat) (IH : ∀ j d, (need j ≤ m)%nat → wf_json j → text (need j) j (indent d j)).

Lemma indent_elements l d : l ≠ [] → foldr (λ j P, wf_json j ∧ P) True l →
  (foldr (λ j n, S (need j) + n)%nat 0%nat l ≤ S m)%nat →
  elements (foldr (λ j n, S (need j) + n) 0 l)%nat l (Join (map (λ j, newline (S d) +:+ indent (S d) j) l) "," +:+ newline d).
Proof.
  induction l as [|j l IHl]; [done|]. intros _ [Hj Hl] Hn. cbn [foldr] in *. destruct l as [|j' l].
  - cbn [map Join foldr]. rewrite Nat.add_0_r, str_app_assoc. apply elements_one; [done|apply IH; [lia|done]|done].
  - change (Join (map _ (j :: j' :: l)) ",") with ((newline (S d) +:+ indent (S d) j) +:+ String "," (Join (map (λ j, newline (S d) +:+ indent (S d) j) (j' :: l)) ",")).
    rewrite !str_app_assoc, app_cons. apply (elements_more _ _ _ _ _ _ EmptyString); [done|apply IH; [lia|done]|done|].
    apply IHl; [done|done|cbn [foldr] in *; lia].
Qed.

Lemma indent_members fs d : fs ≠ [] → foldr (λ f P, (ValidString f.1 = true ∧ wf_json f.2) ∧ P) True fs →
  (foldr (λ f n, S (need f.2) + n)%nat 0%nat fs ≤ S m)%nat →
  members (foldr (λ f n, S (need f.2) + n) 0 fs)%nat fs
    (Join (map (λ f, newline (S d) +:+ quote_string f.1 +:+ ": " +:+ indent (S d) f.2) fs) "," +:+ newline d).
Proof.
  induction fs as [|[k j] fs IHl]; [done|]. intros _ [[Hk Hj] Hl] Hn. cbn [foldr fst snd] in *. destruct fs as [|f fs].
  - cbn [map Join foldr fst snd]. rewrite Nat.add_0_r, !str_app_assoc.
    apply (members_one _ _ _ _ " "); [done|done|done|apply IH; [lia|done]|done].
  - change (Join (map _ ((k, j) :: f :: fs)) ",") with ((newline (S d) +:+ quote_string k +:+ ": " +:+ indent (S d) j) +:+
      String "," (Join (map (λ f, newline (S d) +:+ quote_string f.1 +:+ ": " +:+ indent (S d) f.2) (f :: fs)) ",")).
    rewrite !str_app_assoc, app_cons.
    apply (members_more _ _ _ _ _ _ " " _ EmptyString); [done|done|done|apply IH; [lia|done]|done|].
    apply IHl; [done|done|cbn [foldr] in *; lia].
Qed.
End Indent.

Lemma indent_text m : ∀ j d, (need j ≤ m)%nat → wf_json j → text (need j) j (indent d j).
Proof.
  induction m as [|m IH]; intros j d Hn Hw; [pose proof (need_pos j); lia|].
  destruct j as [|b|n|s|[|j l]|[|f fs]]; try (by apply text_atom); cbn [indent need].
  - match goal with |- text _ _ ("[" +:+ ?a +:+ ?b +:+ "]") => change (text (S (foldr (λ j n, S (need j) + n) 0 (j :: l))%nat) (JArray (j :: l)) (String "[" (a +:+ b +:+ "]"))) end.
    rewrite <- str_app_assoc. apply text_array, (indent_elements m IH); [done|exact Hw|cbn [need] in Hn; lia].
  - match goal with |- text _ _ ("{" +:+ ?a +:+ ?b +:+ "}") => change (text (S (foldr (λ f n, S (need f.2) + n) 0 (f :: fs))%nat) (JObject (f :: fs)) (String "{" (a +:+ b +:+ "}"))) end.
    rewrite <- str_app_assoc. apply text_object, (indent_members m IH); [done|exact Hw|cbn [need] in Hn; lia].
Qed.

(** Reading back what [MarshalIndent] wrote, with white space after it. *)
Lemma Unmarshal_indent j w : wf_json j → (nesting j ≤ maxNestingDepth)%nat → blank w →
  Unmarshal (MarshalIndent j +:+ w) = Ok j.
Proof.
  intros Hw Hd Hb. assert (Ht := indent_text _ j 0 (le_n _) Hw).
  pose proof (proj1 text_lengths _ _ _ Ht). pose proof (proj1 read_texts _ _ _ Ht) as Hr.
  unfold Unmarshal, MarshalIndent. specialize (Hr (S (String.length (indent 0 j +:+ w))) 0%nat EmptyString w).
  change (EmptyString +:+ ?x) with x in Hr. rewrite Hr; [|rewrite str_length_app; lia|lia|done|].
  - rewrite <- (str_app_nil_r w), skip_blank by done. done.
  - rewrite <- (str_app_nil_r w). by apply blank_delimited.
Qed.

Lemma MarshalIndent_sample :
  MarshalIndent (JObject [("a", JNumber "1"); ("b", JObject [("c", JString "x")]); ("d", JObject [])]) =
  String "{" (newline 1 +:+ quote_string "a" +:+ ": 1," +:+ newline 1 +:+ quote_string "b" +:+ ": {" +:+ newline 2 +:+ quote_string "c" +:+ ": " +:+
    quote_string "x" +:+ newline 1 +:+ "}," +:+ newline 1 +:+ quote_string "d" +:+ ": {}" +:+ newline 0 +:+ "}").
Proof. reflexivity. Qed.
