(* ===== verification/DataPlane.v ===== *)
(** * The data plane's environment

    The calls the credential handler makes: the rate limiter, the token verifier of
    go-oidc, the Kubernetes cache, the clock, the Prometheus counters and the audit
    log. Counters and audit lines are outputs: calls with no answer, so theorems can
    count them. *)

From S2P Require Import Prelude Effects GoStrings GoTime Json Naming Api.

(** [oidc.IDToken]: the verified claims go-oidc exposes, and the payload its [Claims]
    method decodes. A claim that is absent leaves the zero time. *)
Record IDToken := MkIDToken { TIssuer : string; TExpiry : Time; TIssuedAt : Time; TPayload : json }.

(** [dataplane.Claims]. *)
Record Claims := MkClaims {
  Subject : string; CAudience : list string; CIssuer : string; Expiry : Time; IssuedAt : Time;
  Pod : string; PodUID : string; Node : string
}.

(** A value of an audit line. *)
Inductive field := FStr (s : string) | FInt (n : Z) | FStrs (l : list string) | FErr (e : gerr).

(** [Verify] is the verifier's [Verify] together with what the key set left in the
    [verifyOutcome] of its context: whether it marked the keys unavailable. *)
Inductive dcall :=
| Allow (source : string)
| Verify (raw : string)
| TimeNow
| ListHABySubject (subject : string)
| ReadSecret (ns name : string)
| IncIssuances (result : string)
| IncOIDCFailures (reason : string)
| IncLookupFailures
| IncSecretMissing
| ObserveDuration
| AuditLine (msg : string) (fields : list (string * field)).

Definition dans (c : dcall) : Type :=
  match c with
  | Allow _ => bool
  | Verify _ => (res IDToken * bool)%type
  | TimeNow => Time
  | ListHABySubject _ => res (list HarborAccess)
  | ReadSecret _ _ => res Secret
  | _ => unit
  end.

Notation data := (prog dans).

(** ** What a log shows, latest first *)

Definition answers {A} (pick : event dans → option A) (h : log dans) : list A := omap pick h.

Definition limited (source : string) : log dans → list bool :=
  answers (λ e, match e with existT (Allow s) ok => if String.eqb s source then Some ok else None | _ => None end).
Definition verified (raw : string) : log dans → list (res IDToken * bool) :=
  answers (λ e, match e with existT (Verify r) a => if String.eqb r raw then Some a else None | _ => None end).
Definition times : log dans → list Time :=
  answers (λ e, match e with existT TimeNow t => Some t | _ => None end).
Definition listed (subject : string) : log dans → list (res (list HarborAccess)) :=
  answers (λ e, match e with existT (ListHABySubject s) l => if String.eqb s subject then Some l else None | _ => None end).
Definition secrets (ns name : string) : log dans → list (res Secret) :=
  answers (λ e, match e with
                | existT (ReadSecret ns' name') r => if String.eqb ns' ns && String.eqb name' name then Some r else None
                | _ => None end).
Definition issuances : log dans → list string :=
  answers (λ e, match e with existT (IncIssuances r) _ => Some r | _ => None end).
Definition audits : log dans → list (string * list (string * field)) :=
  answers (λ e, match e with existT (AuditLine m fs) _ => Some (m, fs) | _ => None end).

Lemma answers_app {A} (pick : event dans → option A) l h : answers pick (l ++ h) = answers pick l ++ answers pick h.
Proof. apply omap_app. Qed.

Lemma answers_mono {A} (pick : event dans → option A) l h x : x ∈ answers pick h → x ∈ answers pick (l ++ h).
Proof. rewrite answers_app. intros. apply elem_of_app. by right. Qed.
#[export] Hint Resolve answers_mono : bridge.

(** ** The Validator interface *)

(** [dataplane.Validator], with what an implementation promises the handler: it only
    asks the verifier and the clock, and the claims it returns are [valid]: justified
    by the log of answers, for good. *)
Definition validator_call (c : dcall) : Prop :=
  match c with Verify _ | TimeNow => True | _ => False end.

Class Validator := {
  Validate : string → data (res Claims);
  valid : log dans → string → Claims → Prop;
  valid_mono : ∀ h l raw c, valid h raw c → valid (l ++ h) raw c;
  validate_spec : ∀ h raw,
    wp any_env (λ _ c, validator_call c) h (Validate raw)
      (λ h' r, match r with Ok c => valid h' raw c | Err _ => True end)
}.
