(* ===== verification/TokenTTL.v ===== *)
(** * The lenient JSON form of spec.tokenTTL

    [bridge/api/v1alpha1/duration.go]: decoding never fails, so that one resource with a
    value of the old format does not keep every other one from being read; what it cannot
    parse is kept as it is and written back. *)

From S2P Require Import Prelude GoStrings GoStd GoTime GoDuration Utf8 Json Api.

Definition UnmarshalJSON (b : string) : TTL :=
  if String.eqb b "null" then MkTTL 0 ""
  else match Unmarshal b with
  | Ok j => match decode_string "" j with
            | Ok s => match ParseDuration s with Ok pd => MkTTL pd "" | Err _ => MkTTL 0 b end
            | Err _ => MkTTL 0 b
            end
  | Err _ => MkTTL 0 b
  end.

Definition MarshalJSON (d : TTL) : string :=
  if negb (String.eqb (invalid d) "") then invalid d else print (JString (DurationString (TDuration d))).

Definition maxShownInvalid : Z := 64.
Definition clip (s : string) : string :=
  if len s <=? maxShownInvalid then s else take_str (Z.to_nat maxShownInvalid) s +:+ "...".

(** The message of [Duration.Err]. *)
Definition Err_text (d : TTL) : option string :=
  if String.eqb (invalid d) "" then None
  else match Unmarshal (invalid d) with
  | Ok j => match decode_string "" j with
            | Ok s => Some (clip s)
            | Err _ => Some (clip (invalid d) +:+ " is not a string")
            end
  | Err _ => Some (clip (invalid d) +:+ " is not a string")
  end.

(** ** ASCII texts are valid UTF-8 *)

Definition is_ascii (s : string) : bool := all_bytes (λ c, byte_val c <? 0x80) s.

Lemma ascii_ValidString s : is_ascii s = true → ValidString s = true.
Proof.
  intros H. apply bool_decide_eq_true. revert H. unfold is_ascii. induction s as [|c s IH]; cbn [all_bytes]; [by eexists|].
  intros [Hc Hs]%andb_true_iff. cbn [runes]. rewrite Hc. destruct (IH Hs) as [rs ->]. by eexists.
Qed.

Lemma digit_ascii d : 0 ≤ d ≤ 9 → (byte_val (digit d) <? 0x80) = true.
Proof. intros Hd. unfold digit, byte_val. rewrite Ascii.N_ascii_embedding by lia. rewrite Z2N.id by lia. lia. Qed.

Lemma format_go_ascii fuel n acc : is_ascii acc = true → is_ascii (format_go fuel n acc) = true.
Proof.
  revert n acc. induction fuel as [|fuel IH]; intros n acc Ha; [done|]. cbn [format_go].
  pose proof (Z.mod_pos_bound n 10 ltac:(lia)). assert (is_ascii (String (digit (n mod 10)) acc) = true) as Hd.
  { unfold is_ascii in *. cbn [all_bytes]. rewrite digit_ascii by lia. done. }
  destruct (_ =? 0); [done|by apply IH].
Qed.

Lemma is_ascii_app s t : is_ascii (s +:+ t) = is_ascii s && is_ascii t.
Proof. apply all_bytes_app. Qed.

Lemma FormatInt_ascii n : is_ascii (FormatInt n) = true.
Proof.
  unfold FormatInt. destruct (n <? 0); [|by apply format_go_ascii].
  change (is_ascii (String "-" ?x)) with (is_ascii x). by apply format_go_ascii.
Qed.

Lemma fmtFrac_ascii prec v b acc : is_ascii acc = true → is_ascii (fmtFrac prec v b acc).1 = true.
Proof.
  revert v b acc. induction prec as [|prec IH]; intros v b acc Ha; cbn [fmtFrac fst]; [by destruct b|].
  pose proof (Z.mod_pos_bound v 10 ltac:(lia)). apply IH. destruct (b || _); [|done].
  unfold is_ascii in *. cbn [all_bytes]. rewrite digit_ascii by lia. done.
Qed.

Lemma is_ascii_cons c s : (byte_val c <? 0x80) = true → is_ascii (String c s) = is_ascii s.
Proof. intros Hc. unfold is_ascii. cbn [all_bytes]. by rewrite Hc. Qed.

Lemma fmt_large_ascii u : is_ascii (fmt_large u) = true.
Proof.
  unfold fmt_large. pose proof (fmtFrac_ascii 9 u false "s" eq_refl) as Hf. destruct (fmtFrac 9 u false "s") as [acc v]. cbn [fst] in Hf.
  destruct (0 <? v / 60); [destruct (0 <? v / 60 / 60)|];
    repeat first [rewrite is_ascii_app|rewrite FormatInt_ascii|rewrite is_ascii_cons by done]; done.
Qed.

Lemma whole_seconds_ascii d : d mod Second = 0 → is_ascii (DurationString d) = true.
Proof.
  intros Hm. unfold DurationString. destruct (Z.ltb_spec (Z.abs d) Second) as [Hs|Hs].
  - assert (d = 0) as ->; [|done]. pose proof (Z.div_mod d Second ltac:(done)). unfold Second in *. nia.
  - destruct (d <? 0); rewrite ?is_ascii_cons by done; apply fmt_large_ascii.
Qed.

(** ** Reading, writing and reading again *)

(** The two outcomes of a read: a duration, or the text itself, kept. *)
Lemma UnmarshalJSON_cases b :
  (invalid (UnmarshalJSON b) = "" ∧ int64_min ≤ TDuration (UnmarshalJSON b) ≤ int64_max) ∨ UnmarshalJSON b = MkTTL 0 b.
Proof.
  unfold UnmarshalJSON. destruct (String.eqb b "null"); [left; split; [done|]; by vm_compute|].
  destruct (Unmarshal b) as [j|e]; [|by right]. destruct (decode_string "" j) as [s|e]; [|by right].
  destruct (ParseDuration s) as [d|e] eqn:E; [|by right]. left. split; [done|]. by eapply ParseDuration_range.
Qed.

Lemma UnmarshalJSON_print d : int64_min ≤ d ≤ int64_max → d mod Second = 0 → UnmarshalJSON (print (JString (DurationString d))) = MkTTL d "".
Proof.
  intros Hd Hm. unfold UnmarshalJSON.
  rewrite Unmarshal_print; [|exact (ascii_ValidString _ (whole_seconds_ascii d Hm))|cbn; lia].
  cbn [decode_string]. by rewrite ParseDuration_print.
Qed.

(** A tokenTTL is never lost. A value that is no Go duration is written back exactly as it
    was read; one of whole seconds is written in a form that reads as the same duration. So
    reading what was written gives the value that was read. *)
Theorem tokenTTL_roundtrip b : TDuration (UnmarshalJSON b) mod Second = 0 →
  UnmarshalJSON (MarshalJSON (UnmarshalJSON b)) = UnmarshalJSON b ∧
  (invalid (UnmarshalJSON b) ≠ "" → MarshalJSON (UnmarshalJSON b) = b).
Proof.
  intros Hm. destruct (UnmarshalJSON_cases b) as [[Hi Hr]|E].
  - split; [|done]. unfold MarshalJSON. rewrite Hi. cbn [String.eqb negb]. rewrite UnmarshalJSON_print by done.
    destruct (UnmarshalJSON b) as [d i]. cbn in *. by rewrite Hi.
  - rewrite E. unfold MarshalJSON. cbn [invalid TDuration]. destruct (String.eqb_spec b "") as [->|Hb]; [by vm_compute in E|].
    by split.
Qed.

Lemma tokenTTL_roundtrip_witness :
  let old := "[1, 2]" in
  UnmarshalJSON (MarshalJSON (UnmarshalJSON old)) = UnmarshalJSON old ∧ (invalid (UnmarshalJSON old) ≠ "" → MarshalJSON (UnmarshalJSON old) = old).
Proof. exact (tokenTTL_roundtrip "[1, 2]" eq_refl). Defined.
