(* ===== verification/Oidc.v ===== *)
(** * Token validation

    Models the per-request half of bridge/dataplane/oidc.go (Validate, the lifetime
    cap, decoding the claims), the algorithm filter, and the error classifier of
    bridge/dataplane/metrics.go. Signature, issuer and expiry are checked by go-oidc's
    verifier, the call [Verify]. *)

From S2P Require Import Prelude Effects GoStrings GoStd GoTime Json Naming Api DataPlane.

(** ** The claims *)

(** [jsonAudience.UnmarshalJSON]: a string, [null] included, is tried first. *)
Definition decode_audience (j : json) : res (list string) :=
  match decode_string "" j with
  | Ok single => Ok [single]
  | Err _ =>
      match decode_slice j with
      | Err e => Err (EWrap "aud must be string or []string" e)
      | Ok slice => Ok slice
      end
  end.

(** [rawClaims], its nested structs flattened into their fields. *)
Record rawClaims := MkRaw {
  Sub_ : string; Aud : list string; PodName : string; PodUID_ : string; NodeName : string
}.

Definition set_pod (r : rawClaims) (k : string) (j : json) : res rawClaims :=
  if is_field "name" k then res_map (λ s, MkRaw (Sub_ r) (Aud r) s (PodUID_ r) (NodeName r)) (decode_string (PodName r) j)
  else if is_field "uid" k then res_map (λ s, MkRaw (Sub_ r) (Aud r) (PodName r) s (NodeName r)) (decode_string (PodUID_ r) j)
  else Ok r.

Definition set_node (r : rawClaims) (k : string) (j : json) : res rawClaims :=
  if is_field "name" k then res_map (λ s, MkRaw (Sub_ r) (Aud r) (PodName r) (PodUID_ r) s) (decode_string (NodeName r) j)
  else Ok r.

Definition set_k8s (r : rawClaims) (k : string) (j : json) : res rawClaims :=
  if is_field "pod" k then decode_struct set_pod r j
  else if is_field "node" k then decode_struct set_node r j
  else Ok r.

Definition set_claim (r : rawClaims) (k : string) (j : json) : res rawClaims :=
  if is_field "sub" k then res_map (λ s, MkRaw s (Aud r) (PodName r) (PodUID_ r) (NodeName r)) (decode_string (Sub_ r) j)
  else if is_field "aud" k then res_map (λ a, MkRaw (Sub_ r) a (PodName r) (PodUID_ r) (NodeName r)) (decode_audience j)
  else if is_field "kubernetes.io" k then decode_struct set_k8s r j
  else Ok r.

(** [idToken.Claims(&raw)]. *)
Definition decode_claims (payload : json) : res rawClaims := decode_struct set_claim (MkRaw "" [] "" "" "") payload.

(** ** Validate *)

Definition maxIssuedAtSkew : Duration := 5 * Minute.

Definition checkLifetime (iat exp now : Time) (maxLifetime : Duration) : option gerr :=
  if IsZero iat then Some (EJoin (ESentinel ErrTokenLifetime) (EMsg "no iat claim"))
  else if After iat (Add now maxIssuedAtSkew) then Some (EJoin (ESentinel ErrTokenLifetime) (EMsg "issued in the future"))
  else if Sub exp iat >? maxLifetime then Some (EJoin (ESentinel ErrTokenLifetime) (EMsg "lifetime exceeds the maximum"))
  else None.

(** [goOIDCValidator], the verifier and its key set apart. *)
Record goOIDCValidator := MkValidator { maxLifetime : Duration; allowNonPodBoundTokens : bool }.

Definition token_claims (t : IDToken) (raw : rawClaims) : Claims :=
  MkClaims (Sub_ raw) (Aud raw) (TIssuer t) (TExpiry t) (TIssuedAt t) (PodName raw) (PodUID_ raw) (NodeName raw).

Definition OIDCValidate (v : goOIDCValidator) (rawToken : string) : data (res Claims) :=
  r ← trigger (Verify rawToken);
  match r with
  | (Err e, keysUnavailable) =>
      Ret (Err (EJoin (ESentinel (if keysUnavailable : bool then ErrSigningKeysUnavailable else ErrInvalidToken)) e))
  | (Ok idToken, _) =>
      match decode_claims (TPayload idToken) with
      | Err e => Ret (Err (EJoin (ESentinel ErrInvalidToken) (EWrap "parse claims" e)))
      | Ok raw =>
          now ← trigger TimeNow;
          match checkLifetime (TIssuedAt idToken) (TExpiry idToken) now (maxLifetime v) with
          | Some e => Ret (Err (EJoin (ESentinel ErrInvalidToken) e))
          | None =>
              if negb (allowNonPodBoundTokens v) && (String.eqb (PodName raw) "" || String.eqb (PodUID_ raw) "")
              then Ret (Err (EJoin (ESentinel ErrInvalidToken) (EJoin (ESentinel ErrTokenNotPodBound) (EMsg "no kubernetes.io pod name and uid"))))
              else Ret (Ok (token_claims idToken raw))
          end
      end
  end.

(** ** Signing algorithms *)

Definition jwtSigningAlgs : list string :=
  ["RS256"; "RS384"; "RS512"; "ES256"; "ES384"; "ES512"; "PS256"; "PS384"; "PS512"; "EdDSA"].

Definition supportedAlgs (advertised : list string) : list string :=
  filter (λ a, a ∈ jwtSigningAlgs) advertised.

(** ** Classification *)

Definition OIDCReasonExpired : string := "expired".
Definition OIDCReasonBadSignature : string := "bad_signature".
Definition OIDCReasonWrongIssuer : string := "wrong_issuer".
Definition OIDCReasonMalformed : string := "malformed".
Definition OIDCReasonExcessiveLifetime : string := "excessive_lifetime".
Definition OIDCReasonNotPodBound : string := "not_pod_bound".
Definition OIDCReasonKeysUnavailable : string := "keys_unavailable".
Definition OIDCReasonOther : string := "other".

(** The text of the errors of token validation. *)
Definition sentinel_text (s : sentinel) : string :=
  match s with
  | ErrInvalidToken => "invalid token"
  | ErrSigningKeysUnavailable => "token signing keys unavailable"
  | ErrTokenLifetime => "token lifetime not accepted"
  | ErrTokenNotPodBound => "token not bound to a pod"
  | _ => ""
  end.

Fixpoint error_text (e : gerr) : string :=
  match e with
  | EMsg m => m
  | ESentinel s => sentinel_text s
  | EWrap m e => m +:+ ": " +:+ error_text e
  | EJoin e1 e2 => error_text e1 +:+ ": " +:+ error_text e2
  | EStatus _ | EHttp _ => ""
  end.

(** [strings.ToLower], as far as a search for ASCII text sees it: besides A-Z, the
    Kelvin sign and the dotted capital I become ASCII letters. *)
Fixpoint ToLower (s : string) : string :=
  match s with
  | String "226"%char (String "132"%char (String "170"%char s)) => String "k" (ToLower s)
  | String "196"%char (String "176"%char s) => String "i" (ToLower s)
  | String c s => String (if in_range "A" "Z" c then Ascii.ascii_of_N (Ascii.N_of_ascii c + 32) else c) (ToLower s)
  | EmptyString => EmptyString
  end.

Definition classify_text (s : string) : string :=
  if Contains s "malformed" then OIDCReasonMalformed
  else if Contains s "expired" then OIDCReasonExpired
  else if Contains s "signature" then OIDCReasonBadSignature
  else if Contains s "different provider" || Contains s "issuer" then OIDCReasonWrongIssuer
  else if Contains s "parse" || Contains s "invalid json" then OIDCReasonMalformed
  else OIDCReasonOther.

Definition classifyOIDCError (err : option gerr) : string :=
  match err with
  | None => OIDCReasonOther
  | Some e =>
      if errors_Is e ErrTokenLifetime then OIDCReasonExcessiveLifetime
      else if errors_Is e ErrTokenNotPodBound then OIDCReasonNotPodBound
      else if errors_Is e ErrSigningKeysUnavailable then OIDCReasonKeysUnavailable
      else classify_text (ToLower (error_text e))
  end.

(** ** Theorems *)

(** What the log shows for claims [c] that [OIDCValidate] returned for a token: the
    verifier accepted it, [c] are its claims, and they satisfy the policy. *)
Definition token_valid (v : goOIDCValidator) (h : log dans) (rawToken : string) (c : Claims) : Prop :=
  ∃ idToken outcome raw now,
    (Ok idToken, outcome) ∈ verified rawToken h ∧ now ∈ times h ∧
    decode_claims (TPayload idToken) = Ok raw ∧ c = token_claims idToken raw ∧
    checkLifetime (TIssuedAt idToken) (TExpiry idToken) now (maxLifetime v) = None ∧
    (allowNonPodBoundTokens v = false → Pod c ≠ EmptyString ∧ PodUID c ≠ EmptyString).

Lemma token_valid_mono v h l raw c : token_valid v h raw c → token_valid v (l ++ h) raw c.
Proof.
  intros (t & o & r & now & H1 & H2 & ?). exists t, o, r, now.
  split_and!; try (by apply answers_mono); naive_solver.
Qed.

Lemma wp_OIDCValidate v h raw :
  wp any_env (λ _ c, validator_call c) h (OIDCValidate v raw)
    (λ h' r, match r with Ok c => token_valid v h' raw c | Err _ => True end).
Proof.
  unfold OIDCValidate. wp_call; [done|]. intros [[t|e] flag] _; [|done].
  destruct (decode_claims (TPayload t)) as [r|] eqn:Ed; [|done].
  wp_call; [done|]. intros now _.
  destruct (checkLifetime _ _ _ _) eqn:El; [done|].
  destruct (negb (allowNonPodBoundTokens v) && _) eqn:Ep; [done|].
  exists t, flag, r, now. split_and!; try done.
  - unfold verified, answers. simpl. rewrite String.eqb_refl. left.
  - left.
  - intros Ha. rewrite Ha in Ep. simpl in Ep. apply orb_false_iff in Ep as [E1%String.eqb_neq E2%String.eqb_neq]. done.
Qed.

(** The validator of this bridge implements the interface. *)
#[export] Instance oidc_validator (v : goOIDCValidator) : Validator | 10 := {|
  Validate := OIDCValidate v;
  valid := token_valid v;
  valid_mono h l raw c := token_valid_mono v h l raw c;
  validate_spec h raw := wp_OIDCValidate v h raw
|}.

Lemma checkLifetime_None iat exp now max :
  0 < max < int64_max →
  checkLifetime iat exp now max = None ↔ iat ≠ zero_time ∧ iat ≤ now + maxIssuedAtSkew ∧ exp - iat ≤ max.
Proof.
  intros Hm. unfold checkLifetime, IsZero, After, Add, Sub, sat64, zero_time.
  unfold int64_min, int64_max in *.
  destruct (Z.eqb_spec iat 0); [split; [done|tauto]|].
  destruct (Z.ltb_spec (now + maxIssuedAtSkew) iat); [split; [done|intros; exfalso; lia]|].
  destruct (Z.gtb_spec (Z.max (- 2 ^ 63) (Z.min (2 ^ 63 - 1) (exp - iat))) max); split; intros; done || (split_and!; done || lia) || (exfalso; lia).
Qed.

Lemma runs_token_valid v h h' raw c : runs any_env (OIDCValidate v raw) h h' (Ok c) → token_valid v h' raw c.
Proof.
  intros Hr. exact (proj2 (wp_sound _ _ _ _ _ _ _ (wp_OIDCValidate v h raw) Hr)).
Qed.

(** ** The claims of a payload

    Independently of the decoder: the values at a path of the payload, in order of
    appearance (an object may repeat a member), and the claims as the last of them. *)
Fixpoint found (path : list string) (j : json) : list json :=
  match path with
  | [] => [j]
  | k :: path => match j with
                 | JObject fields => fields ≫= (λ p, if is_field k p.1 then found path p.2 else [])
                 | _ => []
                 end
  end.

Definition text_of (j : json) : option string := match j with JString s => Some s | _ => None end.
(** A text claim: the last text at its path; [null] counts as absent. *)
Definition text_at (path : list string) (payload : json) : string := default "" (last (omap text_of (found path payload))).

(** The audiences of an [aud] value. *)
Definition audiences_of (j : json) : list string :=
  match j with
  | JString s => [s]
  | JArray l => default "" ∘ text_of <$> l
  | _ => [""]
  end.
Definition audiences_at (payload : json) : list string :=
  match last (found ["aud"] payload) with Some j => audiences_of j | None => [] end.

(** [c] are the claims the token makes, field by field. *)
Record claims_of (t : IDToken) (c : Claims) : Prop := {
  co_subject : Subject c = text_at ["sub"] (TPayload t);
  co_audience : CAudience c = audiences_at (TPayload t);
  co_issuer : CIssuer c = TIssuer t;
  co_expiry : Expiry c = TExpiry t;
  co_issued : IssuedAt c = TIssuedAt t;
  co_pod : Pod c = text_at ["kubernetes.io"; "pod"; "name"] (TPayload t);
  co_uid : PodUID c = text_at ["kubernetes.io"; "pod"; "uid"] (TPayload t);
  co_node : Node c = text_at ["kubernetes.io"; "node"; "name"] (TPayload t)
}.

Definition next_text (s : string) (j : json) : string := default s (text_of j).

Lemma foldl_next_text l s : foldl next_text s l = default s (last (omap text_of l)).
Proof.
  revert s. induction l as [|j l IH]; intros s; [done|]. cbn [foldl omap list_omap]. rewrite IH. unfold next_text.
  destruct (text_of j); [|done]. rewrite last_cons. by destruct (last _).
Qed.

Lemma foldl_next_audience l s : foldl (λ _, audiences_of) s l = match last l with Some j => audiences_of j | None => s end.
Proof. revert s. induction l as [|j l IH]; intros s; [done|]. cbn [foldl]. rewrite IH, last_cons. by destruct (last l). Qed.

Lemma foldl_bind {A B C} (step : B → C → B) (f : A → list C) (l : list A) (b : B) :
  foldl step b (l ≫= f) = foldl (λ b x, foldl step b (f x)) b l.
Proof. revert b. induction l as [|x l IH]; intros b; [done|]. simpl. by rewrite foldl_app, IH. Qed.

(** A decoder whose steps update one component from the values at a path. *)
Lemma decode_struct_found {A B} (set : A → string → json → res A) (get : A → B) (step : B → json → B) k path old j a :
  (∀ a n x a', set a n x = Ok a' → get a' = foldl step (get a) (if is_field k n then found path x else [])) →
  decode_struct set old j = Ok a → get a = foldl step (get old) (found (k :: path) j).
Proof.
  intros Hset. destruct j as [| | | | |fields]; simpl; try done; try (by intros [= ->]).
  rewrite foldl_bind. revert old. induction fields as [|[n x] fields IH]; intros old; simpl; [by intros [= ->]|].
  destruct (set old n x) as [a'|] eqn:E; [|done]. intros Hd. by rewrite (IH a' Hd), (Hset _ _ _ _ E).
Qed.

Lemma is_field_other k k' n : is_field k n = true → fold_name k ≠ fold_name k' → is_field k' n = false.
Proof. unfold is_field. intros <-%String.eqb_eq Hne. by apply String.eqb_neq. Qed.

(** One member of a struct: it is the field [k], or not. *)
Ltac field_cases :=
  repeat match goal with
  | |- context [if is_field ?k ?n then _ else _] => destruct (is_field k n) eqn:?
  end;
  repeat match goal with
  | H : is_field ?k ?n = true, H' : is_field ?k' ?n = true |- _ =>
      exfalso; by rewrite (is_field_other k k' n H) in H'
  end.

Lemma decode_string_next old j s : decode_string old j = Ok s → s = next_text old j.
Proof. destruct j; simpl; try done; by intros [= ->]. Qed.

Lemma decode_strings_text l ss : decode_strings l = Ok ss → ss = default "" ∘ text_of <$> l.
Proof.
  revert ss. induction l as [|j l IH]; intros ss; simpl; [by intros [= <-]|].
  destruct (decode_string "" j) as [s|] eqn:E; [|done]. destruct (decode_strings l) as [rest|]; [|done].
  intros [= <-]. by rewrite (IH rest eq_refl), (decode_string_next _ _ _ E).
Qed.

Lemma decode_audience_of j a : decode_audience j = Ok a → a = audiences_of j.
Proof.
  unfold decode_audience. destruct j as [| |?|?|l|?]; simpl; try done; try (by intros [= <-]).
  destruct (decode_strings l) as [ss|] eqn:E; [|done]. intros [= <-]. by apply decode_strings_text.
Qed.

(** A step that reads a text, or leaves the component alone. *)
Ltac text_step Hd :=
  simpl in Hd |- *; unfold next_text in *;
  lazymatch type of Hd with
  | res_map _ (decode_string ?old ?j) = _ =>
      let E := fresh in destruct (decode_string old j) eqn:E; [|done]; injection Hd as <-;
      simpl; first [done | by apply decode_string_next in E]
  | res_map _ ?r = _ => destruct r; [|done]; by injection Hd as <-
  | Ok _ = Ok _ => by injection Hd as <-
  end.

Lemma decode_struct_frame {A B} (set : A → string → json → res A) (get : A → B) old j a :
  (∀ a n x a', set a n x = Ok a' → get a' = get a) → decode_struct set old j = Ok a → get a = get old.
Proof.
  intros Hset. destruct j as [| | | | |fields]; simpl; try done; try (by intros [= ->]).
  revert old. induction fields as [|[n x] fields IH]; intros old; simpl; [by intros [= ->]|].
  destruct (set old n x) as [a'|] eqn:E; [|done]. intros Hd. by rewrite (IH a' Hd), (Hset _ _ _ _ E).
Qed.

Lemma set_pod_spec r n x r' : set_pod r n x = Ok r' →
  PodName r' = foldl next_text (PodName r) (if is_field "name" n then [x] else []) ∧
  PodUID_ r' = foldl next_text (PodUID_ r) (if is_field "uid" n then [x] else []) ∧
  Sub_ r' = Sub_ r ∧ Aud r' = Aud r ∧ NodeName r' = NodeName r.
Proof. unfold set_pod. field_cases; intros Hd; split_and!; text_step Hd. Qed.

Lemma set_node_spec r n x r' : set_node r n x = Ok r' →
  NodeName r' = foldl next_text (NodeName r) (if is_field "name" n then [x] else []) ∧
  Sub_ r' = Sub_ r ∧ Aud r' = Aud r ∧ PodName r' = PodName r ∧ PodUID_ r' = PodUID_ r.
Proof. unfold set_node. field_cases; intros Hd; split_and!; text_step Hd. Qed.

(** A component of a decoded struct, from the specification of its steps. *)
Ltac by_step spec Hd :=
  cbn [foldl];
  first [eapply decode_struct_found; [|exact Hd] | eapply decode_struct_frame; [|exact Hd]];
  let H := fresh in intros ? ? ? ? H; apply spec in H; destruct_and?; assumption.

Lemma set_k8s_spec r n x r' : set_k8s r n x = Ok r' →
  PodName r' = foldl next_text (PodName r) (if is_field "pod" n then found ["name"] x else []) ∧
  PodUID_ r' = foldl next_text (PodUID_ r) (if is_field "pod" n then found ["uid"] x else []) ∧
  NodeName r' = foldl next_text (NodeName r) (if is_field "node" n then found ["name"] x else []) ∧
  Sub_ r' = Sub_ r ∧ Aud r' = Aud r.
Proof.
  unfold set_k8s. field_cases; intros Hd; [| |by injection Hd as <-]; split_and!;
    first [by_step set_pod_spec Hd | by_step set_node_spec Hd].
Qed.

Lemma set_claim_spec r n x r' : set_claim r n x = Ok r' →
  Sub_ r' = foldl next_text (Sub_ r) (if is_field "sub" n then [x] else []) ∧
  Aud r' = foldl (λ _, audiences_of) (Aud r) (if is_field "aud" n then [x] else []) ∧
  PodName r' = foldl next_text (PodName r) (if is_field "kubernetes.io" n then found ["pod"; "name"] x else []) ∧
  PodUID_ r' = foldl next_text (PodUID_ r) (if is_field "kubernetes.io" n then found ["pod"; "uid"] x else []) ∧
  NodeName r' = foldl next_text (NodeName r) (if is_field "kubernetes.io" n then found ["node"; "name"] x else []).
Proof.
  unfold set_claim. field_cases; intros Hd.
  - split_and!; text_step Hd.
  - destruct (decode_audience x) as [l|] eqn:E; [|done]. injection Hd as <-. by rewrite (decode_audience_of _ _ E).
  - split_and!; by_step set_k8s_spec Hd.
  - by injection Hd as <-.
Qed.

Lemma decode_claims_of t raw : decode_claims (TPayload t) = Ok raw → claims_of t (token_claims t raw).
Proof.
  intros Hd. set (raw0 := MkRaw "" [] "" "" "").
  assert (Sub_ raw = foldl next_text (Sub_ raw0) (found ["sub"] (TPayload t))) by by_step set_claim_spec Hd.
  assert (Aud raw = foldl (λ _, audiences_of) (Aud raw0) (found ["aud"] (TPayload t))) by by_step set_claim_spec Hd.
  assert (PodName raw = foldl next_text (PodName raw0) (found ["kubernetes.io"; "pod"; "name"] (TPayload t)))
    by by_step set_claim_spec Hd.
  assert (PodUID_ raw = foldl next_text (PodUID_ raw0) (found ["kubernetes.io"; "pod"; "uid"] (TPayload t)))
    by by_step set_claim_spec Hd.
  assert (NodeName raw = foldl next_text (NodeName raw0) (found ["kubernetes.io"; "node"; "name"] (TPayload t)))
    by by_step set_claim_spec Hd.
  constructor; try done; unfold text_at, audiences_at; by rewrite <- ?foldl_next_text, <- ?foldl_next_audience.
Qed.

(** C34: What an accepted token guarantees. The verifier accepted the presented token and
    the returned claims are the token's in every field: subject, pod, pod UID and node
    are the texts its payload has there, the audiences those of its aud member (a text
    or a list), issuer, expiry and time of issue the verified ones. The token was
    issued no more than five minutes ahead of the clock, its whole lifetime is within
    the maximum, so it expires within the maximum plus five minutes from now; and
    unless the policy is switched off it names a pod and its UID. *)
Theorem validated_token_policy v h h' raw c :
  0 < maxLifetime v < int64_max → runs any_env (OIDCValidate v raw) h h' (Ok c) →
  ∃ idToken outcome now,
    (Ok idToken, outcome) ∈ verified raw h' ∧ now ∈ times h' ∧ claims_of idToken c ∧
    IssuedAt c ≤ now + 5 * Minute ∧ Expiry c - IssuedAt c ≤ maxLifetime v ∧
    Expiry c ≤ now + 5 * Minute + maxLifetime v ∧
    (allowNonPodBoundTokens v = false → Pod c ≠ EmptyString ∧ PodUID c ≠ EmptyString).
Proof.
  intros Hm Hr. destruct (runs_token_valid v h h' raw c Hr) as (t & o & r & now & H1 & H2 & Hd & -> & Hl & Hp).
  apply checkLifetime_None in Hl as (_ & Hi & Hx); [|done]. exists t, o, now.
  unfold maxIssuedAtSkew in Hi. split_and!; try done; [by apply decode_claims_of|simpl in *; lia..].
Qed.

(** The errors of go-oidc carry none of the bridge's sentinels: it formats the key
    set's errors as text. *)
Definition go_oidc_errors (h : log dans) (c : dcall) : dans c → Prop :=
  match c with
  | Verify _ => λ r, ∀ e s, r.1 = Err e → errors_Is e s = false
  | _ => λ _, True
  end.

Lemma plain_audience j : plain (decode_audience j).
Proof.
  assert (∀ l, plain (decode_strings l)) as Hl.
  { induction l as [|x l IH]; intros e s; [done|]. simpl. pose proof (plain_string "" x) as Hx.
    destruct (decode_string "" x), (decode_strings l); intros H; simplify_eq; solve [by apply IH | by apply Hx]. }
  intros e s. unfold decode_audience. destruct (decode_string "" j); [done|].
  destruct (decode_slice j) as [|y] eqn:E; intros H; simplify_eq. simpl. destruct j; simpl in E; simplify_eq; try done. by eapply Hl.
Qed.
#[local] Hint Resolve plain_audience : plain.

Lemma plain_claims payload : plain (decode_claims payload).
Proof.
  assert (∀ r k j, plain (set_pod r k j)) by (intros; unfold set_pod; repeat case_match; auto with plain).
  assert (∀ r k j, plain (set_node r k j)) by (intros; unfold set_node; repeat case_match; auto with plain).
  assert (∀ r k j, plain (set_k8s r k j)) by (intros; unfold set_k8s; repeat case_match; auto with plain).
  apply plain_struct. intros; unfold set_claim; repeat case_match; auto with plain.
Qed.

(** How a refusal reads. A validation error is either "keys unavailable", exactly
    when the verifier failed and the key set marked the outage, or "invalid token",
    never both; and a token the verifier accepted and whose claims decode is counted
    under the category of the bridge's own check that refused it. *)
Theorem validation_error_classes v h' raw e :
  runs go_oidc_errors (OIDCValidate v raw) [] h' (Err e) →
  (errors_Is e ErrSigningKeysUnavailable = true ↔ ∃ x, (Err x, true) ∈ verified raw h') ∧
  errors_Is e ErrInvalidToken = negb (errors_Is e ErrSigningKeysUnavailable) ∧
  (∀ t o r, (Ok t, o) ∈ verified raw h' → decode_claims (TPayload t) = Ok r →
     classifyOIDCError (Some e) = OIDCReasonExcessiveLifetime ∨
     classifyOIDCError (Some e) = OIDCReasonNotPodBound ∧ allowNonPodBoundTokens v = false).
Proof.
  revert h'. assert (wp go_oidc_errors (λ _ _, True) [] (OIDCValidate v raw) (λ h' r, match r with Ok _ => True | Err e =>
    (errors_Is e ErrSigningKeysUnavailable = true ↔ ∃ x, (Err x, true) ∈ verified raw h') ∧
    errors_Is e ErrInvalidToken = negb (errors_Is e ErrSigningKeysUnavailable) ∧
    (∀ t o r, (Ok t, o) ∈ verified raw h' → decode_claims (TPayload t) = Ok r →
       classifyOIDCError (Some e) = OIDCReasonExcessiveLifetime ∨
       classifyOIDCError (Some e) = OIDCReasonNotPodBound ∧ allowNonPodBoundTokens v = false) end)) as Hwp;
    [|intros h' Hr; exact (wp_post _ _ _ _ Hwp h' (Err e) Hr)].
  unfold OIDCValidate. wp_call; [done|]. intros [[t|x] flag] Henv.
  - assert (∀ h y, verified raw h = [(Ok t, flag)] → errors_Is y ErrSigningKeysUnavailable = false →
      (errors_Is (EJoin (ESentinel ErrInvalidToken) y) ErrSigningKeysUnavailable = true ↔
         ∃ x, (Err x, true) ∈ verified raw h) ∧
      errors_Is (EJoin (ESentinel ErrInvalidToken) y) ErrInvalidToken =
        negb (errors_Is (EJoin (ESentinel ErrInvalidToken) y) ErrSigningKeysUnavailable)) as Hinv.
    { intros h y Hh Hy. simpl. rewrite Hy, Hh. split; [|done]. split; [done|]. by intros [x Hx%list_elem_of_singleton]. }
    assert (verified raw [existT (Verify raw) (Ok t, flag)] = [(Ok t, flag)]) as Hv by (by unfold verified, answers; simpl; rewrite String.eqb_refl).
    destruct (decode_claims (TPayload t)) as [r|y] eqn:Ed.
    2:{ destruct (Hinv _ (EWrap "parse claims" y) Hv) as [H1 H2]; [exact (plain_claims _ _ _ Ed)|].
        split_and!; [exact H1|exact H2|]. intros t' o r Hin Hd.
        assert ((Ok t', o) ∈ [(Ok t, flag)]) as Hin' by (rewrite <- Hv; exact Hin).
        apply list_elem_of_singleton in Hin'. congruence. }
    wp_call; [done|]. intros now _.
    assert (verified raw [existT TimeNow now; existT (Verify raw) (Ok t, flag)] = [(Ok t, flag)]) as Hv' by exact Hv.
    destruct (checkLifetime _ _ _ _) as [y|] eqn:El.
    + assert (errors_Is y ErrTokenLifetime = true ∧ errors_Is y ErrSigningKeysUnavailable = false) as [Hy1 Hy2].
      { revert El. unfold checkLifetime. repeat case_match; intros [= <-]; done. }
      destruct (Hinv _ y Hv' Hy2) as [H1 H2]. split_and!; [exact H1|exact H2|]. intros _ _ _ _ _. left.
      unfold classifyOIDCError. cbn [errors_Is]. by rewrite Hy1, orb_true_r.
    + destruct (negb (allowNonPodBoundTokens v) && _) eqn:Ep; [|done].
      destruct (Hinv _ (EJoin (ESentinel ErrTokenNotPodBound) (EMsg "no kubernetes.io pod name and uid")) Hv' eq_refl) as [H1 H2].
      split_and!; [exact H1|exact H2|]. intros _ _ _ _ _. right. bsimpl. done.
  - simpl in Henv. split_and!.
    + simpl. rewrite (Henv x ErrSigningKeysUnavailable eq_refl), orb_false_r. unfold verified, answers. simpl.
      rewrite String.eqb_refl. split; destruct flag; try done; [intros _; exists x; left|].
      intros [y Hy]. apply list_elem_of_singleton in Hy. simplify_eq.
    + simpl. rewrite !(Henv x _ eq_refl). by destruct flag.
    + intros t o r. unfold verified, answers. simpl. rewrite String.eqb_refl.
      intros Hx. apply list_elem_of_singleton in Hx. simplify_eq.
Qed.

(** ** A concrete token *)

Definition demo_now : Time := 63900000000 * Second.

Definition demo_payload (aud : json) (pod : string) : json :=
  JObject [("iss", JString "https://issuer"); ("sub", JString "system:serviceaccount:team-a:app"); ("aud", aud);
           ("kubernetes.io", JObject [("pod", JObject [("name", JString pod); ("uid", JString "u-1")]);
                                      ("node", JObject [("name", JString "node-1")])])].

Definition demo_token (pod : string) : IDToken :=
  MkIDToken "https://issuer" (demo_now + 50 * Minute) (demo_now - 10 * Minute) (demo_payload (JArray [JString "harbor"]) pod).

Definition demo_validator : goOIDCValidator := MkValidator Hour false.

Definition demo_claims : Claims :=
  MkClaims "system:serviceaccount:team-a:app" ["harbor"] "https://issuer" (demo_now + 50 * Minute)
    (demo_now - 10 * Minute) "app-0" "u-1" "node-1".

Definition token_log (pod : string) : log dans :=
  [existT TimeNow demo_now; existT (Verify "tok") (Ok (demo_token pod), false)].

Lemma validated_token_policy_witness :
  ∃ idToken outcome now,
    (Ok idToken, outcome) ∈ verified "tok" (token_log "app-0") ∧ now ∈ times (token_log "app-0") ∧
    claims_of idToken demo_claims ∧
    IssuedAt demo_claims ≤ now + 5 * Minute ∧ Expiry demo_claims - IssuedAt demo_claims ≤ maxLifetime demo_validator ∧
    Expiry demo_claims ≤ now + 5 * Minute + maxLifetime demo_validator ∧
    (allowNonPodBoundTokens demo_validator = false → Pod demo_claims ≠ EmptyString ∧ PodUID demo_claims ≠ EmptyString).
Proof.
  apply (validated_token_policy demo_validator []); [by vm_compute|].
  exists (Ok (demo_token "app-0"), false). split; [done|]. exists demo_now. split; [done|]. vm_compute. split; reflexivity.
Defined.

Lemma validation_error_classes_witness :
  let e := EJoin (ESentinel ErrInvalidToken) (EJoin (ESentinel ErrTokenNotPodBound) (EMsg "no kubernetes.io pod name and uid")) in
  (errors_Is e ErrSigningKeysUnavailable = true ↔ ∃ x, (Err x, true) ∈ verified "tok" (token_log "")) ∧
  errors_Is e ErrInvalidToken = negb (errors_Is e ErrSigningKeysUnavailable) ∧
  (∀ t o r, (Ok t, o) ∈ verified "tok" (token_log "") → decode_claims (TPayload t) = Ok r →
     classifyOIDCError (Some e) = OIDCReasonExcessiveLifetime ∨
     classifyOIDCError (Some e) = OIDCReasonNotPodBound ∧ allowNonPodBoundTokens demo_validator = false).
Proof.
  intros e. apply (validation_error_classes demo_validator (token_log "") "tok" e).
  exists (Ok (demo_token ""), false). split; [intros ? ? [=]|]. exists demo_now. split; [done|]. vm_compute. split; reflexivity.
Defined.

(** An [aud] claim may be a string or a list; [null] reads as one empty audience, which
    the handler never honours. *)
Lemma decode_audience_shapes :
  decode_audience (JString "harbor") = Ok ["harbor"] ∧ decode_audience (JArray [JString "a"; JString "b"]) = Ok ["a"; "b"] ∧
  decode_audience JNull = Ok [""] ∧ is_ok (decode_audience (JNumber "1")) = false.
Proof. done. Qed.
