(* ===== verification/Handler.v ===== *)
(** * The credential endpoint

    Models bridge/dataplane/handler.go: the HTTP handler that authenticates a pod's
    ServiceAccount token, finds the HarborAccess it stands for and hands out the robot's
    credentials. ServeHTTP is translated whole, as a program over the calls of
    [DataPlane]; the text of error pages, every counter and every audit line is kept.
    The request body's JSON text is read by a parameter, its decoding is modelled. *)

From S2P Require Import Prelude Effects GoStrings GoStd GoTime Naming Api RobotSecret RateLimit Json DataPlane Oidc.

Definition CredentialsPath : string := "/v1/credentials".
Definition maxRequestBodyBytes : Z := Z.shiftl 64 10.
Definition cacheKeyTypeRegistry : string := "Registry".
Definition maxAuditImageLen : Z := 512.

Definition ResultOK : string := "ok".
Definition ResultUnauthorized : string := "unauthorized".
Definition ResultForbidden : string := "forbidden".
Definition ResultUnavailable : string := "unavailable".
Definition ResultBadRequest : string := "bad_request".
Definition ResultServerError : string := "server_error".
Definition ResultRateLimited : string := "rate_limited".

(** ** Requests and responses *)

(** [*http.Request]: [ClientCert] is the subject of the first peer certificate, [Body]
    is [None] for a nil body. *)
Record httpRequest := MkRequest {
  Method : string; Path : string; RemoteAddr : string; ClientCert : option string; Authorization : string;
  Body : option string; ContentLength : Z
}.

Record Request := MkReq { Image : string }.
Record Response := MkResponse { Username : string; Password : string; ExpiresInSecs : Z; CacheKeyType : string }.

Inductive httpBody := Text (s : string) | Encoded (r : Response).
Record httpResponse := MkHTTP { Code : Z; Header : list (string * string); Content : httpBody }.

(** [http.Error] and [http.NotFound]. *)
Definition http_error (msg : string) (code : Z) : httpResponse := MkHTTP code [] (Text msg).
Definition http_NotFound : httpResponse := http_error "404 page not found" 404.

Record HandlerConfig := MkHandlerConfig {
  BridgeNamespace : string; HForceLocalValidation : bool; HAudience : string;
  RobotUsername : option (string → string → res string)
}.

Record robotCreds := MkCreds { username : string; password : string; rotationNotBefore : option Time }.

(** ** Pure parts *)

(** Go's string slicing counts bytes. *)
Definition truncate (s : string) (n : Z) : string := if len s <=? n then s else slice_to s n +:+ ellipsis.

Definition callerFields (r : httpRequest) : list (string * field) :=
  ("source", FStr (sourceIP (RemoteAddr r)))
    :: match ClientCert r with Some subject => [("client_cert", FStr subject)] | None => [] end.

Definition claimFields (c : Claims) : list (string * field) :=
  [("subject", FStr (Subject c)); ("pod", FStr (Pod c)); ("pod_uid", FStr (PodUID c)); ("node", FStr (Node c))].

Definition specError (ha : HarborAccess) : option gerr :=
  match TTL_Err (TokenTTL (Spec ha)) with
  | Some e => Some (EWrap "spec.tokenTTL" e)
  | None => None
  end.

Definition harborAccessSubject (ha : HarborAccess) : string :=
  "system:serviceaccount:" +:+ SANamespace (SARef (Spec ha)) +:+ ":" +:+ SAName (SARef (Spec ha)).

Definition cacheDuration (tokenTTL : Duration) (notBefore : option Time) (now : Time) : Duration :=
  let ttl := if tokenTTL <=? 0 then Hour else tokenTTL in
  match notBefore with
  | None => ttl
  | Some notBefore =>
      let remaining := Sub notBefore now in
      if remaining <=? 0 then 0
      else if remaining <? ttl then TruncateDur remaining Second
      else ttl
  end.

(** ** Matching *)

Section Match.
Variable cfg : HandlerConfig.
Variable claims : Claims.

(** The body of the loop over the listed objects: the audience that matched. *)
Definition match_audience (ha : HarborAccess) : option string :=
  let trust := Trust (Spec ha) in
  if String.eqb (Audience trust) "" || String.eqb (Issuer trust) "" then None
  else if negb (String.eqb (Audience trust) (HAudience cfg)) then None
  else if negb (String.eqb (harborAccessSubject ha) (Subject claims)) then None
  else if negb (String.eqb (Issuer trust) (CIssuer claims)) then None
  else find (λ aud, negb (String.eqb aud "") && String.eqb aud (Audience trust)) (CAudience claims).

Definition matched : Type := HarborAccess * string.

Fixpoint collect (del : bool) (items : list HarborAccess) : list matched :=
  match items with
  | [] => []
  | ha :: items =>
      match match_audience ha with
      | Some aud => if Bool.eqb (deleting ha) del then (ha, aud) :: collect del items else collect del items
      | None => collect del items
      end
  end.

(** The order of [byName]; the sort puts a first of two whenever not "b less than a". *)
Definition by_name_less (a b : matched) : bool :=
  let '(ha, hb) := (Meta a.1, Meta b.1) in
  if negb (String.eqb (Namespace ha) (Namespace hb)) then String.ltb (Namespace ha) (Namespace hb)
  else String.ltb (OName ha) (OName hb).
Definition by_name_le (a b : matched) : Prop := by_name_less b a = false.
#[export] Instance by_name_le_dec a b : Decision (by_name_le a b).
Proof. unfold by_name_le. apply _. Defined.
Definition byName (l : list matched) : list matched := merge_sort by_name_le l.

(** [findHarborAccess] on the listed objects: the match and its audience, and the
    object being deleted when nothing else matches. *)
Definition selectHarborAccess (items : list HarborAccess) : option matched * option HarborAccess :=
  let matches := collect false items in
  let deletingMatches := collect true items in
  match matches with
  | [] => (None, match byName deletingMatches with [] => None | m :: _ => Some m.1 end)
  | _ => (match byName matches with [] => None | m :: _ => Some m end, None)
  end.
End Match.

(** ** The handler *)

Section Handler.
Context `{V : Validator}.
Variable cfg : HandlerConfig.
(** Whether [Metrics] is set. *)
Variable metrics : bool.
(** The first JSON value of a body. *)
Variable read_json : string → res json.

Definition recordResult (result : string) : data unit :=
  if metrics then trigger (IncIssuances result) else Ret tt.
Definition recordOIDCFailure (category : string) : data unit :=
  if metrics then trigger (IncOIDCFailures category) else Ret tt.

Definition set_request (r : Request) (k : string) (j : json) : res Request :=
  if is_field "image" k then res_map MkReq (decode_string (Image r) j) else Ok r.

(** [json.NewDecoder(http.MaxBytesReader(w, r.Body, maxRequestBodyBytes)).Decode(&req)]. *)
Definition decodeBody (body : string) : res Request :=
  match read_json (slice_to body maxRequestBodyBytes) with
  | Err e => Err e
  | Ok j => decode_struct set_request (MkReq "") j
  end.

(** The body is optional; a body that is present must parse. *)
Definition requestBody (r : httpRequest) : res Request :=
  match Body r with
  | Some body => if negb (ContentLength r =? 0) then decodeBody body else Ok (MkReq "")
  | None => Ok (MkReq "")
  end.

Definition findHarborAccess (claims : Claims) : data (res (option matched * option HarborAccess)) :=
  r ← trigger (ListHABySubject (Subject claims));
  match r with
  | Err e => Ret (Err (EWrap "list HarborAccess" e))
  | Ok items => Ret (Ok (selectHarborAccess cfg claims items))
  end.

Definition robotUsername (ha : HarborAccess) : res string :=
  match RobotUsername cfg with
  | None => Err (EMsg "HandlerConfig.RobotUsername is not set")
  | Some f => f (SANamespace (SARef (Spec ha))) (SAName (SARef (Spec ha)))
  end.

Definition readRobotSecret (ha : HarborAccess) : data (res robotCreds) :=
  let ns := Namespace (Meta ha) in
  let name := OName (Meta ha) in
  r ← trigger (ReadSecret (BridgeNamespace cfg) (SecretName ns name));
  match r with
  | Err e => Ret (Err e)
  | Ok secret =>
      if negb (IsManaged secret) then Ret (Err (EWrap "not managed by the bridge" (ESentinel errSecretOwnerMismatch)))
      else if StampedForOther secret ns name
      then Ret (Err (EWrap "stamped for another HarborAccess" (ESentinel errSecretOwnerMismatch)))
      else match Credentials secret with
      | Err e => Ret (Err e)
      | Ok (user, pass) => Ret (Ok (MkCreds user pass (RotationNotBefore secret)))
      end
  end.

Definition writeResponse (creds : robotCreds) (ttl : Duration) : httpResponse :=
  MkHTTP 200 [("Content-Type", "application/json"); ("Cache-Control", "no-store")]
    (Encoded (MkResponse (username creds) (password creds) (Z.quot ttl Second) cacheKeyTypeRegistry)).

Definition ha_field (ha : HarborAccess) : string * field :=
  ("harboraccess", FStr (Namespace (Meta ha) +:+ "/" +:+ OName (Meta ha))).
Definition image_field (req : Request) : string * field :=
  ("requested_image", FStr (truncate (Image req) maxAuditImageLen)).

Definition auditIssuance (caller : list (string * field)) (claims : Claims) (m : matched) (req : Request)
    (robotName : string) (ttl : Duration) : data unit :=
  trigger (AuditLine "credential issued" (caller ++ claimFields claims ++
    [("audience", FStr m.2); ha_field m.1; ("generation", FInt (Generation (Meta m.1))); ("robot", FStr robotName);
     ("ttl_seconds", FInt (Z.quot ttl Second)); image_field req])).

(** The audit line, the counter and the page of a request that is refused after the
    token was judged. *)
Definition refuse_with (msg : string) (fields : list (string * field)) (page : string) (code : Z) (result : string)
    : data httpResponse :=
  _ ← trigger (AuditLine msg fields);
  _ ← recordResult result;
  Ret (http_error page code).

(** Steps 3 to 5: the credentials of the matched object. *)
Definition serveMatched (caller : list (string * field)) (claims : Claims) (req : Request) (m : matched)
    : data httpResponse :=
  let ha := m.1 in
  let who := caller ++ claimFields claims in
  r ← readRobotSecret ha;
  match r with
  | Err e =>
      if errors_Is e errSecretOwnerMismatch then
        refuse_with "credential denied" (who ++ [("reason", FStr "secret_owner_mismatch"); ha_field ha; image_field req])
          "credential Secret ownership mismatch" 403 ResultForbidden
      else if IsNotFound e then
        _ ← trigger (AuditLine "credential unavailable" (who ++ [("reason", FStr "secret_missing"); ha_field ha; image_field req]));
        _ ← (if metrics then trigger IncSecretMissing else Ret tt);
        _ ← recordResult ResultUnavailable;
        Ret (http_error "credentials not yet available; retry" 503)
      else
        refuse_with "credential unavailable" (who ++ [("reason", FStr "secret_unreadable"); ha_field ha; ("err", FErr e); image_field req])
          "internal error" 500 ResultServerError
  | Ok creds =>
      match robotUsername ha with
      | Err e =>
          refuse_with "credential unavailable" (who ++ [("reason", FStr "robot_name_unknown"); ha_field ha; ("err", FErr e); image_field req])
            "internal error" 500 ResultServerError
      | Ok want =>
          if negb (String.eqb (username creds) want) then
            refuse_with "credential unavailable" (who ++ [("reason", FStr "secret_for_previous_identity"); ha_field ha;
                ("robot", FStr (username creds)); ("expected_robot", FStr want); image_field req])
              "credentials not yet available; retry" 503 ResultUnavailable
          else
            now ← trigger TimeNow;
            let ttl := cacheDuration (TDuration (TokenTTL (Spec ha))) (rotationNotBefore creds) now in
            _ ← auditIssuance caller claims m req (username creds) ttl;
            _ ← recordResult ResultOK;
            Ret (writeResponse creds ttl)
      end
  end.

(** Step 2: the HarborAccess of the validated claims. *)
Definition serveClaims (caller : list (string * field)) (claims : Claims) (req : Request) : data httpResponse :=
  let who := caller ++ claimFields claims in
  r ← findHarborAccess claims;
  match r with
  | Err e =>
      _ ← trigger (AuditLine "credential unavailable" (who ++ [("reason", FStr "harboraccess_lookup_failed"); ("err", FErr e); image_field req]));
      _ ← (if metrics then trigger IncLookupFailures else Ret tt);
      _ ← recordResult ResultServerError;
      Ret (http_error "internal error" 500)
  | Ok (None, Some deletingHA) =>
      refuse_with "credential denied" (who ++ [("reason", FStr "harboraccess_deleting"); ha_field deletingHA; image_field req])
        "the HarborAccess for the requesting service account is being deleted" 403 ResultForbidden
  | Ok (None, None) =>
      refuse_with "credential denied" (who ++ [("reason", FStr "no_matching_harboraccess"); ("audiences", FStrs (CAudience claims)); image_field req])
        "no matching HarborAccess for the requesting service account and audience" 403 ResultForbidden
  | Ok (Some m, _) =>
      match specError m.1 with
      | Some e =>
          refuse_with "credential denied" (who ++ [("reason", FStr "invalid_harboraccess_spec"); ha_field m.1; ("err", FErr e); image_field req])
            "the matching HarborAccess has an invalid spec; see its Ready condition" 403 ResultForbidden
      | None => serveMatched caller claims req m
      end
  end.

(** Step 1: the token. *)
Definition serveToken (caller : list (string * field)) (rawToken : string) (req : Request) : data httpResponse :=
  r ← Validate rawToken;
  match r with
  | Err e =>
      if errors_Is e ErrSigningKeysUnavailable then
        _ ← trigger (AuditLine "credential unavailable"
              (caller ++ [("reason", FStr "signing_keys_unavailable"); ("err", FErr e); image_field req]));
        _ ← recordOIDCFailure OIDCReasonKeysUnavailable;
        _ ← recordResult ResultUnavailable;
        Ret (http_error "token signing keys unavailable; retry" 503)
      else
        let category := classifyOIDCError (Some e) in
        _ ← trigger (AuditLine "credential denied"
              (caller ++ [("reason", FStr "invalid_token"); ("category", FStr category); ("err", FErr e); image_field req]));
        _ ← recordOIDCFailure category;
        _ ← recordResult ResultUnauthorized;
        Ret (http_error "invalid token" 401)
  | Ok claims => serveClaims caller claims req
  end.

(** After the rate limiter. *)
Definition serveLimited (r : httpRequest) : data httpResponse :=
  if negb (HForceLocalValidation cfg) then
    _ ← recordResult ResultServerError;
    Ret (http_error "alternative validation path not yet implemented; set forceLocalValidation=true" 501)
  else match CutPrefix (Authorization r) "Bearer " with
  | None | Some EmptyString =>
      _ ← recordResult ResultUnauthorized;
      Ret (http_error "missing Bearer credential" 401)
  | Some rawToken =>
      match requestBody r with
      | Err _ =>
          _ ← recordResult ResultBadRequest;
          Ret (http_error "invalid JSON body" 400)
      | Ok req => serveToken (callerFields r) rawToken req
      end
  end.

Definition ServeHTTP (r : httpRequest) : data httpResponse :=
  if negb (String.eqb (Method r) "POST") then Ret (http_error "method not allowed" 405)
  else if negb (String.eqb (Path r) CredentialsPath) then Ret http_NotFound
  else
    ok ← trigger (Allow (sourceIP (RemoteAddr r)));
    if negb ok then
      _ ← recordResult ResultRateLimited;
      Ret (MkHTTP 429 [("Retry-After", "1")] (Text "too many requests"))
    else
      resp ← serveLimited r;
      _ ← (if metrics then trigger ObserveDuration else Ret tt);
      Ret resp.
End Handler.
