(* ===== verification/HandlerProps.v ===== *)
(** * Properties of the credential endpoint

    To whom credentials go, which HarborAccess a token stands for, how long the kubelet
    may cache the answer, and that every request is counted and audited once. Proved
    for every implementation of the [Validator] interface and for arbitrary answers of
    the services. *)

From S2P Require Import Prelude Effects GoStrings GoStd GoTime Naming HarborPerms Api RobotSecret RateLimit Json.
From S2P Require Import DataPlane.
From S2P Require Import Oidc Handler.

(** ** Matching *)

(** The claims entitle their bearer to the robot of [ha]. *)
Record entitled (cfg : HandlerConfig) (claims : Claims) (ha : HarborAccess) : Prop := {
  ent_subject : Subject claims = harborAccessSubject ha;
  ent_issuer : CIssuer claims = Issuer (Trust (Spec ha));
  ent_issuer_set : Issuer (Trust (Spec ha)) ≠ EmptyString;
  ent_audience : Audience (Trust (Spec ha)) = HAudience cfg;
  ent_audience_set : HAudience cfg ≠ EmptyString;
  ent_granted : HAudience cfg ∈ CAudience claims
}.

Lemma find_eqb (l : list string) x y :
  x ≠ EmptyString → find (λ a, negb (String.eqb a "") && String.eqb a x) l = Some y ↔ y = x ∧ x ∈ l.
Proof.
  intros Hx. induction l as [|a l IH]; simpl; [split; [done|intros [_ ?%not_elem_of_nil]; done]|].
  destruct (String.eqb_spec a x) as [->|Hne].
  - apply String.eqb_neq in Hx as ->. simpl. split; [intros [= <-]; split; [done|left]|by intros [-> _]].
  - rewrite andb_false_r, IH, elem_of_cons. split; intros [-> ?]; split; auto. destruct H as [?|?]; [by subst|done].
Qed.

Lemma match_audience_Some cfg claims ha aud :
  match_audience cfg claims ha = Some aud ↔ entitled cfg claims ha ∧ aud = HAudience cfg.
Proof.
  unfold match_audience.
  destruct (String.eqb_spec (Audience (Trust (Spec ha))) "") as [E1|E1];
    [split; [done|intros [[] _]; congruence]|].
  destruct (String.eqb_spec (Issuer (Trust (Spec ha))) "") as [E2|E2]; [split; [done|intros [[] _]; congruence]|].
  destruct (String.eqb_spec (Audience (Trust (Spec ha))) (HAudience cfg)) as [E3|E3]; [|split; [done|intros [[] _]; congruence]].
  destruct (String.eqb_spec (harborAccessSubject ha) (Subject claims)) as [E4|E4]; [|split; [done|intros [[] _]; congruence]].
  destruct (String.eqb_spec (Issuer (Trust (Spec ha))) (CIssuer claims)) as [E5|E5]; [|split; [done|intros [[] _]; congruence]].
  simpl. rewrite find_eqb by done. rewrite E3. split.
  - intros [-> Hin]. split; [|done]. constructor; congruence.
  - intros [[] ->]. done.
Qed.

Lemma elem_of_collect cfg claims del items m :
  m ∈ collect cfg claims del items ↔
  m.1 ∈ items ∧ entitled cfg claims m.1 ∧ deleting m.1 = del ∧ m.2 = HAudience cfg.
Proof.
  destruct m as [ha aud]. simpl. induction items as [|x items IH]; simpl; [split; [by intros ?%not_elem_of_nil|by intros [?%not_elem_of_nil _]]|].
  rewrite elem_of_cons. destruct (match_audience cfg claims x) as [a|] eqn:E.
  - destruct (Bool.eqb_spec (deleting x) del) as [Ed|Ed].
    + rewrite elem_of_cons, IH. apply match_audience_Some in E as [He ->]. split.
      * intros [[= -> ->]|(? & ? & ? & ?)]; auto.
      * intros ([->| ?] & ? & ? & ->); auto.
    + rewrite IH. split; [naive_solver|]. intros ([->|?] & ? & ? & ->); auto. done.
  - rewrite IH. split; [naive_solver|]. intros ([->|?] & He & ? & ->); [|auto].
    assert (match_audience cfg claims x = Some (HAudience cfg)) by (by apply match_audience_Some). congruence.
Qed.

Lemma collect_permutation cfg claims del items items' :
  items ≡ₚ items' → collect cfg claims del items ≡ₚ collect cfg claims del items'.
Proof.
  induction 1 as [|x l l' _ IH|x y l|l1 l2 l3 _ IH1 _ IH2]; simpl; [done| | |by etrans].
  - destruct (match_audience cfg claims x); [|done]. destruct (Bool.eqb (deleting x) del); [by f_equiv|done].
  - destruct (match_audience cfg claims x), (match_audience cfg claims y);
      repeat match goal with |- context [if ?b then _ else _] => destruct b end; try done. constructor.
Qed.

(** *** The order by namespace and name *)

Definition key (m : matched) : string * string := (Namespace (Meta m.1), OName (Meta m.1)).

Lemma by_name_le_alt a b :
  by_name_le a b ↔
  if decide ((key a).1 = (key b).1) then String.le (key a).2 (key b).2 else String.le (key a).1 (key b).1.
Proof.
  unfold by_name_le, by_name_less, String.le, key. simpl.
  destruct (String.eqb_spec (Namespace (Meta b.1)) (Namespace (Meta a.1))) as [E|E].
  - rewrite decide_True by done. simpl. by rewrite ltb_leb, negb_false_iff, Is_true_true.
  - rewrite decide_False by done. simpl. by rewrite ltb_leb, negb_false_iff, Is_true_true.
Qed.

#[export] Instance by_name_le_total : Total by_name_le.
Proof.
  intros a b. rewrite !by_name_le_alt. destruct (decide ((key a).1 = (key b).1)) as [E|E].
  - rewrite decide_True by done. apply (total String.le).
  - rewrite decide_False by done. apply (total String.le).
Qed.

#[export] Instance by_name_le_trans : Transitive by_name_le.
Proof.
  intros a b c. rewrite !by_name_le_alt.
  destruct (decide ((key a).1 = (key b).1)) as [E1|E1], (decide ((key b).1 = (key c).1)) as [E2|E2].
  - rewrite decide_True by congruence. intros. by trans (key b).2.
  - rewrite decide_False by congruence. by rewrite E1.
  - rewrite decide_False by congruence. by rewrite <- E2.
  - intros H1 H2. destruct (decide ((key a).1 = (key c).1)) as [E3|E3]; [|by trans (key b).1].
    exfalso. apply E1. apply (anti_symm String.le); [done|]. by rewrite E3.
Qed.

Lemma by_name_antisymm a b : by_name_le a b → by_name_le b a → key a = key b.
Proof.
  rewrite !by_name_le_alt. destruct (decide ((key a).1 = (key b).1)) as [E|E].
  - rewrite decide_True by done. intros H1 H2. apply injective_projections; [done|]. by apply (anti_symm String.le).
  - rewrite decide_False by done. intros H1 H2. exfalso. apply E. by apply (anti_symm String.le).
Qed.

(** The head of the sorted matches is the least. *)
Lemma byName_head l m rest : byName l = m :: rest → m ∈ l ∧ ∀ x, x ∈ l → by_name_le m x.
Proof.
  intros E. unfold byName in E. pose proof (merge_sort_Permutation by_name_le l) as Hp. rewrite E in Hp.
  assert (StronglySorted by_name_le (m :: rest)) as Hs by (rewrite <- E; apply StronglySorted_merge_sort; apply _).
  apply StronglySorted_inv in Hs as [_ Hall]. split; [rewrite <- Hp; left|].
  intros x Hx. rewrite <- Hp in Hx. apply elem_of_cons in Hx as [->|Hx].
  - destruct (total by_name_le m m); done.
  - rewrite Forall_forall in Hall. by apply Hall.
Qed.

Lemma byName_nil l : byName l = [] → l = [].
Proof. intros E. pose proof (merge_sort_Permutation by_name_le l) as Hp. unfold byName in E. rewrite E in Hp. by apply Permutation_nil. Qed.

(** What the selection returns, in every case. *)
Lemma select_cases cfg claims items :
  match selectHarborAccess cfg claims items with
  | (Some m, d) => d = None ∧ m ∈ collect cfg claims false items ∧ (∀ x, x ∈ collect cfg claims false items → by_name_le m x)
  | (None, Some d) => collect cfg claims false items = [] ∧
      ∃ m, d = m.1 ∧ m ∈ collect cfg claims true items ∧ (∀ x, x ∈ collect cfg claims true items → by_name_le m x)
  | (None, None) => collect cfg claims false items = [] ∧ collect cfg claims true items = []
  end.
Proof.
  unfold selectHarborAccess. destruct (collect cfg claims false items) as [|x l] eqn:E.
  - destruct (byName (collect cfg claims true items)) as [|m rest] eqn:Eb; [by apply byName_nil in Eb|].
    apply byName_head in Eb as [Hin Hle]. eauto 6.
  - destruct (byName (x :: l)) as [|m rest] eqn:Eb; [by apply byName_nil in Eb|].
    apply byName_head in Eb as [Hin Hle]. done.
Qed.

(** Objects of one listing differ in namespace or name. *)
Definition distinct_objects (items : list HarborAccess) : Prop :=
  ∀ a b, a ∈ items → b ∈ items → Namespace (Meta a) = Namespace (Meta b) → OName (Meta a) = OName (Meta b) → a = b.

Lemma least_unique cfg claims del items items' m m' :
  items ≡ₚ items' → distinct_objects items →
  m ∈ collect cfg claims del items → (∀ x, x ∈ collect cfg claims del items → by_name_le m x) →
  m' ∈ collect cfg claims del items' → (∀ x, x ∈ collect cfg claims del items' → by_name_le m' x) → m = m'.
Proof.
  intros Hp Hd Hm Hle Hm' Hle'. pose proof (collect_permutation cfg claims del _ _ Hp) as Hc.
  assert (key m = key m') as [= En Eo].
  { apply by_name_antisymm; [apply Hle; by rewrite Hc|apply Hle'; by rewrite <- Hc]. }
  rewrite <- Hc in Hm'. apply elem_of_collect in Hm as (Hi & _ & _ & Ea), Hm' as (Hi' & _ & _ & Ea').
  apply injective_projections; [by apply Hd|congruence].
Qed.

(** Which HarborAccess a token stands for does not depend on the order in which the
    cache lists them: replicas and restarts agree, and several matches never flip a
    workload between permission sets. *)
Theorem selection_order_independent cfg claims items items' :
  items ≡ₚ items' → distinct_objects items →
  selectHarborAccess cfg claims items = selectHarborAccess cfg claims items'.
Proof.
  intros Hp Hd. pose proof (select_cases cfg claims items) as H1. pose proof (select_cases cfg claims items') as H2.
  pose proof (collect_permutation cfg claims false _ _ Hp) as Hc.
  pose proof (collect_permutation cfg claims true _ _ Hp) as Hc'.
  destruct (selectHarborAccess cfg claims items) as [[m|] [d|]], (selectHarborAccess cfg claims items') as [[m'|] [d'|]];
    destruct_and?; try done.
  all: repeat match goal with H : ∃ _, _ |- _ => destruct H as (? & -> & ? & ?) end.
  all: try (match goal with
    | E : collect _ _ ?b _ = [], Hin : _ ∈ collect _ _ ?b _, Hpm : collect _ _ ?b _ ≡ₚ collect _ _ ?b _ |- _ =>
        exfalso; revert Hin; first [rewrite <- Hpm, E | rewrite Hpm, E]; apply not_elem_of_nil
    end).
  - do 2 f_equal. by eapply (least_unique cfg claims false).
  - do 3 f_equal. by eapply (least_unique cfg claims true).
Qed.

(** ** Credentials *)

Section Issue.
Context `{V : Validator}.
Variable cfg : HandlerConfig.
Variable metrics : bool.
Variable read_json : string → res json.

(** The log shows that [ha] is live, valid and listed for [claims], and that the
    Secret stamped for it holds [resp]. *)
Record issued_for (claims : Claims) (ha : HarborAccess) (secret : Secret) (now : Time) (h : log dans) (resp : Response) : Prop := {
  if_entitled : entitled cfg claims ha;
  if_live : deleting ha = false;
  if_spec : TTL_Err (TokenTTL (Spec ha)) = None;
  if_listed : ∃ items, Ok items ∈ listed (Subject claims) h ∧ ha ∈ items;
  if_secret : Ok secret ∈ secrets (BridgeNamespace cfg) (SecretName (Namespace (Meta ha)) (OName (Meta ha))) h;
  if_managed : IsManaged secret = true;
  if_stamped : StampedForOther secret (Namespace (Meta ha)) (OName (Meta ha)) = false;
  if_creds : Credentials secret = Ok (Username resp, Password resp);
  if_robot : robotUsername cfg ha = Ok (Username resp);
  if_type : CacheKeyType resp = cacheKeyTypeRegistry;
  if_now : now ∈ times h;
  if_expires : ExpiresInSecs resp =
    Z.quot (cacheDuration (TDuration (TokenTTL (Spec ha))) (RotationNotBefore secret) now) Second
}.

Lemma issued_for_mono claims ha secret now h l resp :
  issued_for claims ha secret now h resp → issued_for claims ha secret now (l ++ h) resp.
Proof.
  intros [??? (items & ? & ?) ????????]. constructor; try done; try (by apply answers_mono).
  exists items. split; [by apply answers_mono|done].
Qed.

(** A response that carries credentials carries the ones [P] describes. *)
Definition carries (P : log dans → Response → Prop) (h : log dans) (resp : httpResponse) : Prop :=
  ∀ r, Content resp = Encoded r → Code resp = 200 ∧ P h r.

Lemma carries_text P h code hd s : carries P h (MkHTTP code hd (Text s)).
Proof. by intros r. Qed.

Lemma wp_recordResult b r h (Q : log dans → unit → Prop) :
  (∀ l, Q (l ++ h) tt) → wp any_env (λ _ _, True) h (recordResult b r) Q.
Proof.
  intros HQ. unfold recordResult. destruct b; [|exact (HQ [])]. split; [done|]. intros [] _. exact (HQ [_]).
Qed.

Lemma wp_refuse_with P msg fields page code result h :
  wp any_env (λ _ _, True) h (refuse_with metrics msg fields page code result) (carries P).
Proof.
  unfold refuse_with. wp_call; [done|]. intros [] _. apply wp_bind, wp_recordResult. intros l. apply carries_text.
Qed.

(** Steps over counters and audit lines up to a page without credentials. *)
Ltac wp_page := repeat first
  [ exact (carries_text _ _ _ _ _) | apply wp_refuse_with | apply wp_bind, wp_recordResult; intros ?
  | wp_call; [done|]; intros [] _
  | unfold recordOIDCFailure; match goal with |- context [if metrics then _ else _] => destruct metrics end
  | apply wp_bind, wp_ret ].

Lemma wp_readRobotSecret ha h (Q : log dans → res robotCreds → Prop) :
  (∀ h' secret u p, (∃ l, h' = l ++ h) →
     Ok secret ∈ secrets (BridgeNamespace cfg) (SecretName (Namespace (Meta ha)) (OName (Meta ha))) h' →
     IsManaged secret = true → StampedForOther secret (Namespace (Meta ha)) (OName (Meta ha)) = false →
     Credentials secret = Ok (u, p) → Q h' (Ok (MkCreds u p (RotationNotBefore secret)))) →
  (∀ h' e, Q h' (Err e)) →
  wp any_env (λ _ _, True) h (readRobotSecret cfg ha) Q.
Proof.
  intros Hok Herr. unfold readRobotSecret. wp_call; [done|]. intros [secret|e] _; [|apply Herr].
  destruct (IsManaged secret) eqn:Em; [|apply Herr]. destruct (StampedForOther secret _ _) eqn:Es; [apply Herr|].
  destruct (Credentials secret) as [[u p]|e] eqn:Ec; [|apply Herr].
  eapply (Hok _ secret); [eexists [_]; reflexivity| |done..].
  unfold secrets, answers. simpl. rewrite !String.eqb_refl. left.
Qed.

Lemma wp_serveMatched caller claims req m h :
  entitled cfg claims m.1 → deleting m.1 = false → TTL_Err (TokenTTL (Spec m.1)) = None →
  (∃ items, Ok items ∈ listed (Subject claims) h ∧ m.1 ∈ items) →
  wp any_env (λ _ _, True) h (serveMatched cfg metrics caller claims req m)
    (carries (λ h' r, ∃ secret now, issued_for claims m.1 secret now h' r)).
Proof.
  intros He Hd Ht (items & Hl & Hi). unfold serveMatched. apply wp_bind, wp_readRobotSecret.
  2:{ intros h' e. destruct (errors_Is e errSecretOwnerMismatch); [wp_page|]. destruct (IsNotFound e); wp_page. }
  intros h' secret user pass [l ->] Hs Hm Hst Hc. destruct (robotUsername cfg m.1) as [want|e] eqn:Er; [|wp_page].
  cbn [username]. destruct (String.eqb_spec user want) as [<-|]; cbn [negb]; [|wp_page].
  wp_call; [done|]. intros now _. unfold auditIssuance. wp_call; [done|]. intros [] _.
  apply wp_bind, wp_recordResult. intros l'. intros r [= <-]. split; [done|]. exists secret, now.
  apply issued_for_mono. constructor; simpl; try done.
  - exists items. split; [by apply (answers_mono _ l)|done].
  - left.
Qed.

Lemma wp_serveClaims caller claims req h :
  wp any_env (λ _ _, True) h (serveClaims cfg metrics caller claims req)
    (carries (λ h' r, ∃ ha secret now, issued_for claims ha secret now h' r)).
Proof.
  unfold serveClaims, findHarborAccess. apply wp_bind. wp_call; [done|]. intros [items|e] _; apply wp_ret; cbv beta iota.
  2: wp_page.
  pose proof (select_cases cfg claims items) as Hsel.
  destruct (selectHarborAccess cfg claims items) as [[m|] [d|]]; [|.. |wp_page|wp_page]; destruct_and!; [done|].
  apply elem_of_collect in H1 as (Hi & He & Hd & _). unfold specError.
  destruct (TTL_Err (TokenTTL (Spec m.1))) as [e|] eqn:Et; [wp_page|].
  eapply wp_mono; [apply wp_serveMatched; try done|].
  - exists items. split; [|done]. unfold listed, answers. simpl. rewrite String.eqb_refl. left.
  - intros h' resp Hc r Hr. destruct (Hc r Hr) as (? & secret & now & ?). eauto 6.
Qed.

Lemma wp_serveToken caller raw req h :
  wp any_env (λ _ _, True) h (serveToken cfg metrics caller raw req)
    (carries (λ h' r, ∃ claims ha secret now, valid h' raw claims ∧ issued_for claims ha secret now h' r)).
Proof.
  unfold serveToken. apply wp_bind. eapply wp_mono; [eapply wp_weaken; [|apply validate_spec]; done|].
  intros h1 [claims|e] Hv; cbv beta iota.
  - eapply wp_mono; [apply wp_extends, wp_serveClaims|]. intros h2 resp [[l ->] Hc] r Hr.
    destruct (Hc r Hr) as (? & ha & secret & now & ?). split; [done|]. exists claims, ha, secret, now.
    split; [by apply valid_mono|done].
  - destruct (errors_Is e ErrSigningKeysUnavailable); wp_page.
Qed.

(** The token and the decoded body of a request that gets as far as the validator. *)
Definition presents (r : httpRequest) : option (string * Request) :=
  if negb (HForceLocalValidation cfg) then None
  else match CutPrefix (Authorization r) "Bearer " with
  | None | Some EmptyString => None
  | Some raw => match requestBody read_json r with Ok req => Some (raw, req) | Err _ => None end
  end.

Lemma presents_bearer r raw req : presents r = Some (raw, req) → Authorization r = "Bearer " +:+ raw ∧ raw ≠ EmptyString.
Proof.
  unfold presents. destruct (negb _); [done|]. destruct (CutPrefix (Authorization r) "Bearer ") as [[|a t]|] eqn:E; try done.
  destruct (requestBody read_json r); [|done]. intros [= <- <-]. by apply CutPrefix_Some in E.
Qed.

Definition vouched (r : httpRequest) (h : log dans) (creds : Response) : Prop :=
  ∃ raw claims ha secret now, Authorization r = "Bearer " +:+ raw ∧ raw ≠ EmptyString ∧
    valid h raw claims ∧ issued_for claims ha secret now h creds.

Lemma wp_serveLimited r h : wp any_env (λ _ _, True) h (serveLimited cfg metrics read_json r) (carries (vouched r)).
Proof.
  pose proof (presents_bearer r) as Hb. unfold presents in Hb. unfold serveLimited. destruct (negb _); [wp_page|].
  destruct (CutPrefix (Authorization r) "Bearer ") as [[|a t]|]; [wp_page| |wp_page].
  destruct (requestBody read_json r) as [req|]; [|wp_page]. destruct (Hb _ _ eq_refl) as [Ha Hn].
  eapply wp_mono; [apply wp_serveToken|]. intros h' resp Hc creds Hr.
  destruct (Hc creds Hr) as (? & claims & ha & secret & now & ? & ?). split; [done|].
  exists (String a t), claims, ha, secret, now. done.
Qed.

Lemma runs_carries r h' resp :
  runs any_env (ServeHTTP cfg metrics read_json r) [] h' resp →
  carries (λ h' creds, true ∈ limited (sourceIP (RemoteAddr r)) h' ∧ vouched r h' creds) h' resp.
Proof.
  revert h' resp. refine (wp_post _ _ _ _ _). unfold ServeHTTP.
  destruct (negb _); [apply carries_text|]. destruct (negb _); [apply carries_text|].
  wp_call; [done|]. intros [] _; cbn [negb]; [|wp_page].
  apply wp_bind. eapply wp_mono; [apply wp_extends, wp_serveLimited|]. intros h1 resp [[l ->] Hc].
  assert (∀ l', carries (λ h' creds, true ∈ limited (sourceIP (RemoteAddr r)) h' ∧ vouched r h' creds)
    (l' ++ l ++ [existT (Allow (sourceIP (RemoteAddr r))) true]) resp) as Hgoal.
  { intros l' creds Hcr. destruct (Hc creds Hcr) as (? & raw & claims & ha & secret & now & ? & ? & ? & ?).
    split; [done|]. split.
    - apply answers_mono, answers_mono. simpl. rewrite String.eqb_refl. left.
    - exists raw, claims, ha, secret, now. split_and!; [done|done|by apply valid_mono|by apply issued_for_mono]. }
  destruct metrics; [|exact (Hgoal [])]. wp_call; [done|]. intros [] _. exact (Hgoal [_]).
Qed.

(** C1: Credentials go only to whom they belong. Whatever the services answer, a
    response that carries a password is a 200 to a request the rate limiter let
    pass, with a bearer token the validator vouches for; and the log shows a listed
    HarborAccess, not being deleted and with a valid spec, whose ServiceAccount, issuer
    and audience are the token's, and whose own managed Secret, at its name in the
    bridge's namespace, holds this username and password; the username is the one of
    the robot of that very ServiceAccount. *)
Theorem issued_only_when_entitled r h' resp creds :
  runs any_env (ServeHTTP cfg metrics read_json r) [] h' resp → Content resp = Encoded creds →
  Code resp = 200 ∧ true ∈ limited (sourceIP (RemoteAddr r)) h' ∧
  ∃ raw claims ha secret now, Authorization r = "Bearer " +:+ raw ∧ raw ≠ EmptyString ∧
    valid h' raw claims ∧ issued_for claims ha secret now h' creds.
Proof. intros Hr Hc. exact (runs_carries r h' resp Hr creds Hc). Qed.
End Issue.

(** ** Accounting *)

(** The values of bridge_credential_issuances_total with the statuses they stand for. *)
Definition counted (result : string) (code : Z) : Prop :=
  (result, code) ∈ [(ResultOK, 200); (ResultUnauthorized, 401); (ResultForbidden, 403); (ResultUnavailable, 503);
                    (ResultBadRequest, 400); (ResultServerError, 500); (ResultServerError, 501); (ResultRateLimited, 429)].

#[export] Instance counted_decision result code : Decision (counted result code).
Proof. unfold counted. apply _. Defined.

(** The audit message a status stands for. *)
Definition verdict (code : Z) : string :=
  if code =? 200 then "credential issued"
  else if (code =? 401) || (code =? 403) then "credential denied"
  else "credential unavailable".

Section Accounting.
Context `{V : Validator}.
Variable cfg : HandlerConfig.
Variable read_json : string → res json.

Definition counts (metrics : bool) (h h' : log dans) (code : Z) : Prop :=
  ∃ result, counted result code ∧ issuances h' = (if metrics then [result] else []) ++ issuances h.

(** One more audit line, with the verdict, the caller, and the issued robot. *)
Definition audited (caller : list (string * field)) (h h' : log dans) (resp : httpResponse) : Prop :=
  ∃ fields, audits h' = (verdict (Code resp), caller ++ fields) :: audits h ∧
    ∀ creds, Content resp = Encoded creds →
      ("robot", FStr (Username creds)) ∈ fields ∧ ("ttl_seconds", FInt (ExpiresInSecs creds)) ∈ fields.

Definition accounted (metrics : bool) (caller : list (string * field)) (h h' : log dans) (resp : httpResponse) : Prop :=
  counts metrics h h' (Code resp) ∧ audited caller h h' resp.

Definition silent (h h' : log dans) : Prop := issuances h' = issuances h ∧ audits h' = audits h.

Definition quiet_call (c : dcall) : Prop :=
  match c with IncIssuances _ | AuditLine _ _ => False | _ => True end.

Lemma wp_silent {A} env h (p : data A) Q :
  wp env (λ _ c, quiet_call c) h p Q → wp env (λ _ _, True) h p (λ h' a, silent h h' ∧ Q h' a).
Proof.
  revert h. induction p as [a|c k IH]; intros h; simpl; [done|]. intros [Hc Hk]. split; [done|]. intros r Hr.
  eapply wp_mono; [by apply IH, Hk|]. intros h' a [[E1 E2] HQ]. split; [|done].
  split; [rewrite E1|rewrite E2]; by destruct c.
Qed.

Lemma accounted_from metrics caller h h1 h' resp :
  silent h h1 → accounted metrics caller h1 h' resp → accounted metrics caller h h' resp.
Proof.
  intros [E1 E2] [(res & Hc & Hi) (fields & Ha & Hf)]. split; [exists res|exists fields]; by rewrite <- ?E1, <- ?E2.
Qed.

Lemma counted_dec result code : bool_decide (counted result code) = true → counted result code.
Proof. apply bool_decide_eq_true. Qed.

(** Every refusal page after the token was judged. *)
Lemma wp_refuse_accounted metrics caller h fields page code result :
  counted result code →
  wp any_env (λ _ _, True) h (refuse_with metrics (verdict code) (caller ++ fields) page code result)
    (accounted metrics caller h).
Proof.
  intros Hc. unfold refuse_with. wp_call; [done|]. intros [] _. apply wp_bind.
  destruct metrics; [split; [done|]; intros [] _|]; split; (exists result; done) || (exists fields; done).
Qed.

(** The same with another counter in between. *)
Lemma wp_page_accounted metrics caller h fields page code result (q : data unit) :
  counted result code → calls quiet_call q →
  wp any_env (λ _ _, True) h
    (_ ← trigger (AuditLine (verdict code) (caller ++ fields)); _ ← q; _ ← recordResult metrics result; Ret (http_error page code))
    (accounted metrics caller h).
Proof.
  intros Hc Hq. wp_call; [done|]. intros [] _. apply wp_bind.
  eapply wp_mono; [apply wp_silent, (calls_wp _ _ _ _ Hq)|]. intros h1 [] [[E1 E2] _]. apply wp_bind.
  destruct metrics; [split; [done|]; intros [] _|];
    (split; [exists result; split; [done|]|exists fields; split; [exact E2|done]]).
  - exact (f_equal (cons result) E1).
  - exact E1.
Qed.

Lemma wp_record_counts metrics h result code (resp : httpResponse) :
  counted result code → Code resp = code → (∀ c, Content resp ≠ Encoded c) →
  wp any_env (λ _ _, True) h (_ ← recordResult metrics result; Ret resp)
    (λ h' r, counts metrics h h' (Code r) ∧ audits h' = audits h).
Proof.
  intros Hc <- Ht. apply wp_bind. destruct metrics; [split; [done|]; intros [] _|]; (split; [by exists result|done]).
Qed.

Ltac refused := rewrite <- ?(assoc_L (++)); first
  [ apply (wp_refuse_accounted _ _ _ _ _ 403 ResultForbidden)
  | apply (wp_refuse_accounted _ _ _ _ _ 500 ResultServerError)
  | apply (wp_refuse_accounted _ _ _ _ _ 503 ResultUnavailable)
  | refine (wp_page_accounted _ _ _ _ _ 500 ResultServerError _ _ _)
  | refine (wp_page_accounted _ _ _ _ _ 503 ResultUnavailable _ _ _)
  | refine (wp_page_accounted _ _ _ _ _ 401 ResultUnauthorized _ _ _) ];
  first [apply counted_dec; reflexivity | unfold recordOIDCFailure; by repeat case_match].

Lemma wp_serveMatched_accounted metrics caller claims req m h :
  wp any_env (λ _ _, True) h (serveMatched cfg metrics caller claims req m) (accounted metrics caller h).
Proof.
  unfold serveMatched. apply wp_bind.
  assert (calls quiet_call (readRobotSecret cfg m.1)) as Hq.
  { apply calls_bind; [by apply calls_trigger|]. intros [s|e]; [|done]. by repeat case_match. }
  eapply wp_mono; [apply wp_silent, (calls_wp _ _ h _ Hq)|]. intros h1 [creds|e] [Hs _]; cbv beta iota;
    (eapply wp_mono; [|intros h' resp; apply (accounted_from _ _ _ _ _ _ Hs)]).
  - destruct (robotUsername cfg m.1) as [want|e]; [|refused].
    destruct (String.eqb_spec (username creds) want); cbn [negb]; [|refused].
    wp_call; [done|]. intros now _. unfold auditIssuance. wp_call; [done|]. intros [] _. apply wp_bind.
    destruct metrics; [split; [done|]; intros [] _|]; (split; [exists ResultOK; split; [by apply counted_dec|done]|]);
      (eexists; split; [unfold audits, answers; simpl; rewrite <- ?(assoc_L (++)); reflexivity|]);
      intros c [= <-]; simpl; set_solver.
  - destruct (errors_Is e errSecretOwnerMismatch); [refused|]. destruct (IsNotFound e); refused.
Qed.

Lemma wp_serveClaims_accounted metrics caller claims req h :
  wp any_env (λ _ _, True) h (serveClaims cfg metrics caller claims req) (accounted metrics caller h).
Proof.
  unfold serveClaims, findHarborAccess. apply wp_bind. wp_call; [done|]. intros [items|e] _; apply wp_ret; cbv beta iota;
    match goal with |- wp _ _ ?h1 _ _ => eapply wp_mono; [|intros h' resp; apply (accounted_from _ _ h h1); by split] end.
  - destruct (selectHarborAccess cfg claims items) as [[m|] [d|]]; [| |refused|refused];
      (destruct (specError m.1); [refused|apply wp_serveMatched_accounted]).
  - refused.
Qed.

Lemma wp_serveToken_accounted metrics caller raw req h :
  wp any_env (λ _ _, True) h (serveToken cfg metrics caller raw req) (accounted metrics caller h).
Proof.
  unfold serveToken. apply wp_bind. eapply wp_mono.
  { apply wp_silent. eapply wp_weaken; [|apply validate_spec]. by intros ? []. }
  intros h1 [claims|e] [Hs _]; cbv beta iota; (eapply wp_mono; [|intros h' resp; apply (accounted_from _ _ _ _ _ _ Hs)]).
  - apply wp_serveClaims_accounted.
  - destruct (errors_Is e ErrSigningKeysUnavailable); refused.
Qed.

Lemma wp_serveLimited_accounted metrics r h :
  wp any_env (λ _ _, True) h (serveLimited cfg metrics read_json r)
    (λ h' resp, counts metrics h h' (Code resp) ∧
       if decide (is_Some (presents cfg read_json r)) then audited (callerFields r) h h' resp else audits h' = audits h).
Proof.
  unfold serveLimited, presents. destruct (negb (HForceLocalValidation cfg)).
  { destruct (decide _) as [[??]|_]; [done|]. by apply (wp_record_counts _ _ _ 501); [apply counted_dec| |]. }
  destruct (CutPrefix (Authorization r) "Bearer ") as [[|a t]|].
  - destruct (decide _) as [[??]|_]; [done|]. by apply (wp_record_counts _ _ _ 401); [apply counted_dec| |].
  - destruct (requestBody read_json r) as [req|].
    + destruct (decide _) as [_|[]]; [|by eauto]. apply wp_serveToken_accounted.
    + destruct (decide _) as [[??]|_]; [done|]. by apply (wp_record_counts _ _ _ 400); [apply counted_dec| |].
  - destruct (decide _) as [[??]|_]; [done|]. by apply (wp_record_counts _ _ _ 401); [apply counted_dec| |].
Qed.

(** C37: Every request is counted and audited exactly once. A request for the credential
    endpoint adds one result to the issuance counter, and it fits the status. It
    adds one audit line exactly when it got as far as the validator, and the line
    says "issued" for a 200, "denied" for a 401 or 403 and "unavailable" for a 500
    or 503, names the caller, and for an issuance the robot and the cache time
    handed out. Any other method or path leaves no trace. *)
Theorem requests_accounted metrics r h' resp :
  runs any_env (ServeHTTP cfg metrics read_json r) [] h' resp →
  if String.eqb (Method r) "POST" && String.eqb (Path r) CredentialsPath then
    counts metrics [] h' (Code resp) ∧
    (if decide (is_Some (presents cfg read_json r) ∧ true ∈ limited (sourceIP (RemoteAddr r)) h')
     then audited (callerFields r) [] h' resp else audits h' = [])
  else issuances h' = [] ∧ audits h' = [] ∧ (Code resp = 404 ∨ Code resp = 405).
Proof.
  revert h' resp. refine (wp_post _ _ _ _ _). unfold ServeHTTP.
  destruct (String.eqb (Method r) "POST"); cbn [negb andb]; [|apply wp_ret; auto].
  destruct (String.eqb (Path r) CredentialsPath); cbn [negb]; [|apply wp_ret; auto].
  set (src := sourceIP (RemoteAddr r)). wp_call; [done|]. intros [] _; cbn [negb].
  - assert (∀ l, true ∈ limited src (l ++ [existT (Allow src) true])) as Hlim.
    { intros l. apply answers_mono. simpl. rewrite String.eqb_refl. left. }
    apply wp_bind. eapply wp_mono; [apply wp_extends, wp_serveLimited_accounted|].
    intros h1 resp [[l ->] [Hc Ha]].
    destruct metrics; [wp_call; [done|]; intros [] _|]; apply wp_ret; (split; [exact Hc|]);
      rewrite (decide_ext _ (is_Some (presents cfg read_json r))); try exact Ha;
      split; [by intros []|split; [done|]| by intros []|split; [done|]]; [apply (Hlim (_ :: l))|apply Hlim].
  - apply wp_bind. destruct metrics; [split; [done|]; intros [] _|]; apply wp_ret;
      (split; [exists ResultRateLimited; split; [by apply counted_dec|done]|]); rewrite decide_False; try done;
      intros [_ Hin]; unfold limited, answers in Hin; simpl in Hin; rewrite String.eqb_refl in Hin;
      by apply list_elem_of_singleton in Hin.
Qed.
End Accounting.

(** ** Caching *)

Lemma cacheDuration_promise tokenTTL nb now :
  let d := cacheDuration tokenTTL (Some nb) now in 0 ≤ d ∧ (d = 0 ∨ now + d ≤ nb).
Proof.
  unfold cacheDuration, Sub, sat64, TruncateDur, Hour, Minute, Second, int64_min, int64_max.
  set (ttl := if tokenTTL <=? 0 then _ else _).
  assert (0 < ttl) by (unfold ttl; destruct (Z.leb_spec tokenTTL 0); lia). clearbody ttl. cbv zeta.
  set (rem := Z.max _ _). assert (rem = - 2 ^ 63 ∨ rem ≤ nb - now) as Hrem by lia. clearbody rem.
  destruct (Z.leb_spec rem 0); [lia|]. destruct (Z.ltb_spec rem ttl); [|lia].
  pose proof (Z.rem_bound_pos rem 1000000000 ltac:(lia) ltac:(lia)).
  assert (Z.rem rem 1000000000 ≤ rem) by (apply Z.rem_le; lia). lia.
Qed.

(** No cache outlives the promise. The cache time is never negative and never above
    the configured TTL (an hour when unset); and when the Secret carries a rotation
    promise, a kubelet that caches from [now] drops the password no later than the
    promised instant, or does not cache at all. *)
Theorem cacheDuration_within_promise tokenTTL notBefore now :
  let ttl := if tokenTTL <=? 0 then Hour else tokenTTL in
  let d := cacheDuration tokenTTL notBefore now in
  0 ≤ d ≤ ttl ∧
  match notBefore with
  | None => d = ttl
  | Some nb => d = 0 ∨ now + d ≤ nb
  end.
Proof.
  intros ttl d. assert (0 < ttl) by (unfold ttl, Hour, Minute, Second; destruct (Z.leb_spec tokenTTL 0); lia).
  destruct notBefore as [nb|]; [|unfold d, cacheDuration; fold ttl; split; [lia|done]].
  destruct (cacheDuration_promise tokenTTL nb now) as [H0 Hd]. fold d in H0, Hd. split; [split; [done|]|done].
  unfold d, cacheDuration. fold ttl. destruct (Z.leb_spec (Sub nb now) 0); [lia|].
  destruct (Z.ltb_spec (Sub nb now) ttl); [|lia]. unfold TruncateDur.
  pose proof (Z.rem_bound_pos (Sub nb now) Second ltac:(lia) ltac:(done)). lia.
Qed.

(** ** A concrete bridge *)

Definition demo_config : HandlerConfig :=
  MkHandlerConfig "bridge" true "harbor" (Some (λ ns name, Ok ("robot$" +:+ ns +:+ "." +:+ name))).

Definition demo_access (name : string) : HarborAccess :=
  MkHA (MkMeta "team-a" name "" "" 1 ∅ ∅ [] None)
    (MkSpec (MkSARef "team-a" "app") (MkTrustPolicy "https://issuer" "harbor") [MkPerm "p" "pull"] (MkTTL Hour ""))
    (MkStatus None "" 0 []).

Definition demo_secret : Secret :=
  MkSecret (MkMeta "bridge" "robot-team-a.app" "" "" 0 (OwnerLabels "prod" "team-a" "app")
              {[AnnotationRotationNotBefore := FormatRotationNotBefore (demo_now + 30 * Minute)]} [] None) "Opaque"
    {[KeyUsername := "robot$team-a.app"; KeyPassword := "pw"]}.

Definition demo_data (s : unit) (c : dcall) : dans c * unit :=
  (match c return dans c with
   | Allow _ => true
   | Verify _ => (Ok (demo_token "app-0"), false)
   | TimeNow => demo_now
   | ListHABySubject _ => Ok [demo_access "other"; demo_access "app"]
   | ReadSecret _ _ => Ok demo_secret
   | _ => tt
   end, tt).

Definition demo_request : httpRequest := MkRequest "POST" CredentialsPath "10.0.0.7:4711" None "Bearer tok" None 0.

Definition demo_run :=
  play demo_data tt (ServeHTTP (V := oidc_validator demo_validator) demo_config true (λ _, Ok JNull) demo_request) [].

Definition demo_creds : Response := MkResponse "robot$team-a.app" "pw" 1800 "Registry".

Lemma demo_run_issues : Content demo_run.2 = Encoded demo_creds.
Proof. vm_compute. reflexivity. Qed.

Lemma selection_order_independent_witness :
  selectHarborAccess demo_config demo_claims [demo_access "other"; demo_access "app"] =
  selectHarborAccess demo_config demo_claims [demo_access "app"; demo_access "other"] ∧
  selectHarborAccess demo_config demo_claims [demo_access "other"; demo_access "app"] = (Some (demo_access "app", "harbor"), None).
Proof.
  split; [|vm_compute; reflexivity].
  apply selection_order_independent; [apply Permutation_swap|].
  intros a b Ha Hb _ E. apply elem_of_cons in Ha as [->|Ha%list_elem_of_singleton]; [|subst a];
    (apply elem_of_cons in Hb as [->|Hb%list_elem_of_singleton]; [|subst b]); try done; by vm_compute in E.
Defined.

Lemma issued_only_when_entitled_witness :
  Code demo_run.2 = 200 ∧ true ∈ limited (sourceIP (RemoteAddr demo_request)) demo_run.1.2 ∧
  ∃ raw claims ha secret now, Authorization demo_request = "Bearer " +:+ raw ∧ raw ≠ EmptyString ∧
    valid (Validator := oidc_validator demo_validator) demo_run.1.2 raw claims ∧
    issued_for demo_config claims ha secret now demo_run.1.2 demo_creds.
Proof.
  apply (issued_only_when_entitled (V := oidc_validator demo_validator) demo_config true (λ _, Ok JNull)).
  - apply play_runs_in. done.
  - exact demo_run_issues.
Defined.

Lemma requests_accounted_witness :
  if String.eqb (Method demo_request) "POST" && String.eqb (Path demo_request) CredentialsPath then
    counts true [] demo_run.1.2 (Code demo_run.2) ∧
    (if decide (is_Some (presents demo_config (λ _, Ok JNull) demo_request) ∧
                true ∈ limited (sourceIP (RemoteAddr demo_request)) demo_run.1.2)
     then audited (callerFields demo_request) [] demo_run.1.2 demo_run.2 else audits demo_run.1.2 = [])
  else issuances demo_run.1.2 = [] ∧ audits demo_run.1.2 = [] ∧ (Code demo_run.2 = 404 ∨ Code demo_run.2 = 405).
Proof.
  apply (requests_accounted (V := oidc_validator demo_validator)). apply play_runs_in. done.
Defined.
