(* ===== verification/Wiring.v ===== *)
(** * The assembled bridge

    Models the wiring of bridge/cmd/main.go (how the configuration reaches the
    validator and the handler) and states what the two planes guarantee together: the
    data plane serves what the control plane stored, to the identity it was stored
    for, and only for as long as the control plane keeps the password. *)

From S2P Require Import Prelude Effects GoStrings GoStd GoTime Naming HarborPerms HarborClient Api RobotSecret.
From S2P Require Import Contract Config Kube Reconciler ReconcilerSpec ReconcilerProofs ReconcilerProps RateLimit.
From S2P Require Import Json DataPlane Oidc Handler HandlerProps.

(** ** Configuration *)

(** [dataplane.Config], without the HTTP client. *)
Record ValidatorConfig := MkValidatorConfig {
  VIssuer : string; VJWKSURL : string; VMaxTokenLifetime : Duration; VAllowNonPodBoundTokens : bool
}.

Definition validatorConfig (cfg : Config) : ValidatorConfig :=
  MkValidatorConfig (UString (OIDCIssuer cfg)) (match OIDCJWKSURL cfg with Some u => UString u | None => "" end)
    (TokenMaxLifetime cfg) (negb (RequirePodBoundToken cfg)).

(** The validator [NewValidator] returns for a configuration. *)
Definition validator_of (vc : ValidatorConfig) : goOIDCValidator :=
  MkValidator (VMaxTokenLifetime vc) (VAllowNonPodBoundTokens vc).

(** [robotUsername(cfg)] of main. *)
Definition robotUsernameFor (cfg : Config) (saNamespace saName : string) : res string :=
  match Naming.RobotName (ClusterName cfg) saNamespace saName with
  | Err e => Err e
  | Ok name => Ok (HarborRobotPrefix cfg +:+ name)
  end.

Definition handlerConfig (cfg : Config) : HandlerConfig :=
  MkHandlerConfig (CfgNamespace cfg) (ForceLocalValidation cfg) (CfgAudience cfg) (Some (robotUsernameFor cfg)).

(** The handler main builds. *)
Definition handler (cfg : Config) (read_json : string → res json) (r : httpRequest) : data httpResponse :=
  ServeHTTP (V := oidc_validator (validator_of (validatorConfig cfg))) (handlerConfig cfg) true read_json r.

(** ** Both planes *)

(** The Secret the control plane stores for [ha], in a new Secret or an existing one. *)
Definition storedSecret (cfg : Config) (ha : HarborAccess) (existing : option Secret) (robot : Robot) (pw : string)
    (nb : Time) : Secret :=
  match existing with Some e => updatedSecret cfg ha e robot pw nb | None => newSecret cfg ha robot pw nb end.

Lemma stored_owner cfg ha existing robot pw nb :
  let s := storedSecret cfg ha existing robot pw nb in
  IsManaged s = true ∧ StampedForOther s (haNS ha) (haName ha) = false.
Proof.
  assert (∀ k v, OwnerLabels (ClusterName cfg) (haNS ha) (haName ha) !! k = Some v →
    index (Labels (SMeta (storedSecret cfg ha existing robot pw nb))) k = v) as HL.
  { intros k v E. unfold index. destruct existing as [e|]; simpl; [|by rewrite E].
    by rewrite (lookup_union_Some_l _ _ _ _ E). }
  intros s. unfold StampedForOther, IsManaged, s.
  rewrite (HL LabelManagedBy LabelManagedByValue), (HL LabelHarborAccessNamespace (haNS ha)),
    (HL LabelHarborAccessName (haName ha)), !String.eqb_refl; [done|..]; unfold OwnerLabels;
    repeat (rewrite lookup_insert_ne by done); apply lookup_insert_eq.
Qed.

(** C7: What the data plane lets a kubelet cache, the control plane keeps valid. Let the
    control plane have stored a password with the promise [nb], and let the endpoint
    issue the credentials of that Secret at some instant. At every later instant within
    the cache time it handed out, a reconcile pass that reads this Secret for this
    robot finds no reason to rotate the password. *)
Theorem cached_password_not_rotated cfg read_json ha existing robot pw nb r h' resp creds ha' :
  let s := storedSecret cfg ha existing robot pw nb in
  pw ≠ EmptyString → WireName robot ≠ EmptyString → int64_min ≤ ID robot ≤ int64_max → 0 ≤ nb < max_instant - Second →
  runs any_env (handler cfg read_json r) [] h' resp → Content resp = Encoded creds →
  (∀ ns name x, Ok x ∈ secrets ns name h' → x = s) →
  ∃ now, now ∈ times h' ∧
    ∀ t, now ≤ t < now + ExpiresInSecs creds * Second → rotationReason ha' (Some s) robot t = "".
Proof.
  intros s Hpw Hwn Hid Hnb Hr Hc Hs. destruct (written_fields cfg ha existing robot pw nb) as (Hcr & Hi & Hn); [done..|].
  destruct (runs_carries _ _ _ _ _ _ Hr creds Hc) as (_ & _ & raw & claims & ha0 & secret & now & _ & _ & _ & Hiss).
  assert (secret = s) as -> by (eapply Hs, if_secret, Hiss).
  exists now. split; [apply Hiss|]. intros t Ht.
  rewrite (rotationReason_due ha' s robot pw _ t Hcr Hi Hn).
  assert (t < round_up_second nb + RotationSafetyMargin); [|by destruct (Z.ltb_spec t (round_up_second nb + RotationSafetyMargin)); [|lia]].
  rewrite (if_expires _ _ _ _ _ _ _ Hiss) in Ht. change (RotationNotBefore s = Some (round_up_second nb)) in Hn. rewrite Hn in Ht.
  set (d := cacheDuration _ _ _) in Ht.
  assert (Z.quot d Second * Second ≤ d ∧ (d = 0 ∨ now + d ≤ round_up_second nb)) as [Hq Hd].
  { destruct (cacheDuration_promise (TDuration (TokenTTL (Spec ha0))) (round_up_second nb) now) as [H0 H1]. fold d in H0, H1.
    split; [|done]. pose proof (Z.quot_rem' d Second). pose proof (Z.rem_bound_pos d Second ltac:(done) ltac:(done)). lia. }
  unfold RotationSafetyMargin, Minute, Second in *. lia.
Qed.

(** ** An entitled pod is served *)

(** Services that answer as they do in a healthy bridge: the limiter admits, the
    verifier accepts the token, the clock reads [now], the cache lists [items], and the
    Secret read is [s]. *)
Definition healthy (raw : string) (t : IDToken) (now : Time) (items : list HarborAccess) (s : Secret)
    (h : log dans) (c : dcall) : dans c → Prop :=
  match c with
  | Allow _ => λ ok, ok = true
  | Verify x => λ r, x = raw → r.1 = Ok t
  | TimeNow => λ x, x = now
  | ListHABySubject _ => λ r, r = Ok items
  | ReadSecret _ _ => λ r, r = Ok s
  | _ => λ _, True
  end.

(** The token passes the validator's policy at [now]. *)
Definition acceptable (cfg : Config) (t : IDToken) (rc : rawClaims) (now : Time) : Prop :=
  decode_claims (TPayload t) = Ok rc ∧
  checkLifetime (TIssuedAt t) (TExpiry t) now (TokenMaxLifetime cfg) = None ∧
  (RequirePodBoundToken cfg = true → PodName rc ≠ EmptyString ∧ PodUID_ rc ≠ EmptyString).

Lemma wp_validate_healthy cfg raw t rc now items s h :
  acceptable cfg t rc now →
  wp (healthy raw t now items s) (λ _ _, True) h (OIDCValidate (validator_of (validatorConfig cfg)) raw)
    (λ _ r, r = Ok (token_claims t rc)).
Proof.
  intros (Hd & Hl & Hp). unfold OIDCValidate. wp_call; [done|]. intros [r o] Hr. simpl in Hr. rewrite (Hr eq_refl), Hd.
  wp_call; [done|]. intros x Hx. simpl in Hx. subst x. simpl. rewrite Hl.
  destruct (RequirePodBoundToken cfg); simpl; [|done].
  destruct (Hp eq_refl) as [H1%String.eqb_neq H2%String.eqb_neq]. by rewrite H1, H2.
Qed.

Lemma select_only cfg claims items ha :
  ha ∈ items → entitled cfg claims ha → deleting ha = false →
  (∀ x, x ∈ items → entitled cfg claims x → deleting x = false → x = ha) →
  selectHarborAccess cfg claims items = (Some (ha, HAudience cfg), None).
Proof.
  intros Hi He Hd Hu. pose proof (select_cases cfg claims items) as Hs.
  assert ((ha, HAudience cfg) ∈ collect cfg claims false items) as Hc by (by apply elem_of_collect).
  destruct (selectHarborAccess cfg claims items) as [[[x aud]|] [d|]]; destruct_and!; try done.
  - clear Hc. match goal with H : _ ∈ collect _ _ _ _ |- _ => apply elem_of_collect in H as (? & ? & ? & ?) end.
    simpl in *. subst aud. by rewrite (Hu x).
  - match goal with H : collect _ _ false _ = [] |- _ => rewrite H in Hc end. by apply not_elem_of_nil in Hc.
  - match goal with H : collect _ _ false _ = [] |- _ => rewrite H in Hc end. by apply not_elem_of_nil in Hc.
Qed.

(** The handler's steps around a token the validator accepts. *)
Lemma wp_handler_token cfg read_json r raw req (env : log dans → ∀ c, dans c → Prop) (Q : httpResponse → Prop) :
  Method r = "POST" → Path r = CredentialsPath → presents (handlerConfig cfg) read_json r = Some (raw, req) →
  (∀ h a, env h (Allow (sourceIP (RemoteAddr r))) a → a = true) →
  (∀ h, wp env (λ _ _, True) h
     (serveToken (V := oidc_validator (validator_of (validatorConfig cfg))) (handlerConfig cfg) true (callerFields r) raw req)
     (λ _, Q)) →
  wp env (λ _ _, True) [] (handler cfg read_json r) (λ _, Q).
Proof.
  intros Hm Hp Hpr Ha Hq. unfold handler, ServeHTTP. rewrite Hm, Hp. cbn [String.eqb Ascii.eqb Bool.eqb negb].
  rewrite String.eqb_refl. cbn [negb]. wp_call; [done|]. intros a Hok. rewrite (Ha _ _ Hok). cbn [negb].
  apply wp_bind. unfold serveLimited. unfold presents in Hpr. destruct (negb _); [done|].
  destruct (CutPrefix (Authorization r) "Bearer ") as [[|c t]|]; try done.
  destruct (requestBody read_json r) as [req'|]; [|done]. injection Hpr as -> ->.
  eapply wp_mono; [apply Hq|]. intros h' resp HQ. cbv beta iota. wp_call; [done|]. by intros [] _.
Qed.

(** C8: An entitled pod is served. Let the control plane have stored a password for the
    robot of a HarborAccess's ServiceAccount, let the services be healthy, and let a
    pod present an acceptable token that only this HarborAccess, live and valid,
    answers. Every run of the endpoint then returns exactly this username and password,
    with the cache time computed for them. *)
Theorem entitled_pod_served cfg read_json ha existing robot pw nb r raw req t rc now items n h' resp :
  let s := storedSecret cfg ha existing robot pw nb in
  Method r = "POST" → Path r = CredentialsPath → presents (handlerConfig cfg) read_json r = Some (raw, req) →
  acceptable cfg t rc now → ha ∈ items → entitled (handlerConfig cfg) (token_claims t rc) ha → deleting ha = false →
  (∀ x, x ∈ items → entitled (handlerConfig cfg) (token_claims t rc) x → deleting x = false → x = ha) →
  TTL_Err (TokenTTL (Spec ha)) = None →
  Naming.RobotName (ClusterName cfg) (SANamespace (SARef (Spec ha))) (SAName (SARef (Spec ha))) = Ok n →
  WireName robot = HarborRobotPrefix cfg +:+ n →
  pw ≠ EmptyString → WireName robot ≠ EmptyString → int64_min ≤ ID robot ≤ int64_max → 0 ≤ nb < max_instant - Second →
  runs (healthy raw t now items s) (handler cfg read_json r) [] h' resp →
  Code resp = 200 ∧
  Content resp = Encoded (MkResponse (WireName robot) pw
    (Z.quot (cacheDuration (TDuration (TokenTTL (Spec ha))) (Some (round_up_second nb)) now) Second) cacheKeyTypeRegistry).
Proof.
  intros s Hm Hp Hpr Hacc Hi He Hd Hu Ht Hn Hw Hpw Hwn Hid Hnb. revert h' resp. refine (wp_post _ _ _ _ _).
  destruct (written_fields cfg ha existing robot pw nb) as (Hcr & _ & Hrn); [done..|].
  destruct (stored_owner cfg ha existing robot pw nb) as [Hma Hst].
  change (Credentials s = Ok (WireName robot, pw)) in Hcr. change (RotationNotBefore s = Some (round_up_second nb)) in Hrn.
  change (IsManaged s = true) in Hma. change (StampedForOther s (haNS ha) (haName ha) = false) in Hst. clearbody s.
  apply (wp_handler_token cfg read_json r raw req); [done..|]. intros h. unfold serveToken.
  apply wp_bind. eapply wp_mono; [apply wp_validate_healthy, Hacc|]. intros h1 x ->. cbv beta iota.
  unfold serveClaims, findHarborAccess. apply wp_bind. wp_call; [done|]. intros l Hl. simpl in Hl. subst l.
  apply wp_ret. rewrite (select_only _ _ _ ha) by done. cbv beta iota. cbn [fst]. unfold specError. rewrite Ht.
  unfold serveMatched, readRobotSecret. cbn [fst]. apply wp_bind. wp_call; [done|]. intros x Hx. simpl in Hx. subst x.
  unfold haNS, haName in Hst. rewrite Hma, Hst, Hcr. cbn [negb]. apply wp_ret. cbv beta iota.
  unfold robotUsername, handlerConfig, robotUsernameFor. cbn [RobotUsername]. rewrite Hn. cbn [username].
  rewrite <- Hw, String.eqb_refl. cbn [negb]. wp_call; [done|]. intros x Hx. simpl in Hx. subst x.
  unfold auditIssuance. wp_call; [done|]. intros [] _. apply wp_bind. split; [done|]. intros [] _. apply wp_ret.
  cbn. by rewrite Hrn.
Qed.

(** ** Identities do not mix *)

(** The objects a run listed name ServiceAccounts Kubernetes admits. *)
Definition admitted_listing (cfg : Config) (h : log dans) : Prop :=
  ∀ subject items ha, Ok items ∈ listed subject h → ha ∈ items →
    identity_ok (ClusterName cfg) (SANamespace (SARef (Spec ha))) (SAName (SARef (Spec ha))).

(** The token behind issued credentials and the ServiceAccount it authenticates. *)
Definition issued_to (cfg : Config) (h : log dans) (creds : Response) (ns sa : string) : Prop :=
  (∃ raw claims, token_valid (validator_of (validatorConfig cfg)) h raw claims ∧
     Subject claims = "system:serviceaccount:" +:+ ns +:+ ":" +:+ sa) ∧
  ∃ n, Naming.RobotName (ClusterName cfg) ns sa = Ok n ∧ Username creds = HarborRobotPrefix cfg +:+ n.

Lemma issued_identity cfg read_json r h' resp creds :
  runs any_env (handler cfg read_json r) [] h' resp → Content resp = Encoded creds → admitted_listing cfg h' →
  ∃ ns sa, identity_ok (ClusterName cfg) ns sa ∧ issued_to cfg h' creds ns sa.
Proof.
  intros Hr Hc Ha.
  destruct (runs_carries _ _ _ _ _ _ Hr creds Hc) as (_ & _ & raw & claims & ha & secret & now & _ & _ & Hv & Hi).
  exists (SANamespace (SARef (Spec ha))), (SAName (SARef (Spec ha))).
  destruct (if_listed _ _ _ _ _ _ _ Hi) as (items & Hl & Hin). split; [by eapply Ha|]. split.
  - exists raw, claims. split; [exact Hv|]. apply (ent_subject _ _ _ (if_entitled _ _ _ _ _ _ _ Hi)).
  - pose proof (if_robot _ _ _ _ _ _ _ Hi) as Hn. unfold robotUsername, handlerConfig, robotUsernameFor in Hn. cbn in Hn.
    destruct (Naming.RobotName _ _ _) as [n|e]; [|done]. injection Hn as <-. eauto.
Qed.

(** C3: No workload gets another's robot. When two runs of the endpoint, at any time and
    with whatever answers, issue the same robot, the tokens authenticate
    ServiceAccounts of the same namespace, and the same ServiceAccount unless both
    robot names were truncated and their 64-bit digests collide. *)
Theorem same_robot_same_identity cfg read_json r1 h1 resp1 creds1 r2 h2 resp2 creds2 :
  runs any_env (handler cfg read_json r1) [] h1 resp1 → Content resp1 = Encoded creds1 → admitted_listing cfg h1 →
  runs any_env (handler cfg read_json r2) [] h2 resp2 → Content resp2 = Encoded creds2 → admitted_listing cfg h2 →
  Username creds1 = Username creds2 →
  ∃ ns sa1 sa2, issued_to cfg h1 creds1 ns sa1 ∧ issued_to cfg h2 creds2 ns sa2 ∧
    (sa1 = sa2 ∨ (truncated (ClusterName cfg) ns sa1 = true ∧ truncated (ClusterName cfg) ns sa2 = true ∧
       hashOf (natural_name (ClusterName cfg) ns sa1) = hashOf (natural_name (ClusterName cfg) ns sa2))).
Proof.
  intros R1 C1 A1 R2 C2 A2 E.
  destruct (issued_identity _ _ _ _ _ _ R1 C1 A1) as (ns1 & sa1 & O1 & I1).
  destruct (issued_identity _ _ _ _ _ _ R2 C2 A2) as (ns2 & sa2 & O2 & I2).
  destruct I1 as [T1 (n1 & N1 & U1)] eqn:D1, I2 as [T2 (n2 & N2 & U2)] eqn:D2.
  assert (n1 = n2) as -> by (rewrite U1, U2 in E; by eapply str_app_inv_l).
  destruct (RobotName_same _ _ _ _ _ _ _ O1 O2 N1 N2) as (_ & <- & Hs).
  exists ns1, sa1, sa2. split_and!; [by split; [|exists n2]..|done].
Qed.

(** ** A concrete bridge *)

Definition demo_app_robot : Robot :=
  MkRobot 7 "bridge-prod.team-a.app" "robot$bridge-prod.team-a.app" "" false (-1) [MkPerm "p" "pull"] false "".
Definition demo_promise : Time := demo_now + 30 * Minute.
Definition demo_stored : Secret := storedSecret demo_cfg (demo_access "app") None demo_app_robot "pw" demo_promise.

Definition demo_healthy (s : unit) (c : dcall) : dans c * unit :=
  (match c return dans c with
   | Allow _ => true
   | Verify _ => (Ok (demo_token "app-0"), false)
   | TimeNow => demo_now
   | ListHABySubject _ => Ok [demo_access "app"]
   | ReadSecret _ _ => Ok demo_stored
   | _ => tt
   end, tt).

Definition demo_json (s : string) : res json := Ok JNull.
Definition demo_bridge := play demo_healthy tt (handler demo_cfg demo_json demo_request) [].
Definition demo_issued : Response := MkResponse "robot$bridge-prod.team-a.app" "pw" 1800 "Registry".

Lemma demo_bridge_issues : Content demo_bridge.2 = Encoded demo_issued.
Proof. vm_compute. reflexivity. Qed.

Lemma healthy_log raw t now items s h :
  log_env (healthy raw t now items s) [] h →
  (∀ ns name x, Ok x ∈ secrets ns name h → x = s) ∧ (∀ subject l, Ok l ∈ listed subject h → l = items).
Proof.
  induction 1 as [|h c r Hh [IH1 IH2] Hc]; [by split; intros; eapply not_elem_of_nil in H|].
  split.
  - intros ns name x. unfold secrets, answers. simpl. destruct c; try (exact (IH1 ns name x)).
    destruct (_ && _); [|exact (IH1 ns name x)]. intros [Hx|Hx]%elem_of_cons; [|by eapply IH1]. simpl in Hc. congruence.
  - intros subject l. unfold listed, answers. simpl. destruct c; try (exact (IH2 subject l)).
    destruct (String.eqb _ _); [|exact (IH2 subject l)]. intros [Hx|Hx]%elem_of_cons; [|by eapply IH2]. simpl in Hc. congruence.
Qed.

Lemma demo_bridge_runs :
  runs (healthy "tok" (demo_token "app-0") demo_now [demo_access "app"] demo_stored)
    (handler demo_cfg demo_json demo_request) [] demo_bridge.1.2 demo_bridge.2.
Proof. apply play_runs_in. by intros ? ? []. Qed.

Lemma demo_bridge_secrets ns name x : Ok x ∈ secrets ns name demo_bridge.1.2 → x = demo_stored.
Proof. apply (healthy_log _ _ _ _ _ _ (runs_log_env _ _ _ _ _ demo_bridge_runs)). Qed.

Lemma demo_bridge_admitted : admitted_listing demo_cfg demo_bridge.1.2.
Proof.
  intros subject items ha Hl Hin.
  apply (healthy_log _ _ _ _ _ _ (runs_log_env _ _ _ _ _ demo_bridge_runs)) in Hl. subst items.
  apply list_elem_of_singleton in Hin as ->. by constructor.
Qed.

Lemma cached_password_not_rotated_witness :
  ∃ now, now ∈ times demo_bridge.1.2 ∧
    ∀ t, now ≤ t < now + ExpiresInSecs demo_issued * Second → rotationReason (demo_access "app") (Some demo_stored) demo_app_robot t = "".
Proof.
  apply (cached_password_not_rotated demo_cfg demo_json (demo_access "app") None demo_app_robot "pw" demo_promise
    demo_request demo_bridge.1.2 demo_bridge.2 demo_issued (demo_access "app"));
    [done|done|by vm_compute|by vm_compute|apply play_runs_in; done|exact demo_bridge_issues|exact demo_bridge_secrets].
Defined.

Lemma demo_entitled : entitled (handlerConfig demo_cfg) demo_claims (demo_access "app").
Proof. constructor; try done. left. Qed.

Lemma entitled_pod_served_witness :
  Code demo_bridge.2 = 200 ∧
  Content demo_bridge.2 = Encoded (MkResponse (WireName demo_app_robot) "pw"
    (Z.quot (cacheDuration Hour (Some (round_up_second demo_promise)) demo_now) Second) cacheKeyTypeRegistry).
Proof.
  apply (entitled_pod_served demo_cfg demo_json (demo_access "app") None demo_app_robot "pw" demo_promise demo_request "tok"
    (MkReq "") (demo_token "app-0") (MkRaw "system:serviceaccount:team-a:app" ["harbor"] "app-0" "u-1" "node-1") demo_now
    [demo_access "app"] "bridge-prod.team-a.app" demo_bridge.1.2 demo_bridge.2).
  - reflexivity.
  - reflexivity.
  - vm_compute. reflexivity.
  - split_and!; [vm_compute; reflexivity|vm_compute; reflexivity|done].
  - left.
  - exact demo_entitled.
  - reflexivity.
  - intros x Hx _ _. by apply list_elem_of_singleton in Hx.
  - reflexivity.
  - vm_compute. reflexivity.
  - reflexivity.
  - done.
  - done.
  - by vm_compute.
  - by vm_compute.
  - exact demo_bridge_runs.
Defined.

Lemma same_robot_same_identity_witness :
  ∃ ns sa1 sa2, issued_to demo_cfg demo_bridge.1.2 demo_issued ns sa1 ∧ issued_to demo_cfg demo_bridge.1.2 demo_issued ns sa2 ∧
    (sa1 = sa2 ∨ (truncated "prod" ns sa1 = true ∧ truncated "prod" ns sa2 = true ∧
       hashOf (natural_name "prod" ns sa1) = hashOf (natural_name "prod" ns sa2))).
Proof.
  apply (same_robot_same_identity demo_cfg demo_json demo_request demo_bridge.1.2 demo_bridge.2 demo_issued
    demo_request demo_bridge.1.2 demo_bridge.2 demo_issued);
    [apply play_runs_in; done|exact demo_bridge_issues|exact demo_bridge_admitted|apply play_runs_in; done|exact demo_bridge_issues|exact demo_bridge_admitted|done].
Defined.
