(* ===== verification/OidcClient.v ===== *)
(** * The HTTP client of token validation, and its construction

    bridge/dataplane/oidc_client.go (the client for OIDC discovery and the signing keys, which
    can carry the bridge's own ServiceAccount token) and [NewValidator] of
    bridge/dataplane/oidc.go. What a client sends is an event: the URL and the token with it,
    if any; its answer is the response and the Location header of it. [net/url.Parse],
    resolving a Location against the URL it came from, [net.ParseIP], the certificate pool and
    go-oidc's discovery are parameters; TLS and the timeouts are the transport's. *)

From S2P Require Import Prelude Effects GoStrings GoStd GoTime GoHttp Naming HarborClient Api RobotSecret Contract Config.
From S2P Require Import Kube Reconciler ReconcilerSpec ReconcilerProofs ReconcilerProps RateLimit KeySet Json DataPlane Oidc Handler HandlerProps Wiring.

Inductive ocall :=
| OReadFile (path : string)
| OSend (u : URL) (authorization : option string).

Definition oans (c : ocall) : Type :=
  match c with
  | OReadFile _ => res string
  | OSend _ _ => jwks_response * option string
  end.

Notation oprog := (prog oans).

(** ** The standard library *)

(** [u.Hostname()] of a host: without a port that is only digits, and without brackets. *)
Definition Hostname (host : string) : string :=
  let host := match after_last ":" host with
              | Some port => if all_bytes (in_range "0" "9") port then slice_to host (len host - len port - 1) else host
              | None => host
              end in
  match CutPrefix host "[" with
  | Some inner => match CutSuffix inner "]" with Some inner => inner | None => host end
  | None => host
  end.

(** The case folding of [strings.EqualFold] against ASCII text: the two other characters that
    fold to a letter of ASCII are U+017F and U+212A. *)
Fixpoint fold (s : string) : string :=
  match s with
  | String "197" (String "191" s) => String "s" (fold s)
  | String "226" (String "132" (String "170" s)) => String "k" (fold s)
  | String c s => String (if in_range "A" "Z" c then ascii_of_N (N_of_ascii c + 32) else c) (fold s)
  | EmptyString => EmptyString
  end.
Definition EqualFold (s t : string) : bool := String.eqb (fold s) (fold t).

(** ** The client *)

(** [tokenTransport]: the file of the token and the hosts it may go to. *)
Record tokenTransport := MkTransport { tokenFile : string; allowed : list string }.

(** [http.Client]: its transport adds the token, or is the plain one. *)
Record client := MkHTTPClient { Transport : option tokenTransport; CheckRedirect : redirectPolicy }.

Section Client.
Context (AppendCertsFromPEM : string → bool).

Definition NewOIDCHTTPClient (caFile tokenFile : string) : oprog (res client) :=
  ca ← (if String.eqb caFile "" then Ret None
        else r ← trigger (OReadFile caFile);
             Ret (match r with
                  | Err e => Some (EWrap "read CA file" e)
                  | Ok pem => if AppendCertsFromPEM pem then None else Some (EMsg "CA file contained no PEM blocks")
                  end));
  match ca with
  | Some e => Ret (Err e)
  | None =>
      if String.eqb tokenFile "" then Ret (Ok (MkHTTPClient None UseLastResponse))
      else
        r ← trigger (OReadFile tokenFile);
        Ret (match r with
             | Err e => Err (EWrap "read token file" e)
             | Ok _ => Ok (MkHTTPClient (Some (MkTransport tokenFile [])) UseLastResponse)
             end)
  end.
End Client.

Definition allow (t : tokenTransport) (host : string) : tokenTransport := MkTransport (tokenFile t) (host :: allowed t).

Definition isAllowed (t : tokenTransport) (u : URL) : bool :=
  String.eqb (UScheme u) "https" && existsb (String.eqb (UHost u)) (allowed t).

Definition RoundTrip (t : tokenTransport) (u : URL) : oprog (jwks_response * option string) :=
  if negb (isAllowed t u) then trigger (OSend u None)
  else
    r ← trigger (OReadFile (tokenFile t));
    match r with
    | Err e => Ret (DoFailed (EWrap "read SA token" e), None)
    | Ok raw => trigger (OSend u (Some ("Bearer " +:+ TrimSpace raw)))
    end.

(** The URL of an [http.Request]: [http.NewRequest] drops an empty port. *)
Definition request_url (u : URL) : URL := MkURL (UScheme u) (UUser u) (TrimSuffix (UHost u) ":") (UAfterHost u) (UText u).

(** The client's transport. *)
Definition send (c : client) (u : URL) : oprog (jwks_response * option string) :=
  match Transport c with
  | None => trigger (OSend u None)
  | Some t => RoundTrip t u
  end.

Definition is_redirect (a : jwks_response) : bool :=
  match a with
  | Responded status _ _ => redirect_status status
  | DoFailed _ => false
  end.

(** [client.Do] of a GET with [n] more requests allowed: a redirect with a Location goes
    to the URL it names relative to the one asked, unless the policy keeps the response. *)
Fixpoint Do (Resolve : URL → string → res URL) (n : nat) (c : client) (u : URL) : oprog jwks_response :=
  a ← send c (request_url u);
  match a, CheckRedirect c with
  | (r, Some location), FollowTen =>
      if is_redirect r then
        match Resolve u location, n with
        | Err e, _ => Ret (DoFailed e)
        | Ok _, O => Ret (DoFailed (EMsg "stopped after 10 redirects"))
        | Ok v, S n => Do Resolve n c v
        end
      else Ret r
  | (r, _), _ => Ret r
  end.

(** ** [NewValidator] *)

Section Validator.
Context {key : Type}.
Context (ParseURL : string → res URL) (Resolve : URL → string → res URL).
(** [net.ParseIP], with whether the address is a loopback one. *)
Context (ParseIP : string → option bool).
(** The value of KUBERNETES_SERVICE_HOST. *)
Context (serviceHost : string).
(** go-oidc's discovery: the URL it asks for an issuer, and what it takes from the answer. *)
Context (discovery_url : string → URL) (discovered : string → jwks_response → res (string * list string)).
(** [x509.CertPool.AppendCertsFromPEM]. *)
Context (AppendCertsFromPEM : string → bool).
(** go-jose's keys. *)
Context (IsPublic : key → bool) (decodeJWKS : string → res (list key)).

Definition isInClusterAPIServer (u : URL) : bool :=
  let host := Hostname (UHost u) in
  if negb (String.eqb serviceHost "") && bool_decide (is_Some (ParseIP host)) && String.eqb host serviceHost then true
  else if existsb (String.eqb host) ["kubernetes"; "kubernetes.default"; "kubernetes.default.svc"] then true
  else HasPrefix host "kubernetes.default.svc.".

Definition requireTLSUnlessLoopback (u : URL) : option gerr :=
  if String.eqb (UScheme u) "https" then None
  else if String.eqb (UScheme u) "http" then
    let host := Hostname (UHost u) in
    if EqualFold host "localhost" || match ParseIP host with Some loopback => loopback | None => false end then None
    else Some (EMsg "plain http is allowed only to a loopback host")
  else Some (EMsg "scheme is not https").

Definition allow_if (b : bool) (c : client) (u : URL) : client :=
  match Transport c with
  | Some t => if b then MkHTTPClient (Some (allow t (UHost u))) (CheckRedirect c) else c
  | None => c
  end.
Definition allowIfAPIServer (c : client) (u : URL) : client := allow_if (isInClusterAPIServer u) c u.

(** Where the keys come from: the JWKS URL, the algorithms, and the client that fetches them. *)
Definition key_source (c : client) (cfg : ValidatorConfig) (issuerURL : URL) : oprog (res (URL * list string * client)) :=
  if negb (String.eqb (VJWKSURL cfg) "") then
    match ParseURL (VJWKSURL cfg) with
    | Err e => Ret (Err (EWrap "oidc: JWKS URL" e))
    | Ok u =>
        match requireTLSUnlessLoopback u with
        | Some e => Ret (Err (EWrap "oidc: JWKS URL" e))
        | None => Ret (Ok (u, jwtSigningAlgs, allowIfAPIServer c u))
        end
    end
  else
    match requireTLSUnlessLoopback issuerURL with
    | Some e => Ret (Err (EWrap "oidc: issuer (discovery)" e))
    | None =>
        r ← Do Resolve followLimit c (discovery_url (VIssuer cfg));
        match discovered (VIssuer cfg) r with
        | Err e => Ret (Err (EWrap "oidc: discovery" e))
        | Ok (jwksURI, algs) =>
            match ParseURL jwksURI, String.eqb jwksURI "" with
            | Ok u, false =>
                match requireTLSUnlessLoopback u with
                | Some e => Ret (Err (EWrap "oidc: discovery names jwks_uri" e))
                | None => Ret (Ok (u, supportedAlgs algs, allow_if (isInClusterAPIServer issuerURL) c u))
                end
            | _, _ => Ret (Err (EMsg "oidc: discovery names no usable jwks_uri"))
            end
        end
    end.

(** What the constructor returns: the policy of [Validate], the algorithms the verifier
    accepts, and the key set's URL and client. *)
Record validatorParts := MkParts { vp_policy : goOIDCValidator; vp_algs : list string; vp_jwks : URL; vp_client : client }.

(** A fetch of the key set. *)
Definition fetch_keys (v : validatorParts) : oprog (res (list key)) :=
  r ← Do Resolve followLimit (vp_client v) (vp_jwks v); Ret (fetch IsPublic decodeJWKS r).

(** [httpClient] is [None] for a nil client. *)
Definition NewValidator (cfg : ValidatorConfig) (httpClient : option client) : oprog (res validatorParts) :=
  if String.eqb (VIssuer cfg) "" then Ret (Err (EMsg "oidc: issuer is required"))
  else if VMaxTokenLifetime cfg <=? 0 then Ret (Err (EMsg "oidc: max token lifetime must be positive"))
  else match ParseURL (VIssuer cfg) with
  | Err e => Ret (Err (EWrap "oidc: issuer" e))
  | Ok issuerURL =>
      hc ← (match httpClient with Some c => Ret (Ok c) | None => NewOIDCHTTPClient AppendCertsFromPEM "" "" end : oprog (res client));
      match hc with
      | Err e => Ret (Err e)
      | Ok c =>
      let c := allowIfAPIServer c issuerURL in
      s ← key_source c cfg issuerURL;
      match s with
      | Err e => Ret (Err e)
      | Ok (jwks, algs, c) =>
          let v := MkParts (validator_of cfg) algs jwks c in
          k ← fetch_keys v;
          Ret (match k with
               | Err e => Err (EWrap "oidc: fetch the token signing keys" e)
               | Ok _ => Ok v
               end)
      end
      end
  end.

(** A validator and the fetches of its key set that follow. *)
Fixpoint refreshes (n : nat) (v : validatorParts) : oprog unit :=
  match n with
  | O => Ret tt
  | S n => _ ← fetch_keys v; refreshes n v
  end.
Definition lifetime (n : nat) (cfg : ValidatorConfig) (httpClient : option client) : oprog unit :=
  v ← NewValidator cfg httpClient;
  match v with Ok v => refreshes n v | Err _ => Ret tt end.

(** ** Where the token goes *)

Section Traffic.
Context (cfg : ValidatorConfig).

(** The names of the API server inside the cluster: the Service's DNS names, and the address
    in KUBERNETES_SERVICE_HOST. *)
Definition apiserver_name (host : string) : Prop :=
  host ∈ ["kubernetes"; "kubernetes.default"; "kubernetes.default.svc"] ∨
  (∃ domain, host = "kubernetes.default.svc." +:+ domain) ∨
  (host = serviceHost ∧ serviceHost ≠ "" ∧ is_Some (ParseIP host)).

(** An https URL, or an http URL of this host. *)
Definition secure (u : URL) : Prop :=
  UScheme u = "https" ∨
  UScheme u = "http" ∧ (fold (Hostname (UHost u)) = "localhost" ∨ ParseIP (Hostname (UHost u)) = Some true).

(** A host the configuration names as the API server's: the issuer's, or the JWKS URL's. *)
Definition configured (host : string) : Prop :=
  ∃ w, (ParseURL (VIssuer cfg) = Ok w ∨ ParseURL (VJWKSURL cfg) = Ok w) ∧ apiserver_name (Hostname (UHost w)) ∧ UHost w = host.

(** A host the API server's own discovery named for its keys. *)
Definition named_by_apiserver (h : log oans) (host : string) : Prop :=
  ∃ issuer auth a uri algs w, ParseURL (VIssuer cfg) = Ok issuer ∧ apiserver_name (Hostname (UHost issuer)) ∧
    secure issuer ∧ existT (OSend (request_url (discovery_url (VIssuer cfg))) auth) a ∈ h ∧
    discovered (VIssuer cfg) a.1 = Ok (uri, algs) ∧ ParseURL uri = Ok w ∧ UHost w = host.

Definition trusted (h : log oans) (host : string) : Prop := configured host ∨ named_by_apiserver h host.

(** A URL keys may come from: a secure one, or that of a secure issuer's discovery. *)
Definition fetchable (u : URL) : Prop := ∃ w, u = request_url w ∧
  (secure w ∨ w = discovery_url (VIssuer cfg) ∧ ∃ issuer, ParseURL (VIssuer cfg) = Ok issuer ∧ secure issuer).

Lemma isInClusterAPIServer_name u : isInClusterAPIServer u = true → apiserver_name (Hostname (UHost u)).
Proof.
  unfold isInClusterAPIServer, apiserver_name. set (host := Hostname (UHost u)).
  destruct (negb _ && _ && _) eqn:E.
  { intros _. apply andb_true_iff in E as [[E1 E2]%andb_true_iff ->%String.eqb_eq]. right. right.
    apply negb_true_iff, String.eqb_neq in E1. by apply bool_decide_eq_true in E2. }
  destruct (existsb _ _) eqn:E'.
  - intros _. left. apply existsb_exists_elem in E' as (x & Hx & ->%String.eqb_eq). done.
  - intros Hp%HasPrefix_spec. auto.
Qed.

Lemma requireTLS_secure u : requireTLSUnlessLoopback u = None → secure u.
Proof.
  unfold requireTLSUnlessLoopback, secure. destruct (String.eqb_spec (UScheme u) "https"); [by left|].
  destruct (String.eqb_spec (UScheme u) "http"); [|done]. unfold EqualFold.
  destruct (String.eqb_spec (fold (Hostname (UHost u))) (fold "localhost")); [by right; split; [|left]|].
  destruct (ParseIP _) as [[]|]; simpl; try done. intros _. right. auto.
Qed.

(** What may be sent. *)
Definition traffic (h : log oans) (c : ocall) : Prop :=
  match c with
  | OReadFile _ => True
  | OSend u auth => fetchable u ∧ (auth ≠ None → UScheme u = "https" ∧ trusted h (UHost u))
  end.

Definition client_ok (h : log oans) (c : client) : Prop :=
  CheckRedirect c = UseLastResponse ∧ ∀ t, Transport c = Some t → Forall (trusted h) (allowed t).

Lemma trusted_later h e host : trusted h host → trusted (e :: h) host.
Proof. intros [H|(i & au & a & uri & al & w & ? & ? & ? & He & ? & ? & ?)]; [by left|right]. exists i, au, a, uri, al, w. split_and!; try done. by right. Qed.

Lemma client_later h e c : client_ok h c → client_ok (e :: h) c.
Proof. intros [Hp H]. split; [done|]. intros t Ht. eapply Forall_impl; [by apply H|]. intros host. apply trusted_later. Qed.

Lemma client_allow h c b u : client_ok h c → (b = true → trusted h (UHost u)) → client_ok h (allow_if b c u).
Proof.
  intros Hok Hb. destruct Hok as [Hp Hc] eqn:E. clear E. unfold allow_if.
  destruct (Transport c) as [t0|] eqn:Et; [|done]. destruct b; [|done].
  split; [done|]. intros t [= <-]. constructor; [by apply Hb|by apply Hc].
Qed.

Notation owp := (wp any_env traffic).

Lemma wp_send h c u : client_ok h c → fetchable u →
  owp h (send c u) (λ h' a, client_ok h' c ∧ ((∃ auth, existT (OSend u auth) a ∈ h') ∨ ∃ e, a = (DoFailed (EWrap "read SA token" e), None))).
Proof.
  intros Hc Hf. unfold send. destruct (Transport c) as [t|] eqn:Et.
  2: { split; [by split|]. intros a _. split; [by apply client_later|]. left. eexists. left. }
  unfold RoundTrip. destruct (isAllowed t u) eqn:Ha; cbn [negb].
  - unfold isAllowed in Ha. apply andb_true_iff in Ha as [Hs%String.eqb_eq Ha]. apply existsb_exists_elem in Ha as (host & Hin & Eh%String.eqb_eq).
    wp_call; [done|]. intros [raw|e] _; [|split; [by apply client_later|by right; eexists]].
    split; [|intros a _; split; [by do 2 apply client_later|left; eexists; left]]. split; [done|]. intros _. split; [done|].
    apply trusted_later. rewrite Eh. destruct Hc as [_ Hc]. specialize (Hc t Et). rewrite Forall_forall in Hc. by apply Hc.
  - split; [by split|]. intros a _. split; [by apply client_later|]. left. eexists. left.
Qed.

(** A client that keeps redirects sends one request. *)
Lemma wp_Do n h c u : client_ok h c → fetchable (request_url u) →
  owp h (Do Resolve n c u) (λ h' r, client_ok h' c ∧
    ((∃ auth a, existT (OSend (request_url u) auth) a ∈ h' ∧ a.1 = r) ∨ ∃ e, r = DoFailed (EWrap "read SA token" e))).
Proof.
  intros Hc Hf.
  assert (∀ (k : jwks_response * option string → oprog jwks_response), (∀ a, k a = Ret a.1) → owp h (mbind (M := prog oans) k (send c (request_url u)))
    (λ h' r, client_ok h' c ∧ ((∃ auth a, existT (OSend (request_url u) auth) a ∈ h' ∧ a.1 = r) ∨
       ∃ e, r = DoFailed (EWrap "read SA token" e)))) as Hk.
  { intros k Hk. apply wp_bind. eapply wp_mono; [by apply wp_send|]. intros h' a [Hc' Ha]. cbv beta. rewrite Hk. split; [done|].
    destruct Ha as [[auth Ha]|[e ->]]; [left; by eauto|right; by eauto]. }
  destruct Hc as [Hp _]. destruct n; cbn [Do]; apply Hk; intros [r [l|]]; by rewrite ?Hp.
Qed.

(** Discovery fails when its request does. *)
Context (discovery_fails : ∀ issuer e, is_ok (discovered issuer (DoFailed e)) = false).

Lemma wp_key_source h c issuer : client_ok h c → ParseURL (VIssuer cfg) = Ok issuer →
  owp h (key_source c cfg issuer) (λ h' r, ∀ u algs c', r = Ok (u, algs, c') → client_ok h' c' ∧ secure u).
Proof.
  intros Hc Hi. unfold key_source. destruct (String.eqb_spec (VJWKSURL cfg) "") as [Hj|Hj]; cbn [negb].
  - destruct (requireTLSUnlessLoopback issuer) eqn:Ht; [done|]. apply requireTLS_secure in Ht. apply wp_bind. eapply wp_mono.
    { apply wp_Do; [done|]. eexists. split; [done|]. right. split; [done|]. by exists issuer. }
    intros h' a [Hc' Ha]. destruct (discovered (VIssuer cfg) a) as [[uri algs]|] eqn:Hd; [|done].
    destruct (ParseURL uri) as [u|] eqn:Hu; [|done]. destruct (String.eqb uri ""); [done|].
    destruct (requireTLSUnlessLoopback u) eqn:Htu; [done|]. intros u' algs' c' [= <- <- <-]. split; [|by apply requireTLS_secure].
    apply client_allow; [done|]. intros Hcl%isInClusterAPIServer_name. right. destruct Ha as [(auth & x & Ha & Ex)|[e ->]].
    + exists issuer, auth, x, uri, algs, u. by rewrite Ex.
    + specialize (discovery_fails (VIssuer cfg) (EWrap "read SA token" e)). by rewrite Hd in discovery_fails.
  - destruct (ParseURL (VJWKSURL cfg)) as [u|] eqn:Hu; [|done]. destruct (requireTLSUnlessLoopback u) eqn:Ht; [done|].
    intros u' algs' c' [= <- <- <-]. split; [|by apply requireTLS_secure]. apply client_allow; [done|].
    intros Hcl%isInClusterAPIServer_name. left. exists u. auto.
Qed.

(** Keys were fetched from [u]. *)
Definition fetched (h : log oans) (u : URL) : Prop :=
  ∃ auth a ks, existT (OSend (request_url u) auth) a ∈ h ∧ fetch IsPublic decodeJWKS a.1 = Ok ks.

Lemma wp_fetch_keys h v : client_ok h (vp_client v) → secure (vp_jwks v) →
  owp h (fetch_keys v) (λ h' r, client_ok h' (vp_client v) ∧ ∀ ks, r = Ok ks → fetched h' (vp_jwks v)).
Proof.
  intros Hc Ht. unfold fetch_keys. apply wp_bind. eapply wp_mono; [apply wp_Do; [done|]; eexists; split; [done|by left]|].
  intros h' a [H Ha]. split; [done|]. intros ks Hk. destruct Ha as [(auth & x & Ha & <-)|[e ->]]; [by exists auth, x, ks|done].
Qed.

(** A client as [NewOIDCHTTPClient] makes it: no host may get the token yet, and redirects are kept. *)
Definition fresh_client (c : client) : Prop :=
  CheckRedirect c = UseLastResponse ∧ ∀ t, Transport c = Some t → allowed t = [].

Lemma wp_fresh_client ok h ca token : (∀ h p, ok h (OReadFile p)) →
  wp any_env ok h (NewOIDCHTTPClient AppendCertsFromPEM ca token) (λ _ r, ∀ c, r = Ok c → fresh_client c).
Proof.
  intros Hok. unfold NewOIDCHTTPClient. apply wp_bind.
  assert (∀ o h, wp any_env ok h (match o : option gerr with Some e => Ret (Err e) | None =>
    if String.eqb token "" then Ret (Ok (MkHTTPClient None UseLastResponse)) else
      r ← trigger (OReadFile token);
      Ret (match r with Err e => Err (EWrap "read token file" e) | Ok _ => Ok (MkHTTPClient (Some (MkTransport token [])) UseLastResponse) end) end)
    (λ _ r, ∀ c, r = Ok c → fresh_client c)) as Hrest.
  { intros [e|] h0; [done|]. destruct (String.eqb token ""); [by intros c [= <-]|].
    wp_call; [apply Hok|]. intros [raw|e] _; [|done]. intros c [= <-]. split; [done|]. by intros t [= <-]. }
  destruct (String.eqb ca ""); [apply Hrest|]. wp_call; [apply Hok|]. intros [pem|e] _; apply Hrest.
Qed.

Lemma wp_NewValidator h c : (∀ x, c = Some x → fresh_client x) →
  owp h (NewValidator cfg c) (λ h' r, ∀ v, r = Ok v → client_ok h' (vp_client v) ∧ secure (vp_jwks v) ∧
    vp_policy v = validator_of cfg ∧ fetched h' (vp_jwks v)).
Proof.
  intros Hc. unfold NewValidator. destruct (String.eqb _ ""); [done|]. destruct (_ <=? 0); [done|].
  destruct (ParseURL (VIssuer cfg)) as [issuer|] eqn:Hi; [|done].
  apply wp_bind. eapply (wp_mono _ _ _ _ (λ _ r, ∀ x, r = Ok x → fresh_client x)).
  { destruct c as [x|]; [intros y [= <-]; by apply Hc|]. by apply wp_fresh_client. }
  intros h0 [x|e] Hx; [|done]. destruct (Hx x eq_refl) as [Hp Ha]. cbv beta iota zeta. apply wp_bind. eapply wp_mono.
  { apply wp_key_source; [|exact Hi]. apply client_allow.
    - split; [done|]. intros t Ht. by rewrite (Ha t Ht).
    - intros Hcl%isInClusterAPIServer_name. left. exists issuer. auto. }
  intros h1 [[[u algs] c']|e] H1; [|done]. destruct (H1 u algs c' eq_refl) as [Hc' Ht].
  apply wp_bind. eapply wp_mono; [by apply wp_fetch_keys|]. intros h2 [ks|e] [H2 Hf] v; [|done]. intros [= <-].
  split_and!; [done..|by eapply Hf].
Qed.

Lemma wp_refreshes n : ∀ h v, client_ok h (vp_client v) → secure (vp_jwks v) → owp h (refreshes n v) (λ _ _, True).
Proof.
  induction n as [|n IH]; intros h v Hc Ht; cbn [refreshes]; [done|]. apply wp_bind. eapply wp_mono; [by apply wp_fetch_keys|].
  intros h' r [Hc' _]. by apply IH.
Qed.

(** C11: The bridge's own token, which can read every robot password, is sent only over TLS and
    only to the in-cluster API server: to the host of the configured issuer or JWKS URL when its
    name is one of the kubernetes Service's DNS names or the address in KUBERNETES_SERVICE_HOST,
    or to the host that the discovery document of such an issuer names for its keys. And the keys,
    with or without it, are asked only of an https URL or of this host (localhost or a loopback
    address), and the discovery document that names them only of an issuer with such a URL, so
    nobody on the way can substitute the signing keys. That holds with the client
    [NewOIDCHTTPClient] builds (or the default for none), whatever redirects the servers answer
    with, from the start and for every later refresh of the keys. *)
Theorem own_token_stays_home n ca token h0 x c h' r pre call a post :
  runs any_env (NewOIDCHTTPClient AppendCertsFromPEM ca token) [] h0 (Ok x) → c = Some x ∨ c = None →
  runs any_env (lifetime n cfg c) [] h' r → h' = post ++ existT call a :: pre → traffic pre call.
Proof.
  intros Hx Hc Hr ->. eapply log_ok_at; [|by exists pre; rewrite app_nil_r].
  refine (wp_calls any_env traffic [] _ (lifetime n cfg c) r _ Hr). unfold lifetime. apply wp_bind.
  assert (∀ y, c = Some y → fresh_client y) as Hf.
  { intros y ->. destruct Hc as [[= ->]|]; [|done].
    exact (wp_post _ _ _ _ (wp_fresh_client (λ _ _, True) [] ca token (λ _ _, I)) _ _ Hx x eq_refl). }
  eapply wp_mono; [by apply wp_NewValidator|]. intros h1 [v|e] H1; [|done]. destruct (H1 v eq_refl) as (? & ? & _). by apply wp_refreshes.
Qed.
End Traffic.
End Validator.

(** ** In the cluster *)

(** A parser of [https://host/path]. *)
Definition plain_url (s : string) : res URL :=
  match CutPrefix s "https://" with
  | None => Err (EMsg "not https")
  | Some rest =>
      let '(host, path) := match Cut rest "/" with Some (h, p) => (h, "/" +:+ p) | None => (rest, "") end in
      Ok (MkURL "https" None host path (λ _, s))
  end.

Definition well_known (issuer : string) : URL :=
  match plain_url (issuer +:+ "/.well-known/openid-configuration") with Ok u => u | Err _ => MkURL "" None "" "" (λ _, "") end.

(** The document is the jwks_uri alone. *)
Definition names_keys (issuer : string) (r : jwks_response) : res (string * list string) :=
  match r with
  | DoFailed e => Err e
  | Responded status body _ => if status =? 200 then Ok (body, ["RS256"]) else Err (EMsg "status")
  end.

(** The keys' address answers with a redirect to elsewhere the second time, which ends there. *)
Definition cluster_serve (s : nat) (c : ocall) : oans c * nat :=
  match c return oans c * nat with
  | OReadFile _ => (Ok "token", s)
  | OSend u _ =>
      if HasPrefix (UAfterHost u) "/.well-known" then (Responded 200 "https://10.0.0.1:6443/openid/v1/jwks" None, None, s)
      else match s with
           | O => (Responded 200 "keys" None, None, 1%nat)
           | _ => (Responded 307 "" None, Some "https://elsewhere/jwks", s)
           end
  end.

Definition own_client : client := MkHTTPClient (Some (MkTransport "/token" [])) UseLastResponse.

Definition start_with (c : client) (issuer : string) : oprog unit :=
  lifetime plain_url (λ _, plain_url) (λ _, None) "" well_known names_keys (λ _, true) (λ _, true) (λ s, Ok [s]) 1
    (MkValidatorConfig issuer "" Hour false) (Some c).

Definition in_cluster := play cluster_serve O (start_with own_client "https://kubernetes.default.svc") [].

(** Discovery, the first fetch and a refresh carry the token; a cloud's issuer gets none. *)
Definition tokens (h : log oans) : list (string * bool) :=
  omap (λ e : event oans, match projT1 e with OSend u a => Some (UHost u, bool_decide (is_Some a)) | _ => None end) h.

Example tokens_sent : tokens in_cluster.1.2 = [("10.0.0.1:6443", true); ("10.0.0.1:6443", true); ("kubernetes.default.svc", true)] ∧
  tokens (play cluster_serve O (start_with own_client "https://accounts.cloud.example") []).1.2 =
    [("10.0.0.1:6443", false); ("10.0.0.1:6443", false); ("accounts.cloud.example", false)].
Proof. by vm_compute. Qed.

(** A client without the policy would ask the address of the redirect. *)
Example redirect_followed :
  head (tokens (play cluster_serve O (start_with (MkHTTPClient (Some (MkTransport "/token" [])) FollowTen) "https://kubernetes.default.svc") []).1.2)
  = Some ("elsewhere", false).
Proof. by vm_compute. Qed.

Definition jwks_at : URL := request_url (match plain_url "https://10.0.0.1:6443/openid/v1/jwks" with Ok u => u | Err _ => well_known "" end).

Lemma own_token_stays_home_witness :
  traffic plain_url (λ _, None) "" well_known names_keys (MkValidatorConfig "https://kubernetes.default.svc" "" Hour false)
    (drop 1 in_cluster.1.2) (OSend jwks_at (Some "Bearer token")).
Proof.
  refine (own_token_stays_home (key := string) plain_url (λ _, plain_url) (λ _, None) "" well_known names_keys (λ _, true) (λ _, true) (λ s, Ok [s])
    (MkValidatorConfig "https://kubernetes.default.svc" "" Hour false) (λ _ _, eq_refl) 1 "" "/token"
    [existT (OReadFile "/token") (Ok "token")] own_client (Some own_client)
    in_cluster.1.2 tt (drop 1 in_cluster.1.2) (OSend jwks_at (Some "Bearer token"))
    (Responded 307 "" None, Some "https://elsewhere/jwks") [] _ _ _ _).
  - exists (Ok "token"). by split; [|split].
  - by left.
  - exact (play_runs_in any_env cluster_serve O (start_with own_client "https://kubernetes.default.svc") [] (λ _ _ _, I)).
  - vm_compute. reflexivity.
Defined.
