(* ===== verification/Server.v ===== *)
(** * The HTTPS server of the credential endpoint

    bridge/dataplane/server.go: the construction of the server, the client-CA bundle that
    follows its file, and [Start] with its drain and graceful shutdown. [Start], the goroutine
    that serves, and the context interleave as the rules of a step relation over a clock, so
    every theorem holds for all schedules. TLS, the listener and certwatcher are libraries:
    the rules say when they may answer. *)

From S2P Require Import Prelude GoStrings GoStd GoTime.

(** ** Construction *)

(** [ServerConfig]; the handler is given or nil. *)
Record ServerConfig := MkServerConfig {
  ListenAddr : string; CertFile : string; KeyFile : string; ClientCAFile : string; has_handler : bool;
  ShutdownTimeout : Duration; ShutdownDelay : Duration; ReloadInterval : Duration
}.

(** [caBundle]: the bytes and the pool of the last bundle that parsed. *)
Record caBundle (pool : Type) := MkBundle { ca_pem : string; ca_pool : option pool }.
Arguments MkBundle {pool} _ _.
Arguments ca_pem {pool} _.
Arguments ca_pool {pool} _.

Section Bundle.
Context {pool : Type}.
(** [AppendCertsFromPEM] on a new pool: [None] when the bytes hold no certificate. *)
Context (AppendCertsFromPEM : string → option pool).

Definition reload (c : caBundle pool) (read : res string) : option gerr * caBundle pool :=
  match read with
  | Err e => (Some (EWrap "read client CA bundle" e), c)
  | Ok raw =>
      if bool_decide (is_Some (ca_pool c)) && String.eqb raw (ca_pem c) then (None, c)
      else match AppendCertsFromPEM raw with
      | None => (Some (EMsg "client CA bundle contained no PEM-encoded certificates"), c)
      | Some p => (None, MkBundle raw (Some p))
      end
  end.

(** [watch]: a reload per tick, whose error is only logged. *)
Fixpoint watch (c : caBundle pool) (reads : list (res string)) : caBundle pool :=
  match reads with
  | [] => c
  | r :: reads => watch (reload c r).2 reads
  end.

Definition empty_bundle : caBundle pool := MkBundle "" None.

(** [Server], as far as [Start] looks at it. *)
Record Server := MkServer { s_cfg : ServerConfig; s_ca : option (caBundle pool) }.

Definition with_defaults (cfg : ServerConfig) : ServerConfig :=
  MkServerConfig (if String.eqb (ListenAddr cfg) "" then ":8443" else ListenAddr cfg) (CertFile cfg) (KeyFile cfg)
    (ClientCAFile cfg) (has_handler cfg)
    (if ShutdownTimeout cfg <=? 0 then 10 * Second else ShutdownTimeout cfg) (ShutdownDelay cfg)
    (if ReloadInterval cfg <=? 0 then 10 * Second else ReloadInterval cfg).

(** [NewServer], with what loading the key pair and reading the CA file gave. *)
Definition NewServer (cfg : ServerConfig) (keypair : option gerr) (read : res string) : res Server :=
  if negb (has_handler cfg) then Err (EMsg "server: Handler is required")
  else if String.eqb (CertFile cfg) "" || String.eqb (KeyFile cfg) "" then Err (EMsg "server: CertFile and KeyFile are required")
  else
    let cfg := with_defaults cfg in
    match keypair with
    | Some e => Err (EWrap "server: load TLS keypair" e)
    | None =>
        if String.eqb (ClientCAFile cfg) "" then Ok (MkServer cfg None)
        else match reload empty_bundle read with
        | (Some e, _) => Err (EWrap "server" e)
        | (None, ca) => Ok (MkServer cfg (Some ca))
        end
    end.

(** The pool a client's handshake is checked against: none when client certificates are off. *)
Definition client_pool (s : Server) : option (option pool) := option_map ca_pool (s_ca s).

(** ** The bundle is the last good one *)

(** The last of the reads that held certificates. *)
Fixpoint last_good (best : option pool) (reads : list (res string)) : option pool :=
  match reads with
  | [] => best
  | Ok raw :: reads => last_good (match AppendCertsFromPEM raw with Some p => Some p | None => best end) reads
  | Err _ :: reads => last_good best reads
  end.

Definition bundle_ok (c : caBundle pool) : Prop := ∀ p, ca_pool c = Some p → AppendCertsFromPEM (ca_pem c) = Some p.

Lemma reload_spec c r : bundle_ok c →
  bundle_ok (reload c r).2 ∧
  ca_pool (reload c r).2 = match r with Ok raw => match AppendCertsFromPEM raw with Some p => Some p | None => ca_pool c end | Err _ => ca_pool c end.
Proof.
  intros Hc. destruct r as [raw|e]; [|done]. cbn [reload]. destruct (bool_decide _ && _) eqn:E.
  - apply andb_true_iff in E as [[p Hp]%bool_decide_eq_true E%String.eqb_eq]. subst raw. split; [done|]. cbn. by rewrite (Hc p Hp).
  - destruct (AppendCertsFromPEM raw) as [p|] eqn:Hp; [|done]. split; [|done]. by intros q [= <-].
Qed.

(** A server that requires client certificates starts only with certificates to check them
    against, and always checks them against the last bundle that held any: a read that fails,
    or a half-written or empty file, changes nothing. *)
Theorem client_ca_last_good cfg keypair read s reads : NewServer cfg keypair read = Ok s → ClientCAFile cfg ≠ "" →
  ∃ ca p, s_ca s = Some ca ∧ ca_pool (watch ca reads) = last_good (Some p) reads ∧ ca_pool (watch ca reads) ≠ None ∧
    ∃ raw, read = Ok raw ∧ AppendCertsFromPEM raw = Some p.
Proof.
  assert (∀ reads ca p, bundle_ok ca → ca_pool ca = Some p →
    ca_pool (watch ca reads) = last_good (Some p) reads ∧ ca_pool (watch ca reads) ≠ None) as Hw.
  { clear. induction reads as [|r reads IH]; intros ca p Hc Hp; cbn [watch last_good]; [by rewrite Hp|].
    destruct (reload_spec ca r Hc) as [Hc' Hp']. rewrite Hp in Hp'. destruct r as [raw|e]; [|by apply IH].
    by destruct (AppendCertsFromPEM raw) as [q|]; apply IH. }
  unfold NewServer. destruct (negb _); [done|]. destruct (_ || _); [done|]. destruct keypair; [done|].
  intros Hs Hca. apply String.eqb_neq in Hca. change (ClientCAFile (with_defaults cfg)) with (ClientCAFile cfg) in Hs. rewrite Hca in Hs.
  destruct read as [raw|e]; [|done]. cbn [reload empty_bundle ca_pool] in Hs. rewrite bool_decide_eq_false_2 in Hs by by intros [].
  cbn [andb] in Hs. destruct (AppendCertsFromPEM raw) as [p|] eqn:Hp; [|done]. injection Hs as <-.
  exists (MkBundle raw (Some p)), p. split; [done|]. destruct (Hw reads (MkBundle raw (Some p)) p) as [H1 H2]; [by intros q [= <-]|done|].
  split_and!; [done..|by exists raw].
Qed.
End Bundle.

(** ** [Start] *)

(** Where [Start] is: before the listener is bound, in its [select], in [drain] until the timer
    fires, in [Shutdown] until its context ends, waiting for the serving goroutine, or back,
    with the instant of its return. *)
Inductive start_pc :=
| PListen
| PSelect
| PDrain (until : Time)
| PShutdown (until : Time)
| PWait (shutdown_err : option gerr)
| PDone (r : option gerr) (at_ : Time).

(** [Start] with what it shares: whether [ServeTLS] still runs, the channel of its result, when
    the context was cancelled, the clock, the readiness flag and the keep-alives. *)
Record running := MkRunning {
  r_pc : start_pc; r_serving : bool; r_errCh : option (option gerr); r_cancelled : option Time; r_now : Time;
  r_listening : bool; r_keepAlives : bool
}.

Definition starting (t : Time) : running := MkRunning PListen false None None t false true.

Section Start.
Context (delay timeout : Duration).

(** [drain] is entered only for a positive delay. *)
Definition leave_select (s : running) : running :=
  if delay <=? 0 then MkRunning (PShutdown (Add (r_now s) timeout)) (r_serving s) (r_errCh s) (r_cancelled s) (r_now s) (r_listening s) (r_keepAlives s)
  else MkRunning (PDrain (Add (r_now s) delay)) (r_serving s) (r_errCh s) (r_cancelled s) (r_now s) (r_listening s) false.

(** [Start] returns: its deferred calls clear the readiness flag. *)
Definition return_with (s : running) (r : option gerr) : running :=
  MkRunning (PDone r (r_now s)) (r_serving s) None (r_cancelled s) (r_now s) false (r_keepAlives s).

Definition go_to (s : running) (pc : start_pc) : running :=
  MkRunning pc (r_serving s) (r_errCh s) (r_cancelled s) (r_now s) (r_listening s) (r_keepAlives s).

Definition serve_returns (s : running) (r : option gerr) : running :=
  MkRunning (r_pc s) false (Some r) (r_cancelled s) (r_now s) (r_listening s) (r_keepAlives s).

(** Something is due at once; only waiting takes time. [Shutdown] makes [ServeTLS] return at
    once. *)
Definition due (s : running) : bool :=
  match r_pc s with
  | PListen => true
  | PSelect => bool_decide (is_Some (r_cancelled s)) || bool_decide (is_Some (r_errCh s))
  | PDrain until => bool_decide (is_Some (r_errCh s)) || (until <=? r_now s)
  | PShutdown until => r_serving s || (until <=? r_now s)
  | PWait _ => true
  | PDone _ _ => false
  end.

(** A timer of [Start] does not fire late. *)
Definition in_time (s : running) (d : Duration) : bool :=
  match r_pc s with
  | PDrain until | PShutdown until => r_now s + d <=? until
  | _ => true
  end.

Inductive step : running → running → Prop :=
| s_listen s : r_pc s = PListen → step s (MkRunning PSelect true (r_errCh s) (r_cancelled s) (r_now s) true (r_keepAlives s))
| s_listen_fails s e : r_pc s = PListen → step s (return_with s (Some (EWrap "server: listen" e)))
| s_cancel s : r_cancelled s = None →
    step s (MkRunning (r_pc s) (r_serving s) (r_errCh s) (Some (r_now s)) (r_now s) (r_listening s) (r_keepAlives s))
| s_tick s d : due s = false → 0 < d → in_time s d = true →
    step s (MkRunning (r_pc s) (r_serving s) (r_errCh s) (r_cancelled s) (r_now s + d) (r_listening s) (r_keepAlives s))
| s_serve_dies s e : r_serving s = true → step s (serve_returns s (Some e))
| s_ctx_done s : r_pc s = PSelect → is_Some (r_cancelled s) → step s (leave_select s)
| s_died s e : r_pc s = PSelect → r_errCh s = Some e → step s (return_with s e)
| s_drained s until : r_pc s = PDrain until → until ≤ r_now s → step s (go_to s (PShutdown (Add (r_now s) timeout)))
| s_drain_died s until e : r_pc s = PDrain until → r_errCh s = Some e → step s (return_with s e)
| s_closed s : match r_pc s with PShutdown _ | PWait _ => True | _ => False end → r_serving s = true → step s (serve_returns s None)
| s_shutdown s until err : r_pc s = PShutdown until → step s (go_to s (PWait err))
| s_wait s err e : r_pc s = PWait err → r_errCh s = Some e →
    step s (return_with s (option_map (EWrap "server: shutdown") err)).

Inductive reachable (t0 : Time) : running → Prop :=
| r_start : reachable t0 (starting t0)
| r_step s s' : reachable t0 s → step s s' → reachable t0 s'.

(** [ReadyCheck]. *)
Definition ReadyCheck (s : running) : option gerr := if r_listening s then None else Some (EMsg "data-plane listener not bound").

Definition D : Duration := Z.max 0 delay.

(** What holds at every point of [Start]. *)
Record start_inv (s : running) : Prop := {
  si_ready : r_listening s = true ↔ match r_pc s with PListen | PDone _ _ => False | _ => True end;
  si_serving : match r_pc s with PListen => r_serving s = false ∧ r_errCh s = None | PDone _ _ => True | _ => r_serving s = false ↔ r_errCh s ≠ None end;
  si_cancelled : ∀ tc, r_cancelled s = Some tc → tc ≤ r_now s;
  si_pc : match r_pc s with
    | PListen | PDone _ _ => True
    | PSelect => ∀ tc, r_cancelled s = Some tc → r_now s = tc
    | PDrain until => 0 < delay ∧ r_now s ≤ until ∧ r_keepAlives s = false ∧ ∃ tc, r_cancelled s = Some tc ∧ until = tc + D
    | PShutdown until => r_now s ≤ until ∧ ∃ tc, r_cancelled s = Some tc ∧ tc + D + timeout = until ∧ tc + D ≤ r_now s ∧ (0 < delay → r_keepAlives s = false)
    | PWait _ => ∃ tc, r_cancelled s = Some tc ∧ tc + D ≤ r_now s ≤ tc + D + timeout ∧ (0 < delay → r_keepAlives s = false)
    end;
  si_listen : r_pc s = PListen → ∀ tc, r_cancelled s = Some tc → r_now s = tc;
  si_done : ∀ r t, r_pc s = PDone r t → t ≤ r_now s ∧ ∀ tc, r_cancelled s = Some tc → t ≤ tc + D + timeout
}.

Lemma start_inv_init t0 : start_inv (starting t0).
Proof. split; cbn; try done. Qed.

Context (Htimeout : 0 ≤ timeout).

Definition is_done (s : running) : bool := match r_pc s with PDone _ _ => true | _ => false end.

Lemma live_time s tc : start_inv s → r_cancelled s = Some tc → is_done s = false → r_now s ≤ tc + D + timeout.
Proof.
  intros [_ _ _ H4 H5 _] Hc Hd. unfold D in *. unfold is_done in Hd. destruct (r_pc s); try done.
  - rewrite (H5 eq_refl tc Hc). lia.
  - rewrite (H4 tc Hc). lia.
  - destruct H4 as (_ & ? & _ & tc' & Hc' & ->). simplify_eq. lia.
  - destruct H4 as (? & tc' & Hc' & ? & _). simplify_eq. lia.
  - destruct H4 as (tc' & Hc' & ?). simplify_eq. lia.
Qed.

Lemma inv_return s r : start_inv s → is_done s = false → start_inv (return_with s r).
Proof.
  intros Hi Hd. split; cbn; try done; [apply Hi|]. intros r' t [= <- <-]. split; [done|]. intros tc Hc. by apply live_time.
Qed.

Lemma inv_serve_returns s r : start_inv s → r_serving s = true → start_inv (serve_returns s r).
Proof.
  intros [H1 H2 H3 H4 H5 H6] Hs. split; cbn; try done. destruct (r_pc s); try done. destruct H2; congruence.
Qed.

Lemma inv_cancel s : start_inv s → r_cancelled s = None →
  start_inv (MkRunning (r_pc s) (r_serving s) (r_errCh s) (Some (r_now s)) (r_now s) (r_listening s) (r_keepAlives s)).
Proof.
  intros [H1 H2 H3 H4 H5 H6] Hn. split; cbn; try done.
  - by intros tc [= <-].
  - destruct (r_pc s); try done; [by intros tc [= <-]|destruct H4 as (_ & _ & _ & tc & ? & _)|destruct H4 as (_ & tc & ? & _)|destruct H4 as (tc & ? & _)]; congruence.
  - intros Hp tc [= <-]. done.
  - intros r t Hp. destruct (H6 r t Hp) as [Ht _]. split; [done|]. intros tc [= <-]. unfold D. lia.
Qed.

Lemma inv_tick s d : start_inv s → due s = false → 0 < d → in_time s d = true →
  start_inv (MkRunning (r_pc s) (r_serving s) (r_errCh s) (r_cancelled s) (r_now s + d) (r_listening s) (r_keepAlives s)).
Proof.
  intros [H1 H2 H3 H4 H5 H6] Hd Hp Ht. unfold due, in_time in *. split; cbn; try done.
  - intros tc Hc. specialize (H3 tc Hc). lia.
  - destruct (r_pc s); try done.
    + intros tc Hc. rewrite Hc, bool_decide_eq_true_2 in Hd by eauto. done.
    + destruct H4 as (? & _ & ? & H). split_and!; [done|lia|done|done].
    + destruct H4 as (_ & tc & Hc & ? & ? & ?). split; [lia|]. exists tc. split_and!; [done|done|lia|done].
  - intros Hl. by rewrite Hl in Hd.
  - intros r t Hr. destruct (H6 r t Hr). split; [lia|done].
Qed.

Lemma inv_leave_select s : start_inv s → r_pc s = PSelect → is_Some (r_cancelled s) → start_inv (leave_select s).
Proof.
  intros [H1 H2 H3 H4 H5 H6] Hp [tc Hc]. rewrite Hp in *. specialize (H4 tc Hc). unfold leave_select, D in *.
  destruct (Z.leb_spec delay 0); split; cbn; try done.
  - unfold Add. split; [lia|]. exists tc. split_and!; [done|unfold D; lia..|lia].
  - unfold Add. split_and!; [done|lia|done|]. exists tc. split; [done|]. unfold D. lia.
Qed.

Lemma start_step_inv s s' : start_inv s → step s s' → start_inv s'.
Proof.
  intros Hi Hs. destruct Hs as [s Hp|s e Hp|s Hc|s d Hd Hpos Ht|s e Hsv|s Hp Hc|s e Hp He|s u Hp Hu|s u e Hp He|s Hp Hsv|s u err Hp|s err e Hp He].
  - destruct Hi as [H1 H2 H3 H4 H5 H6]. rewrite Hp in *. destruct H2 as [_ ->]. split; cbn; try done. by apply H5.
  - apply inv_return; [done|]. unfold is_done. by rewrite Hp.
  - by apply inv_cancel.
  - by apply inv_tick.
  - by apply inv_serve_returns.
  - by apply inv_leave_select.
  - apply inv_return; [done|]. unfold is_done. by rewrite Hp.
  - destruct Hi as [H1 H2 H3 H4 H5 H6]. rewrite Hp in *. destruct H4 as (Hd & Hle & Hk & tc & Hc & ->). split; cbn; try done.
    unfold Add. split; [lia|]. exists tc. split_and!; [done|lia|lia|done].
  - apply inv_return; [done|]. unfold is_done. by rewrite Hp.
  - by apply inv_serve_returns.
  - destruct Hi as [H1 H2 H3 H4 H5 H6]. rewrite Hp in *. destruct H4 as (Hle & tc & Hc & Hu & Hlo & Hk). split; cbn; try done.
    exists tc. split_and!; [done|lia|lia|done].
  - apply inv_return; [done|]. unfold is_done. by rewrite Hp.
Qed.

Lemma start_reachable_inv t0 s : reachable t0 s → start_inv s.
Proof. induction 1 as [|s s' _ IH Hs]; [apply start_inv_init|by eapply start_step_inv]. Qed.

(** The replica is ready exactly while [Start] has the listener bound; and it closes the
    listener only after the context was cancelled and the delay has passed since, with the
    keep-alives already off, so every client has moved to another replica by then. *)
Theorem listener_outlives_routing t0 s : reachable t0 s →
  (ReadyCheck s = None ↔ r_pc s ≠ PListen ∧ is_done s = false) ∧
  ((∃ until, r_pc s = PShutdown until) ∨ (∃ err, r_pc s = PWait err) →
     ∃ tc, r_cancelled s = Some tc ∧ tc + D ≤ r_now s ∧ (0 < delay → r_keepAlives s = false)) ∧
  (r_serving s = false → ReadyCheck s = None → r_errCh s ≠ None).
Proof.
  intros [H1 H2 H3 H4 H5 H6]%start_reachable_inv. split_and!.
  - unfold ReadyCheck, is_done. transitivity (r_listening s = true); [by destruct (r_listening s)|]. rewrite H1.
    destruct (r_pc s); split; try done; by intros [? ?].
  - intros [[u Hp]|[e Hp]]; rewrite Hp in H4; [destruct H4 as (_ & tc & ? & ? & ? & ?)|destruct H4 as (tc & ? & ? & ?)]; exists tc; split_and!; try done; lia.
  - unfold ReadyCheck. destruct (r_listening s); [|done]. intros Hs _. destruct (r_pc s); try (by apply H2); by destruct (proj1 H1 eq_refl).
Qed.

Lemma finish_wait s err : start_inv s → r_pc s = PWait err → ∃ s', rtc step s s' ∧ is_done s' = true.
Proof.
  intros Hi Hp. destruct (r_errCh s) as [e|] eqn:He.
  - exists (return_with s (option_map (EWrap "server: shutdown") err)). split; [|done]. apply rtc_once. by eapply s_wait.
  - destruct (r_serving s) eqn:Hs.
    + exists (return_with (serve_returns s None) (option_map (EWrap "server: shutdown") err)). split; [|done].
      eapply rtc_l; [apply s_closed; [by rewrite Hp|done]|]. apply rtc_once. by eapply s_wait.
    + destruct Hi as [_ H2 _ _ _ _]. rewrite Hp in H2. by destruct (proj1 H2 Hs).
Qed.

Lemma finish_shutdown s until : start_inv s → r_pc s = PShutdown until → ∃ s', rtc step s s' ∧ is_done s' = true.
Proof.
  intros Hi Hp. assert (step s (go_to s (PWait None))) as Hs by by eapply s_shutdown.
  destruct (finish_wait _ None (start_step_inv _ _ Hi Hs) eq_refl) as (s' & Hr & Hd). exists s'. split; [by eapply rtc_l|done].
Qed.

Lemma finish_drain s until : start_inv s → r_pc s = PDrain until → ∃ s', rtc step s s' ∧ is_done s' = true.
Proof.
  intros Hi Hp. destruct (r_errCh s) as [e|] eqn:He.
  { exists (return_with s e). split; [|done]. apply rtc_once. by eapply s_drain_died. }
  assert (∀ s, start_inv s → r_pc s = PDrain until → until ≤ r_now s → ∃ s', rtc step s s' ∧ is_done s' = true) as Hlate.
  { clear s Hi Hp He. intros s Hi Hp Hu. assert (step s (go_to s (PShutdown (Add (r_now s) timeout)))) as Hs by by eapply s_drained.
    destruct (finish_shutdown _ _ (start_step_inv _ _ Hi Hs) eq_refl) as (s' & Hr & Hd). exists s'. split; [by eapply rtc_l|done]. }
  destruct (Z.leb_spec until (r_now s)) as [Hu|Hu]; [by apply Hlate|].
  assert (step s (MkRunning (r_pc s) (r_serving s) (r_errCh s) (r_cancelled s) (r_now s + (until - r_now s)) (r_listening s) (r_keepAlives s))) as Hs.
  { apply s_tick; [|lia|]; unfold due, in_time; rewrite Hp, ?He; [|lia]. rewrite bool_decide_eq_false_2 by by intros []. cbn. lia. }
  destruct (Hlate _ (start_step_inv _ _ Hi Hs) Hp) as (s' & Hr & Hd); [cbn; lia|]. exists s'. split; [by eapply rtc_l|done].
Qed.

Lemma finish_select s : start_inv s → r_pc s = PSelect → is_Some (r_cancelled s) → ∃ s', rtc step s s' ∧ is_done s' = true.
Proof.
  intros Hi Hp Hc. assert (step s (leave_select s)) as Hs by by apply s_ctx_done. pose proof (start_step_inv _ _ Hi Hs) as Hi'.
  assert (∃ s', rtc step (leave_select s) s' ∧ is_done s' = true) as (s' & Hr & Hd); [|exists s'; split; [by eapply rtc_l|done]].
  unfold leave_select in *. destruct (delay <=? 0); [by eapply finish_shutdown|by eapply finish_drain].
Qed.

(** Once the context is cancelled, [Start] always comes back: it is never stuck, and under
    every schedule it has returned, or the shutdown still runs, at most the delay and the
    timeout after the cancellation. *)
Lemma finished_by t0 s tc : reachable t0 s → r_cancelled s = Some tc →
  (∃ s', rtc step s s' ∧ is_done s' = true) ∧
  (∀ r t, r_pc s = PDone r t → t ≤ tc + D + timeout) ∧ (is_done s = false → r_now s ≤ tc + D + timeout).
Proof.
  intros Hi%start_reachable_inv Hc. split_and!.
  - destruct (r_pc s) eqn:Hp.
    + assert (step s (MkRunning PSelect true (r_errCh s) (r_cancelled s) (r_now s) true (r_keepAlives s))) as Hs by by apply s_listen.
      destruct (finish_select _ (start_step_inv _ _ Hi Hs) eq_refl) as (s' & Hr & Hd); [by eexists|]. exists s'. split; [by eapply rtc_l|done].
    + apply finish_select; [done..|by eexists].
    + by eapply finish_drain.
    + by eapply finish_shutdown.
    + by eapply finish_wait.
    + exists s. split; [done|]. unfold is_done. by rewrite Hp.
  - intros r t Hp. by apply (si_done _ Hi r t Hp).
  - intros Hd. by apply live_time.
Qed.

End Start.

(** ** A server that is told to stop *)

(** It binds, is cancelled after a minute, drains for five seconds and shuts down. *)
Definition stopped : running := MkRunning (PWait None) true None (Some Minute) (Minute + 5 * Second) true false.

Lemma stopped_reachable : reachable (5 * Second) (10 * Second) 0 stopped.
Proof.
  eapply r_step; [|eapply (s_shutdown (5 * Second) (10 * Second) (MkRunning (PShutdown (Minute + 15 * Second)) true None (Some Minute) (Minute + 5 * Second) true false)); reflexivity].
  eapply r_step; [|eapply (s_drained (5 * Second) (10 * Second) (MkRunning (PDrain (Minute + 5 * Second)) true None (Some Minute) (Minute + 5 * Second) true false)); reflexivity || done].
  eapply r_step; [|eapply (s_tick (5 * Second) (10 * Second) (MkRunning (PDrain (Minute + 5 * Second)) true None (Some Minute) Minute true false) (5 * Second)); reflexivity].
  eapply r_step; [|eapply (s_ctx_done (5 * Second) (10 * Second) (MkRunning PSelect true None (Some Minute) Minute true true)); [reflexivity|by eexists]].
  eapply r_step; [|eapply (s_cancel (5 * Second) (10 * Second) (MkRunning PSelect true None None Minute true true)); reflexivity].
  eapply r_step; [|eapply (s_tick (5 * Second) (10 * Second) (MkRunning PSelect true None None 0 true true) Minute); reflexivity].
  eapply r_step; [|eapply (s_listen (5 * Second) (10 * Second) (starting 0)); reflexivity]. apply r_start.
Qed.

Lemma listener_outlives_routing_witness : ReadyCheck stopped = None ∧
  ∃ tc, r_cancelled stopped = Some tc ∧ tc + D (5 * Second) ≤ r_now stopped ∧ (0 < 5 * Second → r_keepAlives stopped = false).
Proof.
  destruct (listener_outlives_routing (5 * Second) (10 * Second) ltac:(done) 0 stopped stopped_reachable) as (_ & H & _).
  split; [reflexivity|]. apply H. right. by exists None.
Defined.

(** Certificates are bytes that start with a dash. *)
Definition toy_pem (s : string) : option string := if HasPrefix s "-" then Some s else None.
Definition mtls_config : ServerConfig := MkServerConfig "" "crt" "key" "ca" true 0 0 0.

Lemma client_ca_last_good_witness :
  ∃ s ca p, NewServer toy_pem mtls_config None (Ok "-old") = Ok s ∧ s_ca s = Some ca ∧
    ca_pool (watch toy_pem ca [Ok ""; Ok "-new"; Err (EMsg "io"); Ok "half"]) = last_good toy_pem (Some p) [Ok ""; Ok "-new"; Err (EMsg "io"); Ok "half"] ∧
    ca_pool (watch toy_pem ca [Ok ""; Ok "-new"; Err (EMsg "io"); Ok "half"]) ≠ None.
Proof.
  destruct (NewServer toy_pem mtls_config None (Ok "-old")) as [s|e] eqn:E; [|by vm_compute in E].
  destruct (client_ca_last_good toy_pem mtls_config None (Ok "-old") s [Ok ""; Ok "-new"; Err (EMsg "io"); Ok "half"] E ltac:(done)) as (ca & p & H1 & H2 & H3 & _).
  exists s, ca, p. done.
Defined.
