(* ===== verification/Plugin.v ===== *)
(** * The kubelet credential plugin

    [plugin/main.go] and [plugin/bridge_client.go]: one run of the plugin reads
    kubelet's request from standard input, asks the bridge for credentials, with one
    retry after a 503, and writes kubelet's response. The run is a program over the
    HTTP requests it sends, its waits and its output. [PluginMain] adds the process around
    it and the settings of the connection; [net/url]'s [Parse] is a parameter of which the code uses the
    error, the scheme and the host. *)

From S2P Require Import Prelude Effects GoStrings GoStd GoTime Json.

(** ** Wire types *)

Definition credentialsPath : string := "/v1/credentials".
Definition credentialProviderAPIVersion : string := "credentialprovider.kubelet.k8s.io/v1".
Definition requestKind : string := "CredentialProviderRequest".
Definition responseKind : string := "CredentialProviderResponse".
Definition cacheKeyTypeImage : string := "Image".

Record credentialProviderRequest := MkCPRequest {
  APIVersion : string; Kind : string; CPImage : string; ServiceAccountToken : string }.

Definition set_cprequest (r : credentialProviderRequest) (k : string) (j : json) : res credentialProviderRequest :=
  if is_field "apiVersion" k then res_map (λ s, MkCPRequest s (Kind r) (CPImage r) (ServiceAccountToken r)) (decode_string (APIVersion r) j)
  else if is_field "kind" k then res_map (λ s, MkCPRequest (APIVersion r) s (CPImage r) (ServiceAccountToken r)) (decode_string (Kind r) j)
  else if is_field "image" k then res_map (λ s, MkCPRequest (APIVersion r) (Kind r) s (ServiceAccountToken r)) (decode_string (CPImage r) j)
  else if is_field "serviceAccountToken" k then res_map (λ s, MkCPRequest (APIVersion r) (Kind r) (CPImage r) s) (decode_string (ServiceAccountToken r) j)
  else Ok r.

Record authConfig := MkAuth { AuthUsername : string; AuthPassword : string }.

(** [Auth] is a Go map, written with its keys in order; it has at most one here. *)
Record credentialProviderResponse := MkCPResponse {
  RespAPIVersion : string; RespKind : string; RespCacheKeyType : string; RespCacheDuration : string;
  RespAuth : list (string * authConfig) }.

Definition cpresponse_json (r : credentialProviderResponse) : json :=
  JObject [("apiVersion", JString (RespAPIVersion r)); ("kind", JString (RespKind r));
    ("cacheKeyType", JString (RespCacheKeyType r)); ("cacheDuration", JString (RespCacheDuration r));
    ("auth", JObject ((λ '(host, a), (host, JObject [("username", JString (AuthUsername a)); ("password", JString (AuthPassword a))])) <$> RespAuth r))].

Record bridgeResponse := MkBridgeResponse {
  BUsername : string; BPassword : string; BExpiresInSecs : option Z; BCacheKeyType : string }.

Definition set_bridgeResponse (r : bridgeResponse) (k : string) (j : json) : res bridgeResponse :=
  if is_field "username" k then res_map (λ s, MkBridgeResponse s (BPassword r) (BExpiresInSecs r) (BCacheKeyType r)) (decode_string (BUsername r) j)
  else if is_field "password" k then res_map (λ s, MkBridgeResponse (BUsername r) s (BExpiresInSecs r) (BCacheKeyType r)) (decode_string (BPassword r) j)
  else if is_field "expires_in" k then res_map (λ n, MkBridgeResponse (BUsername r) (BPassword r) n (BCacheKeyType r)) (decode_int_ptr (BExpiresInSecs r) j)
  else if is_field "cache_key_type" k then res_map (λ s, MkBridgeResponse (BUsername r) (BPassword r) (BExpiresInSecs r) s) (decode_string (BCacheKeyType r) j)
  else Ok r.

Definition decode_bridgeResponse (text : string) : res bridgeResponse :=
  match Unmarshal text with
  | Err e => Err e
  | Ok j => decode_struct set_bridgeResponse (MkBridgeResponse "" "" None "") j
  end.

(** ** Effects *)

Record httpPost := MkPost { PURL : string; PHeader : list (string * string); PBody : string }.

(** A response: its status, the bytes of its body, and the error reading ends with,
    if any. *)
Record httpReply := MkReply { RStatus : Z; RBody : string; RError : option gerr }.

Inductive pcall :=
| Do (r : httpPost)
| Sleep (d : Duration)
| Stderr (line : string)
| Stdout (text : string).

Definition pans (c : pcall) : Type :=
  match c with Do _ => res httpReply | Sleep _ | Stderr _ => unit | Stdout _ => option gerr end.

Notation plugin := (prog pans).

(** ** The bridge client *)

Definition retryBackoff : Duration := Second.
Definition maxBodySnippetLen : nat := 256.
Definition maxResponseBytes : Z := Z.shiftl 1 20.

Record bridgeClient := MkClient { url : string }.

Definition newBridgeClientWithHTTPClient (endpoint : string) : bridgeClient :=
  MkClient (TrimRight endpoint "/" +:+ credentialsPath).

Definition bodySnippet (body : string) : string :=
  let s := TrimSpace body in
  if (maxBodySnippetLen <? String.length s)%nat then take_str maxBodySnippetLen s +:+ ellipsis else s.

(** [io.ReadAll(io.LimitReader(resp.Body, maxResponseBytes+1))]: reading stops at the
    limit or at the end of the body, whichever comes first. *)
Definition readLimited (r : httpReply) : res string :=
  if maxResponseBytes <? len (RBody r) then Ok (take_str (Z.to_nat (maxResponseBytes + 1)) (RBody r))
  else match RError r with Some e => Err e | None => Ok (RBody r) end.

(** The request of [do]. *)
Definition post_of (c : bridgeClient) (body token : string) : httpPost :=
  MkPost (url c) [("Authorization", "Bearer " +:+ token); ("Content-Type", "application/json"); ("Accept", "application/json")] body.

(** What [do] makes of the reply. *)
Definition attempt (r : res httpReply) : res (string * Z) :=
  match r with
  | Err e => Err e
  | Ok resp =>
      match readLimited resp with
      | Err e => Err (EWrap "read response body" e)
      | Ok b => if maxResponseBytes <? len b then Err (EMsg "bridge response exceeds the limit") else Ok (b, RStatus resp)
      end
  end.

Section Client.
(** [net/url]'s [Parse]: the scheme and the host, or an error. *)
Variable ParseURL : string → res (string * string).

Definition do_ (c : bridgeClient) (body token : string) : plugin (res (string * Z)) :=
  match ParseURL (url c) with
  | Err e => Ret (Err (EWrap "build request" e))
  | Ok _ => r ← trigger (Do (post_of c body token)); Ret (attempt r)
  end.

Definition request_body (image : string) : string := print (JObject [("image", JString image)]).

(** The outcome of the last attempt. *)
Definition fetch_result (resp : string) (status : Z) : res bridgeResponse :=
  if status =? 200 then
    match decode_bridgeResponse resp with
    | Err e => Err (EWrap "decode bridge response" e)
    | Ok out =>
        if String.eqb (BUsername out) "" || String.eqb (BPassword out) ""
        then Err (EMsg "bridge returned 200 with empty username and/or password")
        else if String.eqb (BCacheKeyType out) "" then Err (EMsg "bridge returned 200 with empty cache_key_type")
        else match BExpiresInSecs out with
             | None => Err (EMsg "bridge returned 200 without expires_in")
             | Some _ => Ok out
             end
    end
  else if (status =? 401) || (status =? 403) then Err (EWrap (bodySnippet resp) (ESentinel errBridgeRefused))
  else if status =? 503 then Err (EWrap (bodySnippet resp) (ESentinel errBridgeUnavailable))
  else Err (EMsg (bodySnippet resp)).

Definition fetch (c : bridgeClient) (image token : string) : plugin (res bridgeResponse) :=
  let body := request_body image in
  r ← do_ c body token;
  match r with
  | Err e => Ret (Err (EJoin (ESentinel errBridgeUnavailable) e))
  | Ok (resp, status) =>
      if status =? 503 then
        _ ← trigger (Stderr "harbor-bridge-plugin: bridge returned 503; retrying once after 1s");
        _ ← trigger (Sleep retryBackoff);
        r ← do_ c body token;
        match r with
        | Err e => Ret (Err (EJoin (ESentinel errBridgeUnavailable) (EWrap "retry failed" e)))
        | Ok (resp, status) => Ret (fetch_result resp status)
        end
      else Ret (fetch_result resp status)
  end.

(** ** Writing the response *)

Definition imageHost (image : string) : string :=
  match Cut image "/" with Some (host, _) => host | None => "" end.

Definition maxCacheDuration : Duration := 24 * Hour.
Definition cacheKeyTypes : list string := ["Image"; "Registry"; "Global"].

(** [time.Duration.String] of a whole number of seconds. *)
Definition seconds_string (secs : Z) : string :=
  let h := secs / 3600 in
  let m := secs / 60 mod 60 in
  let s := secs mod 60 in
  if 3600 <=? secs then FormatInt h +:+ "h" +:+ FormatInt m +:+ "m" +:+ FormatInt s +:+ "s"
  else if 60 <=? secs then FormatInt m +:+ "m" +:+ FormatInt s +:+ "s"
  else FormatInt s +:+ "s".
Definition DurationString (d : Duration) : string := seconds_string (d / Second).

(** Multiplication of 64-bit integers. *)
Definition wrap64 (x : Z) : Z := (x + 2 ^ 63) mod 2 ^ 64 - 2 ^ 63.

(** The duration for kubelet's cache. *)
Definition responseDuration (secs : Z) : Duration :=
  let secs := if secs <? 0 then 0 else secs in
  let dur := wrap64 (secs * Second) in
  if maxCacheDuration / Second <? secs then maxCacheDuration else dur.

Definition write (r : credentialProviderResponse) : plugin (option gerr) :=
  trigger (Stdout (Encode (cpresponse_json r))).

Definition writeOKResponse (r : bridgeResponse) (image : string) : plugin (option gerr) :=
  let host := imageHost image in
  if String.eqb host "" then Ret (Some (EMsg "cannot derive registry host from image"))
  else if negb (existsb (String.eqb (BCacheKeyType r)) cacheKeyTypes)
  then Ret (Some (EMsg "bridge returned an unknown cache key type"))
  else match BExpiresInSecs r with
  | None => Ret (Some (EMsg "bridge response has no expires_in"))
  | Some secs =>
      write (MkCPResponse credentialProviderAPIVersion responseKind (BCacheKeyType r) (DurationString (responseDuration secs))
        [(host, MkAuth (BUsername r) (BPassword r))])
  end.

Definition refusedResponse : credentialProviderResponse :=
  MkCPResponse credentialProviderAPIVersion responseKind cacheKeyTypeImage (DurationString 0) [].

Definition writeRefusedResponse (image : string) : plugin (option gerr) :=
  _ ← trigger (Stderr ("harbor-bridge-plugin: bridge refused credentials for " +:+ image +:+ "; returning empty auth (no cache)"));
  write refusedResponse.

(** ** One run *)

Definition decodeRequest (stdin : string) : res credentialProviderRequest :=
  match DecodeFirst stdin with
  | Err e => Err e
  | Ok j => decode_struct set_cprequest (MkCPRequest "" "" "" "") j
  end.

Definition run (stdin : string) (fetcher : bridgeClient) : plugin (option gerr) :=
  match decodeRequest stdin with
  | Err e => Ret (Some (EWrap "decode CredentialProviderRequest from stdin" e))
  | Ok req =>
      if negb (String.eqb (APIVersion req) credentialProviderAPIVersion) || negb (String.eqb (Kind req) requestKind)
      then Ret (Some (EMsg "unsupported request"))
      else if String.eqb (CPImage req) "" then Ret (Some (EMsg "request image field is empty"))
      else if String.eqb (ServiceAccountToken req) "" then Ret (Some (EMsg "request serviceAccountToken field is empty"))
      else
        r ← fetch fetcher (CPImage req) (ServiceAccountToken req);
        match r with
        | Err e => if errors_Is e errBridgeRefused then writeRefusedResponse (CPImage req) else Ret (Some e)
        | Ok resp => writeOKResponse resp (CPImage req)
        end
  end.

(** ** Configuration *)

Record config := MkConfig {
Endpoint : string; CABundle : string; ClientCert : string; ClientKey : string; ServerName : string }.

(** The regular expression [serverNamePattern]. *)
Definition dns_alnum (c : ascii) : bool := in_range "a" "z" c || in_range "A" "Z" c || in_range "0" "9" c.
Fixpoint match_server_rest (ends : bool) (s : string) : bool :=
  match s with
  | EmptyString => ends
  | String c s => if dns_alnum c then match_server_rest true s else ContainsByte "-." c && match_server_rest false s
  end.
Definition serverNamePattern (s : string) : bool :=
  match s with EmptyString => false | String c s => dns_alnum c && match_server_rest true s end.

Definition loadConfig (getenv : string → string) : res config :=
  let c := MkConfig (getenv "HARBOR_BRIDGE_ENDPOINT") (getenv "HARBOR_BRIDGE_CA_BUNDLE") (getenv "HARBOR_BRIDGE_CLIENT_CERT")
             (getenv "HARBOR_BRIDGE_CLIENT_KEY") (getenv "HARBOR_BRIDGE_SERVER_NAME") in
  if String.eqb (Endpoint c) "" then Err (EMsg "HARBOR_BRIDGE_ENDPOINT is required")
  else match ParseURL (Endpoint c) with
  | Err e => Err (EWrap "HARBOR_BRIDGE_ENDPOINT is not a valid URL" e)
  | Ok (scheme, host) =>
      if negb (String.eqb scheme "https") then Err (EMsg "HARBOR_BRIDGE_ENDPOINT must use https")
      else if String.eqb host "" then Err (EMsg "HARBOR_BRIDGE_ENDPOINT must include a host")
      else if negb (String.eqb (ServerName c) "") && negb (serverNamePattern (ServerName c))
      then Err (EMsg "HARBOR_BRIDGE_SERVER_NAME is not a DNS name")
      else if negb (Bool.eqb (String.eqb (ClientCert c) "") (String.eqb (ClientKey c) ""))
      then Err (EMsg "HARBOR_BRIDGE_CLIENT_CERT and HARBOR_BRIDGE_CLIENT_KEY must be set together")
      else Ok c
  end.
End Client.

(** [loadCAPEM]: an inline bundle, or the content of a file read by [os.ReadFile]. *)
Definition loadCAPEM (ReadFile : string → res string) (s : string) : res string :=
  if HasPrefix s "-----BEGIN" then Ok s else ReadFile s.

(** ** What a run does

    The answered requests of a run in order, its waits and its output. *)

Definition exchange_of (e : event pans) : option (httpPost * res httpReply) :=
  match e with existT (Do p) r => Some (p, r) | _ => None end.
Definition sleep_of (e : event pans) : option Duration :=
  match e with existT (Sleep d) _ => Some d | _ => None end.
Definition stdout_of (e : event pans) : option string :=
  match e with existT (Stdout t) _ => Some t | _ => None end.

Definition exchanges (h : log pans) : list (httpPost * res httpReply) := reverse (omap exchange_of h).
Definition sleeps (h : log pans) : list Duration := reverse (omap sleep_of h).
Definition stdout (h : log pans) : list string := reverse (omap stdout_of h).

(** The errors of [http.Client.Do] and of reading a body are not the plugin's own. *)
Definition http_errors (h : log pans) (c : pcall) : pans c → Prop :=
  match c with
  | Do _ => λ r, match r with
                 | Err e => errors_Is e errBridgeRefused = false
                 | Ok reply => ∀ e, RError reply = Some e → errors_Is e errBridgeRefused = false
                 end
  | _ => λ _, True
  end.

(** A body within the limit is the whole body of the reply. *)
Lemma attempt_Ok r b status : attempt r = Ok (b, status) →
  ∃ resp, r = Ok resp ∧ RBody resp = b ∧ RStatus resp = status.
Proof.
  unfold attempt, readLimited. destruct r as [resp|]; [|done]. intros H.
  assert (Hlen : len (take_str (Z.to_nat (maxResponseBytes + 1)) (RBody resp)) ≤ maxResponseBytes →
    ¬ maxResponseBytes < len (RBody resp)).
  { unfold len. rewrite take_str_length. unfold maxResponseBytes in *. change (Z.shiftl 1 20) with 1048576.
    rewrite Nat2Z.inj_min. lia. }
  destruct (maxResponseBytes <? len (RBody resp)) eqn:E.
  - destruct (maxResponseBytes <? len (take_str _ _)) eqn:E2; [done|]. exfalso. apply Hlen; lia.
  - destruct (RError resp); [done|]. rewrite E in H. injection H as <- <-. by exists resp.
Qed.

Lemma attempt_errors h p r e : http_errors h (Do p) r → attempt r = Err e → errors_Is e errBridgeRefused = false.
Proof.
  unfold attempt, readLimited. intros Henv H. destruct r as [resp|e']; [|by injection H as <-]. cbn in Henv.
  destruct (maxResponseBytes <? len (RBody resp)) eqn:E.
  - case_step_in H; [|done]. by injection H as <-.
  - destruct (RError resp) eqn:Er; [injection H as <-; cbn; by apply Henv|]. by rewrite E in H.
Qed.

Lemma plain_bridgeResponse text : plain (decode_bridgeResponse text).
Proof.
  intros e s. unfold decode_bridgeResponse. pose proof (plain_Unmarshal text) as HU.
  destruct (Unmarshal text) as [j|e']; [|intros [= <-]; by apply HU].
  apply plain_struct. intros a k x. unfold set_bridgeResponse. repeat case_match; auto with plain.
Qed.

Lemma fetch_result_refused b status e : fetch_result b status = Err e →
  errors_Is e errBridgeRefused = true ↔ status = 401 ∨ status = 403.
Proof.
  unfold fetch_result. intros H. destruct (Z.eqb_spec status 200) as [->|].
  - assert (errors_Is e errBridgeRefused = false) as ->; [|split; [done|lia]].
    destruct (decode_bridgeResponse b) as [out|e'] eqn:E; [repeat case_step_in H; by simplify_eq|].
    injection H as <-. cbn. by eapply plain_bridgeResponse.
  - destruct ((status =? 401) || (status =? 403)) eqn:E.
    + injection H as <-. split; [|done]. intros _. apply orb_true_iff in E. lia.
    + apply orb_false_iff in E as [? ?]. destruct (status =? 503); injection H as <-; cbn; split; (done || lia).
Qed.

Lemma fetch_result_Ok b status resp : fetch_result b status = Ok resp →
  status = 200 ∧ decode_bridgeResponse b = Ok resp ∧ BUsername resp ≠ "" ∧ BPassword resp ≠ "".
Proof.
  unfold fetch_result. intros H. destruct (Z.eqb_spec status 200); [|repeat case_step_in H; done].
  destruct (decode_bridgeResponse b) as [out|]; [|done].
  destruct (String.eqb_spec (BUsername out) ""); [done|]. destruct (String.eqb_spec (BPassword out) ""); [done|].
  cbn in H. repeat case_step_in H; try done. by injection H as <-.
Qed.

(** ** A run, exchange by exchange *)

Section Runs.
Context (ParseURL : string → res (string * string)).
Context (c : bridgeClient).

(** What the exchanges of a fetch look like, and the result they give. *)
Inductive fetched (p : httpPost) : list (httpPost * res httpReply) → list Duration → res bridgeResponse → Prop :=
  | fetched_no_url e : errors_Is e errBridgeRefused = false → fetched p [] [] (Err e)
  | fetched_failed r e : errors_Is e errBridgeRefused = false → fetched p [(p, r)] [] (Err e)
  | fetched_once reply : RStatus reply ≠ 503 → fetched p [(p, Ok reply)] [] (fetch_result (RBody reply) (RStatus reply))
  | fetched_no_url_again r e : RStatus r = 503 → errors_Is e errBridgeRefused = false → fetched p [(p, Ok r)] [retryBackoff] (Err e)
  | fetched_retry_failed r1 r e : RStatus r1 = 503 → errors_Is e errBridgeRefused = false →
    fetched p [(p, Ok r1); (p, r)] [retryBackoff] (Err e)
  | fetched_retry r1 reply : RStatus r1 = 503 →
    fetched p [(p, Ok r1); (p, Ok reply)] [retryBackoff] (fetch_result (RBody reply) (RStatus reply)).

Definition url_errors : Prop := ∀ u e, ParseURL u = Err e → errors_Is e errBridgeRefused = false.

Lemma wp_do h token body :
  wp http_errors (λ _ _, True) h (do_ ParseURL c body token)
    (λ h' r, (∃ e, ParseURL (url c) = Err e ∧ h' = h ∧ r = Err (EWrap "build request" e)) ∨
       ∃ reply, http_errors h (Do (post_of c body token)) reply ∧ r = attempt reply ∧
         h' = existT (Do (post_of c body token)) reply :: h).
Proof.
  unfold do_. destruct (ParseURL (url c)) as [u|e] eqn:E.
  - apply wp_bind. cbn. split; [done|]. intros reply Henv. right. by exists reply.
  - cbn. left. by exists e.
Qed.

(** Every fetch has one of the shapes of [fetched]. *)
Lemma wp_fetch image token : url_errors →
  wp http_errors (λ _ _, True) [] (fetch ParseURL c image token)
    (λ h' r, stdout h' = [] ∧ fetched (post_of c (request_body image) token) (exchanges h') (sleeps h') r).
Proof.
  intros Hurl. set (p := post_of c (request_body image) token). unfold fetch.
  wp_cut wp_do. intros h1 r1 [(e & Eu & -> & ->)|(reply & Henv & -> & ->)]; [cbn; split; [done|]; apply fetched_no_url; cbn; by eapply Hurl|].
  fold p in Henv |- *. destruct (attempt reply) as [[resp status]|e] eqn:Ea.
  2: { cbn. split; [done|]. apply (fetched_failed p). cbn. by eapply (attempt_errors []). }
  destruct (attempt_Ok _ _ _ Ea) as (reply1 & -> & Eb & Es). destruct (Z.eqb_spec status 503) as [E503|Hne].
  2: { cbn. split; [done|]. rewrite <- Eb, <- Es. apply (fetched_once p). by rewrite Es. }
  wp_call; [done|]; intros ? _. wp_call; [done|]; intros ? _. wp_cut wp_do. intros h2 r2 [(e & Eu & -> & ->)|(reply2 & Henv2 & -> & ->)].
  - cbn. split; [done|]. apply (fetched_no_url_again p); [by rewrite Es|]. cbn. by eapply Hurl.
  - fold p in Henv2 |- *. destruct (attempt reply2) as [[resp2 status2]|e] eqn:Ea2.
    + destruct (attempt_Ok _ _ _ Ea2) as (reply3 & -> & Eb3 & Es3). cbn. split; [done|]. rewrite <- Eb3, <- Es3.
      apply (fetched_retry p). by rewrite Es.
    + cbn. split; [done|]. apply (fetched_retry_failed p); [by rewrite Es|]. cbn. by eapply (attempt_errors []).
Qed.

(** *** The duration kubelet caches for *)

Lemma responseDuration_bounds secs : secs ≤ int64_max →
  0 ≤ responseDuration secs ≤ maxCacheDuration ∧
  (0 ≤ secs ≤ 86400 → responseDuration secs = secs * Second).
Proof.
  intros Hs. unfold responseDuration, maxCacheDuration, wrap64, Hour, Minute, Second in *.
  change (24 * (60 * (60 * 1000000000)) / 1000000000) with 86400.
  destruct (Z.ltb_spec secs 0); [change ((0 * 1000000000 + 2 ^ 63) mod 2 ^ 64 - 2 ^ 63) with 0; cbn; lia|].
  destruct (Z.ltb_spec 86400 secs); [lia|]. rewrite Z.mod_small by lia. lia.
Qed.

(** What a run writes: nothing, the refusal after a 401 or 403, or the credentials of
    a 200 reply for the host of the requested image. *)
Inductive written (req : credentialProviderRequest) (h : log pans) : Prop :=
  | written_nothing : stdout h = [] → written req h
  | written_refused reply :
    last (exchanges h) = Some (post_of c (request_body (CPImage req)) (ServiceAccountToken req), Ok reply) →
    RStatus reply = 401 ∨ RStatus reply = 403 →
    stdout h = [Encode (cpresponse_json refusedResponse)] → written req h
  | written_credentials reply resp secs :
    last (exchanges h) = Some (post_of c (request_body (CPImage req)) (ServiceAccountToken req), Ok reply) →
    RStatus reply = 200 → decode_bridgeResponse (RBody reply) = Ok resp →
    BUsername resp ≠ "" → BPassword resp ≠ "" → BExpiresInSecs resp = Some secs →
    0 ≤ responseDuration secs ≤ maxCacheDuration →
    stdout h = [Encode (cpresponse_json (MkCPResponse credentialProviderAPIVersion responseKind (BCacheKeyType resp)
      (DurationString (responseDuration secs)) [(imageHost (CPImage req), MkAuth (BUsername resp) (BPassword resp))]))] → written req h.

Lemma fetched_last p ex sl r : fetched p ex sl r → ∀ P : res bridgeResponse → Prop,
  P r → (∀ e, errors_Is e errBridgeRefused = false → ¬ P (Err e)) →
  ∃ reply, last ex = Some (p, Ok reply) ∧ P (fetch_result (RBody reply) (RStatus reply)).
Proof. intros F P HP Hno. destruct F; try (exfalso; by eapply Hno); eexists; by split. Qed.

(** Writing the response adds it to the output and sends nothing. *)
Lemma wp_write h r : stdout h = [] →
  wp http_errors (λ _ _, True) h (write r)
    (λ h' _, stdout h' = [Encode (cpresponse_json r)] ∧ exchanges h' = exchanges h ∧ sleeps h' = sleeps h).
Proof.
  intros Hh. unfold write. split; [done|]. intros a _. split_and!; [|done|done].
  etrans; [|exact (f_equal (λ l, l ++ [Encode (cpresponse_json r)]) Hh)].
  exact (reverse_cons _ (Encode (cpresponse_json r))).
Qed.

Lemma decode_expires text resp n : decode_bridgeResponse text = Ok resp → BExpiresInSecs resp = Some n → n ≤ int64_max.
Proof.
  intros H. assert (Hinv : ∀ fields r r', (∀ m, BExpiresInSecs r = Some m → m ≤ int64_max) →
    decode_fields set_bridgeResponse r fields = Ok r' → ∀ m, BExpiresInSecs r' = Some m → m ≤ int64_max).
  { induction fields as [|[k j] fields IH]; intros r r' Hr Hd; [by injection Hd as <-|]. cbn in Hd.
    destruct (set_bridgeResponse r k j) as [r1|] eqn:E; [|done]. eapply IH, Hd.
    unfold set_bridgeResponse in E. repeat case_step_in E; unfold res_map in E;
      repeat case_step_in E; try done; injection E as <-; cbn; try done.
    match goal with E' : decode_int_ptr _ _ = Ok _ |- _ => revert E' end. unfold decode_int_ptr. intros E'.
    repeat case_step_in E'; try done; injection E' as <-; intros m Hm; [done|]. injection Hm as <-.
    match goal with E' : ParseInt _ = Some _ |- _ => revert E' end. unfold ParseInt. intros E'.
    repeat case_step_in E'; try done; injection E' as <-; lia. }
  unfold decode_bridgeResponse in H. destruct (Unmarshal text) as [j|]; [|done].
  destruct j as [| | | | |fields]; try done; [by injection H as <-|]. eapply Hinv; [|exact H]. done.
Qed.

(** A request the plugin acts on. *)
Definition typed_request (req : credentialProviderRequest) : Prop :=
  APIVersion req = credentialProviderAPIVersion ∧ Kind req = requestKind ∧ CPImage req ≠ "" ∧ ServiceAccountToken req ≠ "".

Definition run_post (req : credentialProviderRequest) (h : log pans) (r : option gerr) : Prop :=
  written req h ∧ (r = None → stdout h ≠ []) ∧
  (exchanges h = [] ∨ typed_request req ∧
     ∃ r', fetched (post_of c (request_body (CPImage req)) (ServiceAccountToken req)) (exchanges h) (sleeps h) r').

Lemma run_silent req h e : stdout h = [] → (exchanges h = [] ∨ typed_request req ∧
     ∃ r', fetched (post_of c (request_body (CPImage req)) (ServiceAccountToken req)) (exchanges h) (sleeps h) r') →
  run_post req h (Some e).
Proof. intros Ho Hx. split_and!; [by apply written_nothing|done|done]. Qed.

Lemma wp_run stdin req : url_errors → decodeRequest stdin = Ok req →
  wp http_errors (λ _ _, True) [] (run ParseURL stdin c) (run_post req).
Proof.
  intros Hurl Hreq. unfold run. rewrite Hreq.
  destruct (String.eqb_spec (APIVersion req) credentialProviderAPIVersion) as [Hv|]; [|apply run_silent; auto].
  destruct (String.eqb_spec (Kind req) requestKind) as [Hk|]; [|apply run_silent; auto].
  destruct (String.eqb_spec (CPImage req) "") as [|Hi]; [apply run_silent; auto|].
  destruct (String.eqb_spec (ServiceAccountToken req) "") as [|Ht]; [apply run_silent; auto|].
  assert (Hty : typed_request req) by done. cbn [negb orb].
  wp_cut (wp_fetch (CPImage req) (ServiceAccountToken req) Hurl). intros h1 r1 [Hout F].
  pose proof (fetched_last _ _ _ _ F) as Hlast. destruct r1 as [resp|e].
  - destruct (Hlast (λ r, r = Ok resp)) as (reply & Hl & Hres); [done|done|].
    apply fetch_result_Ok in Hres as (Hst & Hdec & Hu & Hp). unfold writeOKResponse.
    destruct (String.eqb _ _); [apply run_silent; eauto 6|].
    destruct (negb _); [apply run_silent; eauto 6|].
    destruct (BExpiresInSecs resp) as [secs|] eqn:Es; [|apply run_silent; eauto 6].
    eapply wp_mono; [by apply wp_write|]. intros h' r (Ho & Hx & Hs). unfold run_post. rewrite Hs, Hx, Ho.
    split_and!; [|done|eauto 6].
    eapply written_credentials; [rewrite Hx; exact Hl|done|exact Hdec|done|done|exact Es| |exact Ho].
    apply responseDuration_bounds. by eapply decode_expires.
  - destruct (errors_Is e errBridgeRefused) eqn:He; [|apply run_silent; eauto 6].
    destruct (Hlast (λ r, r = Err e)) as (reply & Hl & Hres); [done|intros e' He' [= ->]; congruence|].
    pose proof (proj1 (fetch_result_refused _ _ _ Hres) He) as Hst.
    unfold writeRefusedResponse. wp_call; [done|]. intros ? _. eapply wp_mono; [by apply wp_write|].
    intros h' a (Ho & Hx & Hs). unfold run_post. rewrite Hs, Hx, Ho. split_and!; [|done|eauto 6].
    eapply written_refused; [rewrite Hx; exact Hl|done|exact Ho].
Qed.

Lemma run_undecodable stdin e h h' r : decodeRequest stdin = Err e →
  runs http_errors (run ParseURL stdin c) h h' r → h' = h ∧ r ≠ None.
Proof. intros E H. unfold run in H. rewrite E in H. destruct H as [-> ->]. done. Qed.

(** What a run of the plugin tells kubelet. On a request it cannot decode the run
    fails without sending or writing anything. Otherwise it writes at most one
    response: the empty one only when the bridge's last answer was a 401 or a 403, and
    credentials only when it was a 200 to the request for this image and this token,
    the credentials being the ones of that answer, for the registry host of the image,
    to be cached for its [expires_in] cut to between zero and 24 hours. A run that
    succeeds has written a response. *)
Theorem plugin_output stdin h' r : url_errors → runs http_errors (run ParseURL stdin c) [] h' r →
  match decodeRequest stdin with
  | Err _ => h' = [] ∧ r ≠ None
  | Ok req => written req h' ∧ (r = None → stdout h' ≠ [])
  end.
Proof.
  intros Hurl Hr. destruct (decodeRequest stdin) as [req|e] eqn:E; [|by eapply run_undecodable].
  eapply wp_post in Hr; [|by apply wp_run]. destruct Hr as (? & ? & _). done.
Qed.

(** What a run sends. Nothing, unless kubelet's request is a typed v1 request with
    an image and a token; then at most two requests, both to the bridge's credentials
    URL, with this pod's token and the image; and the second one only when the first
    was answered with a 503, after one wait of one second. *)
Theorem plugin_exchanges stdin h' r : url_errors → runs http_errors (run ParseURL stdin c) [] h' r →
  exchanges h' = [] ∨
  ∃ req, decodeRequest stdin = Ok req ∧ typed_request req ∧
    let p := post_of c (request_body (CPImage req)) (ServiceAccountToken req) in
    (∃ reply, exchanges h' = [(p, reply)]) ∨
    ∃ first reply, exchanges h' = [(p, Ok first); (p, reply)] ∧ RStatus first = 503 ∧ sleeps h' = [Second].
Proof.
  intros Hurl Hr. destruct (decodeRequest stdin) as [req|e] eqn:E.
  2: { left. by destruct (run_undecodable _ _ _ _ _ E Hr) as [-> _]. }
  eapply wp_post in Hr; [|by apply wp_run]. destruct Hr as (_ & _ & [?|[Hty [r' F]]]); [by left|].
  inversion F; auto; right; exists req; split_and!; eauto 8.
Qed.
End Runs.

(** ** A concrete run *)

Definition demo_endpoint : bridgeClient := newBridgeClientWithHTTPClient "https://bridge.example.com:8443/".
Definition demo_parse (u : string) : res (string * string) := Ok ("https", "bridge.example.com:8443").

Definition demo_cprequest : credentialProviderRequest :=
  MkCPRequest credentialProviderAPIVersion requestKind "harbor.example.com/p/app:1" "tok".
Definition demo_stdin : string :=
  print (JObject [("apiVersion", JString credentialProviderAPIVersion); ("kind", JString requestKind);
    ("image", JString "harbor.example.com/p/app:1"); ("serviceAccountToken", JString "tok")]).

(** The bridge answers with a 503 first, then with [reply]. *)
Definition demo_bridge (reply : httpReply) (posts : nat) (call : pcall) : pans call * nat :=
  match call return pans call * nat with
  | Do _ => (Ok (match posts with O => MkReply 503 "credentials not yet available; retry" None | _ => reply end), S posts)
  | Sleep _ | Stderr _ => (tt, posts)
  | Stdout _ => (None, posts)
  end.

Definition demo_reply : httpReply :=
  MkReply 200 (print (JObject [("username", JString "robot$p+app"); ("password", JString "pw");
    ("expires_in", JNumber "90000"); ("cache_key_type", JString "Registry")])) None.

Definition demo_play (reply : httpReply) := play (demo_bridge reply) 0%nat (run demo_parse demo_stdin demo_endpoint) [].

Lemma demo_play_runs reply : RError reply = None →
  runs http_errors (run demo_parse demo_stdin demo_endpoint) [] (demo_play reply).1.2 (demo_play reply).2.
Proof. intros He. apply play_runs_in. intros s h [p|d|l|t]; try done. cbn. destruct s; intros e; [done|by rewrite He]. Qed.

Lemma demo_samples :
  stdout (demo_play demo_reply).1.2 = [Encode (cpresponse_json (MkCPResponse credentialProviderAPIVersion responseKind "Registry" "24h0m0s"
    [("harbor.example.com", MkAuth "robot$p+app" "pw")]))] ∧
  stdout (demo_play (MkReply 403 "no" None)).1.2 = [Encode (cpresponse_json refusedResponse)] ∧
  stdout (demo_play (MkReply 500 "no" None)).1.2 = [] ∧
  DurationString (90 * Second) = "1m30s" ∧ DurationString 0 = "0s".
Proof. vm_compute. split_and!; reflexivity. Qed.

Lemma plugin_output_witness :
  written demo_endpoint demo_cprequest (demo_play demo_reply).1.2 ∧ ((demo_play demo_reply).2 = None → stdout (demo_play demo_reply).1.2 ≠ []).
Proof.
  assert (Hu : url_errors demo_parse) by done.
  pose proof (plugin_output demo_parse demo_endpoint demo_stdin _ _ Hu (demo_play_runs demo_reply eq_refl)) as H.
  replace (decodeRequest demo_stdin) with (@Ok credentialProviderRequest demo_cprequest) in H by (vm_compute; reflexivity). exact H.
Defined.

Lemma plugin_exchanges_witness :
  exchanges (demo_play demo_reply).1.2 = [] ∨
  ∃ req, decodeRequest demo_stdin = Ok req ∧ typed_request req ∧
    let p := post_of demo_endpoint (request_body (CPImage req)) (ServiceAccountToken req) in
    (∃ reply, exchanges (demo_play demo_reply).1.2 = [(p, reply)]) ∨
    ∃ first reply, exchanges (demo_play demo_reply).1.2 = [(p, Ok first); (p, reply)] ∧ RStatus first = 503 ∧
      sleeps (demo_play demo_reply).1.2 = [Second].
Proof.
  apply (plugin_exchanges demo_parse demo_endpoint demo_stdin _ (demo_play demo_reply).2); [done|]. by apply demo_play_runs.
Defined.
