(* ===== verification/PluginMain.v ===== *)
(** * The plugin's process

    [main] of plugin/main.go and [newBridgeClient] of plugin/bridge_client.go: from the
    environment kubelet starts the plugin with to its exit code. The HTTP client is modelled with
    its TLS settings, its redirect policy and its timeouts; what it sends is an event, whose
    answer is the response with its Location header. TLS itself, resolving a Location against the
    URL it came from, and which headers survive a redirect to another host are the library's. *)

From S2P Require Import Prelude Effects GoStrings GoStd GoTime GoHttp Json Plugin.

(** [tls.Config] beyond the minimum version, which is 1.2: the trusted roots ([None] for the
    system's), the files of the client certificate, and the name the server must prove. *)
Record tlsConfig (pool : Type) := MkTLS { RootCAs : option pool; Certificates : option (string * string); TLSServerName : string }.
Arguments MkTLS {pool} _ _ _.
Arguments RootCAs {pool} _.
Arguments Certificates {pool} _.
Arguments TLSServerName {pool} _.

Definition connectTimeout : Duration := 5 * Second.
Definition requestTimeout : Duration := 15 * Second.

(** [http.Transport] and [http.Client], as [newBridgeClient] sets them. *)
Record httpClient (pool : Type) := MkHTTPClient {
  TLSClientConfig : tlsConfig pool; DialTimeout : Duration; TLSHandshakeTimeout : Duration;
  ResponseHeaderTimeout : Duration; IdleConnTimeout : Duration; Timeout : Duration; CheckRedirect : redirectPolicy
}.
Arguments MkHTTPClient {pool} _ _ _ _ _ _ _.
Arguments TLSClientConfig {pool} _.
Arguments DialTimeout {pool} _.
Arguments TLSHandshakeTimeout {pool} _.
Arguments ResponseHeaderTimeout {pool} _.
Arguments IdleConnTimeout {pool} _.
Arguments Timeout {pool} _.
Arguments CheckRedirect {pool} _.

(** A request on the wire. *)
Record httpSent := MkSent { SMethod : string; SURL : string; SHeader : list (string * string); SBody : string }.
Definition of_post (p : httpPost) : httpSent := MkSent "POST" (PURL p) (PHeader p) (PBody p).

Section Process.
Context {pool : Type}.

(** The files read at the start, the requests of a client, and the other calls of a run. *)
Inductive mcall :=
| MReadFile (path : string)
| MLoadKeyPair (cert key : string)
| MSend (hc : httpClient pool) (q : httpSent)
| MRun (c : pcall)
| MStderr (line : string).

Definition mans (c : mcall) : Type :=
  match c with
  | MReadFile _ => res string
  | MLoadKeyPair _ _ => option gerr
  | MSend _ _ => res (httpReply * option string)
  | MRun c => pans c
  | MStderr _ => unit
  end.

Context (ParseURL : string → res (string * string)) (AppendCertsFromPEM : string → option pool).
(** [url.Parse] of a Location relative to a URL, and the headers net/http copies to a request
    for another URL. *)
Context (Resolve : string → string → res string) (copyHeaders : string → string → list (string * string) → list (string * string)).

(** ** [http.Client.Do] *)

(** The request that follows a redirect to [u]. *)
Definition redirected (q : httpSent) (status : Z) (u : string) : httpSent :=
  if keeps_body status then MkSent (SMethod q) u (copyHeaders (SURL q) u (SHeader q)) (SBody q)
  else MkSent "GET" u (copyHeaders (SURL q) u (SHeader q)) "".

(** With [n] more requests allowed. *)
Fixpoint client_Do (n : nat) (hc : httpClient pool) (q : httpSent) : prog mans (res httpReply) :=
  r ← trigger (MSend hc q);
  match (r : res (httpReply * option string)) with
  | Err e => Ret (Err e)
  | Ok (reply, location) =>
      match CheckRedirect hc, location with
      | FollowTen, Some l =>
          if redirect_status (RStatus reply) then
            match Resolve (SURL q) l, n with
            | Err e, _ => Ret (Err e)
            | Ok _, O => Ret (Err (EMsg "stopped after 10 redirects"))
            | Ok u, S n => client_Do n hc (redirected q (RStatus reply) u)
            end
          else Ret (Ok reply)
      | _, _ => Ret (Ok reply)
      end
  end.

(** A run's calls over a client. *)
Definition over_client (hc : httpClient pool) (c : pcall) : prog mans (pans c) :=
  match c return prog mans (pans c) with
  | Do p => client_Do followLimit hc (of_post p)
  | Sleep d => trigger (MRun (Sleep d))
  | Stderr l => trigger (MRun (Stderr l))
  | Stdout t => trigger (MRun (Stdout t))
  end.

(** ** [newBridgeClient] *)

(** [loadCAPEM] with the read of the file. *)
Definition ca_pem (s : string) : prog mans (res string) :=
  if HasPrefix s "-----BEGIN" then Ret (Ok s) else trigger (MReadFile s).

Definition root_cas (bundle : string) : prog mans (res (option pool)) :=
  if String.eqb bundle "" then Ret (Ok None)
  else
    r ← ca_pem bundle;
    Ret (match r with
         | Err e => Err (EWrap "load CA bundle" e)
         | Ok pem =>
             match AppendCertsFromPEM pem with
             | Some p => Ok (Some p)
             | None => Err (EMsg "HARBOR_BRIDGE_CA_BUNDLE contained no PEM blocks")
             end
         end).

Definition client_cert (cert key : string) : prog mans (res (option (string * string))) :=
  if String.eqb cert "" then Ret (Ok None)
  else
    e ← trigger (MLoadKeyPair cert key);
    Ret (match e with Some e => Err (EWrap "load mTLS client cert/key" e) | None => Ok (Some (cert, key)) end).

Definition newBridgeClient (cfg : config) : prog mans (res (bridgeClient * httpClient pool)) :=
  roots ← root_cas (CABundle cfg);
  match roots with
  | Err e => Ret (Err e)
  | Ok roots =>
      cert ← client_cert (ClientCert cfg) (ClientKey cfg);
      Ret (match cert with
           | Err e => Err e
           | Ok cert => Ok (newBridgeClientWithHTTPClient (Endpoint cfg),
               MkHTTPClient (MkTLS roots cert (ServerName cfg)) connectTimeout connectTimeout requestTimeout (30 * Second)
                 requestTimeout UseLastResponse)
           end)
  end.

Definition exit_error (e : gerr) : prog mans Z := _ ← trigger (MStderr "harbor-bridge-plugin: error"); Ret 1.

(** The exit code. *)
Definition main (getenv : string → string) (stdin : string) : prog mans Z :=
  match loadConfig ParseURL getenv with
  | Err e => exit_error e
  | Ok cfg =>
      bc ← newBridgeClient cfg;
      match bc with
      | Err e => exit_error e
      | Ok (bc, hc) =>
          r ← interp (over_client hc) (run ParseURL stdin bc);
          match r with Some e => exit_error e | None => Ret 0 end
      end
  end.

(** ** Where the pod's token goes *)

Lemma loadConfig_https getenv cfg : loadConfig ParseURL getenv = Ok cfg → ∃ host, ParseURL (Endpoint cfg) = Ok ("https", host) ∧ host ≠ "".
Proof.
  unfold loadConfig. destruct (String.eqb _ ""); [done|]. cbn [Endpoint]. destruct (ParseURL _) as [[scheme host]|] eqn:E; [|done].
  destruct (String.eqb_spec scheme "https") as [->|]; [|done]. destruct (String.eqb_spec host "") as [|Hh]; [done|]. cbn [negb].
  repeat (destruct (_ && _); [done|]). destruct (negb _); [done|]. intros [= <-]. by exists host.
Qed.

(** The requests of a run are the one for kubelet's image with kubelet's token. *)
Definition asks (bc : bridgeClient) (stdin : string) (c : pcall) : Prop :=
  match c with
  | Do p => ∃ req, decodeRequest stdin = Ok req ∧ typed_request req ∧ p = post_of bc (request_body (CPImage req)) (ServiceAccountToken req)
  | _ => True
  end.

Lemma calls_do (P : pcall → Prop) bc body token : P (Do (post_of bc body token)) → calls P (do_ ParseURL bc body token).
Proof. intros HP. unfold do_. destruct (ParseURL _); [|done]. by apply calls_bind; [apply calls_trigger|]. Qed.

Lemma calls_fetch (P : pcall → Prop) bc image token : P (Do (post_of bc (request_body image) token)) →
  (∀ c, match c with Do _ => True | _ => P c end) → calls P (fetch ParseURL bc image token).
Proof.
  intros HP Ho. unfold fetch. apply calls_bind; [by apply calls_do|]. intros [[resp status]|e]; [|done]. destruct (status =? 503); [|done].
  apply calls_bind; [exact (calls_trigger _ _ (Ho (Stderr _)))|]. intros u. apply calls_bind; [exact (calls_trigger _ _ (Ho (Sleep _)))|]. intros u'.
  apply calls_bind; [by apply calls_do|]. by intros [[??]|?].
Qed.

(** A response was written. *)
Definition answered (h : log pans) : Prop := ∃ t, existT (Stdout t) None ∈ h.

Notation rwp bc stdin := (wp any_env (λ _, asks bc stdin)).

Lemma wp_write_answered h bc stdin r : rwp bc stdin h (write r) (λ h' r, r = None → answered h').
Proof. unfold write. wp_last; [done|]. intros a _ ->. eexists. left. Qed.

Lemma wp_run_asks h bc stdin : rwp bc stdin h (run ParseURL stdin bc) (λ h' r, r = None → answered h').
Proof.
  unfold run. destruct (decodeRequest stdin) as [req|e] eqn:E; [|done].
  destruct (String.eqb_spec (APIVersion req) credentialProviderAPIVersion) as [Hv|]; [|done].
  destruct (String.eqb_spec (Kind req) requestKind) as [Hk|]; [|done].
  destruct (String.eqb_spec (CPImage req) "") as [|Hi]; [done|]. destruct (String.eqb_spec (ServiceAccountToken req) "") as [|Ht]; [done|]. cbn [negb orb].
  apply wp_bind. eapply wp_mono; [apply calls_wp, calls_fetch; [by exists req|by intros []]|].
  intros h1 [resp|e] _.
  - unfold writeOKResponse. destruct (String.eqb _ ""); [done|]. destruct (negb _); [done|]. destruct (BExpiresInSecs resp); [|done].
    apply wp_write_answered.
  - destruct (errors_Is e errBridgeRefused); [|done]. unfold writeRefusedResponse. wp_call; [done|]. intros u _. apply wp_write_answered.
Qed.

(** ** The process *)

Section Start.
Context (getenv : string → string) (stdin : string).

(** The TLS settings are the configured ones: a CA bundle, given inline or read from its file,
    is trusted alone, the client certificate is presented, the server proves the name. *)
Definition connection (cfg : config) (h : log mans) (t : tlsConfig pool) : Prop :=
  TLSServerName t = ServerName cfg ∧
  Certificates t = (if String.eqb (ClientCert cfg) "" then None else Some (ClientCert cfg, ClientKey cfg)) ∧
  if String.eqb (CABundle cfg) "" then RootCAs t = None
  else ∃ pem p, (pem = CABundle cfg ∧ HasPrefix pem "-----BEGIN" = true ∨ existT (MReadFile (CABundle cfg)) (Ok pem) ∈ h) ∧
    AppendCertsFromPEM pem = Some p ∧ RootCAs t = Some p.

(** A request for kubelet's image with kubelet's token, to the configured endpoint. *)
Definition token_request (cfg : config) (q : httpSent) : Prop :=
  ∃ req, decodeRequest stdin = Ok req ∧ typed_request req ∧
    SMethod q = "POST" ∧ SURL q = TrimRight (Endpoint cfg) "/" +:+ "/v1/credentials" ∧
    ("Authorization", "Bearer " +:+ ServiceAccountToken req) ∈ SHeader q ∧ SBody q = request_body (CPImage req).

(** What a request of the process is. *)
Definition sent (h : log mans) (c : mcall) : Prop :=
  match c with
  | MSend hc q => ∃ cfg host, loadConfig ParseURL getenv = Ok cfg ∧ ParseURL (Endpoint cfg) = Ok ("https", host) ∧ host ≠ "" ∧
      connection cfg h (TLSClientConfig hc) ∧ Timeout hc = 15 * Second ∧ token_request cfg q
  | _ => True
  end.

(** A response was written. *)
Definition wrote (h : log mans) : Prop := ∃ t, existT (MRun (Stdout t)) None ∈ h.

Notation mwp := (wp any_env sent).

Lemma connection_later cfg h l t : connection cfg h t → connection cfg (l ++ h) t.
Proof.
  intros (H1 & H2 & H3). split; [done|]. split; [done|]. revert H3. destruct (String.eqb (CABundle cfg) ""); [done|]. intros (pem & p & Hp & ? & ?).
  exists pem, p. split; [|done]. destruct Hp as [?|Hp]; [by left|]. right. apply elem_of_app. by right.
Qed.

Lemma wp_newBridgeClient h cfg : mwp h (newBridgeClient cfg)
  (λ h' r, ∀ bc hc, r = Ok (bc, hc) → bc = newBridgeClientWithHTTPClient (Endpoint cfg) ∧ connection cfg h' (TLSClientConfig hc) ∧
     Timeout hc = 15 * Second ∧ CheckRedirect hc = UseLastResponse).
Proof.
  unfold newBridgeClient, connection. apply wp_bind. eapply (wp_mono _ _ _ _ (λ h' r, ∀ o, r = Ok o →
    if String.eqb (CABundle cfg) "" then o = None
    else ∃ pem p, (pem = CABundle cfg ∧ HasPrefix pem "-----BEGIN" = true ∨ existT (MReadFile (CABundle cfg)) (Ok pem) ∈ h') ∧
      AppendCertsFromPEM pem = Some p ∧ o = Some p)).
  - unfold root_cas. destruct (String.eqb _ ""); [by intros o [= <-]|]. unfold ca_pem. apply wp_bind. destruct (HasPrefix _ _) eqn:E.
    + intros o. destruct (AppendCertsFromPEM _) as [p|] eqn:Ep; [|done]. intros [= <-]. exists (CABundle cfg), p. auto.
    + wp_last; [done|]. intros [pem|e] _ o; [|done]. destruct (AppendCertsFromPEM pem) as [p|] eqn:Ep; [|done]. intros [= <-].
      exists pem, p. split; [right; left|done].
  - intros h1 [o|e] Ho; [|done]. specialize (Ho o eq_refl). apply wp_bind. unfold client_cert. destruct (String.eqb (ClientCert cfg) "").
    + intros bc hc [= <- <-]. done.
    + wp_call; [done|]. intros [e|] _ bc hc; [done|]. intros [= <- <-]. split; [done|]. split; [|done]. split; [done|]. split; [done|].
      revert Ho. destruct (String.eqb (CABundle cfg) ""); [done|]. intros (pem & p & Hp & ? & ?). exists pem, p. split; [|done].
      destruct Hp as [?|Hp]; [by left|]. right. by right.
Qed.

(** A client that keeps redirects sends the one request. *)
Lemma wp_client_Do n h hc q Q : sent h (MSend hc q) → CheckRedirect hc = UseLastResponse →
  (∀ r a, Q (existT (MSend hc q) a :: h) r) → mwp h (client_Do n hc q) Q.
Proof.
  intros Hs Hp HQ. destruct n; cbn [client_Do]; (wp_call; [exact Hs|]); intros [[reply [l|]]|e] _; rewrite ?Hp; apply HQ.
Qed.

Section Client.
Context (cfg : config) (hc : httpClient pool) (h0 : log mans).
Hypothesis Hcfg : loadConfig ParseURL getenv = Ok cfg.
Hypothesis Hconn : connection cfg h0 (TLSClientConfig hc) ∧ Timeout hc = 15 * Second.
Hypothesis Hpolicy : CheckRedirect hc = UseLastResponse.

(** The log of a run and that of the process. *)
Definition same (H : log pans) (h : log mans) : Prop :=
  (∃ l, h = l ++ h0) ∧ ∀ t, existT (Stdout t) None ∈ H → existT (MRun (Stdout t)) None ∈ h.

Lemma asks_sent h p : (∃ l, h = l ++ h0) → asks (newBridgeClientWithHTTPClient (Endpoint cfg)) stdin (Do p) →
  sent h (MSend hc (of_post p)).
Proof.
  intros [l ->] (req & Hd & Ht & ->). destruct Hconn as [Hc Htm]. destruct (loadConfig_https _ _ Hcfg) as (host & ? & ?).
  exists cfg, host. split_and!; [done..|by apply connection_later|done|]. exists req. split_and!; [done..|by left|done].
Qed.

Lemma wp_over_client c H h : asks (newBridgeClientWithHTTPClient (Endpoint cfg)) stdin c → same H h →
  mwp h (over_client hc c) (λ h' r, same (existT c r :: H) h').
Proof.
  intros Ha [[l Hl] Hs].
  assert (∀ c r x a, (∀ t, existT c r ≠ existT (Stdout t) None) → same (existT c r :: H) (existT x a :: h)) as Hother.
  { intros c' r' x a Hne. split; [exists (existT x a :: l); by rewrite Hl|]. intros t [E|Ht]%elem_of_cons; [by symmetry in E; apply Hne in E|].
    right. by apply Hs. }
  destruct c as [p|d|line|t]; cbn [over_client].
  - apply wp_client_Do; [by apply asks_sent; [exists l|]|done|]. intros r a. apply Hother. done.
  - wp_last; [done|]. intros r _. by apply Hother.
  - wp_last; [done|]. intros r _. by apply Hother.
  - wp_last; [done|]. intros r _. split; [exists (existT (MRun (Stdout t)) r :: l); by rewrite Hl|].
    intros t' [E|Ht]%elem_of_cons; [|right; by apply Hs].
    assert (Some t' = Some t) as [= ->] by exact (f_equal (λ e : event pans, match projT1 e with Stdout x => Some x | _ => None end) E).
    assert (None = r) as <- by exact (f_equal (λ e : event pans, match e with existT (Stdout _) x => x | _ => None end) E). left.
Qed.
End Client.

Lemma wp_exit_error h e : mwp h (exit_error e) (λ _ code, code ≠ 0).
Proof. unfold exit_error. wp_call; [done|]. done. Qed.

Lemma wp_main h : mwp h (main getenv stdin) (λ h' code, code = 0 → wrote h').
Proof.
  unfold main. destruct (loadConfig ParseURL getenv) as [cfg|e] eqn:Ec; [|eapply wp_mono; [apply wp_exit_error|done]].
  apply wp_bind. eapply wp_mono; [apply wp_newBridgeClient|]. intros h1 [[bc hc]|e] Hb; [|eapply wp_mono; [apply wp_exit_error|done]].
  destruct (Hb bc hc eq_refl) as (-> & Ht & Htm & Hp). apply wp_bind. eapply wp_mono.
  - apply (wp_interp_same _ _ _ (λ _, asks (newBridgeClientWithHTTPClient (Endpoint cfg)) stdin) (same h1) _ [] h1 (λ H r, r = None → answered H)).
    + intros c H h2 Hc Hs. by apply (wp_over_client cfg hc h1).
    + split; [by exists []|]. by intros t ?%elem_of_nil.
    + apply wp_run_asks.
  - intros h2 [e|] (H' & [_ Hs] & Hr); [eapply wp_mono; [apply wp_exit_error|done]|]. intros _. destruct (Hr eq_refl) as [t Ht']. exists t. by apply Hs.
Qed.

End Start.
End Process.

(** ** A process with a CA bundle on disk and a client certificate *)

Definition proc_env (k : string) : string :=
  if String.eqb k "HARBOR_BRIDGE_ENDPOINT" then "https://bridge.example.com:8443"
  else if String.eqb k "HARBOR_BRIDGE_CA_BUNDLE" then "/etc/ca.pem"
  else if String.eqb k "HARBOR_BRIDGE_CLIENT_CERT" then "/etc/tls.crt"
  else if String.eqb k "HARBOR_BRIDGE_CLIENT_KEY" then "/etc/tls.key" else "".

Definition proc_pem (s : string) : option string := if HasPrefix s "PEM" then Some s else None.

(** A bridge whose load balancer answers the first request with a redirect to elsewhere. *)
Definition proc_serve (location : option string) (posts : nat) (c : mcall (pool := string)) : mans c * nat :=
  match c return mans c * nat with
  | MReadFile _ => (Ok "PEM bridge", posts)
  | MLoadKeyPair _ _ => (None, posts)
  | MSend _ q =>
      (match posts, location with
       | O, None => Ok (MkReply 503 "credentials not yet available; retry" None, None)
       | O, Some l => Ok (MkReply 307 "" None, Some l)
       | _, _ => Ok (demo_reply, None)
       end, S posts)
  | MRun c => demo_bridge demo_reply posts c
  | MStderr _ => (tt, posts)
  end.

Definition proc_main : prog (mans (pool := string)) Z := main demo_parse proc_pem (λ _ l, Ok l) (λ _ _ h, h) proc_env demo_stdin.
Definition proc_run (location : option string) := play (proc_serve location) 0%nat proc_main [].

Definition proc_client (policy : redirectPolicy) : httpClient string :=
  MkHTTPClient (MkTLS (Some "PEM bridge") (Some ("/etc/tls.crt", "/etc/tls.key")) "") (5 * Second) (5 * Second) (15 * Second) (30 * Second)
    (15 * Second) policy.
Definition proc_request : httpSent := of_post (post_of demo_endpoint (request_body "harbor.example.com/p/app:1") "tok").

(** The URLs asked. *)
Definition asked (h : log (mans (pool := string))) : list string :=
  omap (λ e : event mans, match projT1 e with MSend _ q => Some (SURL q) | _ => None end) h.

(** The redirect is not followed and fails the run; a client without the policy would take the
    token there. *)
Example redirect_refused : asked (proc_run (Some "https://elsewhere/")).1.2 = [SURL proc_request] ∧ (proc_run (Some "https://elsewhere/")).2 = 1 ∧
  asked (play (proc_serve (Some "https://elsewhere/")) 0%nat
    (client_Do (λ _ l, Ok l) (λ _ _ h, h) followLimit (proc_client FollowTen) proc_request) []).1.2 = ["https://elsewhere/"; SURL proc_request].
Proof. by vm_compute. Qed.

