(* ===== verification/EndToEnd.v ===== *)
(** * From kubelet to Harbor and back

    The plugin's client and the bridge's handler, joined by the wire: the request the
    plugin sends is the one [ServeHTTP] reads, with the JSON text decoded by [Json]'s
    reader, and the response [ServeHTTP] returns is, encoded as JSON text, the reply the
    plugin decodes. *)

From S2P Require Import Prelude Effects GoStrings GoStd GoTime Utf8 Json Naming Api RobotSecret RateLimit DataPlane.
From S2P Require Import Oidc Handler HandlerProps Plugin.

(** ** The wire *)

(** [dataplane.Response] as [json.NewEncoder] writes it. *)
Definition response_json (r : Response) : json :=
  JObject [("username", JString (Username r)); ("password", JString (Password r));
    ("expires_in", JNumber (FormatInt (ExpiresInSecs r))); ("cache_key_type", JString (CacheKeyType r))].

(** [http.Error] ends its text with a newline. *)
Definition content_text (b : httpBody) : string :=
  match b with Text s => s +:+ String (ascii_of_nat 10) EmptyString | Encoded r => Encode (response_json r) end.

Definition reply_of (r : httpResponse) : httpReply := MkReply (Code r) (content_text (Content r)) None.

(** A header of a request, as [http.Header.Get] returns it. *)
Definition header (k : string) (p : httpPost) : string :=
  match find (λ kv : string * string, String.eqb kv.1 k) (PHeader p) with Some kv => kv.2 | None => EmptyString end.

(** The path of a URL, as the server's [r.URL.Path] holds it (for a path without escapes): what
    follows the authority, up to a query or a fragment. *)
Fixpoint until_query (s : string) : string :=
  match s with
  | String c s => if ContainsByte "?#" c then EmptyString else String c (until_query s)
  | EmptyString => EmptyString
  end.
Fixpoint after_authority (s : string) : string :=
  match s with
  | String "/" _ => until_query s
  | String c s => after_authority s
  | EmptyString => EmptyString
  end.
Fixpoint url_path (u : string) : string :=
  match u with
  | String ":" (String "/" (String "/" rest)) => after_authority rest
  | String _ u => url_path u
  | EmptyString => EmptyString
  end.

(** A post of the plugin as it reaches the bridge, from some node's address. *)
Definition request_of (addr : string) (p : httpPost) : httpRequest :=
  MkRequest "POST" (url_path (PURL p)) addr None (header "Authorization" p) (Some (PBody p)) (len (PBody p)).

(** ** Round trips over the wire *)

Definition int64 (n : Z) : Prop := int64_min ≤ n ≤ int64_max.

Lemma response_wf r : ValidString (Username r) = true → ValidString (Password r) = true → ValidString (CacheKeyType r) = true →
  int64 (ExpiresInSecs r) → wf_json (response_json r).
Proof. intros Hu Hp Hc He. cbn [response_json wf_json foldr fst snd]. split_and!; try done. by exists (ExpiresInSecs r). Qed.

Lemma reply_decoded r : ValidString (Username r) = true → ValidString (Password r) = true → ValidString (CacheKeyType r) = true →
  int64 (ExpiresInSecs r) →
  decode_bridgeResponse (Encode (response_json r)) =
    Ok (MkBridgeResponse (Username r) (Password r) (Some (ExpiresInSecs r)) (CacheKeyType r)).
Proof.
  intros Hu Hp Hc He. unfold decode_bridgeResponse. rewrite Unmarshal_Encode; [|by apply response_wf|cbn; unfold maxNestingDepth; lia].
  unfold response_json. cbn [decode_struct decode_fields].
  change (set_bridgeResponse _ "username" _) with (@Ok bridgeResponse (MkBridgeResponse (Username r) "" None "")). cbn iota.
  change (set_bridgeResponse _ "password" _) with (@Ok bridgeResponse (MkBridgeResponse (Username r) (Password r) None "")). cbn iota.
  unfold set_bridgeResponse at 1. change (is_field "expires_in" "expires_in") with true.
  cbn [is_field fold_name decode_int_ptr]. rewrite ParseInt_FormatInt by done. done.
Qed.

Lemma request_read c image token addr : ValidString image = true → len (request_body image) ≤ maxRequestBodyBytes →
  requestBody DecodeFirst (request_of addr (post_of c (request_body image) token)) = Ok (MkReq image).
Proof.
  intros Hi Hlen. unfold requestBody, request_of. cbn [Body ContentLength post_of PBody].
  destruct (Z.eqb_spec (len (request_body image)) 0) as [E|_].
  { assert (∃ a t, request_body image = String a t) as (a & t & Et) by (eexists _, _; reflexivity).
    rewrite Et in E. unfold len in E. cbn [String.length] in E. lia. }
  cbn [negb]. unfold decodeBody.
  replace (slice_to (request_body image) maxRequestBodyBytes) with (request_body image +:+ EmptyString).
  - unfold request_body. rewrite DecodeFirst_print; [done| |cbn; unfold maxNestingDepth; lia|done].
    cbn [wf_json foldr fst snd]. done.
  - rewrite str_app_nil_r. unfold slice_to. symmetry. apply take_str_ge. unfold len in Hlen. lia.
Qed.

(** ** A 200 of the bridge carries credentials *)

Definition ok_page (resp : httpResponse) : Prop := Code resp = 200 → ∃ r, Content resp = Encoded r.

(** A program whose every result is such a page. *)
Definition ok_pages (p : data httpResponse) : Prop := ∀ h, wp any_env (λ _ _, True) h p (λ _ resp, ok_page resp).

Lemma ok_pages_ret resp : ok_page resp → ok_pages (Ret resp).
Proof. by intros H h. Qed.

Lemma ok_pages_bind {A} (p : data A) (f : A → data httpResponse) : (∀ a, ok_pages (f a)) → ok_pages (p ≫= f).
Proof. intros H h. apply wp_bind. eapply wp_mono; [apply wp_true|]. intros h' a _. apply H. Qed.

Lemma ok_pages_text code hd s : code ≠ 200 → ok_pages (Ret (MkHTTP code hd (Text s))).
Proof. intros H. apply ok_pages_ret. intros E. done. Qed.

(** Through the handler, up to each page. *)
Ltac each_page := repeat first
  [ apply ok_pages_text; discriminate
  | apply ok_pages_bind; intros ?
  | match goal with |- ok_pages (match ?x with _ => _ end) => destruct x end ].

Section Pages.
Context `{V : Validator} (cfg : HandlerConfig) (metrics : bool) (read_json : string → res json).

Lemma ServeHTTP_pages r h h' resp : runs any_env (ServeHTTP cfg metrics read_json r) h h' resp → ok_page resp.
Proof.
  assert (Hp : ok_pages (serveLimited cfg metrics read_json r)).
  { unfold serveLimited, serveToken, serveClaims, serveMatched, refuse_with, http_error. each_page.
    apply ok_pages_ret. intros _. by eexists. }
  eapply (wp_result _ _ _ _ _ ok_page). unfold ServeHTTP, http_error, http_NotFound.
  destruct (negb _); [done|]. destruct (negb _); [done|]. wp_call; [done|]. intros ok _. destruct (negb ok).
  - by apply (ok_pages_bind (recordResult metrics _)); intros; apply ok_pages_text.
  - wp_cut Hp. intros h1 resp1 H1. apply wp_bind. eapply wp_mono; [apply wp_true|]. done.
Qed.
End Pages.

(** ** A run of the plugin against the bridge *)

(** Secrets hold credentials in valid UTF-8, and a [time.Duration] of an object has 64 bits. *)
Definition bridge_env (h : log dans) (c : dcall) : dans c → Prop :=
  match c with
  | ListHABySubject _ => λ r, match r with
                              | Ok items => ∀ ha, ha ∈ items → TDuration (TokenTTL (Spec ha)) ≤ int64_max
                              | Err _ => True
                              end
  | ReadSecret _ _ => λ r, match r with
                           | Ok secret => ∀ u p, Credentials secret = Ok (u, p) → ValidString u = true ∧ ValidString p = true
                           | Err _ => True
                           end
  | _ => λ _, True
  end.

Section EndToEnd.
Context `{V : Validator} (cfg : HandlerConfig) (metrics : bool).
Context (ParseURL : string → res (string * string)) (c : bridgeClient).

(** Each answered post of the plugin was answered by a run of the handler. *)
Definition served (h : log pans) (call : pcall) : pans call → Prop :=
  match call with
  | Do p => λ r, match r with
                 | Err e => errors_Is e errBridgeRefused = false
                 | Ok reply => ∃ addr hb resp,
                     runs bridge_env (ServeHTTP cfg metrics DecodeFirst (request_of addr p)) [] hb resp ∧ reply = reply_of resp
                 end
  | _ => λ _, True
  end.

Lemma served_http h call r : served h call r → http_errors h call r.
Proof.
  destruct call as [p|d|l|t]; try done. cbn. destruct r as [reply|e]; [|done].
  intros (addr & hb & resp & _ & ->). by intros e.
Qed.

Lemma last_exchange h p reply : last (exchanges h) = Some (p, reply) → existT (Do p) reply ∈ h.
Proof.
  intros Hl. assert (Hin : (p, reply) ∈ exchanges h) by (by apply last_Some_elem_of).
  unfold exchanges in Hin. rewrite elem_of_reverse in Hin. apply list_elem_of_omap in Hin as ([call r] & Hin & E).
  destruct call; try done. cbn in E. injection E as <- <-. done.
Qed.

(** What the assumptions on the bridge's services give for issued credentials. *)
Lemma issued_wire claims ha secret now hb creds :
  log_env bridge_env [] hb → issued_for cfg claims ha secret now hb creds →
  ValidString (Username creds) = true ∧ ValidString (Password creds) = true ∧ int64 (ExpiresInSecs creds) ∧
  0 ≤ cacheDuration (TDuration (TokenTTL (Spec ha))) (RotationNotBefore secret) now ≤ int64_max.
Proof.
  intros Hl [_ _ _ (items & Hit & Hha) Hsec _ _ Hcr _ _ _ Hexp].
  assert (Hs : ∀ u p, Credentials secret = Ok (u, p) → ValidString u = true ∧ ValidString p = true).
  { apply list_elem_of_omap in Hsec as ([call r] & Hin & E). destruct call; try done. cbn in E.
    case_match; [|done]. injection E as ->. destruct (log_env_elem _ _ _ _ _ Hl Hin) as [?%elem_of_nil|(h1 & He)]; done. }
  assert (Hd : TDuration (TokenTTL (Spec ha)) ≤ int64_max).
  { apply list_elem_of_omap in Hit as ([call r] & Hin & E). destruct call; try done. cbn in E.
    case_match; [|done]. injection E as ->. destruct (log_env_elem _ _ _ _ _ Hl Hin) as [?%elem_of_nil|(h1 & He)]; [done|].
    by apply He. }
  destruct (Hs _ _ Hcr) as [Hu Hp]. rewrite Hexp. unfold int64.
  pose proof (cacheDuration_within_promise (TDuration (TokenTTL (Spec ha))) (RotationNotBefore secret) now) as [Hb _].
  set (d := cacheDuration _ _ _) in *. assert (0 ≤ d ≤ int64_max).
  { revert Hb Hd. unfold Hour, Minute, Second, int64_max. destruct (Z.leb_spec (TDuration (TokenTTL (Spec ha))) 0); lia. }
  split_and!; [done|done|..]; try lia;
    pose proof (Z.quot_pos d Second ltac:(lia) ltac:(done));
    pose proof (Z.quot_le_upper_bound d Second d ltac:(done)); unfold int64_min, Second in *; lia.
Qed.

(** The duration kubelet caches for is at most the one the bridge chose. *)
Lemma responseDuration_at_most d : 0 ≤ d ≤ int64_max →
  0 ≤ responseDuration (Z.quot d Second) ≤ d ∧ responseDuration (Z.quot d Second) ≤ maxCacheDuration.
Proof.
  intros Hd. assert (Hq : 0 ≤ Z.quot d Second ≤ int64_max ∧ Z.quot d Second * Second ≤ d).
  { pose proof (Z.quot_pos d Second ltac:(lia) ltac:(done)).
    pose proof (Z.mul_quot_le d Second ltac:(lia) ltac:(done)). unfold Second in *. lia. }
  destruct (responseDuration_bounds (Z.quot d Second)) as [Hb Heq]; [lia|].
  destruct (Z.leb_spec (Z.quot d Second) 86400); [rewrite Heq in * by lia; lia|].
  unfold maxCacheDuration, Hour, Minute, Second in *. lia.
Qed.

(** The output of a run for [req] that hands kubelet the credentials [creds]. *)
Definition credentials_text (req : credentialProviderRequest) (creds : Response) (dur : Duration) : string :=
  Encode (cpresponse_json (MkCPResponse credentialProviderAPIVersion responseKind cacheKeyTypeRegistry (DurationString dur)
    [(imageHost (CPImage req), MkAuth (Username creds) (Password creds))])).

(** The credentials [creds] for [image] and [token] came from the bridge: a post of the plugin's
    log for this image and this token has as its answer the response of a run of the handler on
    it, and in this run [token] was found valid with [claims] and [creds] were issued for them. *)
Definition bridge_issued (h : log pans) (image token : string) claims ha secret now (creds : Response) : Prop :=
  ∃ p addr hb resp, p = post_of c (request_body image) token ∧
    existT (Do p) (Ok (reply_of resp)) ∈ h ∧
    runs bridge_env (ServeHTTP cfg metrics DecodeFirst (request_of addr p)) [] hb resp ∧
    Content resp = Encoded creds ∧ valid hb token claims ∧ issued_for cfg claims ha secret now hb creds.

(** A 200 the plugin got is one the handler issued for the plugin's token. *)
Lemma served_credentials h' image token reply resp :
  log_env served [] h' → existT (Do (post_of c (request_body image) token)) (Ok reply) ∈ h' →
  RStatus reply = 200 → decode_bridgeResponse (RBody reply) = Ok resp →
  ∃ claims ha secret now creds, bridge_issued h' image token claims ha secret now creds ∧
    0 ≤ cacheDuration (TDuration (TokenTTL (Spec ha))) (RotationNotBefore secret) now ≤ int64_max ∧
    ExpiresInSecs creds = Z.quot (cacheDuration (TDuration (TokenTTL (Spec ha))) (RotationNotBefore secret) now) Second ∧
    resp = MkBridgeResponse (Username creds) (Password creds) (Some (ExpiresInSecs creds)) cacheKeyTypeRegistry.
Proof.
  intros Hl Hin Hst Hdec. destruct (log_env_elem _ _ _ _ _ Hl Hin) as [?%elem_of_nil|(h1 & addr & hb & hr & Hr & ->)]; [done|].
  assert (Hr' := Hr). apply (runs_env_mono _ any_env) in Hr'; [|done].
  destruct (ServeHTTP_pages _ _ _ _ _ _ _ Hr' Hst) as [creds Hc].
  destruct (runs_carries _ _ _ _ _ _ Hr' creds Hc) as (_ & _ & raw & claims & ha & secret & now & Ha & _ & Hv & Hi).
  assert (raw = token) as -> by exact (eq_sym (f_equal (drop_str 7) Ha)).
  assert (Hb := runs_log_env _ _ _ _ _ Hr). destruct (issued_wire _ _ _ _ _ _ Hb Hi) as (Hu & Hp & He & Hd).
  exists claims, ha, secret, now, creds. split_and!; [|lia|lia|by rewrite (if_expires _ _ _ _ _ _ _ Hi)|].
  { exists (post_of c (request_body image) token), addr, hb, hr. done. }
  cbn [RBody reply_of] in Hdec. rewrite Hc in Hdec. cbn [content_text] in Hdec.
  rewrite reply_decoded in Hdec; [|done|done|by rewrite (if_type _ _ _ _ _ _ _ Hi)|done].
  injection Hdec as <-. by rewrite (if_type _ _ _ _ _ _ _ Hi).
Qed.

(** C9: Over both components, kubelet gets credentials only for a pod the bridge
    vouched for. When the plugin runs against the bridge's handler (each answered post
    of the plugin is answered with the response of a run of the handler on that very
    request) and writes something, it is the empty response, or the username and
    password that the handler issued in the run that answered one of the plugin's posts,
    which carried the token kubelet passed to the plugin: the Secret's credentials of a
    live HarborAccess whose ServiceAccount, issuer and audience are those of this token.
    They are stored under the registry host of the image being pulled, and kubelet,
    caching them from the instant the bridge answered, drops them no later than the
    Secret's rotation promise and after at most 24 hours. Assumed of the cluster: the
    Secrets' user names and passwords are valid UTF-8 (JSON carries no other text
    unchanged), and a HarborAccess's duration has 64 bits; and of the libraries: no error of
    net/url or net/http is the plugin's own refusal. *)
Theorem kubelet_gets_entitled_credentials stdin h' r out :
  url_errors ParseURL → runs served (run ParseURL stdin c) [] h' r → stdout h' = [out] →
  ∃ req, decodeRequest stdin = Ok req ∧
    (out = Encode (cpresponse_json refusedResponse) ∨
     ∃ claims ha secret now creds dur,
       bridge_issued h' (CPImage req) (ServiceAccountToken req) claims ha secret now creds ∧
       out = credentials_text req creds dur ∧ 0 ≤ dur ≤ maxCacheDuration ∧
       match RotationNotBefore secret with Some nb => dur = 0 ∨ now + dur ≤ nb | None => True end).
Proof.
  intros Hurl Hr Hout. assert (Hl := runs_log_env _ _ _ _ _ Hr). apply (runs_env_mono _ http_errors) in Hr; [|apply served_http].
  destruct (decodeRequest stdin) as [req|e] eqn:E; [|destruct (run_undecodable _ _ _ _ _ _ _ E Hr) as [-> _]; done].
  exists req. split; [done|]. eapply wp_post in Hr; [|by apply (wp_run _ _ _ req)]. destruct Hr as [Hw _].
  destruct Hw as [Hn|reply Hx Hst Ho|reply resp secs Hx Hst Hdec _ _ Hs _ Ho]; [by rewrite Hn in Hout| |].
  { left. rewrite Ho in Hout. by injection Hout as <-. }
  right. apply last_exchange in Hx.
  destruct (served_credentials _ _ _ _ _ Hl Hx Hst Hdec) as (claims & ha & secret & now & creds & Hi & Hd & Hexp & ->).
  injection Hs as <-. exists claims, ha, secret, now, creds, (responseDuration (ExpiresInSecs creds)).
  pose proof (cacheDuration_within_promise (TDuration (TokenTTL (Spec ha))) (RotationNotBefore secret) now) as [_ Hp].
  rewrite Hexp in *. set (d := cacheDuration _ _ _) in *.
  destruct (responseDuration_at_most d Hd) as [Hle Hmax].
  split_and!; [done|rewrite Ho in Hout; by injection Hout as <-|lia|lia|].
  destruct (RotationNotBefore secret); [lia|done].
Qed.

(** An environment that answers every post with [reply]. *)
Definition answering (reply : httpReply) (h : log pans) (call : pcall) : pans call → Prop :=
  match call with Do _ => λ r, r = Ok reply | _ => λ _, True end.

Lemma attempt_whole reply : RError reply = None → len (RBody reply) ≤ maxResponseBytes →
  attempt (Ok reply) = Ok (RBody reply, RStatus reply).
Proof.
  intros He Hl. unfold attempt, readLimited. rewrite He. replace (maxResponseBytes <? len (RBody reply)) with false; [|lia].
  by replace (maxResponseBytes <? len (RBody reply)) with false by lia.
Qed.

Lemma wp_fetch_answered reply u image token : ParseURL (url c) = Ok u → RStatus reply ≠ 503 →
  RError reply = None → len (RBody reply) ≤ maxResponseBytes →
  wp (answering reply) (λ _ _, True) [] (fetch ParseURL c image token)
    (λ h r, h = [existT (Do (post_of c (request_body image) token)) (Ok reply)] ∧ r = fetch_result (RBody reply) (RStatus reply)).
Proof.
  intros Hu Hs He Hl. unfold fetch, do_. rewrite Hu. apply wp_bind. wp_call; [done|]. intros r ->.
  apply wp_ret. rewrite (attempt_whole reply He Hl). destruct (Z.eqb_spec (RStatus reply) 503); done.
Qed.

(** C29: What the bridge issues reaches kubelet unchanged. The image the plugin asks
    for is the one the handler reads from the request; and when the handler answers
    with credentials (not empty, valid UTF-8, within the plugin's limit), the run
    writes exactly one response: this username and password for the registry host of
    the image, cached for the whole seconds of the handler's duration, at most 24
    hours; its result is that of the write. *)
Theorem issued_credentials_reach_kubelet stdin req u creds ttl addr h' r :
  decodeRequest stdin = Ok req → typed_request req → imageHost (CPImage req) ≠ "" → ParseURL (url c) = Ok u →
  ValidString (CPImage req) = true → len (request_body (CPImage req)) ≤ maxRequestBodyBytes →
  username creds ≠ "" → password creds ≠ "" → ValidString (username creds) = true → ValidString (password creds) = true →
  0 ≤ ttl ≤ int64_max → len (RBody (reply_of (writeResponse creds ttl))) ≤ maxResponseBytes →
  runs (answering (reply_of (writeResponse creds ttl))) (run ParseURL stdin c) [] h' r →
  requestBody DecodeFirst (request_of addr (post_of c (request_body (CPImage req)) (ServiceAccountToken req))) = Ok (MkReq (CPImage req)) ∧
  let out := credentials_text req (MkResponse (username creds) (password creds) (Z.quot ttl Second) cacheKeyTypeRegistry)
               (responseDuration (Z.quot ttl Second)) in
  h' = [existT (Stdout out) r; existT (Do (post_of c (request_body (CPImage req)) (ServiceAccountToken req))) (Ok (reply_of (writeResponse creds ttl)))].
Proof.
  intros Hreq (Hv & Hk & Hi & Ht) Hhost Hurl Hvi Hli Hu Hp Hvu Hvp Httl Hlen Hr. split; [by apply request_read|].
  set (resp := MkResponse (username creds) (password creds) (Z.quot ttl Second) cacheKeyTypeRegistry).
  assert (He : int64 (ExpiresInSecs resp)).
  { pose proof (Z.quot_pos ttl Second ltac:(lia) ltac:(done)). pose proof (Z.quot_le_upper_bound ttl Second ttl ltac:(done)).
    unfold int64, int64_min, Second in *. cbn. lia. }
  assert (Hdec := reply_decoded resp Hvu Hvp eq_refl He).
  revert h' r Hr. refine (wp_post _ _ _ _ _). unfold run. rewrite Hreq, Hv, Hk, !String.eqb_refl. cbn [negb orb].
  rewrite (proj2 (String.eqb_neq _ _) Hi), (proj2 (String.eqb_neq _ _) Ht).
  wp_cut (wp_fetch_answered (reply_of (writeResponse creds ttl)) u); [done|done|done|done|]. intros h1 r1 [-> ->].
  change (fetch_result _ _) with (fetch_result (Encode (response_json resp)) 200).
  unfold fetch_result. rewrite Hdec. change (200 =? 200) with true. cbn [BUsername BPassword BCacheKeyType BExpiresInSecs Username Password CacheKeyType ExpiresInSecs resp].
  rewrite (proj2 (String.eqb_neq _ _) Hu), (proj2 (String.eqb_neq _ _) Hp). cbn [orb]. change (String.eqb cacheKeyTypeRegistry "") with false.
  cbn iota. unfold writeOKResponse. rewrite (proj2 (String.eqb_neq _ _) Hhost).
  split; [done|]. intros a _. done.
Qed.
End EndToEnd.

(** ** A concrete pull *)

Definition demo_serve (s : unit) (call : pcall) : pans call * unit :=
  (match call return pans call with
   | Do p => Ok (reply_of (play demo_data tt (ServeHTTP (V := oidc_validator demo_validator) demo_config true DecodeFirst
                              (request_of "10.0.0.7:4711" p)) []).2)
   | Sleep _ | Stderr _ => tt
   | Stdout _ => None
   end, tt).

Definition demo_pull := play demo_serve tt (run demo_parse demo_stdin demo_endpoint) [].

Lemma demo_bridge_env s h call : bridge_env h call (demo_data s call).1.
Proof.
  destruct call; try done; cbn.
  - intros ha [->|[->|[]%elem_of_nil]%elem_of_cons]%elem_of_cons; by vm_compute.
  - intros u p H. vm_compute in H. injection H as <- <-. by vm_compute.
Qed.

Lemma demo_pull_runs : runs (served (V := oidc_validator demo_validator) demo_config true) (run demo_parse demo_stdin demo_endpoint) []
  demo_pull.1.2 demo_pull.2.
Proof.
  apply play_runs_in. intros s h [p|d|l|t]; try done. eexists "10.0.0.7:4711", _, _. split; [|reflexivity].
  apply (play_runs_in (S := unit)). apply demo_bridge_env.
Qed.

Lemma demo_pull_writes : stdout demo_pull.1.2 = [credentials_text demo_cprequest demo_creds (1800 * Second)].
Proof. vm_compute. reflexivity. Qed.

Lemma kubelet_gets_entitled_credentials_witness :
  ∃ req, decodeRequest demo_stdin = Ok req ∧
    (credentials_text demo_cprequest demo_creds (1800 * Second) = Encode (cpresponse_json refusedResponse) ∨
     ∃ claims ha secret now creds dur,
       bridge_issued (V := oidc_validator demo_validator) demo_config true demo_endpoint demo_pull.1.2
         (CPImage req) (ServiceAccountToken req) claims ha secret now creds ∧
       credentials_text demo_cprequest demo_creds (1800 * Second) = credentials_text req creds dur ∧ 0 ≤ dur ≤ maxCacheDuration ∧
       match RotationNotBefore secret with Some nb => dur = 0 ∨ now + dur ≤ nb | None => True end).
Proof.
  apply (kubelet_gets_entitled_credentials (V := oidc_validator demo_validator) demo_config true demo_parse demo_endpoint demo_stdin
    demo_pull.1.2 demo_pull.2); [done|exact demo_pull_runs|exact demo_pull_writes].
Defined.

Definition demo_robot : robotCreds := MkCreds "robot$team-a.app" "pw" None.
Definition demo_answer (s : unit) (call : pcall) : pans call * unit :=
  (match call return pans call with
   | Do p => Ok (reply_of (writeResponse demo_robot Hour))
   | Sleep _ | Stderr _ => tt
   | Stdout _ => None
   end, tt).
Definition demo_fetch := play demo_answer tt (run demo_parse demo_stdin demo_endpoint) [].

Lemma demo_fetch_runs : runs (answering (reply_of (writeResponse demo_robot Hour))) (run demo_parse demo_stdin demo_endpoint) []
  demo_fetch.1.2 demo_fetch.2.
Proof. apply play_runs_in. intros s h [p|d|l|t]; done. Qed.

Lemma demo_stdin_decodes : decodeRequest demo_stdin = Ok demo_cprequest.
Proof. vm_compute. reflexivity. Qed.

Lemma demo_lengths : len (request_body (CPImage demo_cprequest)) ≤ maxRequestBodyBytes ∧
  len (RBody (reply_of (writeResponse demo_robot Hour))) ≤ maxResponseBytes ∧ 0 ≤ Hour ≤ int64_max.
Proof. vm_compute. split_and!; discriminate. Qed.

Lemma issued_credentials_reach_kubelet_witness :
  requestBody DecodeFirst (request_of "10.0.0.7:4711" (post_of demo_endpoint (request_body (CPImage demo_cprequest)) (ServiceAccountToken demo_cprequest)))
    = Ok (MkReq (CPImage demo_cprequest)) ∧
  let out := credentials_text demo_cprequest (MkResponse (username demo_robot) (password demo_robot) (Z.quot Hour Second) cacheKeyTypeRegistry)
               (responseDuration (Z.quot Hour Second)) in
  demo_fetch.1.2 = [existT (Stdout out) demo_fetch.2;
    existT (Do (post_of demo_endpoint (request_body (CPImage demo_cprequest)) (ServiceAccountToken demo_cprequest))) (Ok (reply_of (writeResponse demo_robot Hour)))].
Proof.
  refine (issued_credentials_reach_kubelet demo_parse demo_endpoint demo_stdin demo_cprequest ("https", "bridge.example.com:8443")
    demo_robot Hour "10.0.0.7:4711" demo_fetch.1.2 demo_fetch.2 demo_stdin_decodes _ _ eq_refl eq_refl (proj1 demo_lengths) _ _ eq_refl eq_refl
    (proj2 (proj2 demo_lengths)) (proj1 (proj2 demo_lengths)) demo_fetch_runs); discriminate || (split_and!; done || discriminate).
Defined.
