(* ===== verification/GoPath.v ===== *)
(** * Paths

    The functions of package [path/filepath] on Unix that the sources use. They
    work on the text of a path alone. *)

From S2P Require Import Prelude.
From S2P Require Import GoStrings.

Definition slash : ascii := "/"%char.

Definition IsAbs (p : string) : bool := HasPrefix p "/".

(** [filepath.Clean]: the components kept so far, the last one first; [rooted] for
    an absolute path, whose ".." at the root is dropped. *)
Definition clean_step (rooted : bool) (kept : list string) (c : string) : list string :=
  if String.eqb c "" || String.eqb c "." then kept
  else if String.eqb c ".." then
    match kept with
    | [] => if rooted then [] else [c]
    | top :: rest => if negb rooted && String.eqb top ".." then c :: kept else rest
    end
  else c :: kept.

Definition clean_components (rooted : bool) (p : string) : list string :=
  rev (fold_left (clean_step rooted) (Split p slash) []).

Definition Clean (p : string) : string :=
  if IsAbs p then "/" +:+ Join (clean_components true p) "/"
  else match clean_components false p with
       | [] => "."
       | cs => Join cs "/"
       end.

(** [filepath.Join(a, b)]; the result is clean. *)
Definition JoinPath (a b : string) : string :=
  if String.eqb a "" then if String.eqb b "" then "" else Clean b
  else Clean (a +:+ "/" +:+ b).

(** The path up to and including its last slash, and the rest. *)
Fixpoint split_last (p : string) : string * string :=
  match p with
  | EmptyString => (EmptyString, EmptyString)
  | String c p' =>
      let '(dir, base) := split_last p' in
      match dir with
      | EmptyString => if Ascii.eqb c slash then (String c EmptyString, base) else (EmptyString, String c base)
      | _ => (String c dir, base)
      end
  end.

Definition Dir (p : string) : string := Clean (split_last p).1.

Definition Base (p : string) : string :=
  if String.eqb p "" then "."
  else match TrimRight p "/" with
       | EmptyString => "/"
       | q => (split_last q).2
       end.

Lemma path_samples :
  Clean "/a/./b//../c/" = "/a/c" ∧ Clean "/.." = "/" ∧ Clean "../x/../.." = "../.." ∧ Clean "" = "." ∧
  JoinPath "/host" "/etc/default" = "/host/etc/default" ∧ Dir "/a/b" = "/a" ∧ Dir "b" = "." ∧
  Base "/a/b/" = "b" ∧ Base "/" = "/".
Proof. by vm_compute. Qed.

(** ** Clean absolute paths *)

(** A component that cleaning keeps. *)
Definition plain_component (c : string) : Prop :=
  c ≠ "" ∧ c ≠ "." ∧ c ≠ ".." ∧ ContainsByte c slash = false.

Lemma clean_step_plain kept c : plain_component c → clean_step true kept c = c :: kept.
Proof.
  intros (H1 & H2 & H3 & _). unfold clean_step.
  by rewrite (proj2 (String.eqb_neq c "") H1), (proj2 (String.eqb_neq c ".") H2), (proj2 (String.eqb_neq c "..") H3).
Qed.

Lemma clean_step_components kept c : ContainsByte c slash = false →
  Forall plain_component kept → Forall plain_component (clean_step true kept c).
Proof.
  intros Hc Hk. unfold clean_step. destruct (String.eqb_spec c ""); [done|]. destruct (String.eqb_spec c "."); [done|].
  cbn. destruct (String.eqb_spec c ".."); [|by constructor]. destruct kept; [done|]. cbn. by inversion Hk.
Qed.

Lemma clean_components_plain p : Forall plain_component (clean_components true p).
Proof.
  unfold clean_components. apply Forall_rev. pose proof (Split_parts p slash) as Hp.
  assert (∀ cs kept, Forall (λ w, ContainsByte w slash = false) cs → Forall plain_component kept →
    Forall plain_component (fold_left (clean_step true) cs kept)) as H.
  { induction cs as [|c cs IH]; intros kept Hcs Hk; [done|]. inversion Hcs; subst. cbn. apply IH; [done|].
    by apply clean_step_components. }
  by apply H.
Qed.

Lemma fold_clean_plain cs kept : Forall plain_component cs → fold_left (clean_step true) cs kept = rev cs ++ kept.
Proof.
  revert kept. induction cs as [|c cs IH]; intros kept H; [done|]. inversion H; subst. cbn.
  rewrite clean_step_plain, IH by done. by rewrite <- app_assoc.
Qed.

Lemma clean_components_join cs : Forall plain_component cs → clean_components true ("/" +:+ Join cs "/") = cs.
Proof.
  intros H. unfold clean_components. change ("/" +:+ ?x) with (String slash x). cbn [Split].
  rewrite eqb_refl_ascii. cbn [fold_left]. change (clean_step true [] "") with (@nil string).
  destruct cs as [|c cs]; [done|].
  assert (Split (Join (c :: cs) "/") slash = c :: cs) as ->.
  { apply (Split_Join (c :: cs) slash); [done|]. eapply Forall_impl; [exact H|]. by intros ? (_ & _ & _ & ?). }
  rewrite fold_clean_plain, app_nil_r by done. by rewrite rev_involutive.
Qed.

(** Cleaning is idempotent, and a clean absolute path is the join of its
    components. *)
Lemma Clean_abs p : IsAbs p = true → Clean p = "/" +:+ Join (clean_components true p) "/".
Proof. unfold Clean. by intros ->. Qed.

Lemma Clean_idem p : IsAbs p = true → Clean (Clean p) = Clean p.
Proof.
  intros H. rewrite (Clean_abs p H). rewrite Clean_abs by done.
  by rewrite clean_components_join by apply clean_components_plain.
Qed.
