(* ===== verification/AdminCreds.v ===== *)
(** * The Harbor admin credentials

    bridge/controlplane/admincreds.go with [AdminCreds] and [readSecretFile] of
    bridge/controlplane/config.go: the credentials are read from a mounted Secret on every
    call. Kubelet swaps such a volume while the bridge reads it, by pointing the link
    [..data] at another directory; the username and the password returned are always of one
    version. *)

From S2P Require Import Prelude Effects GoStrings GoStd GoTime GoPath Naming HarborClient Api RobotSecret Contract Config.

(** The calls on the volume. *)
Inductive vcall := VReadlink (path : string) | VReadFile (path : string).

Definition vans (c : vcall) : Type :=
  match c with VReadlink _ => res string | VReadFile _ => res string end.

Notation vprog := (prog vans).

Record AdminCreds := MkCreds { Username : string; Password : string }.

#[export] Instance AdminCreds_eq_dec : EqDecision AdminCreds.
Proof. solve_decision. Defined.

Definition adminUsernameKey : string := "username".
Definition adminPasswordKey : string := "password".
Definition kubeletDataDir : string := "..data".
Definition adminCredsReadAttempts : nat := 5.

(** The line ends an editor leaves. *)
Definition line_ends : string := String "013" (String "010" "").

Definition readSecretFile (path : string) : vprog (res string) :=
  r ← trigger (VReadFile path);
  Ret (match r with
       | Err e => Err (EWrap "read" e)
       | Ok data =>
           let v := TrimRight data line_ends in
           if String.eqb v "" then Err (EMsg "is empty") else Ok v
       end).

Definition readAdminCredsFrom (dir : string) : vprog (res AdminCreds) :=
  u ← readSecretFile (JoinPath dir adminUsernameKey);
  match u with
  | Err e => Ret (Err e)
  | Ok username =>
      p ← readSecretFile (JoinPath dir adminPasswordKey);
      Ret (match p with Err e => Err e | Ok password => Ok (MkCreds username password) end)
  end.

Definition data_target (dir target : string) : string := if IsAbs target then target else JoinPath dir target.

(** The base directory and the generation. *)
Definition resolveDataDir (dir : string) : vprog (res (string * string)) :=
  r ← trigger (VReadlink (JoinPath dir kubeletDataDir));
  Ret (match r with
       | Ok target => let target := data_target dir target in Ok (target, target)
       | Err e => if errors_Is e ErrNotExist then Ok (dir, "") else Err (EWrap "resolve" e)
       end).

(** The loop, with the error of the attempt before. *)
Fixpoint read_attempts (n : nat) (dir : string) (err : gerr) : vprog (res AdminCreds) :=
  match n with
  | O => Ret (Err err)
  | S n =>
      r ← resolveDataDir dir;
      match r with
      | Err e => read_attempts n dir e
      | Ok (base, generation) =>
          c ← readAdminCredsFrom base;
          match c with
          | Ok creds => Ret (Ok creds)
          | Err e =>
              now ← resolveDataDir dir;
              match now with
              | Ok (_, g) => if String.eqb g generation then Ret (Err e) else read_attempts n dir e
              | Err _ => read_attempts n dir e
              end
          end
      end
  end.

Definition readAdminCredsDir (dir : string) : vprog (res AdminCreds) := read_attempts adminCredsReadAttempts dir (EMsg "").

Definition LoadAdminCreds (c : Config) : vprog (res AdminCreds) := readAdminCredsDir (HarborAdminDir c).

(** [AdminCredsReader]: the last credentials it returned. *)
Definition AdminCredsReader : Type := AdminCreds.
Definition NewAdminCredsReader : AdminCredsReader := MkCreds "" "".

(** [Read]: the credentials, the reader's new state, and whether it logs a change. *)
Definition Read (c : Config) (last : AdminCredsReader) : vprog (res (string * string) * AdminCredsReader * bool) :=
  r ← LoadAdminCreds c;
  Ret (match r with
       | Err e => (Err e, last, false)
       | Ok creds =>
           (Ok (Username creds, Password creds), creds, bool_decide (last ≠ NewAdminCredsReader) && bool_decide (last ≠ creds))
       end).

(** ** A volume kubelet swaps *)

Section Volume.
Context (dir : string).
(** The version [..data] points at when the [t]-th call of the bridge is answered, and of each
    version the target of the link and the content of its two files. *)
Context (current : nat → nat) (target user pass : nat → string).

Definition version_dir (v : nat) : string := data_target dir (target v).

(** The volume's answers. The link is there, or cannot be read for another reason than that
    it is missing. Kubelet writes each version once, into a directory of its own, and may
    remove it again; what a read of any other path finds, the links [username] and
    [password] of the volume among them, is left open. *)
Definition volume_env (h : log vans) (c : vcall) : vans c → Prop :=
  match c with
  | VReadlink p => λ r, p = JoinPath dir kubeletDataDir →
      r = Ok (target (current (length h))) ∨ ∃ e, r = Err e ∧ errors_Is e ErrNotExist = false
  | VReadFile p => λ r, ∀ v d, r = Ok d →
      (p = JoinPath (version_dir v) adminUsernameKey → d = user v) ∧
      (p = JoinPath (version_dir v) adminPasswordKey → d = pass v)
  end.

(** [creds] are what version [v] holds. *)
Definition of_version (v : nat) (creds : AdminCreds) : Prop :=
  creds = MkCreds (TrimRight (user v) line_ends) (TrimRight (pass v) line_ends) ∧ Username creds ≠ "" ∧ Password creds ≠ "".

Notation vwp := (wp volume_env (λ _ _, True)).

Lemma wp_readSecretFile h path : vwp h (readSecretFile path)
  (λ h' r, (length h ≤ length h')%nat ∧ ∀ s, r = Ok s → s ≠ "" ∧ ∃ d, s = TrimRight d line_ends ∧
    ∀ v, (path = JoinPath (version_dir v) adminUsernameKey → d = user v) ∧ (path = JoinPath (version_dir v) adminPasswordKey → d = pass v)).
Proof.
  unfold readSecretFile. wp_call; [done|]. intros [d|e] Hd; (split; [cbn; lia|]); [|done]. cbv zeta.
  destruct (String.eqb_spec (TrimRight d line_ends) ""); [done|]. intros s [= <-]. split; [done|]. exists d. split; [done|].
  intros v. by apply Hd.
Qed.

Lemma wp_readAdminCredsFrom h v : vwp h (readAdminCredsFrom (version_dir v))
  (λ h' r, (length h ≤ length h')%nat ∧ ∀ c, r = Ok c → of_version v c).
Proof.
  unfold readAdminCredsFrom. apply wp_bind. eapply wp_mono; [apply wp_readSecretFile|]. intros h1 [u|e] [Hl Hu]; [|done].
  apply wp_bind. eapply wp_mono; [apply wp_readSecretFile|]. intros h2 [p|e] [Hl2 Hp]; (split; [lia|]); [|done]. intros c [= <-].
  destruct (Hu u eq_refl) as (Hn & d & -> & Hd), (Hp p eq_refl) as (Hn' & d' & -> & Hd').
  destruct (Hd v) as [Eu _], (Hd' v) as [_ Ep]. rewrite (Eu eq_refl) in *. by rewrite (Ep eq_refl) in *.
Qed.

Lemma wp_resolveDataDir h : vwp h (resolveDataDir dir)
  (λ h' r, (length h ≤ length h')%nat ∧ ∀ b g, r = Ok (b, g) → b = version_dir (current (length h)) ∧ g = b ∧ (length h < length h')%nat).
Proof.
  unfold resolveDataDir. wp_call; [done|]. intros r Hr. split; [cbn; lia|].
  destruct (Hr eq_refl) as [->|(e & -> & He)]; [|by rewrite He]. intros b g [= <- <-]. split_and!; [done..|cbn; lia].
Qed.

Lemma wp_read_attempts n : ∀ err h, vwp h (read_attempts n dir err)
  (λ h' r, (length h ≤ length h')%nat ∧ ∀ c, r = Ok c → ∃ t, (length h ≤ t < length h')%nat ∧ of_version (current t) c).
Proof.
  induction n as [|n IH]; intros err h; cbn [read_attempts]; [done|].
  assert (∀ e h1, (length h ≤ length h1)%nat → vwp h1 (read_attempts n dir e)
    (λ h' r, (length h ≤ length h')%nat ∧ ∀ c, r = Ok c → ∃ t, (length h ≤ t < length h')%nat ∧ of_version (current t) c)) as Hnext.
  { intros e h1 H1. eapply wp_mono; [apply IH|]. intros h2 r [H2 Hr]. split; [lia|]. intros c Hc.
    destruct (Hr c Hc) as (t & Ht & Hv). exists t. split; [lia|done]. }
  apply wp_bind. eapply wp_mono; [apply wp_resolveDataDir|]. intros h1 [[b g]|e] [H1 Hr]; [|by apply Hnext].
  destruct (Hr b g eq_refl) as (-> & -> & Hlt). apply wp_bind. eapply wp_mono; [apply wp_readAdminCredsFrom|].
  intros h2 [c|e] [H2 Hc]; [split; [lia|]; intros c' [= <-]; exists (length h); split; [lia|by apply Hc]|].
  apply wp_bind. eapply wp_mono; [apply wp_resolveDataDir|]. intros h3 [[b g]|e'] [H3 _]; [|apply Hnext; lia].
  destruct (String.eqb _ _); [split; [lia|done]|apply Hnext; lia].
Qed.

(** C12: The credentials a call uses are those of one version of the Secret, one that was current
    while the call read it: kubelet may swap the volume at any point, but the old username is
    never paired with the new password. *)
Theorem credentials_of_one_version h h' creds : runs volume_env (readAdminCredsDir dir) h h' (Ok creds) →
  ∃ t, (length h ≤ t < length h')%nat ∧ of_version (current t) creds.
Proof.
  intros Hr. refine (proj2 (wp_post volume_env h _ (λ h' r, (length h ≤ length h')%nat ∧ ∀ c, r = Ok c →
    ∃ t, (length h ≤ t < length h')%nat ∧ of_version (current t) c) _ h' _ Hr) creds eq_refl).
  apply wp_read_attempts.
Qed.
End Volume.

(** ** A swap during a read *)

(** Kubelet swaps version 0 for version 1 after the bridge resolved the link and read the
    username, and removes version 0. *)
Definition swap_current (t : nat) : nat := if (t <? 2)%nat then 0 else 1.
Definition swap_target (v : nat) : string := if (v =? 0)%nat then "..v0" else "..v1".
Definition swap_user (v : nat) : string := if (v =? 0)%nat then "old" else "new".
Definition swap_pass (v : nat) : string := if (v =? 0)%nat then "old-password" else "new-password".

Definition swap_serve (t : nat) (c : vcall) : vans c * nat :=
  match c return vans c * nat with
  | VReadlink _ => (Ok (swap_target (swap_current t)), S t)
  | VReadFile p =>
      (if String.eqb p "/creds/..v0/username" && (t <? 2)%nat then Ok "old"
       else if String.eqb p "/creds/..v1/username" then Ok "new"
       else if String.eqb p "/creds/..v1/password" then Ok "new-password" else Err (ESentinel ErrNotExist), S t)
  end.

Definition swap_run := play swap_serve 0%nat (readAdminCredsDir "/creds") [].

Lemma swap_path v f : JoinPath (version_dir "/creds" swap_target v) f = JoinPath (if (v =? 0)%nat then "/creds/..v0" else "/creds/..v1") f.
Proof. unfold version_dir, swap_target. by destruct (v =? 0)%nat. Qed.

Lemma swap_allowed h t c : t = length h →
  volume_env "/creds" swap_current swap_target swap_user swap_pass h c (swap_serve t c).1 ∧ (swap_serve t c).2 = length (existT c (swap_serve t c).1 :: h).
Proof.
  intros ->. split; [|by destruct c]. destruct c as [p|p]; cbn [swap_serve fst volume_env]; [by left|].
  intros v d Hd. rewrite !swap_path. unfold swap_user, swap_pass.
  destruct (String.eqb_spec p "/creds/..v0/username"), (String.eqb_spec p "/creds/..v1/username"), (String.eqb_spec p "/creds/..v1/password");
    subst; try done; destruct (v =? 0)%nat; cbn [andb] in Hd; try (destruct (length h <? 2)%nat); cbn in Hd; try done;
    injection Hd as <-; by split.
Qed.

Lemma swap_runs : runs (volume_env "/creds" swap_current swap_target swap_user swap_pass) (readAdminCredsDir "/creds") []
  swap_run.1.2 swap_run.2.
Proof.
  apply (play_runs_inv _ (λ t h, t = length h) swap_serve 0%nat (readAdminCredsDir "/creds") []); [|done].
  intros t h c Ht. destruct (swap_allowed h t c Ht) as [H1 H2]. by split.
Qed.

Lemma credentials_of_one_version_witness : swap_run.2 = Ok (MkCreds "new" "new-password") ∧
  ∃ t, (0 ≤ t < length swap_run.1.2)%nat ∧ of_version swap_user swap_pass (swap_current t) (MkCreds "new" "new-password").
Proof.
  split; [vm_compute; reflexivity|].
  apply (credentials_of_one_version "/creds" swap_current swap_target swap_user swap_pass [] swap_run.1.2 (MkCreds "new" "new-password")).
  exact swap_runs.
Defined.
