(* ===== verification/CacheSync.v ===== *)
(** * Starting after the caches

    bridge/controlplane/cache.go: which objects the manager's cache holds, and the runnable that
    starts the credential listener only once the caches it answers from have synced. The
    cache, the manager and the listener are calls. *)

From S2P Require Import Prelude Effects GoStrings GoTime Naming HarborClient Api RobotSecret Contract Config.

Definition CacheSyncTimeout : Duration := 2 * Minute.

(** The types the bridge reads through the cache. *)
Inductive cached := CHarborAccess | CSecret.

#[export] Instance cached_eq_dec : EqDecision cached.
Proof. solve_decision. Defined.

Definition cachedObjects : list cached := [CHarborAccess; CSecret].

(** [cache.ByObject]: the namespaces and the selector a type is limited to. *)
Record ByObject := MkByObject { by_namespaces : option (list string); by_label : option Selector }.

Definition CacheOptions (c : Config) (o : cached) : ByObject :=
  match o with
  | CSecret => MkByObject (Some [CfgNamespace c]) None
  | CHarborAccess => MkByObject None (HarborAccessSelector c)
  end.

(** The calls: an informer, whether it synced before the time was up, the context's error, the
    listener's [Start], and the manager's registrations. *)
Inductive ccall := GetInformer (o : cached) | WaitSynced (o : cached) | CtxErr | RunnableStart | MgrAdd | AddReadyzCheck (name : string).

Definition cans (c : ccall) : Type :=
  match c with WaitSynced _ => bool | _ => option gerr end.

Notation cprog := (prog cans).

Fixpoint wait_each (objs : list cached) : cprog (option gerr) :=
  match objs with
  | [] => Ret None
  | o :: objs =>
      e ← trigger (GetInformer o);
      match e with
      | Some e => Ret (Some (EWrap "start the cache" e))
      | None =>
          ok ← trigger (WaitSynced o);
          if negb ok then Ret (Some (EMsg "the cache did not sync in time")) else wait_each objs
      end
  end.
Definition waitForCacheSync : cprog (option gerr) := wait_each cachedObjects.

(** [afterCacheSync.Start]. *)
Definition afterCacheSync_Start : cprog (option gerr) :=
  e ← waitForCacheSync;
  match e with
  | Some err =>
      stopped ← trigger CtxErr;
      Ret (match stopped with Some s => Some s | None => Some err end)
  | None => trigger RunnableStart
  end.

Definition AddAfterCacheSync (name : string) : cprog (option gerr) :=
  e ← trigger MgrAdd;
  match e with
  | Some e => Ret (Some (EWrap "add" e))
  | None =>
      e ← trigger (AddReadyzCheck name);
      Ret (option_map (EWrap "add readiness check") e)
  end.

(** ** Nothing is served from an empty cache *)

Definition synced (h : log cans) (o : cached) : Prop := existT (WaitSynced o) true ∈ h.

Definition after_sync (h : log cans) (c : ccall) : Prop := c = RunnableStart → ∀ o, synced h o.

Lemma wp_wait_each objs : ∀ h, wp any_env after_sync h (wait_each objs)
  (λ h' r, (∀ o, synced h o → synced h' o) ∧ (r = None → ∀ o, o ∈ objs → synced h' o)).
Proof.
  induction objs as [|o objs IH]; intros h; cbn [wait_each]; [split; [done|]; by intros _ o H%elem_of_nil|].
  wp_call; [done|]. intros [e|] _; [split; [intros o' H; by right|done]|]. wp_call; [done|]. intros [] _; cbn [negb].
  - eapply wp_mono; [apply IH|]. intros h' r [Hm Hr]. split; [intros o' H; apply Hm; by do 2 right|].
    intros Hn o' [->|Hin]%elem_of_cons; [apply Hm; by left|by apply Hr].
  - split; [intros o' H; by do 2 right|done].
Qed.

(** The credential listener is bound, and the replica can turn ready, only after every cache the
    endpoint answers from has synced; a replica whose caches do not sync returns an error, or
    the context's when it was told to stop. *)
Theorem serves_from_synced_caches h' r pre a post : runs any_env afterCacheSync_Start [] h' r →
  (h' = post ++ existT RunnableStart a :: pre → ∀ o, synced pre o) ∧
  ((∀ a, existT RunnableStart a ∉ h') → r ≠ None).
Proof.
  intros Hr. assert (wp any_env after_sync [] afterCacheSync_Start (λ h' r, (∀ a, existT RunnableStart a ∉ h') → r ≠ None)) as Hw.
  { unfold afterCacheSync_Start, waitForCacheSync. apply wp_bind. eapply wp_mono; [apply wp_wait_each|]. intros h1 [e|] [_ H1].
    - wp_call; [done|]. intros [s|] _ _; done.
    - split; [intros _ [|]; apply H1; [done|by left|done|by right; left]|]. intros r' _ Hn. destruct (Hn r'). by left. }
  destruct (wp_sound _ _ _ _ _ _ _ Hw Hr) as [Hlog Hq]. split; [|exact Hq]. intros ->.
  by apply (log_ok_at after_sync [] post RunnableStart a pre Hlog); [exists pre; rewrite app_nil_r|].
Qed.

Definition sync_serve (s : unit) (c : ccall) : cans c * unit :=
  match c return cans c * unit with WaitSynced _ => (true, s) | _ => (None, s) end.
Definition sync_run := play sync_serve tt afterCacheSync_Start [].

Lemma serves_from_synced_caches_witness : length sync_run.1.2 = 5%nat ∧ ∀ o, synced (drop 1 sync_run.1.2) o.
Proof.
  split; [reflexivity|]. refine (proj1 (serves_from_synced_caches sync_run.1.2 sync_run.2 (drop 1 sync_run.1.2) None [] _) _).
  - exact (play_runs_in any_env sync_serve tt afterCacheSync_Start [] (λ _ _ _, I)).
  - reflexivity.
Defined.
