(* ===== verification/HarborConnect.v ===== *)
(** * The Harbor client's connection

    The rest of bridge/controlplane/harbor/client.go: the base path of the API, the credentials
    of a request, and how an error of the SDK becomes the text of a status condition. The
    transport and the SDK's request and response types are libraries; the SDK's decoder of
    Harbor's error document is a parameter. *)

From S2P Require Import Prelude Effects GoStrings GoStd GoTime GoPath Utf8 Naming HarborClient Api RobotSecret Contract Config AdminCreds.

Definition harborBasePath : string := "/api/v2.0".
Definition DefaultCallTimeout : Duration := 30 * Second.
Definition maxErrorBody : Z := Z.shiftl 4 10.

(** ** Construction *)

(** [NewTransport]: the default transport, or one that trusts only the certificates of a file. *)
Definition NewTransport (AppendCertsFromPEM : string → bool) (caFile : string) : vprog (option gerr) :=
  if String.eqb caFile "" then Ret None
  else
    r ← trigger (VReadFile caFile);
    Ret (match r with
         | Err e => Some (EWrap "read Harbor CA file" e)
         | Ok pem => if AppendCertsFromPEM pem then None else Some (EMsg "harbor CA file contains no PEM certificates")
         end).

(** The SDK's base path for the path of the Harbor URL. *)
Definition base_path (path : string) : string :=
  let path := TrimRight path "/" in
  if HasSuffix path harborBasePath then path else path +:+ harborBasePath.

(** [goClient]: Harbor's robot prefix, the timeout of a call, and whether its credentials are
    read for each request. *)
Record goClient := MkClient { robotPrefix : string; callTimeout : Duration; sourced : bool; basePath : string }.

Inductive Option := WithRobotPrefix (prefix : string) | WithCallTimeout (d : Duration) | WithCredentialSource.

Definition apply_option (c : goClient) (o : Option) : goClient :=
  match o with
  | WithRobotPrefix p => MkClient p (callTimeout c) (sourced c) (basePath c)
  | WithCallTimeout d => MkClient (robotPrefix c) d (sourced c) (basePath c)
  | WithCredentialSource => MkClient (robotPrefix c) (callTimeout c) true (basePath c)
  end.

(** From the path of the URL, which must not be nil. The [http.Client], which refuses redirects,
    and the runtime with its debug output off are handed to the SDK and are not in the record. *)
Definition NewClient (path : option string) (opts : list Option) : res goClient :=
  match path with
  | None => Err (EMsg "harborURL is nil")
  | Some path => Ok (foldl apply_option (MkClient DefaultRobotPrefix DefaultCallTimeout false (base_path path)) opts)
  end.

(** [sourcedBasicAuth]: the credentials of one request, and the reader's new state. *)
Definition sourcedBasicAuth (c : Config) (last : AdminCredsReader) : vprog (res (string * string) * AdminCredsReader) :=
  r ← Read c last;
  Ret (match r.1.1 with
       | Err e => (Err (EWrap "harbor credentials" e), r.1.2)
       | Ok creds => (Ok creds, r.1.2)
       end).

(** ** Error bodies *)

(** [errorBodyResponse]: the bytes kept, and the body the SDK's readers see, as a reader of the
    kept bytes followed by the rest. *)
Definition newErrorBodyResponse (status : Z) (body : string) : string * string :=
  if status >=? 300 then
    let head := slice_to body maxErrorBody in (head, head +:+ drop_str (Z.to_nat maxErrorBody) body)
  else ("", body).

(** [models.Errors]: entries may be nil. *)
Record hb_error := MkHbError { Code : string; Message : string }.
Definition payload_t : Type := list (option hb_error).

(** ** Control characters *)

(** The length of the UTF-8 sequence a string starts with, [None] when it starts with none. *)
Definition rune_width (s : string) : option nat :=
  match s with
  | EmptyString => None
  | String a s1 =>
      let x := byte_val a in
      if x <? 0x80 then Some 1%nat else
      match s1 with
      | EmptyString => None
      | String b s2 =>
          if (0xC2 <=? x) && (x <=? 0xDF) then if cont 0x80 0xBF b then Some 2%nat else None
          else match s2 with
          | EmptyString => None
          | String c s3 =>
              if (0xE0 <=? x) && (x <=? 0xEF) then if cont (lo3 x) (hi3 x) b && cont 0x80 0xBF c then Some 3%nat else None
              else match s3 with
              | EmptyString => None
              | String d _ =>
                  if (0xF0 <=? x) && (x <=? 0xF4) && cont (lo4 x) (hi4 x) b && cont 0x80 0xBF c && cont 0x80 0xBF d then Some 4%nat else None
              end
          end
      end
  end.

(** [unicode.IsControl] of the rune a string starts with: U+0000 to U+001F and U+007F to U+009F. *)
Definition starts_control (s : string) : bool :=
  match s with
  | EmptyString => false
  | String a s1 =>
      let x := byte_val a in
      (x <? 0x20) || (x =? 0x7F) || match s1 with String b _ => (x =? 0xC2) && cont 0x80 0x9F b | EmptyString => false end
  end.

Definition replacement : string := String "239" (String "191" (String "189" "")).

(** [strings.Map] of [dropControl]: [copy] and [skip] bytes of the current rune are left. An
    invalid byte becomes U+FFFD. *)
Fixpoint drop_go (copy skip : nat) (s : string) : string :=
  match s with
  | EmptyString => EmptyString
  | String a s1 =>
      match copy, skip with
      | S n, _ => String a (drop_go n 0 s1)
      | O, S n => drop_go 0 n s1
      | O, O =>
          match rune_width s with
          | Some w => if starts_control s then drop_go 0 (w - 1) s1 else String a (drop_go (w - 1) 0 s1)
          | None => replacement +:+ drop_go 0 0 s1
          end
      end
  end.
Definition dropControl (s : string) : string := drop_go 0 0 s.

(** ** Messages *)

Definition render_error (e : hb_error) : string :=
  let code := dropControl (Code e) in
  let code := if String.eqb code "" then "UNKNOWN" else code in
  let m := dropControl (Message e) in
  if negb (String.eqb m "") then code +:+ ": " +:+ m else code.

Definition renderHarborErrors (payload : option payload_t) : string :=
  match payload with
  | None => ""
  | Some errs => Join (map render_error (omap id errs)) "; "
  end.

(** An error of the SDK: a response of a type its swagger declares, with its document; another
    status, with the bytes kept of its body; or anything else, with its text. *)
Inductive sdk_error :=
| TypedError (payload : option payload_t) (text : string)
| APIError (code : Z) (head : option string)
| OtherError (text : string).

Definition formatHarborMessage (decode : string → option payload_t) (e : sdk_error) : string :=
  match e with
  | TypedError payload text => let m := renderHarborErrors payload in if negb (String.eqb m "") then m else text
  | APIError code head =>
      let msg := "unexpected status " +:+ FormatInt code +:+ " from Harbor" in
      match head with
      | None => msg
      | Some head =>
          match decode head with
          | None => msg
          | Some payload => let detail := renderHarborErrors (Some payload) in if negb (String.eqb detail "") then msg +:+ ": " +:+ detail else msg
          end
      end
  | OtherError text => text
  end.

(** ** One line *)

(** Neither a control character of ASCII nor DEL: no line break, no terminal escape. *)
Definition printable_byte (c : ascii) : bool := (0x20 <=? byte_val c) && negb (byte_val c =? 0x7F).
Definition one_line (s : string) : Prop := all_bytes printable_byte s = true.

Definition high (c : ascii) : bool := 0x80 <=? byte_val c.

Lemma high_printable c : high c = true → printable_byte c = true.
Proof. unfold high, printable_byte. lia. Qed.

Lemma cont_high lo hi c : 0x80 ≤ lo → cont lo hi c = true → high c = true.
Proof. unfold cont, high. lia. Qed.

Ltac highs := repeat match goal with H : cont _ _ ?c = true |- _ => apply cont_high in H; [|by auto] end.

Lemma rune_width_cont s w : rune_width s = Some w → all_bytes high (take_str (w - 1) (match s with String _ s => s | _ => "" end)) = true.
Proof.
  assert (∀ x, 0x80 ≤ lo3 x) as H3 by (intros x; unfold lo3; case_match; lia).
  assert (∀ x, 0x80 ≤ lo4 x) as H4 by (intros x; unfold lo4; case_match; lia).
  unfold rune_width. destruct s as [|a s1]; [done|]. cbv zeta. destruct (_ <? _); [by intros [= <-]|]. destruct s1 as [|b s2]; [done|].
  destruct (_ && _); [destruct (cont 0x80 0xBF b) eqn:Hb; [|done]; intros [= <-]; cbn; by rewrite (cont_high _ _ _ ltac:(done) Hb)|].
  destruct s2 as [|c s3]; [done|]. destruct (_ && _).
  { destruct (_ && _) eqn:Hb; [|done]. bsimpl. highs. intros [= <-]. cbn. by repeat match goal with H : high _ = true |- _ => rewrite H; clear H end. }
  destruct s3 as [|d s4]; [done|]. destruct (_ && _) eqn:Hb; [|done]. bsimpl. highs. intros [= <-]. cbn.
  by repeat match goal with H : high _ = true |- _ => rewrite H; clear H end.
Qed.

Lemma drop_go_one_line s : ∀ copy skip, all_bytes high (take_str copy s) = true → one_line (drop_go copy skip s).
Proof.
  unfold one_line. induction s as [|a s IH]; intros copy skip Hc; cbn [drop_go]; [done|].
  destruct copy as [|copy].
  - destruct skip as [|skip]; [|by apply IH]. destruct (rune_width (String a s)) as [w|] eqn:Hw.
    + destruct (starts_control (String a s)) eqn:Hs; [by apply IH|]. cbn [all_bytes]. rewrite IH by exact (rune_width_cont _ _ Hw).
      unfold starts_control in Hs. bsimpl. unfold printable_byte. lia.
    + rewrite all_bytes_app, IH by done. done.
  - cbn [take_str all_bytes] in *. apply andb_true_iff in Hc as [Ha Hc]. by rewrite (high_printable a Ha), IH.
Qed.

Lemma dropControl_one_line s : one_line (dropControl s).
Proof. by apply drop_go_one_line. Qed.

Lemma one_line_app s t : one_line s → one_line t → one_line (s +:+ t).
Proof. unfold one_line. rewrite all_bytes_app. by intros -> ->. Qed.

Lemma render_error_one_line e : one_line (render_error e).
Proof.
  unfold render_error. pose proof (dropControl_one_line (Code e)). pose proof (dropControl_one_line (Message e)).
  repeat case_match; repeat apply one_line_app; done.
Qed.

Lemma Join_one_line l sep : one_line sep → Forall one_line l → one_line (Join l sep).
Proof.
  intros Hs. induction 1 as [|x l Hx Hl IH]; [done|]. destruct l as [|y l]; [done|]. cbn [Join]. by apply one_line_app; [|apply one_line_app].
Qed.

Lemma render_one_line p : one_line (renderHarborErrors p).
Proof.
  destruct p as [errs|]; [|done]. apply Join_one_line; [done|]. apply Forall_map, Forall_forall. intros e _. apply render_error_one_line.
Qed.

Lemma FormatInt_one_line i : one_line (FormatInt i).
Proof.
  assert (∀ fuel n acc, one_line acc → one_line (format_go fuel n acc)) as H.
  { unfold one_line. induction fuel as [|fuel IH]; intros n acc Ha; [done|]. cbn [format_go]. pose proof (Z.mod_pos_bound n 10 ltac:(lia)) as Hm.
    assert (all_bytes printable_byte (String (digit (n mod 10)) acc) = true) as Hd.
    { cbn [all_bytes]. rewrite Ha. unfold printable_byte, digit, byte_val. rewrite N_ascii_embedding by lia. rewrite Z2N.id by lia. lia. }
    case_match; [done|by apply IH]. }
  unfold FormatInt. destruct (i <? 0); [|by apply H]. unfold one_line. cbn [all_bytes]. by apply andb_true_iff; split; [|apply H].
Qed.

(** What Harbor's answer puts into a status condition is one line of printable text, whatever
    Harbor, or a proxy in front of it, sent; and the SDK's readers still see the whole body, of
    which the client keeps at most [maxErrorBody] bytes. *)
Theorem harbor_message_one_line decode e status body :
  (∀ text, e ≠ OtherError text) → (∀ p text, e = TypedError p text → renderHarborErrors p ≠ "") →
  one_line (formatHarborMessage decode e) ∧
  (newErrorBodyResponse status body).2 = body ∧ len (newErrorBodyResponse status body).1 ≤ maxErrorBody.
Proof.
  intros Ho Ht. split_and!.
  - destruct e as [p text|code head|text]; [| |by destruct (Ho text)]; cbn [formatHarborMessage].
    + pose proof (Ht p text eq_refl) as Hn. apply String.eqb_neq in Hn as ->. apply render_one_line.
    + assert (one_line ("unexpected status " +:+ FormatInt code +:+ " from Harbor")) as Hm by (repeat apply one_line_app; try done; apply FormatInt_one_line).
      destruct head as [head|]; [|done]. destruct (decode head) as [p|]; [|done]. case_match; [|done].
      apply one_line_app; [done|]. apply one_line_app; [done|]. apply render_one_line.
  - unfold newErrorBodyResponse. destruct (_ >=? _); [|done]. apply take_drop_str.
  - unfold newErrorBodyResponse. destruct (_ >=? _); cbn [fst]; [|done]. rewrite len_slice by done. lia.
Qed.

Lemma harbor_message_one_line_witness :
  let e := APIError 409 (Some "doc") in
  let decode := λ _ : string, Some [Some (MkHbError "CONFLICT" (String "010" (String "027" "[2Jrobot exists")))] in
  formatHarborMessage decode e = "unexpected status 409 from Harbor: CONFLICT: [2Jrobot exists" ∧
  one_line (formatHarborMessage decode e) ∧ (newErrorBodyResponse 502 "page").2 = "page" ∧ len (newErrorBodyResponse 502 "page").1 ≤ maxErrorBody.
Proof. split; [vm_compute; reflexivity|]. apply harbor_message_one_line; by intros. Defined.

(** The base path is Harbor's API root once, also for a URL that already has it. *)
Lemma base_path_idem path : base_path (base_path path) = base_path path.
Proof.
  unfold base_path. set (p := TrimRight path "/"). cbv zeta.
  assert (∀ q, HasSuffix q harborBasePath = true → TrimRight q "/" = q) as Ht.
  { intros q [u ->]%HasSuffix_spec. induction u as [|a u IH]; [done|]. rewrite app_cons. cbn [TrimRight].
    rewrite all_bytes_app, IH. by rewrite !andb_false_r. }
  destruct (HasSuffix p harborBasePath) eqn:E; [by rewrite (Ht p E), E|].
  rewrite Ht by apply HasSuffix_app. by rewrite HasSuffix_app.
Qed.
