(* ===== verification/Main.v ===== *)
(** * The bridge's process

    bridge/cmd/main.go: the settings it reads itself, and [run], which loads the configuration,
    builds every part of the bridge and starts the manager. The manager, the scheme and the
    registry are controller-runtime's: calls that succeed or fail. [Wiring] models how the
    configuration reaches the validator and the handler. *)

From S2P Require Import Prelude Effects GoStrings GoStd GoTime GoDuration Naming HarborClient Api RobotSecret Contract Config ConfigLoad.
From S2P Require Import Kube Reconciler ReconcilerSpec ReconcilerProofs ReconcilerProps RateLimit KeySet Json DataPlane Oidc Handler HandlerProps Wiring.
From S2P Require Import OidcClient Server GoPath AdminCreds CacheSync HarborConnect.

(** ** The settings *)

Definition envTLSCertFile : string := "BRIDGE_TLS_CERT_FILE".
Definition envTLSKeyFile : string := "BRIDGE_TLS_KEY_FILE".
Definition envTLSClientCAFile : string := "BRIDGE_TLS_CLIENT_CA_FILE".
Definition envListenAddr : string := "BRIDGE_LISTEN_ADDR".
Definition envHealthAddr : string := "BRIDGE_HEALTH_ADDR".
Definition envMetricsAddr : string := "BRIDGE_METRICS_ADDR".
Definition envEnableLeaderElec : string := "BRIDGE_ENABLE_LEADER_ELECTION".
Definition envRateLimit : string := "BRIDGE_RATE_LIMIT_PER_SOURCE".
Definition envRateLimitBurst : string := "BRIDGE_RATE_LIMIT_BURST".
Definition envShutdownDelay : string := "BRIDGE_SHUTDOWN_DELAY".

Definition defaultTLSCertFile : string := "/etc/bridge/tls/tls.crt".
Definition defaultTLSKeyFile : string := "/etc/bridge/tls/tls.key".
Definition defaultListenAddr : string := ":8443".
Definition defaultHealthAddr : string := ":8081".
Definition defaultMetricsAddr : string := ":8080".
Definition leaderElectionID : string := "bridge.harbor.aetherize.io".
Definition defaultRateBurst : Z := 100.
Definition defaultShutdownDelay : Duration := 5 * Second.
Definition gracefulShutdownTimeout : Duration := 30 * Second.
Definition serverShutdownTimeout : Duration := 10 * Second.
Definition leaderStopBudget : Duration := 5 * Second.
Definition maxShutdownDelay : Duration := gracefulShutdownTimeout - serverShutdownTimeout - leaderStopBudget.
Definition kubeletTokenLifetime : Duration := Hour.

Section Settings.
Context (getenv : string → string).

Definition envOrDefault (key def : string) : string := if negb (String.eqb (getenv key) "") then getenv key else def.

Definition serverConfig (handler : bool) (shutdownDelay : Duration) : ServerConfig :=
  MkServerConfig (envOrDefault envListenAddr defaultListenAddr) (envOrDefault envTLSCertFile defaultTLSCertFile)
    (envOrDefault envTLSKeyFile defaultTLSKeyFile) (getenv envTLSClientCAFile) handler serverShutdownTimeout shutdownDelay 0.

(** The manager's [Options], without the scheme. *)
Record Options := MkOptions {
  GracefulShutdownTimeout : Duration; MetricsAddr : string; LeaderElection : bool; LeaderElectionID : string;
  LeaderElectionNamespace : string; ReleaseOnCancel : bool; HealthProbeBindAddress : string; CacheByObject : cached → ByObject
}.

Definition managerOptions (cfg : Config) (leaderElection : bool) : Options :=
  MkOptions gracefulShutdownTimeout (envOrDefault envMetricsAddr defaultMetricsAddr) leaderElection leaderElectionID (CfgNamespace cfg)
    true (envOrDefault envHealthAddr defaultHealthAddr) (CacheOptions cfg).

Definition shutdownDelayFromEnv : res Duration :=
  let raw := TrimSpace (getenv envShutdownDelay) in
  if String.eqb raw "" then Ok defaultShutdownDelay
  else
    let bad := Err (EMsg (envShutdownDelay +:+ " must be a duration within the grace period")) in
    match ParseDuration raw with
    | Err _ => bad
    | Ok d => if (d <? 0) || (d >? maxShutdownDelay) then bad else Ok d
    end.

Definition leaderElectionFromEnv : res bool :=
  let raw := TrimSpace (getenv envEnableLeaderElec) in
  if String.eqb raw "" then Ok false
  else if String.eqb raw "yes" then Ok true
  else if String.eqb raw "no" then Ok false
  else match ParseBool raw with
  | Some v => Ok v
  | None => Err (EMsg (envEnableLeaderElec +:+ " must be true or false"))
  end.

Section Rate.
(** [float64] with [strconv.ParseFloat], its test against zero, and the default of 20. *)
Context {rate : Type} (ParseFloat : string → option rate) (negative : rate → bool) (defaultRateLimit : rate).

Definition rateLimitFromEnv : res (rate * Z) :=
  let raw := getenv envRateLimit in
  match (if String.eqb raw "" then Some defaultRateLimit
         else match ParseFloat raw with Some v => if negative v then None else Some v | None => None end) with
  | None => Err (EMsg (envRateLimit +:+ " must be a non-negative number of requests per second"))
  | Some perSource =>
      let raw := getenv envRateLimitBurst in
      if String.eqb raw "" then Ok (perSource, defaultRateBurst)
      else match ParseInt raw with
      | Some v => if v <? 1 then Err (EMsg (envRateLimitBurst +:+ " must be a positive integer")) else Ok (perSource, v)
      | None => Err (EMsg (envRateLimitBurst +:+ " must be a positive integer"))
      end
  end.
End Rate.
End Settings.

(** The variables [logWeakTokenValidation] warns about. *)
Definition logWeakTokenValidation (vc : ValidatorConfig) : list string :=
  (if VAllowNonPodBoundTokens vc then [EnvRequirePodBoundToken] else []) ++
  (if VMaxTokenLifetime vc <? kubeletTokenLifetime then [EnvTokenMaxLifetime] else []).

(** ** The server's shutdown fits the pod's grace period *)

Lemma shutdownDelay_bounds getenv d : shutdownDelayFromEnv getenv = Ok d → 0 ≤ d ≤ maxShutdownDelay.
Proof.
  unfold shutdownDelayFromEnv. destruct (String.eqb _ ""); [by intros [= <-]|]. destruct (ParseDuration _) as [v|]; [|done].
  destruct (Z.ltb_spec v 0); [done|]. destruct (Z.gtb_spec v maxShutdownDelay); [done|]. by intros [= <-].
Qed.

Lemma NewServer_config {pool} (parse : string → option pool) cfg keypair read s : NewServer parse cfg keypair read = Ok s → s_cfg s = with_defaults cfg.
Proof. unfold NewServer. repeat case_match; by intros [= <-]. Qed.

(** C31: Whatever delay the environment asks for, once the process is told to stop, the credential
    listener's [Start] always comes back, and early enough that the manager still has its
    budget for the reconciler and the janitor before kubelet kills the process. *)
Theorem shutdown_within_grace {pool} (parse : string → option pool) getenv d keypair read s t0 st tc :
  shutdownDelayFromEnv getenv = Ok d → NewServer parse (serverConfig getenv true d) keypair read = Ok s →
  reachable (ShutdownDelay (s_cfg s)) (ShutdownTimeout (s_cfg s)) t0 st → r_cancelled st = Some tc →
  (∃ st', rtc (step (ShutdownDelay (s_cfg s)) (ShutdownTimeout (s_cfg s))) st st' ∧ is_done st' = true) ∧
  (∀ r t, r_pc st = PDone r t → t + leaderStopBudget ≤ tc + gracefulShutdownTimeout) ∧
  (is_done st = false → r_now st + leaderStopBudget ≤ tc + gracefulShutdownTimeout).
Proof.
  intros Hd%shutdownDelay_bounds Hs%NewServer_config. rewrite Hs. cbn [with_defaults serverConfig ShutdownDelay ShutdownTimeout].
  change (serverShutdownTimeout <=? 0) with false. cbv iota. intros Hr Hc.
  destruct (finished_by d serverShutdownTimeout ltac:(done) t0 st tc Hr Hc) as (H1 & H2 & H3).
  unfold D, maxShutdownDelay, gracefulShutdownTimeout, leaderStopBudget, serverShutdownTimeout in *.
  split_and!; [done|intros r t Hp; specialize (H2 r t Hp); lia|intros Hn; specialize (H3 Hn); lia].
Qed.

(** The default delay, and the shutdown of [Server]. *)
Definition no_env (k : string) : string := "".

Lemma shutdown_within_grace_witness : r_cancelled stopped = Some Minute ∧
  r_now stopped + leaderStopBudget ≤ Minute + gracefulShutdownTimeout.
Proof.
  split; [reflexivity|].
  refine (proj2 (proj2 (shutdown_within_grace toy_pem no_env (5 * Second) None (Err (EMsg "")) (MkServer (with_defaults (serverConfig no_env true (5 * Second))) None)
    0 stopped Minute eq_refl eq_refl stopped_reachable eq_refl)) eq_refl).
Defined.

(** ** [run] *)

(** What [run] hands to the manager: the configuration, the admin credentials it first read,
    the Harbor client, the validator, the server, the rate limit, the shutdown delay and leader election. *)
Record assembled (rate pool : Type) := MkAssembled {
  a_cfg : Config; a_admin : string * string; a_harbor : goClient; a_validator : validatorParts; a_server : Server (pool := pool);
  a_rate : rate * Z; a_delay : Duration; a_leader : bool
}.
Arguments MkAssembled {rate pool} _ _ _ _ _ _ _ _.
Arguments a_cfg {rate pool} _.
Arguments a_admin {rate pool} _.
Arguments a_harbor {rate pool} _.
Arguments a_validator {rate pool} _.
Arguments a_server {rate pool} _.
Arguments a_rate {rate pool} _.
Arguments a_delay {rate pool} _.
Arguments a_leader {rate pool} _.

Section Run.
Context {rate pool key : Type}.

(** The files of the Secret volume and of token validation, controller-runtime's set-up, and
    the start of the manager. *)
Inductive bcall :=
| BVolume (c : vcall)
| BOidc (c : ocall)
| BGetConfig
| BAddToScheme
| BNewManager (opts : Options)
| BAddHealthzCheck
| BSetupReconciler
| BAddJanitor
| BIndexBySubject
| BLoadKeyPair (cert key : string)
| BReadClientCA (path : string)
| BCache (c : ccall)
| BStart (b : assembled rate pool).

Definition bans (c : bcall) : Type :=
  match c with
  | BVolume c => vans c
  | BOidc c => oans c
  | BCache c => cans c
  | BReadClientCA _ => res string
  | _ => option gerr
  end.

Notation bprog := (prog bans).

Definition volume {A} (p : prog vans A) : bprog A := translate BVolume (λ _ r, r) p.
Definition oidc {A} (p : prog oans A) : bprog A := translate BOidc (λ _ r, r) p.

Definition caches {A} (p : prog cans A) : bprog A := translate BCache (λ _ r, r) p.

Definition must (c : bcall) (as_error : bans c → option gerr) (m : string) (k : bprog (option gerr)) : bprog (option gerr) :=
  r ← trigger c; match as_error r with Some e => Ret (Some (EWrap m e)) | None => k end.

Definition try {A} (p : bprog (res A)) (m : string) (k : A → bprog (option gerr)) : bprog (option gerr) :=
  r ← p; match r with Err e => Ret (Some (EWrap m e)) | Ok a => k a end.

(** A step whose error [run] returns as it is. *)
Definition pass {A} (p : bprog (res A)) (k : A → bprog (option gerr)) : bprog (option gerr) :=
  r ← p; match r with Err e => Ret (Some e) | Ok a => k a end.

Context (getenv : string → string).
Context (ParseURL : string → res URL) (Resolve : URL → string → res URL) (ParseSelector : string → res Selector) (ParseIP : string → option bool) (serviceHost : string).
Context (discovery_url : string → URL) (discovered : string → jwks_response → res (string * list string)).
Context (IsPublic : key → bool) (decodeJWKS : string → res (list key)) (parsePEM : string → option pool).
Context (ParseFloat : string → option rate) (negative : rate → bool) (defaultRateLimit : rate).
(** The [Path] of a URL. *)
Context (url_path : URL → string).

(** Whether a file holds certificates. *)
Definition certs (pem : string) : bool := bool_decide (is_Some (parsePEM pem)).

(** [newHarborClient]: the credentials it reads first, and the client, which reads them again
    for each request. *)
Definition newHarborClient (cfg : Config) : bprog (res (string * string * goClient)) :=
  r ← volume (Read cfg NewAdminCredsReader);
  match r.1.1 with
  | Err e => Ret (Err (EWrap "load admin creds" e))
  | Ok creds =>
      e ← volume (NewTransport certs (HarborCAFile cfg));
      Ret (match e with
           | Some e => Err (EWrap "build harbor transport" e)
           | None =>
               match NewClient (Some (url_path (HarborURL cfg))) [WithRobotPrefix (HarborRobotPrefix cfg); WithCredentialSource] with
               | Err e => Err (EWrap "build harbor client" e)
               | Ok c => Ok (creds, c)
               end
           end)
  end.

(** [NewServer], with its reads. *)
Definition newServer (cfg : ServerConfig) : bprog (res Server) :=
  if negb (has_handler cfg) || String.eqb (CertFile cfg) "" || String.eqb (KeyFile cfg) "" then Ret (NewServer parsePEM cfg None (Ok ""))
  else
    k ← trigger (BLoadKeyPair (CertFile cfg) (KeyFile cfg));
    match k with
    | Some e => Ret (NewServer parsePEM cfg (Some e) (Ok ""))
    | None =>
        if String.eqb (ClientCAFile cfg) "" then Ret (NewServer parsePEM cfg None (Ok ""))
        else r ← trigger (BReadClientCA (ClientCAFile cfg)); Ret (NewServer parsePEM cfg None r)
    end.

Definition run : bprog (option gerr) :=
  match LoadFromEnv ParseURL ParseSelector getenv with
  | Err e => Ret (Some e)
  | Ok cfg =>
      let validatorCfg := validatorConfig cfg in
      must BGetConfig id "get rest config" (
      must BAddToScheme id "build scheme" (
      match leaderElectionFromEnv getenv with
      | Err e => Ret (Some e)
      | Ok leaderElection =>
          match shutdownDelayFromEnv getenv with
          | Err e => Ret (Some e)
          | Ok shutdownDelay =>
              must (BNewManager (managerOptions getenv cfg leaderElection)) id "build manager" (
              must BAddHealthzCheck id "add healthz" (
              pass (newHarborClient cfg) (λ harbor,
              must BSetupReconciler id "setup reconciler" (
              must BAddJanitor id "add janitor" (
              try (oidc (NewOIDCHTTPClient certs (OIDCCAFile cfg) (OIDCTokenFile cfg))) "build oidc http client" (λ httpClient,
              try (oidc (NewValidator ParseURL Resolve ParseIP serviceHost discovery_url discovered certs IsPublic decodeJWKS validatorCfg (Some httpClient)))
                "build oidc validator" (λ validator,
              pass (Ret (rateLimitFromEnv getenv ParseFloat negative defaultRateLimit)) (λ limit,
              must BIndexBySubject id "index HarborAccess by subject" (
              try (newServer (serverConfig getenv true shutdownDelay)) "build server" (λ server,
              added ← caches (AddAfterCacheSync "dataplane");
              match added with
              | Some e => Ret (Some e)
              | None =>
                  must (BStart (MkAssembled cfg harbor.1 harbor.2 validator server limit shutdownDelay leaderElection)) id "manager exited with error" (Ret None)
              end))))))))))
          end
      end))
  end.

(** *** Nothing starts unchecked *)

Definition oidc_view (e : event bans) : option (event oans) :=
  match e with existT (BOidc c) r => Some (existT c r) | _ => None end.
Definition volume_view (e : event bans) : option (event vans) :=
  match e with existT (BVolume c) r => Some (existT c r) | _ => None end.

Definition cache_view (e : event bans) : option (event cans) :=
  match e with existT (BCache c) r => Some (existT c r) | _ => None end.

Definition keys_fetched (h : log bans) (u : URL) : Prop := fetched IsPublic decodeJWKS (part_log oidc_view h) u.

(** The answer of a step that sets something up is a success. *)
Definition setup_ok (e : event bans) : Prop :=
  match e with
  | existT c r =>
      match c return bans c → Prop with
      | BGetConfig | BAddToScheme | BNewManager _ | BAddHealthzCheck | BSetupReconciler | BAddJanitor | BIndexBySubject
      | BLoadKeyPair _ _ => λ r, r = None
      | BReadClientCA _ => λ r, is_ok r = true
      | BCache MgrAdd => λ r, r = None
      | BCache (AddReadyzCheck _) => λ r, r = None
      | _ => λ _, True
      end r
  end.

(** The steps every start has behind it. *)
Definition setup_steps (b : assembled rate pool) : list bcall :=
  [BGetConfig; BAddToScheme; BNewManager (managerOptions getenv (a_cfg b) (a_leader b)); BAddHealthzCheck; BSetupReconciler;
   BAddJanitor; BIndexBySubject; BLoadKeyPair (envOrDefault getenv envTLSCertFile defaultTLSCertFile) (envOrDefault getenv envTLSKeyFile defaultTLSKeyFile);
   BCache MgrAdd; BCache (AddReadyzCheck "dataplane")].

Definition called (h : log bans) (c : bcall) : Prop := ∃ r, existT c r ∈ h.

(** What holds of the parts when the manager starts. *)
Record checked (h : log bans) (b : assembled rate pool) : Prop := {
  ck_config : LoadFromEnv ParseURL ParseSelector getenv = Ok (a_cfg b);
  ck_setup : Forall setup_ok h ∧ Forall (called h) (setup_steps b);
  ck_admin : (a_admin b).1 ≠ "" ∧ (a_admin b).2 ≠ "";
  ck_harbor : a_harbor b = MkClient (HarborRobotPrefix (a_cfg b)) DefaultCallTimeout true (base_path (url_path (HarborURL (a_cfg b))));
  ck_policy : vp_policy (a_validator b) = validator_of (validatorConfig (a_cfg b));
  ck_keys : secure ParseIP (vp_jwks (a_validator b)) ∧ keys_fetched h (vp_jwks (a_validator b));
  ck_server : s_cfg (a_server b) = with_defaults (serverConfig getenv true (a_delay b));
  ck_mtls : getenv envTLSClientCAFile ≠ "" → ∃ ca, s_ca (a_server b) = Some ca ∧ ca_pool ca ≠ None;
  ck_delay : 0 ≤ a_delay b ≤ maxShutdownDelay;
  ck_leader : leaderElectionFromEnv getenv = Ok (a_leader b)
}.

Definition start_checked (h : log bans) (c : bcall) : Prop := match c with BStart b => checked h b | _ => True end.

(** The process ends with an error, or having started the manager. *)
Definition ends (h : log bans) (r : option gerr) : Prop := is_Some r ∨ ∃ b a pre, h = existT (BStart b) a :: pre.

Notation bwp := (wp any_env start_checked).

(** Only steps that succeeded were taken. *)
Definition grown (h h' : log bans) : Prop := ∃ l, h' = l ++ h ∧ Forall setup_ok l.

Lemma grown_refl h : grown h h.
Proof. by exists []. Qed.
Lemma grown_trans h1 h2 h3 : grown h1 h2 → grown h2 h3 → grown h1 h3.
Proof. intros (l & -> & Hl) (l' & -> & Hl'). exists (l' ++ l). rewrite app_assoc. split; [done|]. by apply Forall_app. Qed.
Lemma grown_step h c r : setup_ok (existT c r) → grown h (existT c r :: h).
Proof. intros Hr. exists [existT c r]. split; [done|]. by constructor. Qed.
Lemma grown_next h h' c r : grown h h' → setup_ok (existT c r) → grown h (existT c r :: h').
Proof. intros Hg Hr. eapply grown_trans; [exact Hg|]. by apply grown_step. Qed.
Lemma called_here h c r : called (existT c r :: h) c.
Proof. exists r. left. Qed.
Lemma called_later h h' c : grown h h' → called h c → called h' c.
Proof. intros (l & -> & _) [r Hr]. exists r. apply elem_of_app. by right. Qed.

Lemma wp_must h c m k : start_checked h c → (bans c = option gerr) → ∀ (f : bans c → option gerr),
  (∀ r, f r = None → setup_ok (existT c r)) →
  (∀ r, setup_ok (existT c r) → grown h (existT c r :: h) → bwp (existT c r :: h) k ends) → bwp h (must c f m k) ends.
Proof.
  intros Hc _ f Hf Hk. unfold must. wp_call; [done|]. intros r _. destruct (f r) eqn:E; [by left|].
  apply Hk; [by apply Hf|by apply grown_step, Hf].
Qed.

Lemma wp_attempt {A} h (p : bprog (res A)) m k Q : bwp h p Q → (∀ h' a, Q h' (Ok a) → bwp h' (k a) ends) →
  bwp h (try p m k) ends.
Proof. intros Hp Hk. unfold try. apply wp_bind. eapply wp_mono; [exact Hp|]. intros h' [a|e] H; [by apply Hk|by left]. Qed.

Lemma wp_pass {A} h (p : bprog (res A)) k Q : bwp h p Q → (∀ h' a, Q h' (Ok a) → bwp h' (k a) ends) →
  bwp h (pass p k) ends.
Proof. intros Hp Hk. unfold pass. apply wp_bind. eapply wp_mono; [exact Hp|]. intros h' [a|e] H; [by apply Hk|by left]. Qed.

(** A part's steps are not set-up steps. *)
Lemma wp_part {call1} {ans1 : call1 → Type} (inj : call1 → bcall) (back : ∀ c, bans (inj c) → ans1 c) {A} (p : prog ans1 A) h :
  (∀ c r, setup_ok (existT (inj c) r)) → wp any_env (λ _ _, True) h (translate inj back p) (λ h' _, grown h h').
Proof.
  intros Hok. revert h. induction p as [a|c k IH]; intros h; cbn [translate wp]; [apply grown_refl|]. split; [done|]. intros r _.
  eapply wp_mono; [apply IH|]. intros h' a Hg. eapply grown_trans; [|exact Hg]; by apply grown_step.
Qed.

Lemma wp_oidc {A} h (p : prog oans A) Q : wp any_env (λ _ _, True) (part_log oidc_view h) p Q →
  bwp h (oidc p) (λ h' a, grown h h' ∧ Q (part_log oidc_view h') a).
Proof.
  intros Hp. eapply wp_weaken; [|eapply wp_mono; [apply wp_conj; [apply (wp_part BOidc (λ _ r, r)); done|
    apply (wp_translate BOidc (λ _ r, r) oidc_view (λ _ _, eq_refl) start_checked); [done..|exact Hp]]|]].
  - by intros h' c [_ ?].
  - intros h' a (? & _ & ?). done.
Qed.

Lemma wp_volume {A} h (p : prog vans A) Q : wp any_env (λ _ _, True) (part_log volume_view h) p Q →
  bwp h (volume p) (λ h' a, grown h h' ∧ Q (part_log volume_view h') a).
Proof.
  intros Hp. eapply wp_weaken; [|eapply wp_mono; [apply wp_conj; [apply (wp_part BVolume (λ _ r, r)); done|
    apply (wp_translate BVolume (λ _ r, r) volume_view (λ _ _, eq_refl) start_checked); [done..|exact Hp]]|]].
  - by intros h' c [_ ?].
  - intros h' a (? & _ & ?). done.
Qed.

Lemma keys_fetched_later h h' u : grown h h' → keys_fetched h u → keys_fetched h' u.
Proof.
  intros (l & -> & _) (auth & a & ks & Hin & Hf). exists auth, a, ks. split; [|done]. unfold part_log in *. rewrite omap_app. apply elem_of_app. by right.
Qed.

(** The credentials read are never empty. *)
Lemma wp_Read_nonempty h cfg last :
  wp any_env (λ _ _, True) h (Read cfg last) (λ _ r, ∀ u p, r.1.1 = Ok (u, p) → u ≠ "" ∧ p ≠ "").
Proof.
  assert (∀ h path, wp any_env (λ _ _, True) h (readSecretFile path) (λ _ r, ∀ s, r = Ok s → s ≠ "")) as Hf.
  { clear. intros h path. unfold readSecretFile. wp_call; [done|]. intros [d|e] _; [|done]. cbv zeta.
    destruct (String.eqb_spec (TrimRight d line_ends) ""); [done|]. by intros s [= <-]. }
  assert (∀ h dir, wp any_env (λ _ _, True) h (readAdminCredsFrom dir) (λ _ r, ∀ c, r = Ok c → Username c ≠ "" ∧ Password c ≠ "")) as Hd.
  { clear - Hf. intros h dir. unfold readAdminCredsFrom. apply wp_bind. eapply wp_mono; [apply Hf|]. intros h1 [u|e] Hu; [|done].
    apply wp_bind. eapply wp_mono; [apply Hf|]. intros h2 [p|e] Hp; [|done]. intros c [= <-]. split; [by apply Hu|by apply Hp]. }
  unfold Read, LoadAdminCreds, readAdminCredsDir. apply wp_bind.
  eapply (wp_mono _ _ _ _ (λ _ r, ∀ c, r = Ok c → Username c ≠ "" ∧ Password c ≠ "")); [|intros h' [c|e] Hc u p; [intros [= <- <-]; by apply Hc|done]].
  generalize adminCredsReadAttempts, (EMsg "") as err. intros n err. revert h err. induction n as [|n IH]; intros h err; cbn [read_attempts]; [done|].
  apply wp_bind. eapply wp_mono; [apply wp_true|]. intros h1 [[b g]|e] _; [|apply IH]. apply wp_bind. eapply wp_mono; [apply Hd|].
  intros h2 [c|e] Hc; [exact Hc|]. apply wp_bind. eapply wp_mono; [apply wp_true|]. intros h3 [[b' g']|e'] _; [|apply IH].
  destruct (String.eqb _ _); [done|apply IH].
Qed.

Lemma wp_newHarborClient h cfg : bwp h (newHarborClient cfg) (λ h' r, grown h h' ∧ ∀ c, r = Ok c → (c.1.1 ≠ "" ∧ c.1.2 ≠ "") ∧
  c.2 = MkClient (HarborRobotPrefix cfg) DefaultCallTimeout true (base_path (url_path (HarborURL cfg)))).
Proof.
  unfold newHarborClient. apply wp_bind. eapply wp_mono; [apply wp_volume, wp_Read_nonempty|]. intros h1 r [Hg Hr].
  destruct r.1.1 as [[u p]|e]; [|done]. apply wp_bind. eapply wp_mono; [apply wp_volume, wp_true|]. intros h2 [e|] [Hg2 _]; (split; [by eapply grown_trans|]); [done|].
  intros c [= <-]. split; [by apply Hr|done].
Qed.

(** A server comes with its key pair, and with its client CA when one is configured. *)
Lemma wp_newServer h cfg : bwp h (newServer cfg) (λ h' r, ∀ s, r = Ok s → grown h h' ∧ called h' (BLoadKeyPair (CertFile cfg) (KeyFile cfg)) ∧
  s_cfg s = with_defaults cfg ∧ (ClientCAFile cfg ≠ "" → ∃ ca, s_ca s = Some ca ∧ ca_pool ca ≠ None)).
Proof.
  assert (∀ read s, NewServer parsePEM cfg None read = Ok s → s_cfg s = with_defaults cfg ∧
    (ClientCAFile cfg ≠ "" → is_ok read = true ∧ ∃ ca, s_ca s = Some ca ∧ ca_pool ca ≠ None)) as Hn.
  { intros read s Hs. split; [by eapply NewServer_config|]. intros Hc. unfold NewServer in Hs.
    destruct (negb _); [done|]. destruct (_ || _); [done|].
    change (ClientCAFile (with_defaults cfg)) with (ClientCAFile cfg) in Hs. apply String.eqb_neq in Hc as Hc'. rewrite Hc' in Hs.
    destruct read as [raw|]; [|done]. cbn [reload empty_bundle ca_pool] in Hs. rewrite bool_decide_eq_false_2 in Hs by by intros [].
    cbn [andb] in Hs. destruct (parsePEM raw) as [q|]; [|done]. injection Hs as <-. split; [done|]. by eexists. }
  unfold newServer. destruct (negb (has_handler cfg) || _ || _) eqn:E.
  { intros s Hs. exfalso. unfold NewServer in Hs. destruct (has_handler cfg); simpl in E; [|done]. by rewrite E in Hs. }
  wp_call; [done|]. intros [e|] _.
  { intros s Hs. exfalso. unfold NewServer in Hs. by do 2 (case_match; [done|]). }
  destruct (String.eqb_spec (ClientCAFile cfg) "") as [Hc|Hc].
  - intros s [Hs1 _]%Hn. split_and!; [by apply grown_step|by apply called_here|done..].
  - wp_call; [done|]. intros r _ s [Hs1 Hs2]%Hn. destruct (Hs2 Hc) as [Hr Hs3].
    split_and!; [|eexists; by right; left|done..]. apply grown_next; [by apply grown_step|done].
Qed.

Context (discovery_fails : ∀ issuer e, is_ok (discovered issuer (DoFailed e)) = false).

Lemma wp_validator h cfg c : fresh_client c →
  bwp h (oidc (NewValidator ParseURL Resolve ParseIP serviceHost discovery_url discovered certs IsPublic decodeJWKS cfg (Some c)))
    (λ h' r, grown h h' ∧ ∀ v, r = Ok v → secure ParseIP (vp_jwks v) ∧
      vp_policy v = validator_of cfg ∧ keys_fetched h' (vp_jwks v)).
Proof.
  intros Hc. eapply wp_mono; [apply wp_oidc; eapply wp_weaken; [|apply wp_NewValidator; [exact discovery_fails|]]|].
  - done.
  - by intros x [= <-].
  - intros h' r [Hl Hv]. split; [exact Hl|]. intros v Hr. destruct (Hv v Hr) as (_ & ? & ? & ?). done.
Qed.

Lemma wp_AddAfterCacheSync h name : bwp h (caches (AddAfterCacheSync name))
  (λ h' r, r = None → grown h h' ∧ called h' (BCache MgrAdd) ∧ called h' (BCache (AddReadyzCheck name))).
Proof.
  change (bwp h (translate BCache (λ _ r, r) (AddAfterCacheSync name)) (λ h' r, r = None → grown h h' ∧ called h' (BCache MgrAdd) ∧ called h' (BCache (AddReadyzCheck name)))).
  cbn. split; [done|]. intros [e|] _; cbn; [done|]. split; [done|]. intros [e|] _; cbn; [done|]. intros _.
  split_and!; [|eexists; by right; left|by apply called_here]. apply grown_next; [by apply grown_step|done].
Qed.

(** A step of [run] that must not fail. *)
Ltac must_step r Hr Hg := apply wp_must; [done|done|by intros []|]; intros r Hr Hg.

Lemma wp_assembly : bwp [] run ends.
Proof.
  unfold run. destruct (LoadFromEnv _ _ _) as [cfg|] eqn:Hcfg; [|by left]. cbv zeta.
  must_step r0 H0 G0. must_step r1 H1 G1.
  destruct (leaderElectionFromEnv getenv) as [leader|] eqn:Hlead; [|by left]. destruct (shutdownDelayFromEnv getenv) as [d|] eqn:Hd; [|by left].
  must_step r2 H2 G2. must_step r3 H3 G3.
  eapply wp_pass; [apply wp_newHarborClient|]. intros h1 harbor [G4 Hadm]. destruct (Hadm harbor eq_refl) as [Hadm1 Hharbor]. clear Hadm.
  must_step r4 H4 G5. must_step r5 H5 G6.
  eapply wp_attempt; [apply wp_oidc, (wp_fresh_client certs (λ _ _, True)); done|]. intros h2 client [G7 Hclient].
  eapply wp_attempt; [apply wp_validator; by apply Hclient|]. intros h3 v [G8 Hv]. destruct (Hv v eq_refl) as (Htls & Hpol & Hkeys).
  apply (wp_pass _ (Ret _) _ (λ h' _, h' = h3)); [done|]. intros h4 limit ->.
  must_step r6 H6 G9. eapply wp_attempt; [apply wp_newServer|]. intros h5 server Hsrv.
  destruct (Hsrv server eq_refl) as (G10 & Hpair & Hscfg & Hmtls). clear Hsrv.
  apply wp_bind. eapply wp_mono; [apply wp_AddAfterCacheSync|]. intros h6 [e|] Hadd; [by left|]. destruct (Hadd eq_refl) as (G11 & Hc1 & Hc2).
  unfold must. wp_call; [|intros [e|] _; [by left|by right; eexists _, _, _]].
  pose proof (grown_trans _ _ _ G10 G11) as K10. pose proof (grown_trans _ _ _ G9 K10) as K9. pose proof (grown_trans _ _ _ G8 K9) as K8.
  pose proof (grown_trans _ _ _ G7 K8) as K7. pose proof (grown_trans _ _ _ G6 K7) as K6. pose proof (grown_trans _ _ _ G5 K6) as K5.
  pose proof (grown_trans _ _ _ G4 K5) as K4. pose proof (grown_trans _ _ _ G3 K4) as K3. pose proof (grown_trans _ _ _ G2 K3) as K2.
  pose proof (grown_trans _ _ _ G1 K2) as K1. pose proof (grown_trans _ _ _ G0 K1) as K0.
  split; cbn [a_cfg a_admin a_harbor a_validator a_server a_delay a_leader]; try done.
  - split; [destruct K0 as (l & -> & Hall); by rewrite app_nil_r|]. unfold setup_steps; cbn [a_cfg a_leader].
    repeat apply Forall_cons_2; [..|done]; try (eapply called_later; [|apply called_here]; eassumption); try done.
    by apply (called_later h5).
  - split; [done|]. exact (keys_fetched_later _ _ _ K9 Hkeys).
  - by apply (shutdownDelay_bounds getenv).
Qed.

(** C13: The manager starts, and with it the reconciler, the janitor and the credential listener,
    only when everything they rely on was checked: the configuration loads and is serviceable;
    the steps that set up the manager, its health check, the reconciler, the janitor, the subject
    index, the server's key pair and the listener behind its readiness check have all been taken,
    and none of them nor the read of the client CA has failed; the admin credentials could be read;
    the Harbor client has the configured prefix and reads its credentials anew for each request;
    signing keys were fetched over a link nobody can tamper with; the validator enforces the
    configured policy; the server has, with client certificates, a CA to check them against; and
    its shutdown fits the grace period. A process that does not start the manager ends with an
    error. *)
Theorem started_checked h' r :
  runs any_env run [] h' r →
  (∀ pre b a post, h' = post ++ existT (BStart b) a :: pre → checked pre b ∧ serviceable (a_cfg b)) ∧
  ((∀ b a, existT (BStart b) a ∉ h') → is_Some r).
Proof.
  intros Hr. destruct (wp_sound _ _ _ _ _ _ _ wp_assembly Hr) as [Hok Hend]. split.
  - intros pre b a post ->. assert (checked pre b) as Hc.
    { refine (log_ok_at start_checked [] post (BStart b) a pre Hok _). exists pre. by rewrite app_nil_r. }
    split; [done|]. exact (LoadFromEnv_serviceable _ _ _ _ (ck_config _ _ Hc)).
  - intros Hn. destruct Hend as [|(b & a & pre & ->)]; [done|]. exfalso. apply (Hn b a). left.
Qed.
End Run.

(** ** A start *)

Definition boot_env (k : string) : string :=
  if String.eqb k EnvOIDCTokenFile then "/token" else if String.eqb k EnvOIDCJWKSURL then ""
  else if String.eqb k EnvOIDCIssuer then "https://kubernetes.default.svc" else if String.eqb k envShutdownDelay then "10s"
  else if String.eqb k envEnableLeaderElec then "yes" else if String.eqb k envTLSClientCAFile then "/ca" else toy_env "" k.

Definition boot_serve (s : nat) (c : bcall (rate := Z) (pool := string)) : bans c * nat :=
  match c return bans c * nat with
  | BVolume (VReadlink _) => (Ok "..v1", s)
  | BVolume (VReadFile p) => (Ok (Base p), s)
  | BOidc c => cluster_serve s c
  | BCache c => ((sync_serve tt c).1, s)
  | BReadClientCA _ => (Ok "-ca", s)
  | _ => (None, s)
  end.

Definition boot : prog (bans (rate := Z) (pool := string)) (option gerr) :=
  run (key := string) boot_env plain_url (λ _, plain_url) no_selector (λ _, None) "" well_known names_keys (λ _, true) (λ s, Ok [s]) toy_pem
    ParseInt (λ r, r <? 0) 20 (λ _, "").
Definition booted := play boot_serve O boot [].

Definition boot_parts : option (assembled Z string) :=
  match booted.1.2 with existT (BStart b) _ :: _ => Some b | _ => None end.

Definition boot_ready (h : log (bans (rate := Z) (pool := string))) : bool :=
  match h with
  | existT (BStart b) _ :: _ => (a_delay b =? 10 * Second) && a_leader b && String.eqb (a_admin b).1 "username" && String.eqb (a_admin b).2 "password"
  | _ => false
  end.

Lemma boot_is_ready : boot_ready booted.1.2 = true.
Proof. vm_compute. reflexivity. Qed.

Lemma boot_runs : runs any_env boot [] booted.1.2 booted.2.
Proof. exact (play_runs_in any_env boot_serve O boot [] (λ _ _ _, I)). Qed.

Lemma boot_ready_inv h : boot_ready h = true → ∃ b a pre, h = existT (BStart b) a :: pre ∧ a_delay b = 10 * Second ∧ a_leader b = true.
Proof.
  destruct h as [|[c a] pre]; [done|]. destruct c as [| | | | | | | | | | | |b]; try done. cbn [boot_ready]. intros H. bsimpl.
  exists b, a, pre. split_and!; [done|by apply Z.eqb_eq|done].
Qed.

Lemma started_checked_witness : ∃ b, boot_parts = Some b ∧ serviceable (a_cfg b) ∧ a_delay b = 10 * Second ∧ a_leader b = true.
Proof.
  destruct (boot_ready_inv booted.1.2 boot_is_ready) as (b & a & pre & E & Hd & Hl). exists b.
  split; [unfold boot_parts; rewrite E; reflexivity|]. split; [|exact (conj Hd Hl)].
  exact (proj2 (proj1 (started_checked (key := string) boot_env plain_url (λ _, plain_url) no_selector (λ _, None) "" well_known names_keys (λ _, true) (λ s, Ok [s])
    toy_pem ParseInt (λ r, r <? 0) 20 (λ _, "") (λ _ _, eq_refl) booted.1.2 booted.2 boot_runs) pre b a [] E)).
Defined.
