(* ===== verification/InstallerConfig.v ===== *)
(** * Installer configuration and file names

    [installer/main.go]: [loadConfig] and the checks on node paths;
    [installer/names.go]: the names of an install's files; [ownConfigPath] of
    [installer/run.go] and [validUnitName] of [installer/restart.go]. *)

From S2P Require Import Prelude.
From S2P Require Import GoStrings.
From S2P Require Import GoPath.

(** ** Names *)

Definition defaultProviderName : string := "harbor-bridge-plugin".
Definition recordSuffix : string := ".entry".

(** [providerNameRegex] is [match_label] of [GoStrings]. *)
Definition validProviderName (name : string) : option gerr :=
  if (63 <? Z.of_nat (String.length name)) || negb (match_label name)
  then Some (EMsg "provider name must be a DNS label") else None.

Record nodeFiles := MkNodeFiles {
  Binary : string; RecordFile : string; CA : string; ClientCert : string; ClientKey : string; State : string }.

Definition filesFor (name : string) : nodeFiles :=
  if String.eqb name defaultProviderName then
    MkNodeFiles defaultProviderName (defaultProviderName +:+ recordSuffix)
      "harbor-bridge-ca.crt" "harbor-bridge-client.crt" "harbor-bridge-client.key" "installer-state.json"
  else
    MkNodeFiles name (name +:+ recordSuffix) (name +:+ ".ca.crt") (name +:+ ".client.crt") (name +:+ ".client.key")
      (name +:+ ".installer-state.json").

Definition legacySourceConfig : string := "/config/credential-provider-config.yaml".
Definition v2SourceConfig : string := "/config-v2/credential-provider-config.v2.yaml".
Definition sourceConfigPath (name : string) : string :=
  if String.eqb name defaultProviderName then legacySourceConfig else v2SourceConfig.

(** ** Node paths *)

Definition is_letter (c : ascii) : bool := in_range "a" "z" c || in_range "A" "Z" c.
Definition node_char (c : ascii) : bool := is_letter c || in_range "0" "9" c || ContainsByte "._/-" c.

(** The regular expression [nodePathChars]. *)
Definition nodePathChars (p : string) : bool :=
  match p with
  | String c (String d rest) => Ascii.eqb c slash && node_char d && all_bytes node_char rest
  | _ => false
  end.

Definition validNodePath (p : string) : option gerr :=
  if negb (IsAbs p) || negb (String.eqb (Clean p) p) || negb (nodePathChars p)
  then Some (EMsg "path must be absolute, clean, and use only letters, digits and . _ - /") else None.

Definition withinDir (p dir : string) : bool := String.eqb p dir || HasPrefix p (dir +:+ "/").
Definition dirsOverlap (a b : string) : bool := withinDir a b || withinDir b a.

(** The regular expression [unitNameRegex]. *)
Definition unit_start (c : ascii) : bool := is_letter c || in_range "0" "9" c.
Definition unit_char (c : ascii) : bool := unit_start c || ContainsByte ":_.@-" c.
Definition validUnitName (unit : string) : option gerr :=
  match unit with
  | String c rest => if unit_start c && all_bytes unit_char rest then None else Some (EMsg "invalid systemd unit name")
  | EmptyString => Some (EMsg "invalid systemd unit name")
  end.

(** ** The configuration *)

Definition modeAuto : string := "auto".
Definition modeMerge : string := "merge".
Definition modePatch : string := "patch".
Definition modeNone : string := "none".

(** The fields [loadConfig] takes from the environment; the others are constants of
    the plugin image. *)
Record config := MkConfig {
  Mode : string; HostRoot : string; HostBinDir : string; HostConfigDir : string;
  MergeBinDir : string; MergeConfigFile : string; MTLSEnabled : bool; KubeletUnit : string;
  StateDir : string; NodeIP : string; ProviderName : string; SourceConfig : string }.

(** The checks of [loadConfig] in their order. Those it makes in a loop over a Go map
    can fail in any order; the error they give does not say which came first here. *)
Definition check_paths (paths : list string) : option gerr :=
  fold_left (λ acc p, match acc with
                      | Some e => Some e
                      | None => if String.eqb p "" then None else validNodePath p
                      end) paths None.

Definition loadConfig (getenv : string → string) : res config :=
  let def k fallback := if String.eqb (getenv k) "" then fallback else getenv k in
  let name := def "PROVIDER_NAME" defaultProviderName in
  let c := MkConfig (def "INSTALL_MODE" modeAuto) (def "HOST_ROOT" "/host") (getenv "HOST_BIN_DIR")
             (getenv "HOST_CONFIG_DIR") (getenv "INSTALL_MERGE_BIN_DIR") (getenv "INSTALL_MERGE_CONFIG_FILE")
             (String.eqb (getenv "MTLS_ENABLED") "true") (def "KUBELET_UNIT" "kubelet")
             (def "STATE_DIR" "/var/lib/harbor-bridge") (getenv "NODE_IP") name (sourceConfigPath name) in
  if negb (existsb (String.eqb (Mode c)) [modeAuto; modeMerge; modePatch; modeNone])
  then Err (EMsg "INSTALL_MODE must be one of auto|merge|patch|none")
  else if String.eqb (HostConfigDir c) "" then Err (EMsg "HOST_CONFIG_DIR is required")
  else if String.eqb (HostBinDir c) "" && negb (String.eqb (Mode c) modeMerge)
  then Err (EMsg "HOST_BIN_DIR is required")
  else if xorb (String.eqb (MergeBinDir c) "") (String.eqb (MergeConfigFile c) "")
  then Err (EMsg "INSTALL_MERGE_BIN_DIR and INSTALL_MERGE_CONFIG_FILE must be set together")
  else if negb (String.eqb (MergeBinDir c) "") && negb (String.eqb (Mode c) modeMerge)
  then Err (EMsg "merge-mode targets are used only with INSTALL_MODE=merge")
  else match check_paths [HostBinDir c; HostConfigDir c; StateDir c; MergeBinDir c; MergeConfigFile c] with
  | Some e => Err (EWrap "" e)
  | None =>
      if existsb (λ dir, negb (String.eqb dir "") && dirsOverlap dir (HostConfigDir c)) [HostBinDir c; MergeBinDir c]
      then Err (EMsg "the bin dir and HOST_CONFIG_DIR must not be the same directory or inside one another")
      else if withinDir (StateDir c) (HostConfigDir c)
      then Err (EMsg "STATE_DIR must not be HOST_CONFIG_DIR or inside it")
      else if negb (String.eqb (MergeConfigFile c) "") && withinDir (MergeConfigFile c) (HostConfigDir c)
      then Err (EMsg "INSTALL_MERGE_CONFIG_FILE must not be inside HOST_CONFIG_DIR")
      else match validUnitName (KubeletUnit c) with
      | Some e => Err (EWrap "KUBELET_UNIT" e)
      | None => match validProviderName (ProviderName c) with
                | Some e => Err (EWrap "PROVIDER_NAME" e)
                | None => Ok c
                end
      end
  end.

Definition hostPath (c : config) (nodePath : string) : string :=
  JoinPath (HostRoot c) (Clean ("/" +:+ nodePath)).

Definition configFileName : string := "credential-provider-config.yaml".
Definition ownConfigPath (c : config) : string := JoinPath (HostConfigDir c) configFileName.

(** ** Two installs never share a file *)

Definition file_names (f : nodeFiles) : list string :=
  [Binary f; RecordFile f; CA f; ClientCert f; ClientKey f; State f].

(** The part of a file name before its first dot, and the rest. *)
Definition stem (f : string) : string * string := match Cut f "." with Some (n, s) => (n, s) | None => (f, "") end.

Lemma stem_name n s : ContainsByte n "." = false → stem (n +:+ String "." s) = (n, s).
Proof. intros H. unfold stem. by rewrite Cut_app. Qed.

Lemma stem_plain n : ContainsByte n "." = false → stem n = (n, "").
Proof. intros H. unfold stem. by apply Cut_None in H as ->. Qed.

Definition suffixes : list string := [""; "entry"; "ca.crt"; "client.crt"; "client.key"; "installer-state.json"].

Lemma filesFor_stems n f : ContainsByte n "." = false → n ≠ defaultProviderName → f ∈ file_names (filesFor n) →
  (stem f).1 = n ∧ (stem f).2 ∈ suffixes.
Proof.
  intros Hn Hd. unfold filesFor. destruct (String.eqb_spec n defaultProviderName); [done|].
  unfold file_names, suffixes. cbn [Binary RecordFile CA ClientCert ClientKey State].
  rewrite !elem_of_cons, elem_of_nil. intros [->|[->|[->|[->|[->|[->|[]]]]]]];
    [rewrite stem_plain by done|unfold recordSuffix; rewrite stem_name by done..];
    (split; [done|by apply (bool_decide_unpack _)]).
Qed.

Lemma filesFor_default_stems f : f ∈ file_names (filesFor defaultProviderName) →
  (stem f).1 = defaultProviderName ∨ ¬ (stem f).2 ∈ suffixes.
Proof.
  change (file_names (filesFor defaultProviderName)) with
    ["harbor-bridge-plugin"; "harbor-bridge-plugin.entry"; "harbor-bridge-ca.crt"; "harbor-bridge-client.crt";
     "harbor-bridge-client.key"; "installer-state.json"].
  rewrite !elem_of_cons, elem_of_nil. intros [->|[->|[->|[->|[->|[->|[]]]]]]];
    [left; reflexivity|left; reflexivity|right..]; by apply (bool_decide_unpack _).
Qed.

Lemma validProviderName_dot n : validProviderName n = None → ContainsByte n "." = false.
Proof.
  unfold validProviderName. destruct (_ || _) eqn:E; [done|]. intros _.
  apply orb_false_iff in E as [_ E]. apply negb_false_iff in E. by apply match_label_dot.
Qed.

(** The files of two installs with different provider names are all different,
    so several installs share a node without touching each other's files. *)
Theorem filesFor_disjoint n n' f : validProviderName n = None → validProviderName n' = None → n ≠ n' →
  f ∈ file_names (filesFor n) → ¬ f ∈ file_names (filesFor n').
Proof.
  intros Hn%validProviderName_dot Hn'%validProviderName_dot Hne Hf Hf'.
  destruct (decide (n = defaultProviderName)) as [->|Hd]; [|destruct (decide (n' = defaultProviderName)) as [->|Hd']].
  - destruct (filesFor_stems n' f) as [H1 H2]; [done..|]. apply filesFor_default_stems in Hf as [H|H]; congruence.
  - destruct (filesFor_stems n f) as [H1 H2]; [done..|]. apply filesFor_default_stems in Hf' as [H|H]; congruence.
  - destruct (filesFor_stems n f) as [H1 _]; [done..|]. destruct (filesFor_stems n' f) as [H2 _]; [done..|]. congruence.
Qed.

(** ** The sync container's directory holds no binary *)

Lemma withinDir_child d f h : ContainsByte f slash = false → dirsOverlap d h = false →
  withinDir (d +:+ "/" +:+ f) h = false.
Proof.
  intros Hf Hov. apply not_true_is_false. intros Hw. unfold dirsOverlap, withinDir in *.
  apply orb_true_iff in Hw as [E%String.eqb_eq|[t Ht]%HasPrefix_spec]; bsimpl.
  - assert (HasPrefix h (d +:+ "/") = true) as Hp; [|congruence]. apply HasPrefix_spec. exists f. by rewrite <- E, str_app_assoc.
  - rewrite str_app_assoc in Ht. change ("/" +:+ ?x) with (String slash x) in Ht.
    assert (∀ a b t, a +:+ String slash f = b +:+ String slash t → a = b ∨ ∃ u, a = b +:+ String slash u) as Hsplit.
    { clear - Hf. induction a as [|x a IH]; intros [|y b] t; rewrite ?app_nil_l, ?app_cons.
      - by left.
      - intros [= <- E]. exfalso. rewrite E, ContainsByte_app in Hf. cbn [ContainsByte] in Hf.
        rewrite eqb_refl_ascii, orb_true_r in Hf. done.
      - intros [= -> E]. right. by exists a.
      - intros [= -> E]. destruct (IH b t E) as [->|[u ->]]; [by left|]. right. by exists u. }
    destruct (Hsplit d h t Ht) as [->|[u ->]].
    + by rewrite String.eqb_refl in *.
    + assert (HasPrefix (h +:+ String slash u) (h +:+ "/") = true) as Hp; [|congruence].
      apply HasPrefix_spec. exists u. by rewrite str_app_assoc.
Qed.

Lemma dirsOverlap_sym a b : dirsOverlap a b = dirsOverlap b a.
Proof. unfold dirsOverlap. apply orb_comm. Qed.

(** In a configuration that loads, a file put into a directory kubelet runs
    binaries from never lies in the directory every release's sync container can
    write, nor the other way round, and the installer's state never does. *)
Theorem loadConfig_isolates getenv c f : loadConfig getenv = Ok c → ContainsByte f slash = false →
  ∀ d, d ∈ [HostBinDir c; MergeBinDir c] → d ≠ "" →
  withinDir (d +:+ "/" +:+ f) (HostConfigDir c) = false ∧ withinDir (HostConfigDir c +:+ "/" +:+ f) d = false ∧
  withinDir (StateDir c) (HostConfigDir c) = false.
Proof.
  unfold loadConfig. set (c0 := MkConfig _ _ _ _ _ _ _ _ _ _ _ _). intros H Hf.
  repeat (case_step_in H; [done|]). injection H as <-.
  intros d Hd Hne.
  assert (dirsOverlap d (HostConfigDir c0) = false) as Hov.
  { match goal with E : existsb _ [HostBinDir c0; MergeBinDir c0] = false |- _ => cbn [existsb] in E; bsimpl end.
    rewrite !elem_of_cons, elem_of_nil in Hd. destruct (String.eqb_spec d ""); [done|].
    destruct Hd as [->|[->|[]]];
      repeat match goal with E : _ ∨ _ |- _ => destruct E end; bsimpl; try done;
      match goal with E : String.eqb _ "" = true |- _ => by apply String.eqb_eq in E end. }
  split_and!; [by apply withinDir_child|rewrite dirsOverlap_sym in Hov; by apply withinDir_child|done].
Qed.

Definition demo_env (k : string) : string :=
  if String.eqb k "HOST_BIN_DIR" then "/opt/harbor-bridge/bin"
  else if String.eqb k "HOST_CONFIG_DIR" then "/etc/harbor-bridge" else "".

Lemma filesFor_disjoint_witness :
  validProviderName "harbor-bridge-ca" = None ∧ ¬ "harbor-bridge-ca.crt" ∈ file_names (filesFor "harbor-bridge-ca").
Proof.
  split; [reflexivity|]. apply (filesFor_disjoint defaultProviderName); [reflexivity..|by apply (bool_decide_unpack _)|].
  by apply (bool_decide_unpack _).
Defined.

Lemma loadConfig_isolates_witness :
  ∃ c, loadConfig demo_env = Ok c ∧ withinDir ("/opt/harbor-bridge/bin/harbor-bridge-plugin") (HostConfigDir c) = false.
Proof.
  eexists. split; [vm_compute; reflexivity|].
  destruct (loadConfig_isolates demo_env (MkConfig "auto" "/host" "/opt/harbor-bridge/bin" "/etc/harbor-bridge" "" "" false
    "kubelet" "/var/lib/harbor-bridge" "" "harbor-bridge-plugin" "/config/credential-provider-config.yaml")
    "harbor-bridge-plugin" eq_refl eq_refl "/opt/harbor-bridge/bin") as [H _]; [by left|done|exact H].
Defined.
