(* ===== verification/Host.v ===== *)
(** * The host, as the installer sees it

    The installer works on a node through files, [/proc], the clock and systemd. Its
    programs are trees over these calls. The file operations are those of
    [installer/files.go] (a regular file read without following a link, an atomic
    replacement), [Systemctl] is [nsenter ... systemctl args], whose answer is its
    combined output and its error. Log lines are dropped. *)

From S2P Require Import Prelude Effects GoStrings GoTime.

(** The type of a directory entry; the mode bits decide the rest. *)
Inductive ftype := FRegular | FDir | FSymlink | FOther.

#[export] Instance ftype_eq_dec : EqDecision ftype.
Proof. solve_decision. Defined.

Record fileOwner := MkOwner { uid : Z; gid : Z }.

#[export] Instance fileOwner_eq_dec : EqDecision fileOwner.
Proof. solve_decision. Defined.

(** An [os.FileInfo]: the identity [os.SameFile] compares (device and inode), the type
    and the other bits of [Mode()], [Size()] and the owner in [Sys()]. *)
Record finfo := MkInfo { fi_id : nat; fi_type : ftype; fi_mode : Z; fi_size : Z; fi_sys : option fileOwner }.

(** The permission bits and the owner a written file gets; no owner is the installer's. *)
Record fileMeta := MkMeta { perm : Z; owner : option fileOwner }.

(** A file as a pass found it, which a rollback restores. *)
Record priorContent := MkPrior { existed : bool; pdata : string; pmeta : fileMeta }.

Definition no_prior : priorContent := MkPrior false "" (MkMeta 0 None).

(** ** The calls

    Those named after an operation of [installer/files.go] or [installer/lock.go] are that
    operation, which [HostFiles] and [HostLocks] model. [OpenDir] is [os.OpenRoot] and answers
    the handle of the directory, [CloseDir] its [Close], [ReadEntries] lists the open
    directory ([root.Open] of itself, [ReadDir], [Close]). [OsLstat] is [os.Lstat], and
    [OsReadFile], [ReadDir] and [Readlink] are those of [os]. *)
Inductive hcall :=
| OpenNodeDir (hostRoot nodeDir : string)
| OpenDir (path : string)
| MkdirNodeDir (dir : string)
| CloseDir (d : nat)
| LstatIn (d : nat) (name : string)
| ReadFileIn (d : nat) (name : string)
| WriteFileIn (d : nat) (name data : string) (mode : Z)
| WriteForeignIn (d : nat) (name data : string)
| WriteForeignFile (path data : string)
| ReadPrior (d : nat) (name : string)
| ReadPriorHostFile (path : string)
| RestoreIn (d : nat) (name : string) (p : priorContent)
| RestoreHostFile (path : string) (p : priorContent)
| CopyFile (src dst : string) (mode : Z)
| CopyFileIn (src : string) (d : nat) (name : string) (mode : Z)
| IsExecutableHostFile (path : string)
| IsRegularHostFile (path : string)
| OsLstat (path : string)
| LockFile (path : string) (timeout : Duration)
| LockFileIn (d : nat) (name : string) (timeout : Duration)
| Unlock (l : nat)
| ReadHostFile (path : string)
| WriteFileAtomic (path data : string) (perm : Z)
| EnsureWritableDir (dir : string)
| HashHostFile (path : string) (maxSize : Z)
| ReadDir (path : string)
| ReadEntries (d : nat)
| OsReadFile (path : string)
| Readlink (path : string)
| Systemctl (args : list string)
| HNow
| HSleep (d : Duration).

Definition hans (c : hcall) : Type :=
  match c with
  | OpenNodeDir _ _ | OpenDir _ | LockFile _ _ | LockFileIn _ _ _ => res nat
  | MkdirNodeDir _ | RestoreIn _ _ _ | RestoreHostFile _ _ => option gerr
  | CloseDir _ | Unlock _ => unit
  | LstatIn _ _ => res finfo
  | ReadFileIn _ _ => res string
  | WriteFileIn _ _ _ _ | WriteForeignIn _ _ _ | WriteForeignFile _ _ | CopyFile _ _ _ | CopyFileIn _ _ _ _ => res bool
  | ReadPrior _ _ | ReadPriorHostFile _ => res priorContent
  | IsExecutableHostFile _ | IsRegularHostFile _ => bool
  | OsLstat _ => res ftype
  | ReadHostFile _ | OsReadFile _ | Readlink _ | HashHostFile _ _ => res string
  | WriteFileAtomic _ _ _ => res bool
  | EnsureWritableDir _ => option gerr
  | ReadDir _ => res (list string)
  | ReadEntries _ => res (list (string * ftype))
  | Systemctl _ => (string * option gerr)%type
  | HNow => Time
  | HSleep _ => unit
  end.

Notation host := (prog hans).

(** [defer cleanup]. *)
Definition hdefer {A B} (cleanup : host B) (body : host A) : host A := r ← body; _ ← cleanup; Ret r.

(** The answers of a node where everything succeeds and no file is there. *)
Definition empty_node (c : hcall) : hans c :=
  match c with
  | OpenNodeDir _ _ | OpenDir _ | LockFile _ _ | LockFileIn _ _ _ => Ok 0%nat
  | MkdirNodeDir _ | RestoreIn _ _ _ | RestoreHostFile _ _ | EnsureWritableDir _ => None
  | CloseDir _ | Unlock _ | HSleep _ => tt
  | LstatIn _ _ => Err (ESentinel ErrNotExist)
  | OsLstat _ => Err (ESentinel ErrNotExist)
  | ReadFileIn _ _ | ReadHostFile _ | HashHostFile _ _ | OsReadFile _ | Readlink _ => Err (ESentinel ErrNotExist)
  | WriteFileIn _ _ _ _ | WriteForeignIn _ _ _ | WriteForeignFile _ _ | CopyFile _ _ _ | CopyFileIn _ _ _ _
  | WriteFileAtomic _ _ _ => Ok true
  | ReadPrior _ _ | ReadPriorHostFile _ => Ok no_prior
  | IsExecutableHostFile _ | IsRegularHostFile _ => false
  | ReadDir _ => Ok []
  | ReadEntries _ => Ok []
  | Systemctl _ => ("", None)
  | HNow => 0
  end.

(** ** The clock

    [clock h]: the earliest instant the clock can show after [h], from the last time it
    was read and the waits since. *)
Fixpoint clock (h : log hans) : option Time :=
  match h with
  | [] => None
  | existT HNow t :: _ => Some t
  | existT (HSleep d) _ :: h => (λ c, c + Z.max 0 d) <$> clock h
  | _ :: h => clock h
  end.

(** A clock that never goes back and advances by at least every wait. *)
Definition clock_env (h : log hans) (c : hcall) : hans c → Prop :=
  match c with HNow => λ t, ∀ c0, clock h = Some c0 → c0 ≤ t | _ => λ _, True end.

Lemma clock_advances {A} (p : host A) ok h c0 (Q : log hans → A → Prop) : clock h = Some c0 →
  wp clock_env ok h p Q → wp clock_env ok h p (λ h' a, (∃ c1, clock h' = Some c1 ∧ c0 ≤ c1) ∧ Q h' a).
Proof.
  revert h c0. induction p as [a|c k IH]; intros h c0 Hc; simpl; [by split; [exists c0|]|].
  intros [Hok Hk]. split; [done|]. intros r Hr.
  assert (∃ c1, clock (existT c r :: h) = Some c1 ∧ c0 ≤ c1) as (c1 & Hc1 & Hle).
  { destruct c; try (by exists c0); cbn.
    - exists r. split; [done|]. by apply Hr.
    - rewrite Hc. eexists. split; [done|]. lia. }
  eapply wp_mono; [apply (IH r _ c1); [done|by apply Hk]|]. intros h' a [(c2 & ? & ?) ?]. split; [|done]. exists c2. split; [done|lia].
Qed.

(** ** What a log shows *)

Definition is_restart (c : hcall) : bool :=
  match c with Systemctl (a :: _) => String.eqb a "restart" | _ => false end.
(** A call that changes a file. Opening a directory may create it, and taking a lock its
    lock file; those are not counted. *)
Definition is_write (c : hcall) : bool :=
  match c with
  | WriteFileAtomic _ _ _ | EnsureWritableDir _ | WriteFileIn _ _ _ _ | WriteForeignIn _ _ _ | WriteForeignFile _ _
  | RestoreIn _ _ _ | RestoreHostFile _ _ | CopyFile _ _ _ | CopyFileIn _ _ _ _ => true
  | _ => false
  end.

(** A call that neither restarts a unit nor changes a file. *)
Definition read_only (c : hcall) : Prop := is_restart c = false ∧ is_write c = false.

(** The restart commands of a log, latest first. *)
Definition restarts (h : log hans) : list (event hans) := List.filter (λ e, is_restart (projT1 e)) h.
