(* ===== verification/HostFiles.v ===== *)
(** * Host files

    [installer/files.go]: how the installer, root on the node, reads and replaces files in directories that pods can write too.
    Every operation is a program over the calls of [os], [os.Root], [os.File] and
    [syscall] it makes. What they promise is in [HostFilesCrash] (an interruption at any
    point) and [HostFilesRaces] (a directory another process changes at any point);
    [PassRaces] puts them under a whole pass. *)

From S2P Require Import Prelude Effects GoStrings GoStd GoTime GoPath Host.

(** ** The calls *)

(** The bits of [os.FileMode] that are not its type. *)
Definition ModePerm : Z := 0x1FF.
Definition ModeSetuid : Z := Z.shiftl 1 23.
Definition ModeSetgid : Z := Z.shiftl 1 22.
Definition ModeSticky : Z := Z.shiftl 1 20.

(** An open directory ([*os.Root]) and an open file ([*os.File]). *)
Notation dirh := nat (only parsing).
Notation fileh := nat (only parsing).

Inductive fcall :=
| FOpenRoot (dir : string)
| FSubRoot (parent : dirh) (name : string)
| FStatRoot (root : dirh)
| FCloseRoot (root : dirh)
| FLstat (root : dirh) (name : string)
| FMkdir (root : dirh) (name : string) (perm : Z)
| FOpenRead (root : dirh) (name : string)
| FCreateExcl (root : dirh) (name : string) (perm : Z)
| FOpenSelf (root : dirh)
| FRename (root : dirh) (old new : string)
| FRemove (root : dirh) (name : string)
| FStat (f : fileh)
| FReadLimit (f : fileh) (limit : Z)
| FWrite (f : fileh) (data : string)
| FChmod (f : fileh) (mode : Z)
| FChown (f : fileh) (o : fileOwner)
| FSync (f : fileh)
| FClose (f : fileh)
| FFlock (f : fileh)
| FRandRead
| FMkdirAll (dir : string) (perm : Z)
| FReadFile (path : string)
| FCreateTemp (dir pattern : string)
| FRemovePath (path : string)
| FNow
| FSleep (d : Duration).

(** [FOpenRead] is [root.OpenFile] with [O_RDONLY|O_NOFOLLOW|O_NONBLOCK], [FCreateExcl]
    with [O_WRONLY|O_CREATE|O_EXCL|O_NOFOLLOW], [FOpenSelf] is [root.Open] of the directory
    itself, [FReadLimit] reads all of a fresh handle through an [io.LimitReader], [FWrite]
    answers the bytes written, [FRandRead] eight random bytes, [FFlock] is
    [flock(LOCK_EX|LOCK_NB)]. *)
Definition fans (c : fcall) : Type :=
  match c with
  | FOpenRoot _ | FSubRoot _ _ | FOpenRead _ _ | FCreateExcl _ _ _ | FOpenSelf _ => res nat
  | FStatRoot _ | FLstat _ _ | FStat _ => res finfo
  | FReadLimit _ _ | FReadFile _ | FRandRead => res string
  | FCreateTemp _ _ => res (nat * string)
  | FWrite _ _ => (Z * option gerr)%type
  | FCloseRoot _ | FSleep _ => unit
  | FNow => Time
  | FMkdir _ _ _ | FRename _ _ _ | FRemove _ _ | FChmod _ _ | FChown _ _ | FSync _ | FClose _ | FFlock _
  | FMkdirAll _ _ | FRemovePath _ => option gerr
  end.

Notation fprog := (prog fans).

(** [defer cleanup]. *)
Definition deferred {A B} (cleanup : fprog B) (body : fprog A) : fprog A := r ← body; _ ← cleanup; Ret r.

(** [if err != nil { return nil, err }]. *)
Definition and_then {A B} (p : fprog (res A)) (k : A → fprog (res B)) : fprog (res B) :=
  r ← p; match r with Ok a => k a | Err e => Ret (Err e) end.

(** The error of a call, with its context. *)
Definition wrapped (m : string) (e : option gerr) : option gerr :=
  match e with Some e => Some (EWrap m e) | None => None end.

(** [_ = f.Close()] before a return. *)
Definition close_with {A} (f : fileh) (r : A) : fprog A := _ ← trigger (FClose f); Ret r.

(** ** Reading *)

Definition maxHostFileSize : Z := Z.shiftl 64 20.

Definition SameFile (a b : finfo) : bool := Nat.eqb (fi_id a) (fi_id b).

Definition openRegularMax (root : dirh) (name : string) (maxSize : Z) : fprog (res fileh) :=
  and_then (trigger (FLstat root name)) (λ lfi,
    match fi_type lfi with
    | FSymlink => Ret (Err (EMsg "refusing to follow symlink"))
    | FDir | FOther => Ret (Err (EMsg "not a regular file"))
    | FRegular =>
        and_then (trigger (FOpenRead root name)) (λ f,
          s ← trigger (FStat f);
          match s with
          | Err e => close_with f (Err e)
          | Ok fi =>
              if negb (SameFile lfi fi) then close_with f (Err (EMsg "changed while it was opened"))
              else if maxSize <? fi_size fi then close_with f (Err (EMsg "too large"))
              else Ret (Ok f)
          end)
    end).

Definition openRegular (root : dirh) (name : string) : fprog (res fileh) := openRegularMax root name maxHostFileSize.

Definition readAllCapped (f : fileh) : fprog (res string) :=
  and_then (trigger (FReadLimit f (maxHostFileSize + 1))) (λ data,
    Ret (if maxHostFileSize <? len data then Err (EMsg "too large") else Ok data)).

Definition readFileIn (root : dirh) (name : string) : fprog (res string) :=
  and_then (openRegular root name) (λ f, deferred (trigger (FClose f)) (readAllCapped f)).

(** [root, err := os.OpenRoot(dir)] with the deferred [root.Close()]. *)
Definition with_root {A} (dir : string) (fail : gerr → A) (body : dirh → fprog A) : fprog A :=
  r ← trigger (FOpenRoot dir);
  match r with
  | Err e => Ret (fail e)
  | Ok root => deferred (trigger (FCloseRoot root)) (body root)
  end.

Definition readHostFile (path : string) : fprog (res string) :=
  with_root (Dir path) Err (λ root, readFileIn root (Base path)).

Definition hashHostFile (path : string) (maxSize : Z) : fprog (res string) :=
  with_root (Dir path) Err (λ root,
    and_then (openRegularMax root (Base path) maxSize) (λ f,
      deferred (trigger (FClose f)) (
        and_then (trigger (FReadLimit f (maxSize + 1))) (λ data,
          Ret (if maxSize <? len data then Err (EMsg "too large") else Ok (sha256_hex data)))))).

(** The file at [path] as [Lstat] sees it, when it does. *)
Definition lstat_is (path : string) (test : finfo → bool) : fprog bool :=
  with_root (Dir path) (λ _, false) (λ root,
    r ← trigger (FLstat root (Base path));
    Ret (match r with Ok fi => test fi | Err _ => false end)).

Definition is_regular (fi : finfo) : bool := bool_decide (fi_type fi = FRegular).
Definition Perm (mode : Z) : Z := Z.land mode ModePerm.

Definition isExecutableHostFile (path : string) : fprog bool :=
  lstat_is path (λ fi, is_regular fi && negb (Z.land (Perm (fi_mode fi)) 0x49 =? 0)).
Definition isRegularHostFile (path : string) : fprog bool := lstat_is path is_regular.

(** ** Directories *)

Definition mkdirNodeDir (dir : string) : fprog (option gerr) :=
  e ← trigger (FMkdirAll dir 0x1ED);
  Ret (wrapped "mkdir" e).

(** [Lstat], after a [Mkdir] when there is nothing yet. *)
Definition lstat_or_mkdir (parent : dirh) (name : string) : fprog (res finfo) :=
  r ← trigger (FLstat parent name);
  match r with
  | Ok lfi => Ret (Ok lfi)
  | Err e =>
      if errors_Is e ErrNotExist then
        m ← trigger (FMkdir parent name 0x1ED);
        match m with
        | Some e => if errors_Is e ErrExist then trigger (FLstat parent name) else Ret (Err e)
        | None => trigger (FLstat parent name)
        end
      else Ret (Err e)
  end.

Definition openSubdir (parent : dirh) (name : string) : fprog (res dirh) :=
  and_then (lstat_or_mkdir parent name) (λ lfi,
    match fi_type lfi with
    | FSymlink => Ret (Err (EMsg "refusing to follow symlink"))
    | FRegular | FOther => Ret (Err (EMsg "not a directory"))
    | FDir =>
        and_then (trigger (FSubRoot parent name)) (λ dir,
          s ← trigger (FStatRoot dir);
          match s with
          | Err e => _ ← trigger (FCloseRoot dir); Ret (Err e)
          | Ok fi =>
              if negb (SameFile lfi fi) then _ ← trigger (FCloseRoot dir); Ret (Err (EMsg "changed while it was opened"))
              else Ret (Ok dir)
          end)
    end).

(** The components of a node path that [openNodeDir] walks. *)
Definition node_components (nodeDir : string) : list string :=
  List.filter (λ name, negb (String.eqb name "")) (Split (TrimPrefix nodeDir "/") slash).

Fixpoint open_components (root : dirh) (names : list string) : fprog (res dirh) :=
  match names with
  | [] => Ret (Ok root)
  | name :: names =>
      next ← openSubdir root name;
      _ ← trigger (FCloseRoot root);
      match next with
      | Err e => Ret (Err (EWrap "open node directory" e))
      | Ok next => open_components next names
      end
  end.

Definition openNodeDir (hostRoot nodeDir : string) : fprog (res dirh) :=
  r ← trigger (FOpenRoot hostRoot);
  match r with
  | Err e => Ret (Err (EWrap "open" e))
  | Ok root => open_components root (node_components nodeDir)
  end.

Definition openParent (path : string) : fprog (res dirh) :=
  e ← mkdirNodeDir (Dir path);
  match e with
  | Some e => Ret (Err e)
  | None =>
      r ← trigger (FOpenRoot (Dir path));
      Ret (match r with Err e => Err (EWrap "open" e) | Ok root => Ok root end)
  end.

Definition syncDir (root : dirh) : fprog (option gerr) :=
  r ← trigger (FOpenSelf root);
  match r with
  | Err e => Ret (Some (EWrap "open for sync" e))
  | Ok d => deferred (trigger (FClose d)) (e ← trigger (FSync d); Ret (wrapped "sync" e))
  end.

(** ** Writing *)

Definition ownerOf (fi : finfo) : option fileOwner := fi_sys fi.

Definition chownIfOther (f : fileh) (o : fileOwner) : fprog (option gerr) :=
  s ← trigger (FStat f);
  match s with
  | Err e => Ret (Some e)
  | Ok fi => if bool_decide (ownerOf fi = Some o) then Ret None else trigger (FChown f o)
  end.

(** A step on the open temp file: its failure closes the file first. *)
Definition tmp_step (f : fileh) (m : string) (p : fprog (option gerr)) (k : fprog (option gerr)) : fprog (option gerr) :=
  e ← p;
  match e with
  | Some e => close_with f (Some (EWrap m e))
  | None => k
  end.

Definition tmp_name (name suffix : string) : string := name +:+ ".tmp-" +:+ EncodeToString (bytes_of suffix).

(** What [replaceFile] does once the temp file is open. *)
Definition fill_and_rename (root : dirh) (name tmpName data : string) (m : fileMeta) (tmp : fileh) : fprog (option gerr) :=
  tmp_step tmp "write" ('(_, e) ← trigger (FWrite tmp data); Ret e) (
  tmp_step tmp "chown" (match owner m with Some o => chownIfOther tmp o | None => Ret None end) (
  tmp_step tmp "chmod" (trigger (FChmod tmp (perm m))) (
  tmp_step tmp "sync" (trigger (FSync tmp)) (
    e ← trigger (FClose tmp);
    match e with
    | Some e => Ret (Some (EWrap "close" e))
    | None =>
        e ← trigger (FRename root tmpName name);
        match e with
        | Some e => Ret (Some (EWrap "rename" e))
        | None => syncDir root
        end
    end)))).

Definition replaceFile (root : dirh) (name data : string) (m : fileMeta) : fprog (option gerr) :=
  s ← trigger FRandRead;
  match s with
  | Err e => Ret (Some (EWrap "random temp suffix" e))
  | Ok suffix =>
      let tmpName := tmp_name name suffix in
      t ← trigger (FCreateExcl root tmpName 0x180);
      match t with
      | Err e => Ret (Some (EWrap "create temp file" e))
      | Ok tmp => deferred (trigger (FRemove root tmpName)) (fill_and_rename root name tmpName data m tmp)
      end
  end.

(** [writeIn] up to the replacement: the metadata and whether to go on. *)
Inductive wprep := Stop (r : res bool) | Replace (m : fileMeta).

Definition all_mode_bits : Z := Z.lor (Z.lor (Z.lor ModePerm ModeSetuid) ModeSetgid) ModeSticky.

(** The existing file is open: the same content only needs its mode. *)
Definition write_over (root : dirh) (name data : string) (meta : option finfo → fileMeta) (f : fileh) : fprog wprep :=
  s ← trigger (FStat f);
  match s with
  | Err e => close_with f (Stop (Err (EWrap "stat" e)))
  | Ok fi =>
      let m := meta (Some fi) in
      old ← readAllCapped f;
      match old with
      | Err e => close_with f (Stop (Err (EWrap "read" e)))
      | Ok old =>
          if String.eqb old data then
            e ← (if negb (Z.land (fi_mode fi) all_mode_bits =? perm m) then trigger (FChmod f (perm m)) else Ret None);
            close_with f (Stop (match e with Some e => Err (EWrap "chmod" e) | None => Ok false end))
          else
            _ ← trigger (FClose f);
            e ← replaceFile root (name +:+ ".bak") old m;
            Ret (match e with Some e => Stop (Err (EWrap "write backup" e)) | None => Replace m end)
      end
  end.

Definition writeIn (root : dirh) (name data : string) (meta : option finfo → fileMeta) : fprog (res bool) :=
  o ← openRegular root name;
  p ← (match o with
       | Ok f => write_over root name data meta f
       | Err e => Ret (if errors_Is e ErrNotExist then Replace (meta None) else Stop (Err (EWrap "read" e)))
       end);
  match p with
  | Stop r => Ret r
  | Replace m =>
      e ← replaceFile root name data m;
      Ret (match e with Some e => Err (EWrap "write" e) | None => Ok true end)
  end.

Definition writeFileIn (root : dirh) (name data : string) (mode : Z) : fprog (res bool) :=
  writeIn root name data (λ _, MkMeta mode None).

Definition foreignFileMode : Z := 0x1A4.

Definition foreign_meta (existing : option finfo) : fileMeta :=
  match existing with
  | None => MkMeta foreignFileMode None
  | Some fi => MkMeta (Z.land (Perm (fi_mode fi)) foreignFileMode) (ownerOf fi)
  end.

Definition writeForeignIn (root : dirh) (name data : string) : fprog (res bool) := writeIn root name data foreign_meta.

(** [root, err := openParent(path)] with the deferred [root.Close()]. *)
Definition with_parent {A} (path : string) (body : dirh → fprog (res A)) : fprog (res A) :=
  and_then (openParent path) (λ root, deferred (trigger (FCloseRoot root)) (body root)).

Definition writeFileAtomic (path data : string) (mode : Z) : fprog (res bool) :=
  with_parent path (λ root, writeFileIn root (Base path) data mode).
Definition writeForeignFile (path data : string) : fprog (res bool) :=
  with_parent path (λ root, writeForeignIn root (Base path) data).

Definition copyFile (src dst : string) (mode : Z) : fprog (res bool) :=
  d ← trigger (FReadFile src);
  match d with Err e => Ret (Err (EWrap "read" e)) | Ok data => writeFileAtomic dst data mode end.
Definition copyFileIn (src : string) (root : dirh) (name : string) (mode : Z) : fprog (res bool) :=
  d ← trigger (FReadFile src);
  match d with Err e => Ret (Err (EWrap "read" e)) | Ok data => writeFileIn root name data mode end.

(** ** Prior content and its restoration *)

Definition readPrior (root : dirh) (name : string) : fprog (res priorContent) :=
  o ← openRegular root name;
  match o with
  | Err e => Ret (if errors_Is e ErrNotExist then Ok no_prior else Err e)
  | Ok f =>
      deferred (trigger (FClose f)) (
        and_then (trigger (FStat f)) (λ fi,
        and_then (readAllCapped f) (λ data,
        Ret (Ok (MkPrior true data (MkMeta (Perm (fi_mode fi)) (ownerOf fi)))))))
  end.

Definition readPriorHostFile (path : string) : fprog (res priorContent) :=
  with_root (Dir path) (λ e, if errors_Is e ErrNotExist then Ok no_prior else Err e) (λ root, readPrior root (Base path)).

Definition removeRegularIn (root : dirh) (name : string) : fprog (option gerr) :=
  r ← trigger (FLstat root name);
  match r with
  | Err e => Ret (if errors_Is e ErrNotExist then None else Some e)
  | Ok lfi =>
      if negb (is_regular lfi) then Ret (Some (EMsg "refusing to remove: not a regular file"))
      else
        e ← trigger (FRemove root name);
        match e with
        | Some e => Ret (Some (EWrap "remove" e))
        | None => syncDir root
        end
  end.

Definition restoreIn (root : dirh) (name : string) (p : priorContent) : fprog (option gerr) :=
  if existed p then
    r ← writeIn root name (pdata p) (λ _, pmeta p);
    Ret (match r with Ok _ => None | Err e => Some e end)
  else removeRegularIn root name.

Definition restoreHostFile (path : string) (p : priorContent) : fprog (option gerr) :=
  with_root (Dir path) (λ e, Some (EWrap "open" e)) (λ root, restoreIn root (Base path) p).

Definition ensureWritableDir (dir : string) : fprog (option gerr) :=
  e ← trigger (FMkdirAll dir 0x1ED);
  match e with
  | Some e => Ret (Some (EWrap "mkdir" e))
  | None =>
      t ← trigger (FCreateTemp dir ".write-probe-*");
      match t with
      | Err e => Ret (Some (EWrap "not writable" e))
      | Ok (f, name) =>
          _ ← trigger (FClose f);
          e ← trigger (FRemovePath name);
          Ret (wrapped "remove write probe" e)
      end
  end.
