(* ===== verification/HostFilesCrash.v ===== *)
(** * Replacing a file survives a crash

    What [writeIn] of [HostFiles] leaves on the disk when the node loses power at any
    point of it. A directory is its entries over a store of files. A file's bytes survive
    a crash from the moment it is synced; an entry that was not synced may come back as
    any of its values since the last sync of the directory, each entry on its own, as
    POSIX allows. *)

From S2P Require Import Prelude Effects GoStrings GoStd GoTime GoPath Host HostFiles.

(** ** A directory *)

Record file := MkFile { f_type : ftype; f_data : string; f_mode : Z; f_owner : fileOwner; f_synced : bool }.

(** [past]: the entries at earlier instants since the last sync of the directory. A
    handle in [handles] is on a file, or on the directory itself ([None]). *)
Record dir := MkDir {
  names : gmap string nat; past : list (gmap string nat); files : gmap nat file; handles : gmap nat (option nat) }.

Definition versions (s : dir) : list (gmap string nat) := names s :: past s.

Definition info (i : nat) (f : file) : finfo := MkInfo i (f_type f) (f_mode f) (len (f_data f)) (Some (f_owner f)).

Definition file_of (s : dir) (h : nat) : option (nat * file) :=
  i ← handles s !! h; i ← i; f ← files s !! i; Some (i, f).

Definition visible (s : dir) (n : string) : option file := i ← names s !! n; files s !! i.

(** An inode that is not in use. *)
Definition new_inode (s : dir) : nat := fresh (dom (files s) : gset nat).

Definition set_names (s : dir) (m : gmap string nat) : dir := MkDir m (names s :: past s) (files s) (handles s).
Definition set_handle (s : dir) (h : nat) (i : option nat) : dir := MkDir (names s) (past s) (files s) (<[h := i]> (handles s)).
Definition set_file (s : dir) (h : nat) (g : file → file) : dir :=
  match file_of s h with
  | Some (i, f) => MkDir (names s) (past s) (<[i := g f]> (files s)) (handles s)
  | None => s
  end.

Definition with_data (d : string) (f : file) : file := MkFile (f_type f) (f_data f +:+ d) (f_mode f) (f_owner f) false.
Definition with_mode (m : Z) (f : file) : file := MkFile (f_type f) (f_data f) m (f_owner f) (f_synced f).
Definition with_owner (o : fileOwner) (f : file) : file := MkFile (f_type f) (f_data f) (f_mode f) o (f_synced f).
Definition with_sync (f : file) : file := MkFile (f_type f) (f_data f) (f_mode f) (f_owner f) true.

(** What [io.LimitReader] lets through. *)
Definition limited (l : Z) (s : string) : string := if len s <=? l then s else take_str (Z.to_nat l) s.

(** Reading one byte past a cap tells whether the cap is enough. *)
Lemma limited_all cap s : 0 ≤ cap → len (limited (cap + 1) s) ≤ cap → limited (cap + 1) s = s.
Proof.
  unfold limited. destruct (Z.leb_spec (len s) (cap + 1)) as [|Hlt]; [done|]. intros Hcap E. exfalso.
  unfold len in *. rewrite take_str_length in E. lia.
Qed.

Lemma maxHostFileSize_nonneg : 0 ≤ maxHostFileSize.
Proof. by apply Z.leb_le. Qed.

Section Directory.
(** The user the installer runs as, who owns the files it creates. *)
Context (self : fileOwner).

(** The directory after a call that was answered with [r]. A call that fails changes
    nothing, but for a write, which answers how much of it was done. *)
Definition fstep (s : dir) (c : fcall) : fans c → dir :=
  match c with
  | FOpenRead _ n => λ r, match r, names s !! n with Ok h, Some i => set_handle s h (Some i) | _, _ => s end
  | FCreateExcl _ n m => λ r, match r with
      | Ok h => let i := new_inode s in
          MkDir (<[n := i]> (names s)) (names s :: past s) (<[i := MkFile FRegular "" m self false]> (files s))
            (<[h := Some i]> (handles s))
      | Err _ => s
      end
  | FOpenSelf _ => λ r, match r with Ok h => set_handle s h None | Err _ => s end
  | FRename _ a b => λ r, match r, names s !! a with
      | None, Some i => set_names s (<[b := i]> (delete a (names s)))
      | _, _ => s
      end
  | FRemove _ n => λ r, match r with None => set_names s (delete n (names s)) | Some _ => s end
  | FWrite h d => λ r, set_file s h (with_data (take_str (Z.to_nat r.1) d))
  | FChmod h m => λ r, match r with None => set_file s h (with_mode m) | Some _ => s end
  | FChown h o => λ r, match r with None => set_file s h (with_owner o) | Some _ => s end
  | FSync h => λ r, match r, handles s !! h with
      | None, Some None => MkDir (names s) [] (files s) (handles s)
      | None, Some (Some _) => set_file s h with_sync
      | _, _ => s
      end
  | FClose h => λ _, MkDir (names s) (past s) (files s) (delete h (handles s))
  | _ => λ _, s
  end.

(** An error that is not [fs.ErrNotExist]. *)
Definition other_error (e : gerr) : Prop := errors_Is e ErrNotExist = false.

(** The answers the directory [s] can give. Every call may fail; a name is missing only
    when it is. *)
Definition allowed (s : dir) (c : fcall) : fans c → Prop :=
  match c with
  | FLstat _ n => λ r, match r with
      | Ok fi => ∃ i f, names s !! n = Some i ∧ files s !! i = Some f ∧ fi = info i f
      | Err e => errors_Is e ErrNotExist = true → names s !! n = None
      end
  | FOpenRead _ n => λ r, match r with
      | Ok h => is_Some (visible s n) ∧ handles s !! h = None
      | Err e => errors_Is e ErrNotExist = true → names s !! n = None
      end
  | FCreateExcl _ n _ => λ r, match r with Ok h => names s !! n = None ∧ handles s !! h = None | Err _ => True end
  | FOpenSelf _ => λ r, match r with Ok h => handles s !! h = None | Err _ => True end
  | FRename _ a _ => λ r, match r with None => is_Some (names s !! a) | Some _ => True end
  | FRemove _ n => λ r, match r with None => is_Some (names s !! n) | Some _ => True end
  | FStat h => λ r, match r with Ok fi => ∃ i f, file_of s h = Some (i, f) ∧ fi = info i f | Err e => other_error e end
  | FReadLimit h l => λ r, match r with
      | Ok d => ∃ i f, file_of s h = Some (i, f) ∧ d = limited l (f_data f)
      | Err _ => True
      end
  | FWrite _ d => λ r, 0 ≤ r.1 ≤ len d ∧ (r.2 = None → r.1 = len d)
  | _ => λ _, True
  end.

Definition after (s0 : dir) (h : log fans) : dir := foldr (λ e s, fstep s (projT1 e) (projT2 e)) s0 h.

(** Nobody else writes the directory. *)
Definition quiet (s0 : dir) (h : log fans) (c : fcall) : fans c → Prop := allowed (after s0 h) c.

(** ** What a crash leaves *)

(** The content of an inode after a crash: anything, unless it was synced. *)
Definition survives_file (s : dir) (i : nat) (c : string) : Prop :=
  ∀ f, files s !! i = Some f → f_synced f = true → c = f_data f.

(** [c] can be the content of the name [n] after a crash in the state [s]. *)
Definition survives (s : dir) (n : string) (c : option string) : Prop :=
  ∃ v, v ∈ versions s ∧
    match v !! n, c with
    | None, None => True
    | Some i, Some c => survives_file s i c
    | _, _ => False
    end.

(** ** Replacing a file *)

Definition complete (data : string) (m : fileMeta) : file :=
  MkFile FRegular data (perm m) (default self (owner m)) true.

Definition temp_of (n n' : string) : Prop := ∃ suffix, n' = tmp_name n suffix.

(** [v] is [v0] but for [n] and its temp files; [n] is the same or a complete file. *)
Definition variant (n data : string) (m : fileMeta) (s' : dir) (v0 v : gmap string nat) : Prop :=
  (∀ n', n' ≠ n → ¬ temp_of n n' → v !! n' = v0 !! n') ∧
  (v !! n = v0 !! n ∨ ∃ i, v !! n = Some i ∧ files s' !! i = Some (complete data m)).

(** [s'] while [n] is being replaced in [s]: no file of [s] changes, no entry but [n] and
    its temp file does, and [n] is what it was or a complete file. *)
Record replacing (n data : string) (m : fileMeta) (s s' : dir) : Prop := {
  rp_files i f : files s !! i = Some f → files s' !! i = Some f;
  rp_names v : v ∈ versions s' → ∃ v0, v0 ∈ versions s ∧ variant n data m s' v0 v;
  rp_now : variant n data m s' (names s) (names s') }.

(** The replacement is done and synced. *)
Definition replaced (n data : string) (m : fileMeta) (s s' : dir) : Prop :=
  ∃ i, files s !! i = None ∧ names s' = <[n := i]> (names s) ∧ past s' = [] ∧
    files s' = <[i := complete data m]> (files s).

Lemma tmp_name_other n suffix : tmp_name n suffix ≠ n.
Proof.
  unfold tmp_name. intros E. apply (f_equal String.length) in E. rewrite !str_length_app in E.
  cbn [String.length] in E. lia.
Qed.

Lemma variant_refl n data m s v : variant n data m s v v.
Proof. split; [done|by left]. Qed.

Lemma replacing_same n data m s s' : names s' = names s → past s' = past s → files s' = files s → replacing n data m s s'.
Proof.
  intros Hn Hp Hf. split; [by rewrite Hf| |].
  - intros v Hv. exists v. unfold versions in *. rewrite <- Hn, <- Hp. split; [done|apply variant_refl].
  - rewrite Hn. apply variant_refl.
Qed.

(** The states of [replaceFile]: the temp file is the new inode [i]. *)
Definition variant_at (n suffix data : string) (m : fileMeta) (i : nat) (fl : file) (v0 v : gmap string nat) : Prop :=
  (∀ n', n' ≠ n → n' ≠ tmp_name n suffix → v !! n' = v0 !! n') ∧
  (v !! n = v0 !! n ∨ v !! n = Some i ∧ fl = complete data m).

Lemma variant_at_variant n suffix data m s' i fl v0 v : files s' !! i = Some fl →
  variant_at n suffix data m i fl v0 v → variant n data m s' v0 v.
Proof.
  intros Hf [Ho Hn]. split.
  - intros n' H1 H2. apply Ho; [done|]. intros ->. apply H2. by exists suffix.
  - destruct Hn as [Hn|[Hn ->]]; [by left|]. right. by exists i.
Qed.

Lemma replacing_intro n suffix data m s s' i fl :
  files s !! i = None → files s' = <[i := fl]> (files s) →
  variant_at n suffix data m i fl (names s) (names s') →
  Forall (λ v, ∃ v0, v0 ∈ versions s ∧ variant_at n suffix data m i fl v0 v) (past s') →
  replacing n data m s s'.
Proof.
  intros Hi Hf Hv Hp. assert (files s' !! i = Some fl) as Hfl by by rewrite Hf, lookup_insert_eq. split.
  - intros j f Hj. rewrite Hf, lookup_insert_ne; [done|]. intros ->. congruence.
  - intros v [->|Hin]%elem_of_cons.
    + exists (names s). split; [left|]. by eapply variant_at_variant.
    + rewrite Forall_forall in Hp. destruct (Hp v Hin) as (v0 & H0 & H). exists v0. split; [done|]. by eapply variant_at_variant.
  - by eapply variant_at_variant.
Qed.

Lemma file_of_handle s f i fl : handles s !! f = Some (Some i) → files s !! i = Some fl → file_of s f = Some (i, fl).
Proof. intros Hh Hf. unfold file_of. by rewrite Hh; cbn; rewrite Hf. Qed.

Section Replace.
Context (s0 : dir) (root : nat) (n data : string) (m : fileMeta) (s : dir) (suffix : string) (i : nat).
Notation t := (tmp_name n suffix).
Hypothesis fresh_i : files s !! i = None.
Hypothesis absent : names s !! t = None.

(** The temp file exists and holds [fl]. *)
Definition filling (fl : file) (s' : dir) : Prop :=
  names s' = <[t := i]> (names s) ∧ past s' = names s :: past s ∧ files s' = <[i := fl]> (files s).

(** The temp file took the name. *)
Definition renamed (s' : dir) : Prop :=
  names s' = <[n := i]> (names s) ∧ files s' = <[i := complete data m]> (files s) ∧
  (past s' = [] ∨ past s' = <[t := i]> (names s) :: names s :: past s).

Lemma variant_at_refl fl v : variant_at n suffix data m i fl v v.
Proof. split; [done|by left]. Qed.

Lemma variant_at_temp fl v : variant_at n suffix data m i fl v (<[t := i]> v).
Proof.
  split; [intros; by rewrite lookup_insert_ne|]. left. rewrite lookup_insert_ne; [done|apply tmp_name_other].
Qed.

Lemma variant_at_name v : variant_at n suffix data m i (complete data m) v (<[n := i]> v).
Proof. split; [intros; by rewrite lookup_insert_ne|]. right. by rewrite lookup_insert_eq. Qed.

Lemma variants_past fl l : l ⊆ versions s →
  Forall (λ v, ∃ v0, v0 ∈ versions s ∧ variant_at n suffix data m i fl v0 v) l.
Proof. intros Hl. apply Forall_forall. intros v Hv. exists v. split; [by apply Hl|apply variant_at_refl]. Qed.

Lemma variants_temp fl : Forall (λ v, ∃ v0, v0 ∈ versions s ∧ variant_at n suffix data m i fl v0 v)
  (<[t := i]> (names s) :: names s :: past s).
Proof.
  constructor; [|by apply variants_past]. exists (names s). split; [left|apply variant_at_temp].
Qed.

Lemma filling_replacing fl s' : filling fl s' → replacing n data m s s'.
Proof.
  intros (Hn & Hp & Hf). eapply (replacing_intro n suffix); [done..| |].
  - rewrite Hn. apply variant_at_temp.
  - rewrite Hp. by apply variants_past.
Qed.

Lemma renamed_replacing s' : renamed s' → replacing n data m s s'.
Proof.
  intros (Hn & Hf & Hp). eapply (replacing_intro n suffix); [done..| |].
  - rewrite Hn. apply variant_at_name.
  - destruct Hp as [->| ->]; [constructor|apply variants_temp].
Qed.

(** A temp file that was created and removed again. *)
Lemma removed_replacing fl s' : names s' = names s → past s' = <[t := i]> (names s) :: names s :: past s →
  files s' = <[i := fl]> (files s) → replacing n data m s s'.
Proof.
  intros Hn Hp Hf. eapply (replacing_intro n suffix); [done..| |].
  - rewrite Hn. apply variant_at_refl.
  - rewrite Hp. apply variants_temp.
Qed.

Notation env := (quiet s0).
Notation ok := (λ (h : log fans) (_ : fcall), replacing n data m s (after s0 h)).

(** The program holds the temp file open. *)
Definition open_filling (tmp : nat) (fl : file) (s' : dir) : Prop :=
  filling fl s' ∧ handles s' !! tmp = Some (Some i).

Lemma set_file_filling tmp fl g s' : open_filling tmp fl s' → open_filling tmp (g fl) (set_file s' tmp g).
Proof.
  intros [(Hn & Hp & Hf) Hh]. unfold set_file.
  rewrite (file_of_handle _ _ i fl) by (done || by rewrite Hf, lookup_insert_eq).
  split; [|done]. split; [done|]. split; [done|]. cbn. by rewrite Hf, insert_insert_eq.
Qed.

Lemma ok_filling fl tmp s' : open_filling tmp fl s' → replacing n data m s s'.
Proof. intros [H _]. by eapply filling_replacing. Qed.

Lemma wp_close_failed h tmp fl (e : gerr) : open_filling tmp fl (after s0 h) →
  wp env ok h (close_with tmp (Some e)) (λ h' e, e ≠ None ∧ ∃ fl, filling fl (after s0 h')).
Proof.
  intros Ho. unfold close_with. wp_call; [by eapply ok_filling|]. intros r _. cbn.
  split; [done|]. exists fl. by destruct Ho.
Qed.

(** A step on the open temp file that succeeds or leaves it open. *)
Lemma wp_tmp_step h tmp msg p k fl fl' Q : open_filling tmp fl (after s0 h) →
  (∀ h' e, e ≠ None → (∃ fl, filling fl (after s0 h')) → Q h' e) →
  wp env ok h p (λ h' e, match e with
                         | Some _ => ∃ fl, open_filling tmp fl (after s0 h')
                         | None => open_filling tmp fl' (after s0 h')
                         end) →
  (∀ h', open_filling tmp fl' (after s0 h') → wp env ok h' k Q) →
  wp env ok h (tmp_step tmp msg p k) Q.
Proof.
  intros Ho HQ Hp Hk. unfold tmp_step. apply wp_bind. eapply wp_mono; [exact Hp|].
  intros h' [e|] H; [|by apply Hk]. destruct H as [fl1 H].
  eapply wp_mono; [by eapply wp_close_failed|]. intros h2 e2 [??]. by apply HQ.
Qed.

Lemma open_filling_file tmp fl s' : open_filling tmp fl s' → file_of s' tmp = Some (i, fl).
Proof. intros [(_ & _ & Hf) Hh]. apply file_of_handle; [done|]. by rewrite Hf, lookup_insert_eq. Qed.

Lemma wp_chownIfOther h tmp o fl : open_filling tmp fl (after s0 h) →
  wp env ok h (chownIfOther tmp o) (λ h' e, match e with
    | Some _ => ∃ fl, open_filling tmp fl (after s0 h')
    | None => open_filling tmp (with_owner o fl) (after s0 h')
    end).
Proof.
  intros Ho. unfold chownIfOther. wp_call; [by eapply ok_filling|]. intros [fi|e] Hr; cbn; [|by eauto].
  destruct Hr as (i' & f' & Hf & ->). fold (after s0 h) in *.
  rewrite (open_filling_file _ _ _ Ho) in Hf. injection Hf as <- <-.
  case_bool_decide as E.
  - cbn. injection E as <-. by destruct fl.
  - wp_last; [by eapply ok_filling|]. intros [e|] _; cbn; fold (after s0 h); [by eauto|].
    by apply set_file_filling.
Qed.

Lemma wp_chown_meta h tmp fl : open_filling tmp fl (after s0 h) → f_owner fl = self →
  wp env ok h (match owner m with Some o => chownIfOther tmp o | None => Ret None end) (λ h' e, match e with
    | Some _ => ∃ fl, open_filling tmp fl (after s0 h')
    | None => open_filling tmp (with_owner (default self (owner m)) fl) (after s0 h')
    end).
Proof.
  intros Ho Hself. destruct (owner m) as [o|]; [by apply wp_chownIfOther|]. cbn. rewrite <- Hself. by destruct fl.
Qed.

Lemma wp_syncDir h : renamed (after s0 h) →
  wp env ok h (syncDir root) (λ h' e, renamed (after s0 h') ∧ (e = None → past (after s0 h') = [])).
Proof.
  intros Hr. unfold syncDir. wp_call; [by apply renamed_replacing|]. intros [d|e] Hd; [|by split].
  fold (after s0 h). assert (renamed (set_handle (after s0 h) d None)) as Hr' by done.
  unfold deferred. apply wp_bind. wp_call; [by apply renamed_replacing|].
  intros [e|] _; cbn; rewrite ?lookup_insert_eq; cbn.
  - split; [by apply renamed_replacing|]. by intros [] _.
  - assert (renamed (MkDir (names (after s0 h)) [] (files (after s0 h)) (<[d:=None]> (handles (after s0 h))))) as Hr2.
    { destruct Hr as (? & ? & _). split; [done|]. split; [done|by left]. }
    split; [by apply renamed_replacing|]. intros e _. split; [|done]. destruct Hr2 as (?&?&?). by split.
Qed.

Definition new_file : file := MkFile FRegular "" 0x180 self false.

Lemma wp_fill_and_rename h tmp : open_filling tmp new_file (after s0 h) →
  wp env ok h (fill_and_rename root n t data m tmp) (λ h' e,
    (e ≠ None ∧ ∃ fl, filling fl (after s0 h')) ∨
    (renamed (after s0 h') ∧ (e = None → past (after s0 h') = []))).
Proof.
  intros Ho. unfold fill_and_rename.
  eapply (wp_tmp_step _ _ _ _ _ _ (with_data data new_file)); [exact Ho|by left| |].
  { wp_call; [by eapply ok_filling|]. intros [k e] [Hk Hall]. cbn in Hk, Hall. cbn. fold (after s0 h).
    destruct e as [e|].
    - eexists. by apply set_file_filling.
    - rewrite Hall by done. unfold len. rewrite Nat2Z.id, take_str_ge by done. by apply set_file_filling. }
  intros h1 H1. eapply (wp_tmp_step _ _ _ _ _ _ (with_owner (default self (owner m)) _)); [exact H1|by left|by apply wp_chown_meta|].
  intros h2 H2. eapply (wp_tmp_step _ _ _ _ _ _ (with_mode (perm m) _)); [exact H2|by left| |].
  { wp_last; [by eapply ok_filling|]. intros [e|] _; cbn; fold (after s0 h2); [by eauto|]. by apply set_file_filling. }
  intros h3 H3. eapply (wp_tmp_step _ _ _ _ _ _ (with_sync _)); [exact H3|by left| |].
  { wp_last; [by eapply ok_filling|]. intros [e|] _; cbn; fold (after s0 h3); [by eauto|].
    destruct H3 as [? Hh]. rewrite Hh. by apply set_file_filling. }
  intros h4 [H4 Hh]. change (with_sync _) with (complete data m) in H4.
  wp_call; [by eapply filling_replacing|]. intros [e|] _; [left; split; [done|by eexists]|].
  assert (filling (complete data m) (after s0 (existT (FClose tmp) None :: h4))) as H5 by exact H4.
  clear H4 Hh. revert H5. generalize (existT (FClose tmp) None :: h4 : log fans). intros h5 H5.
  wp_call; [by eapply filling_replacing|]. intros [e|] Hr; [left; split; [done|by eexists]|].
  eapply wp_mono; [apply wp_syncDir|by right].
  cbn. fold (after s0 h5). destruct H5 as (Hn & Hp & Hf). rewrite Hn, lookup_insert_eq. unfold renamed. cbn.
  rewrite Hn, Hp. split; [by rewrite delete_insert_id|]. split; [done|by right].
Qed.
End Replace.

Lemma new_inode_fresh s : files s !! new_inode s = None.
Proof. apply (not_elem_of_dom (D := gset nat)). unfold new_inode. exact (is_fresh _). Qed.

Lemma wp_replaceFile s0 h root n data m :
  wp (quiet s0) (λ h' _, replacing n data m (after s0 h) (after s0 h')) h (replaceFile root n data m)
    (λ h' e, replacing n data m (after s0 h) (after s0 h') ∧ (e = None → replaced n data m (after s0 h) (after s0 h'))).
Proof.
  unfold replaceFile. wp_call; [by apply replacing_same|]. intros [suffix|e] _; [|by split; [apply replacing_same|]].
  wp_call; [by apply replacing_same|]. intros [tmp|e] Hc; [|by split; [apply replacing_same|]].
  destruct Hc as [Habs Hh]. unfold deferred. apply wp_bind.
  set (s := after s0 h) in *. pose proof (new_inode_fresh s) as Hi. change (names s !! tmp_name n suffix = None) in Habs.
  eapply wp_mono; [eapply (wp_fill_and_rename s0 root n data m s suffix (new_inode s)); [done..|]|].
  { split; [done|]. cbn. by rewrite lookup_insert_eq. }
  intros h' e [[He [fl Hf]]|[Hr He]].
  - wp_call; [by eapply filling_replacing|]. intros [e'|] _; cbn; fold (after s0 h').
    + split; [by eapply filling_replacing|]. by destruct e.
    + destruct Hf as (Hn & Hp & Hf). split; [|by destruct e]. eapply (removed_replacing n data m s suffix); [done|..]; cbn; [|by rewrite Hn, Hp|done].
      rewrite Hn. by apply delete_insert_id.
  - wp_call; [by eapply renamed_replacing|]. intros [e'|] Hrm; cbn; fold (after s0 h').
    + split; [by eapply renamed_replacing|]. intros Hok. exists (new_inode s). destruct Hr as (?&?&_). split_and!; auto.
    + exfalso. destruct Hr as (Hn & _). cbn in Hrm. destruct Hrm as [j Hj]. fold (after s0 h') in Hj.
      rewrite Hn, lookup_insert_ne in Hj by (symmetry; apply tmp_name_other). congruence.
Qed.
End Directory.
