(* ===== verification/HostFilesWrite.v ===== *)
(** * Writing, reading and restoring a host file

    [writeIn], [readPrior] and [restoreIn] of [HostFiles] in the directory of
    [HostFilesCrash]: what a crash at any point leaves, what each operation returns and
    changes, and that a rollback gives back the file an edit found. *)

From S2P Require Import Prelude Effects GoStrings GoStd GoTime GoPath Host HostFiles HostFilesCrash.

Definition bak (n : string) : string := n +:+ ".bak".

(** The same entries and files; handles may differ. *)
Definition same_dir (s s' : dir) : Prop := names s' = names s ∧ past s' = past s ∧ files s' = files s.

Lemma same_dir_refl s : same_dir s s.
Proof. done. Qed.

Lemma same_dir_trans s1 s2 s3 : same_dir s1 s2 → same_dir s2 s3 → same_dir s1 s3.
Proof. intros (?&?&?) (?&?&?). repeat split; congruence. Qed.

Lemma same_dir_visible s s' n : same_dir s s' → visible s' n = visible s n.
Proof. intros (Hn & _ & Hf). unfold visible. by rewrite Hn, Hf. Qed.

Lemma same_dir_survives s s' n c : same_dir s s' → survives s n c ↔ survives s' n c.
Proof. intros (Hn & Hp & Hf). unfold survives, survives_file, versions. by rewrite Hn, Hp, Hf. Qed.

(** The file under a name as [Stat] describes it. *)
Definition found (s : dir) (n : string) : option finfo := i ← names s !! n; f ← files s !! i; Some (info i f).

Lemma bak_other n : bak n ≠ n.
Proof. unfold bak. intros E%(f_equal String.length). rewrite str_length_app in E. cbn [String.length] in E. lia. Qed.

Lemma name_no_temp_of_bak n : ¬ temp_of (bak n) n.
Proof.
  intros [suffix E%(f_equal String.length)]. unfold tmp_name, bak in E. rewrite !str_length_app in E. cbn [String.length] in E. lia.
Qed.

Lemma bak_no_temp n : ¬ temp_of n (bak n).
Proof. intros [suffix E]. unfold tmp_name, bak in E. destruct (str_app_inv_len _ _ _ _ eq_refl E) as [_ E']. discriminate E'. Qed.

Section Write.
Context (self : fileOwner).
Notation replacing := (replacing self).
Notation replaced := (replaced self).
Notation complete := (complete self).
Notation after := (after self).
Notation quiet := (quiet self).

(** ** What a crash leaves *)

(** After a crash in [s'], while [data] replaces [n] of [s], the name holds what it could
    hold before or all of [data]; in the second case the backup holds the old bytes. *)
Definition crash_safe (n data : string) (s s' : dir) : Prop := ∀ c, survives s' n c →
  survives s n c ∨ c = Some data ∧ ∀ f, visible s n = Some f → ∀ b, survives s' (bak n) b → b = Some (f_data f).

Lemma crash_safe_same n data s s' : same_dir s s' → crash_safe n data s s'.
Proof. intros Hs c Hc. left. by apply (same_dir_survives s s'). Qed.

Lemma crash_safe_from n data s s1 s2 : same_dir s s1 → crash_safe n data s1 s2 → crash_safe n data s s2.
Proof.
  intros Hs H c Hc. destruct (H c Hc) as [Hl|[-> Hr]]; [left; by apply (same_dir_survives s s1)|right].
  split; [done|]. intros f Hf. apply Hr. by rewrite (same_dir_visible s s1).
Qed.

(** An entry of a version that did not change holds what it held. *)
Lemma survives_kept s s' n c (v v0 : gmap string nat) : (∀ i f, files s !! i = Some f → files s' !! i = Some f) →
  v0 ∈ versions s → v !! n = v0 !! n →
  match v !! n, c with None, None => True | Some i, Some c => survives_file s' i c | _, _ => False end → survives s n c.
Proof.
  intros Hfiles Hv E H. exists v0. split; [done|]. rewrite <- E. destruct (v !! n) as [i|], c as [c|]; try done.
  intros f Hf. by apply H, Hfiles.
Qed.

Lemma survives_complete s i c data m : files s !! i = Some (complete data m) → survives_file s i c → c = data.
Proof. intros Hf H. exact (H _ Hf eq_refl). Qed.

Lemma replacing_survives n data m s s' c : replacing n data m s s' → survives s' n c → survives s n c ∨ c = Some data.
Proof.
  intros [Hf Hv _] (v & Hin & H). destruct (Hv v Hin) as (v0 & H0 & _ & [E|(i & Hi & Hc)]).
  - left. by eapply survives_kept.
  - right. rewrite Hi in H. destruct c as [c|]; [|done]. f_equal. by eapply survives_complete.
Qed.

(** A name that is neither replaced nor a temp file. *)
Lemma replacing_survives_other n data m s s' n' c : replacing n data m s s' → n' ≠ n → ¬ temp_of n n' →
  survives s' n' c → survives s n' c.
Proof.
  intros [Hf Hv _] H1 H2 (v & Hin & H). destruct (Hv v Hin) as (v0 & H0 & Ho & _).
  apply (survives_kept s s' n' c v v0); [done|done|by apply Ho|done].
Qed.

Lemma replaced_survives n data m s s' c : replaced n data m s s' → survives s' n c → c = Some data.
Proof.
  intros (i & _ & Hn & Hp & Hf) (v & Hin & H). unfold versions in Hin. rewrite Hp in Hin.
  apply list_elem_of_singleton in Hin as ->. rewrite Hn, lookup_insert_eq in H. destruct c as [c|]; [|done].
  f_equal. eapply survives_complete; [|done]. by rewrite Hf, lookup_insert_eq.
Qed.

Lemma crash_safe_backup n data old m s s' : replacing (bak n) old m s s' → crash_safe n data s s'.
Proof.
  intros Hr c Hc. left. eapply replacing_survives_other; [done|..|done]; [intros E; by apply (bak_other n)|].
  apply name_no_temp_of_bak.
Qed.

Lemma crash_safe_new n data m s s' : visible s n = None → replacing n data m s s' → crash_safe n data s s'.
Proof.
  intros Hn Hr c Hc. destruct (replacing_survives _ _ _ _ _ _ Hr Hc) as [H| ->]; [by left|right]. split; [done|].
  intros f Hf. congruence.
Qed.

(** The second replacement, after the backup is synced. *)
Lemma crash_safe_over n data f m s s1 s2 : visible s n = Some f → replaced (bak n) (f_data f) m s s1 →
  replacing n data m s1 s2 → crash_safe n data s s2.
Proof.
  intros Hf Hb Hr c Hc. destruct (replacing_survives _ _ _ _ _ _ Hr Hc) as [(v & Hv & H)| ->].
  - left. destruct Hb as (i & Hi & Hn & Hp & Hfs). unfold versions in Hv. rewrite Hp in Hv.
    apply list_elem_of_singleton in Hv as ->.
    eapply (survives_kept s s1 _ _ (names s1) (names s)); [|left| |done].
    + intros j g Hj. rewrite Hfs, lookup_insert_ne; [done|]. intros ->. congruence.
    + rewrite Hn, lookup_insert_ne; [done|apply bak_other].
  - right. split; [done|]. intros g Hg b Hsb. assert (g = f) as -> by congruence.
    eapply replaced_survives; [exact Hb|].
    eapply replacing_survives_other; [exact Hr|apply bak_other|apply bak_no_temp|done].
Qed.

Lemma set_file_mode s i f h mode : file_of s h = Some (i, f) →
  set_file s h (with_mode mode) = MkDir (names s) (past s) (<[i := with_mode mode f]> (files s)) (handles s).
Proof. intros H. unfold set_file. by rewrite H. Qed.

Lemma crash_safe_chmod n data s s' h mode : same_dir s s' → crash_safe n data s (set_file s' h (with_mode mode)).
Proof.
  intros Hs. eapply crash_safe_from; [exact Hs|]. unfold set_file. destruct (file_of s' h) as [[i f]|] eqn:E; [|by apply crash_safe_same].
  intros c (v & Hv & H). left. exists v. split; [exact Hv|]. destruct (v !! n) as [j|], c as [c|]; try done.
  unfold file_of in E. destruct (handles s' !! h) as [[i'|]|]; [|done|done]. cbn in E.
  destruct (files s' !! i') as [f'|] eqn:Ef; [|done]. injection E as -> ->.
  intros g Hg Hsync. cbn in H. destruct (decide (j = i)) as [->|Hne].
  - assert (g = f) as -> by congruence. apply (H (with_mode mode f)); [cbn; by rewrite lookup_insert_eq|done].
  - apply (H g); [|done]. cbn. by rewrite lookup_insert_ne.
Qed.

(** ** Opening and reading *)

(** A handle on the file [fl] that [n] names. *)
Definition opened (s : dir) (n : string) (s' : dir) (f i : nat) (fl : file) : Prop :=
  same_dir s s' ∧ names s !! n = Some i ∧ files s !! i = Some fl ∧ handles s' !! f = Some (Some i).

Lemma opened_file s n s' f i fl : opened s n s' f i fl → file_of s' f = Some (i, fl).
Proof. intros ((_ & _ & Hf) & _ & Hi & Hh). apply file_of_handle; [done|by rewrite Hf]. Qed.

Lemma opened_visible s n s' f i fl : opened s n s' f i fl → visible s n = Some fl.
Proof. intros (_ & Hn & Hf & _). unfold visible. by rewrite Hn. Qed.

Lemma opened_found s n s' f i fl : opened s n s' f i fl → found s n = Some (info i fl).
Proof. intros (_ & Hn & Hf & _). unfold found. rewrite Hn. cbn. by rewrite Hf. Qed.

Lemma wp_openRegularMax s0 h root n max :
  wp (quiet s0) (λ h' _, same_dir (after s0 h) (after s0 h')) h (openRegularMax root n max) (λ h' r,
    same_dir (after s0 h) (after s0 h') ∧
    match r with
    | Ok f => ∃ i fl, opened (after s0 h) n (after s0 h') f i fl ∧ f_type fl = FRegular
    | Err e => errors_Is e ErrNotExist = true → names (after s0 h) !! n = None
    end).
Proof.
  unfold openRegularMax, and_then. wp_call; [done|]. intros [lfi|e] Hl; [|split; [done|exact Hl]].
  destruct Hl as (i & fl & Hn & Hf & ->). change (fi_type (info i fl)) with (f_type fl).
  destruct (f_type fl) eqn:Et; [|cbn; by split..].
  wp_call; [done|]. intros [f|e] Ho; [|split; [done|exact Ho]].
  set (s := after s0 h) in *.
  assert (opened s n (set_handle s f (Some i)) f i fl) as Hop.
  { split_and!; [done..|]. cbn. by rewrite lookup_insert_eq. }
  lazymatch goal with |- wp _ _ ?l0 _ _ => assert (after s0 l0 = set_handle s f (Some i)) as Ha; [|revert Ha; generalize l0] end; [|intros l Ha].
  { change (fstep self s (FOpenRead root n) (Ok f) = set_handle s f (Some i)). cbn. by rewrite Hn. }
  assert (same_dir s (after s0 l)) as Hl by by rewrite Ha.
  wp_call; [done|]. intros [fi|e] Hs.
  - destruct Hs as (i' & fl' & Hs & ->). rewrite Ha, (opened_file _ _ _ _ _ _ Hop) in Hs.
    injection Hs as <- <-. unfold SameFile. cbn [fi_id info]. rewrite Nat.eqb_refl. cbn [negb].
    destruct (max <? _).
    + unfold close_with. wp_call; [done|]. intros r _. by split.
    + split; [done|]. exists i, fl. change (after s0 (_ :: l)) with (after s0 l). by rewrite Ha.
  - unfold close_with. wp_call; [done|]. intros r _. split; [done|]. unfold quiet, HostFilesCrash.quiet in Hs. cbn in Hs.
    unfold other_error in Hs. congruence.
Qed.

Lemma wp_readAllCapped s0 ok h s n f i fl : opened s n (after s0 h) f i fl →
  (∀ h c, same_dir s (after s0 h) → ok h c) →
  wp (quiet s0) ok h (readAllCapped f) (λ h' r, opened s n (after s0 h') f i fl ∧ ∀ d, r = Ok d → d = f_data fl).
Proof.
  intros Ho Hok. unfold readAllCapped, and_then. wp_call; [apply Hok; by destruct Ho|]. intros [d|e] Hr; [|by split].
  destruct Hr as (i' & fl' & Hf & ->). rewrite (opened_file _ _ _ _ _ _ Ho) in Hf. injection Hf as <- <-.
  cbn. split; [done|]. destruct (_ <? _) eqn:E; [done|]. intros d [= <-]. apply Z.ltb_ge in E.
  by apply limited_all; [apply maxHostFileSize_nonneg|].
Qed.

(** ** The result of a write *)

(** [r] of [writeIn] tells what the directory shows: all of [data], with the old content in
    the backup, or the content there was. *)
Definition wrote (n data : string) (m : fileMeta) (s s' : dir) : Prop :=
  visible s' n = Some (complete data m) ∧ past s' = [] ∧
  (∀ f, visible s n = Some f → f_data f ≠ data ∧ visible s' (bak n) = Some (complete (f_data f) m)) ∧
  (∀ n', n' ≠ n → n' ≠ bak n → names s' !! n' = names s !! n') ∧
  (∀ i f, files s !! i = Some f → files s' !! i = Some f).

(** The content was current: only the mode changed. *)
Definition was_current (n data : string) (m : fileMeta) (s s' : dir) : Prop :=
  names s' = names s ∧ past s' = past s ∧
  ∃ i f mode, names s !! n = Some i ∧ files s !! i = Some f ∧ f_data f = data ∧
    Z.land mode all_mode_bits = Z.land (perm m) all_mode_bits ∧ files s' = <[i := with_mode mode f]> (files s).

Definition write_result (n data : string) (m : fileMeta) (s s' : dir) (r : res bool) : Prop :=
  match r with
  | Ok true => wrote n data m s s'
  | Ok false => was_current n data m s s'
  | Err _ => visible s' n = visible s n ∨
      visible s' n = Some (complete data m) ∧ ∀ f, visible s n = Some f → f_data f ≠ data
  end.

Lemma replacing_visible n data m s s' : is_Some (visible s n) ∨ names s !! n = None → replacing n data m s s' →
  visible s' n = visible s n ∨ visible s' n = Some (complete data m).
Proof.
  intros Hc [Hf _ [_ [E|(i & Hi & H)]]]; unfold visible in *; [left|right].
  - rewrite E. destruct (names s !! n) as [j|]; [|done]. cbn in *. destruct Hc as [[g Hg]|]; [|done]. by rewrite Hg, (Hf _ _ Hg).
  - by rewrite Hi.
Qed.

Lemma replaced_wrote n data m s s' : visible s n = None → replaced n data m s s' → wrote n data m s s'.
Proof.
  intros Hv (i & Hi & Hn & Hp & Hf). unfold wrote, visible in *. rewrite Hn, Hp, Hf.
  split_and!; [rewrite lookup_insert_eq; cbn; by rewrite lookup_insert_eq|done|congruence|..].
  - intros n' H _. by rewrite lookup_insert_ne.
  - intros j f Hj. rewrite lookup_insert_ne; [done|]. intros ->. congruence.
Qed.

Lemma replaced_over_wrote n data f m s s1 s2 : visible s n = Some f → f_data f ≠ data →
  replaced (bak n) (f_data f) m s s1 → replaced n data m s1 s2 → wrote n data m s s2.
Proof.
  intros Hv Hd (i & Hi & Hn & Hp & Hf) (j & Hj & Hn2 & Hp2 & Hf2). rewrite Hf in Hj.
  assert (j ≠ i) as Hji by (intros ->; by rewrite lookup_insert_eq in Hj). rewrite lookup_insert_ne in Hj by done.
  unfold wrote, visible in *. rewrite Hn2, Hp2, Hf2, Hn, Hf.
  split_and!; [rewrite lookup_insert_eq; cbn; by rewrite lookup_insert_eq|done|..].
  - intros g Hg. assert (g = f) as -> by congruence. split; [done|].
    rewrite lookup_insert_ne, lookup_insert_eq by (intros E; by apply (bak_other n)). cbn.
    by rewrite lookup_insert_ne, lookup_insert_eq.
  - intros n' H1 H2. by rewrite !lookup_insert_ne.
  - intros k g Hk. rewrite !lookup_insert_ne; [done|intros ->; congruence..].
Qed.

(** The same results from a directory that only differs in its handles. *)
Lemma write_result_from n data m s s1 s2 r : same_dir s s1 → write_result n data m s1 s2 r → write_result n data m s s2 r.
Proof.
  intros Hs. pose proof (same_dir_visible s s1 n Hs) as Hv. destruct Hs as (Hn & Hp & Hf).
  destruct r as [[]|]; cbn; unfold wrote, was_current; by rewrite ?Hv, ?Hn, ?Hp, ?Hf.
Qed.

Lemma same_dir_found s s' n : same_dir s s' → found s' n = found s n.
Proof. intros (Hn & _ & Hf). unfold found. by rewrite Hn, Hf. Qed.

Lemma was_current_same n data m s s' f i fl : opened s n s' f i fl → f_data fl = data →
  Z.land (f_mode fl) all_mode_bits = perm m → was_current n data m s s'.
Proof.
  intros ((Hn & Hp & Hf) & Hi & Hfl & _) <- Hm. split_and!; [done..|]. exists i, fl, (f_mode fl). split_and!; [done..| |].
  - rewrite <- Hm, <- Z.land_assoc. by rewrite Z.land_diag.
  - rewrite Hf, insert_id; [done|]. rewrite Hfl. by destruct fl.
Qed.

Lemma was_current_chmod n data m s s' f i fl : opened s n s' f i fl → f_data fl = data →
  was_current n data m s (set_file s' f (with_mode (perm m))).
Proof.
  intros Ho <-. rewrite (set_file_mode _ _ _ _ _ (opened_file _ _ _ _ _ _ Ho)). destruct Ho as ((Hn & Hp & Hf) & Hi & Hfl & _).
  split_and!; [done..|]. exists i, fl, (perm m). split_and!; [done..|]. cbn. by rewrite Hf.
Qed.

(** Writing the backup does not touch the file. *)
Lemma backup_visible n old m s s1 s' f : same_dir s s1 → visible s n = Some f → replacing (bak n) old m s1 s' →
  visible s' n = Some f.
Proof.
  intros Hs Hv [Hf _ [Ho _]]. rewrite <- (same_dir_visible s s1) in Hv by done. unfold visible in *.
  rewrite (Ho n); [|intros E; by apply (bak_other n)|apply name_no_temp_of_bak].
  destruct (names s1 !! n) as [i|]; [|done]. by apply Hf.
Qed.

Lemma replaced_replacing n data m s s' : replaced n data m s s' → replacing n data m s s'.
Proof.
  intros (i & Hi & Hn & Hp & Hf). eapply (renamed_replacing self n data m s "" i); [done|]. split; [done|]. split; [done|by left].
Qed.

Section WriteIn.
Context (s0 : dir) (root : nat) (n data : string) (meta : option finfo → fileMeta) (s : dir).
Notation env := (quiet s0).
Notation ok := (λ (h : log fans) (_ : fcall), crash_safe n data s (after s0 h)).
Notation m := (meta (found s n)).

(** The write is over with [r]. *)
Definition done_with (h : log fans) (r : res bool) : Prop :=
  crash_safe n data s (after s0 h) ∧ write_result n data m s (after s0 h) r.

Lemma done_unchanged h e : same_dir s (after s0 h) → done_with h (Err e).
Proof. intros Hs. split; [by apply crash_safe_same|]. left. by apply same_dir_visible. Qed.

(** The replacement of the file itself. *)
Lemma wp_replace_name h (Hv : is_Some (visible (after s0 h) n) ∨ names (after s0 h) !! n = None) :
  (∀ s', replacing n data m (after s0 h) s' → crash_safe n data s s') →
  (∀ s', replaced n data m (after s0 h) s' → wrote n data m s s') →
  visible (after s0 h) n = visible s n → (∀ f, visible s n = Some f → f_data f ≠ data) →
  wp env ok h (e ← replaceFile root n data m; Ret (match e with Some e => Err (EWrap "write" e) | None => Ok true end)) done_with.
Proof.
  intros Hsafe Hdone Hvis Hne. apply wp_bind. eapply wp_mono.
  { eapply wp_weaken; [|apply wp_replaceFile]. intros h' c Hr. by apply Hsafe. }
  intros h' [e|] [Hr He]; (split; [by apply Hsafe|]); [|by apply Hdone, He].
  cbn. rewrite <- Hvis. destruct (replacing_visible _ _ _ _ _ Hv Hr); [by left|right]. split; [done|]. by rewrite Hvis.
Qed.

Lemma wp_write_over h f i fl : opened s n (after s0 h) f i fl →
  wp env ok h (write_over root n data meta f) (λ h' p,
    match p with
    | Stop r => done_with h' r
    | Replace m' => m' = m ∧ f_data fl ≠ data ∧ ∃ s1, same_dir s s1 ∧ replaced (bak n) (f_data fl) m s1 (after s0 h')
    end).
Proof.
  intros Ho. pose proof Ho as (Hs & _). pose proof (crash_safe_same n data s (after s0 h) Hs) as Hok.
  unfold write_over. wp_call; [done|]. intros [fi|e] Hst.
  2: { unfold close_with. wp_call; [done|]. intros r _. by apply done_unchanged. }
  destruct Hst as (i' & fl' & Hst & ->). rewrite (opened_file _ _ _ _ _ _ Ho) in Hst. injection Hst as <- <-.
  rewrite <- (opened_found _ _ _ _ _ _ Ho). apply wp_bind.
  eapply wp_mono; [eapply (wp_readAllCapped s0 _ _ s n f i fl); [exact Ho|intros; by apply crash_safe_same]|].
  clear h Ho Hs Hok. intros h [old|e] [Ho Hd]; pose proof Ho as (Hs & _); pose proof (crash_safe_same n data s (after s0 h) Hs) as Hok.
  2: { unfold close_with. wp_call; [done|]. intros r _. by apply done_unchanged. }
  rewrite (Hd old eq_refl). clear old Hd. destruct (String.eqb_spec (f_data fl) data) as [Hd|Hne].
  - apply wp_bind. cbn [fi_mode info]. destruct (Z.eqb_spec (Z.land (f_mode fl) all_mode_bits) (perm m)) as [E|E]; cbn [negb].
    + apply wp_ret. unfold close_with. wp_call; [done|]. intros r _. split; [done|]. exact (was_current_same n data _ s _ f i fl Ho Hd E).
    + wp_last; [done|]. intros [e|] _; unfold close_with; (wp_call; [try done; by apply crash_safe_chmod|]); intros r _.
      * by apply done_unchanged.
      * split; [by apply (crash_safe_chmod n data s (after s0 h))|]. exact (was_current_chmod n data _ s _ f i fl Ho Hd).
  - wp_call; [done|]. intros r _. apply wp_bind.
    assert (same_dir s (after s0 (existT (FClose f) r :: h))) as Hs' by exact Hs.
    eapply wp_mono; [eapply wp_weaken; [|apply wp_replaceFile]|].
    { intros h1 c Hr. eapply crash_safe_from; [exact Hs'|]. eapply crash_safe_backup. exact Hr. }
    intros h' [e|] [Hr He]; cbn.
    + split; [eapply crash_safe_from; [exact Hs'|]; eapply crash_safe_backup; exact Hr|]. left.
      rewrite (opened_visible _ _ _ _ _ _ Ho). eapply backup_visible; [exact Hs'|by eapply opened_visible|exact Hr].
    + split; [done|]. split; [done|]. eexists. split; [exact Hs'|]. by apply He.
Qed.

Lemma wp_writeIn h : same_dir s (after s0 h) → wp env ok h (writeIn root n data meta) done_with.
Proof.
  intros Hs. unfold writeIn. apply wp_bind.
  eapply wp_mono; [eapply wp_weaken; [|apply wp_openRegularMax]|].
  { intros h1 c H1. apply crash_safe_same. by eapply same_dir_trans. }
  intros h1 o [H1 Ho]. apply wp_bind. assert (same_dir s (after s0 h1)) as Hs1 by by eapply same_dir_trans.
  destruct o as [f|e].
  - destruct Ho as (i & fl & (_ & Hi & Hfl & Hh) & _). destruct Hs as (Hn & Hp & Hf). rewrite Hn in Hi. rewrite Hf in Hfl.
    assert (opened s n (after s0 h1) f i fl) as Ho by by split_and!.
    eapply wp_mono; [by eapply wp_write_over|]. intros h2 [r|m'] H2; [done|].
    destruct H2 as (-> & Hne & s1 & H2 & Hb). pose proof (opened_visible _ _ _ _ _ _ Ho) as Hv.
    assert (visible (after s0 h2) n = Some fl) as Hv2.
    { apply (backup_visible n (f_data fl) m s s1); [done..|]. by apply replaced_replacing. }
    apply wp_replace_name; [left; by rewrite Hv2|..|congruence|congruence].
    + intros s' Hr. eapply crash_safe_from; [exact H2|]. eapply crash_safe_over; [|exact Hb|exact Hr].
      by rewrite (same_dir_visible s s1).
    + intros s' Hr. apply (write_result_from n data m s s1 s' (Ok true)); [done|].
      eapply replaced_over_wrote; [|exact Hne|exact Hb|exact Hr]. by rewrite (same_dir_visible s s1).
  - destruct (errors_Is e ErrNotExist) eqn:E; [|by apply done_unchanged]. apply wp_ret. specialize (Ho eq_refl).
    assert (names (after s0 h1) !! n = None) as Hn1.
    { destruct H1 as (-> & _). done. }
    assert (visible (after s0 h1) n = None) as Hv1 by (unfold visible; by rewrite Hn1).
    assert (found s n = None) as Hfd. { rewrite <- (same_dir_found s (after s0 h1)) by done. unfold found. by rewrite Hn1. }
    rewrite <- Hfd. apply wp_replace_name; [by right|..|by apply same_dir_visible|].
    + intros s' Hr. eapply crash_safe_from; [exact Hs1|]. by eapply crash_safe_new.
    + intros s' Hr. apply (write_result_from n data m s (after s0 h1) s' (Ok true)); [done|]. by apply replaced_wrote.
    + intros f Hf. rewrite <- (same_dir_visible s (after s0 h1)) in Hf by done. congruence.
Qed.
End WriteIn.

(** C15: A write of [data] as the file [n], interrupted by a crash at any point: the name holds
    what it held before the write, or all of [data]; and once it can hold [data], the
    backup holds the bytes that [data] replaced. *)
Theorem writeIn_crash_safe s0 root n data meta h r pre post c :
  runs (quiet s0) (writeIn root n data meta) [] h r → h = post ++ pre → survives (after s0 pre) n c →
  survives s0 n c ∨
  c = Some data ∧ ∀ f, visible s0 n = Some f → ∀ b, survives (after s0 pre) (bak n) b → b = Some (f_data f).
Proof.
  intros Hr -> Hc. destruct (wp_sound _ _ _ _ _ _ _ (wp_writeIn s0 root n data meta s0 [] (same_dir_refl _)) Hr) as [Hlog [Hend _]].
  revert c Hc. change (crash_safe n data s0 (after s0 pre)). destruct post as [|[c a] post] using rev_ind; [done|].
  rewrite <- app_assoc in Hlog. apply (log_ok_at _ _ _ _ _ _ Hlog). exists pre. by rewrite app_nil_r.
Qed.

(** The result of a write tells what it did. [true]: the file has exactly the new content
    and metadata, on the disk, the backup has the old content with the same metadata, and no
    other entry changed. [false]: the content was current, and only the mode is enforced.
    An error: the file is as it was, or complete. *)
Theorem writeIn_result s0 root n data meta h r :
  runs (quiet s0) (writeIn root n data meta) [] h r → write_result n data (meta (found s0 n)) s0 (after s0 h) r.
Proof.
  intros Hr. by destruct (wp_sound _ _ _ _ _ _ _ (wp_writeIn s0 root n data meta s0 [] (same_dir_refl _)) Hr) as [_ [_ H]].
Qed.

(** ** Rollback *)

Lemma wp_readPrior s0 h root n :
  wp (quiet s0) (λ _ _, True) h (readPrior root n) (λ h' r, same_dir (after s0 h) (after s0 h') ∧ ∀ p, r = Ok p →
    (p = no_prior ∧ names (after s0 h) !! n = None) ∨
    ∃ i fl, names (after s0 h) !! n = Some i ∧ files (after s0 h) !! i = Some fl ∧ f_type fl = FRegular ∧
      p = MkPrior true (f_data fl) (MkMeta (Perm (f_mode fl)) (Some (f_owner fl)))).
Proof.
  unfold readPrior. set (s := after s0 h). apply wp_bind.
  eapply wp_mono; [eapply wp_weaken; [|apply wp_openRegularMax]; done|]. intros h1 [f|e] [Hs Ho].
  - destruct Ho as (i & fl & Ho & Ht). unfold deferred, and_then. apply wp_bind. wp_call; [done|]. intros [fi|e] Hst.
    2: { wp_call; [done|]. intros r _. by split. }
    destruct Hst as (i' & fl' & Hst & ->). rewrite (opened_file _ _ _ _ _ _ Ho) in Hst. injection Hst as <- <-.
    apply wp_bind. eapply wp_mono; [by eapply (wp_readAllCapped s0 _ _ s n f i fl)|]. intros h2 [d|e] [Ho2 Hd].
    + wp_call; [done|]. intros r _. split; [by destruct Ho2 as (?&_)|]. intros p [= <-]. right. exists i, fl.
      destruct Ho2 as (_ & ? & ? & _). rewrite (Hd d eq_refl). by split_and!.
    + wp_call; [done|]. intros r _. split; [by destruct Ho2 as (?&_)|]. done.
  - split; [done|]. destruct (errors_Is e ErrNotExist) eqn:E; [|done]. intros p [= <-]. left. split; [done|]. by apply Ho.
Qed.

Lemma sync_names s h r : names (fstep self s (FSync h) r) = names s.
Proof.
  cbn. destruct r; [done|]. destruct (handles s !! h) as [[i|]|]; [|done|done]. unfold set_file.
  by destruct (file_of s h) as [[??]|].
Qed.

Lemma wp_syncDir_names s0 h root :
  wp (quiet s0) (λ _ _, True) h (syncDir root) (λ h' _, names (after s0 h') = names (after s0 h)).
Proof.
  unfold syncDir. wp_call; [done|]. intros [d|e] _; [|done]. unfold deferred. apply wp_bind. wp_call; [done|].
  intros e _. wp_call; [done|]. intros r _. exact (sync_names (set_handle (after s0 h) d None) d e).
Qed.

Lemma wp_removeRegularIn s0 h root n :
  wp (quiet s0) (λ _ _, True) h (removeRegularIn root n) (λ h' e, e = None → visible (after s0 h') n = None).
Proof.
  unfold removeRegularIn. wp_call; [done|]. intros [lfi|e] Hl.
  - destruct (is_regular lfi); [|done]. cbn [negb]. wp_call; [done|]. intros [e|] Hr; [done|].
    eapply wp_mono; [apply wp_syncDir_names|]. intros h' e Hn _. unfold visible. rewrite Hn. cbn. by rewrite lookup_delete_eq.
  - destruct (errors_Is e ErrNotExist) eqn:E; [|done]. intros _. change (visible (after s0 h) n = None). unfold visible. by rewrite (Hl E : names (after s0 h) !! n = None).
Qed.

(** The file is back: its bytes, its permission bits and its owner. *)
Definition restored (f f' : option file) : Prop :=
  match f, f' with
  | None, None => True
  | Some f, Some f' => f_type f' = f_type f ∧ f_data f' = f_data f ∧ f_owner f' = f_owner f ∧ Perm (f_mode f') = Perm (f_mode f)
  | _, _ => False
  end.

Lemma Perm_all_bits x y : Z.land x all_mode_bits = Z.land y all_mode_bits → Perm x = Perm y.
Proof.
  intros E. unfold Perm. replace ModePerm with (Z.land all_mode_bits ModePerm) by done. by rewrite !Z.land_assoc, E.
Qed.

Lemma Perm_Perm x : Perm (Perm x) = Perm x.
Proof. unfold Perm. by rewrite <- Z.land_assoc, Z.land_diag. Qed.

(** A write that does not replace the file keeps its owner; one that does, changes its bytes. *)
Lemma write_result_owner n data m s s' r f i' f' : visible s n = Some f → f_type f = FRegular →
  write_result n data m s s' r → names s' !! n = Some i' → files s' !! i' = Some f' → f_data f' = f_data f →
  f_type f' = FRegular ∧ f_owner f' = f_owner f.
Proof.
  intros Hf Ht Hr Hn' Hf' Hd. assert (visible s' n = Some f') as Hv by (unfold visible; by rewrite Hn').
  destruct r as [[]|e]; cbn in Hr.
  - destruct Hr as (Hv' & _ & Hb & _). destruct (Hb f Hf) as [Hne _]. exfalso. rewrite Hv in Hv'. injection Hv' as ->. by apply Hne.
  - destruct Hr as (Hn & _ & i & g & mode & Hi & Hg & _ & _ & Hfs). rewrite Hn, Hi in Hn'. injection Hn' as <-.
    rewrite Hfs, lookup_insert_eq in Hf'. injection Hf' as <-. unfold visible in Hf. rewrite Hi in Hf. cbn in Hf.
    rewrite Hg in Hf. by injection Hf as ->.
  - destruct Hr as [E|[E Hb]]; [rewrite Hv, Hf in E; by injection E as ->|].
    exfalso. rewrite Hv in E. injection E as ->. by apply (Hb f Hf).
Qed.

(** C21: A pass that edits a file it does not own and rolls back: after the read of the prior
    content, a write of any content with any metadata and any outcome, and a restoration
    that succeeds, the file is what it was, or gone when there was none. *)
Theorem rollback_restores s0 root n data meta h1 p h2 w h3 :
  runs (quiet s0) (readPrior root n) [] h1 (Ok p) →
  runs (quiet s0) (writeIn root n data meta) h1 h2 w →
  runs (quiet s0) (restoreIn root n p) h2 h3 None →
  restored (visible s0 n) (visible (after s0 h3) n).
Proof.
  intros H1 H2 H3.
  destruct (wp_post _ _ _ _ (wp_readPrior s0 [] root n) _ _ H1) as [Hs Hp].
  destruct (wp_sound _ _ _ _ _ _ _ (wp_writeIn s0 root n data meta s0 h1 Hs) H2) as [_ [_ Hw]].
  destruct (Hp p eq_refl) as [[-> Hn]|(i & fl & Hi & Hf & Ht & ->)]; unfold restoreIn in H3; cbn [existed] in H3.
  - rewrite (wp_post _ _ _ _ (wp_removeRegularIn s0 h2 root n) _ _ H3 eq_refl). unfold visible. by rewrite (Hn : names s0 !! n = None).
  - apply runs_bind_inv in H3 as (h & r & H3 & Hr). destruct r as [b|e]; [|by destruct Hr]. destruct Hr as [<- _].
    assert (visible s0 n = Some fl) as Hv by (unfold visible; by rewrite (Hi : names s0 !! n = Some i)).
    destruct (wp_sound _ _ _ _ _ _ _ (wp_writeIn s0 root n _ _ (after s0 h2) h2 (same_dir_refl _)) H3) as [_ [_ Hr]].
    rewrite Hv. destruct b; cbn in Hr.
    + destruct Hr as (-> & _). split_and!; [done..|]. apply Perm_Perm.
    + destruct Hr as (Hn & _ & j & g & mode & Hj & Hg & Hd & Hm & Hfs). unfold visible. rewrite Hn, Hj. cbn.
      rewrite Hfs, lookup_insert_eq. destruct (write_result_owner _ _ _ _ _ _ _ _ _ Hv Ht Hw Hj Hg Hd) as [? ?].
      cbn. split_and!; [congruence|done|done|]. rewrite <- (Perm_Perm (f_mode fl)). by apply Perm_all_bits.
Qed.
End Write.

(** ** A directory that answers *)

(** The answer of the directory [s] when nothing fails. *)
Definition answer (s : dir) (c : fcall) : fans c :=
  match c with
  | FLstat _ n => match names s !! n with
      | Some i => match files s !! i with Some f => Ok (info i f) | None => Err (EMsg "stale") end
      | None => Err (ESentinel ErrNotExist)
      end
  | FOpenRead _ n => match names s !! n with
      | Some i => match files s !! i with Some _ => Ok (fresh (dom (handles s) : gset nat)) | None => Err (EMsg "stale") end
      | None => Err (ESentinel ErrNotExist)
      end
  | FCreateExcl _ n _ => match names s !! n with
      | Some _ => Err (ESentinel ErrExist)
      | None => Ok (fresh (dom (handles s) : gset nat))
      end
  | FOpenSelf _ => Ok (fresh (dom (handles s) : gset nat))
  | FStat h => match file_of s h with Some (i, f) => Ok (info i f) | None => Err (EMsg "bad file descriptor") end
  | FReadLimit h l => match file_of s h with
      | Some (i, f) => Ok (limited l (f_data f)) | None => Err (EMsg "bad file descriptor") end
  | FWrite _ d => (len d, None)
  | FRename _ a _ => match names s !! a with Some _ => None | None => Some (ESentinel ErrNotExist) end
  | FRemove _ n => match names s !! n with Some _ => None | None => Some (ESentinel ErrNotExist) end
  | FOpenRoot _ | FSubRoot _ _ => Ok 0%nat
  | FStatRoot _ => Ok (MkInfo 0 FDir 0 0 None)
  | FReadFile _ => Err (ESentinel ErrNotExist)
  | FRandRead => Ok "12345678"
  | FCreateTemp _ _ => Err (EMsg "read-only")
  | FCloseRoot _ | FSleep _ => tt
  | FNow => 0
  | FMkdir _ _ _ | FChmod _ _ | FChown _ _ | FSync _ | FClose _ | FFlock _ | FMkdirAll _ _ | FRemovePath _ => None
  end.

Lemma fresh_handle s : handles s !! fresh (dom (handles s) : gset nat) = None.
Proof. apply (not_elem_of_dom (D := gset nat)). exact (is_fresh _). Qed.

Lemma answer_allowed s c : allowed s c (answer s c).
Proof.
  destruct c; cbn; try done.
  - destruct (names s !! name) as [i|] eqn:E; [|done]. destruct (files s !! i) as [f|] eqn:Ef; [by exists i, f|done].
  - destruct (names s !! name) as [i|] eqn:E; [|done]. destruct (files s !! i) as [f|] eqn:Ef; [|done].
    split; [unfold visible; by rewrite E; cbn; rewrite Ef|apply fresh_handle].
  - destruct (names s !! name) as [i|] eqn:E; [done|]. split; [done|apply fresh_handle].
  - apply fresh_handle.
  - by destruct (names s !! old) eqn:E.
  - by destruct (names s !! name) eqn:E.
  - destruct (file_of s f) as [[i g]|] eqn:E; [by exists i, g|done].
  - destruct (file_of s f) as [[i g]|] eqn:E; [by exists i, g|done].
  - unfold len. lia.
Qed.

Definition serve_dir (self : fileOwner) (s : dir) (c : fcall) : fans c * dir := (answer s c, fstep self s c (answer s c)).

Lemma play_dir {A} self s (p : fprog A) h :
  runs (quiet self s) p h (play (serve_dir self) (after self s h) p h).1.2 (play (serve_dir self) (after self s h) p h).2.
Proof.
  apply (play_runs_inv _ (λ s' h, s' = after self s h)); [|done]. intros s' h' c ->. split; [apply answer_allowed|done].
Qed.

(** The cloud's provider configuration, group-writable and owned by another user, on a disk
    that has it. *)
Definition cloud_owner : fileOwner := MkOwner 1000 1000.
Definition cloud_file : file := MkFile FRegular "old" 0x1B4 cloud_owner true.
Definition cloud_dir : dir := MkDir {["config.yaml" := 1%nat]} [] {[1%nat := cloud_file]} ∅.
Definition root_user : fileOwner := MkOwner 0 0.

Definition demo_log {A} (h : log fans) (p : fprog A) : log fans := (play (serve_dir root_user) (after root_user cloud_dir h) p h).1.2.
Definition demo_edit : fprog (res bool) := writeForeignIn 0 "config.yaml" "new".
Definition demo_prior : priorContent := MkPrior true "old" (MkMeta 0x1B4 (Some cloud_owner)).

Lemma demo_run {A} (p : fprog A) h : runs (quiet root_user cloud_dir) p h (demo_log h p)
  (play (serve_dir root_user) (after root_user cloud_dir h) p h).2.
Proof. apply play_dir. Qed.

Lemma writeIn_crash_safe_witness :
  let mid := drop 3 (demo_log [] demo_edit) in
  survives cloud_dir "config.yaml" (Some "new") ∨ Some "new" = Some "new" ∧
    ∀ f, visible cloud_dir "config.yaml" = Some f → ∀ b, survives (after root_user cloud_dir mid) "config.yaml.bak" b → b = Some (f_data f).
Proof.
  apply (writeIn_crash_safe root_user cloud_dir 0 "config.yaml" "new" foreign_meta (demo_log [] demo_edit) (Ok true)
    _ (take 3 (demo_log [] demo_edit)) (Some "new") (demo_run demo_edit [])).
  - symmetry. apply take_drop.
  - eexists. split; [left|]. vm_compute. intros f [= <-]. done.
Defined.

Lemma writeIn_result_witness : wrote root_user "config.yaml" "new" (MkMeta 0x1A4 (Some cloud_owner)) cloud_dir
  (after root_user cloud_dir (demo_log [] demo_edit)).
Proof. exact (writeIn_result root_user cloud_dir 0 "config.yaml" "new" foreign_meta _ (Ok true) (demo_run demo_edit [])). Defined.

Lemma rollback_restores_witness :
  let h1 := demo_log [] (readPrior 0 "config.yaml") in
  let h2 := demo_log h1 demo_edit in
  let h3 := demo_log h2 (restoreIn 0 "config.yaml" demo_prior) in
  restored (visible cloud_dir "config.yaml") (visible (after root_user cloud_dir h3) "config.yaml").
Proof.
  exact (rollback_restores root_user cloud_dir 0 "config.yaml" "new" foreign_meta _ demo_prior _ (Ok true) _
    (demo_run (readPrior 0 "config.yaml") []) (demo_run demo_edit _) (demo_run (restoreIn 0 "config.yaml" demo_prior) _)).
Defined.

(** What the edit and the rollback show on the way. *)
Example edit_and_rollback :
  let h1 := demo_log [] demo_edit in
  let h2 := demo_log h1 (restoreIn 0 "config.yaml" demo_prior) in
  visible (after root_user cloud_dir h1) "config.yaml" = Some (MkFile FRegular "new" 0x1A4 cloud_owner true) ∧
  visible (after root_user cloud_dir h1) "config.yaml.bak" = Some (MkFile FRegular "old" 0x1A4 cloud_owner true) ∧
  visible (after root_user cloud_dir h2) "config.yaml" = Some (MkFile FRegular "old" 0x1B4 cloud_owner true).
Proof. by vm_compute. Qed.
