(* ===== verification/HostFilesRaces.v ===== *)
(** * Directories that others write

    A pod that can write a directory may swap its entries between any two calls of the
    installer: plant a symlink, replace a file or a directory. Here the file system is a
    different one at every instant, and nothing relates one instant to the next. The
    operations of [HostFiles] still only read, change the mode of, or walk into what was
    really there under that name, never what a link points to, and only write to files
    they created. *)

From S2P Require Import Prelude Effects GoStrings GoStd GoTime GoPath Host HostFiles HostFilesCrash HostFilesWrite.

Section Races.
(** At every instant: the inode and type under each name of each directory, and the bytes
    of each inode. An instant is a number of calls made. *)
Context (entry : nat → nat → string → option (nat * ftype)) (bytes : nat → nat → string).
(** What a path's directory, an open directory and an open file are: which inode. *)
Context (dir_of file_at : nat → nat) (path_dir : string → nat).

(** The answers such a file system gives. An open ([FSubRoot], [FOpenRead]) may follow a
    link anywhere; [Lstat] never does, and [Stat] of a handle is about the open file. *)
Definition watched (h : log fans) (c : fcall) : fans c → Prop :=
  match c with
  | FOpenRoot p => λ r, ∀ d, r = Ok d → dir_of d = path_dir p
  | FLstat d n => λ r, ∀ fi, r = Ok fi → entry (length h) (dir_of d) n = Some (fi_id fi, fi_type fi)
  | FStatRoot d => λ r, ∀ fi, r = Ok fi → fi_id fi = dir_of d
  | FStat f => λ r, ∀ fi, r = Ok fi → fi_id fi = file_at f
  | FReadLimit f l => λ r, ∀ d, r = Ok d → d = limited l (bytes (length h) (file_at f))
  | _ => λ _, True
  end.

(** At some instant before [t], [n] was really the inode [i] of type [ty] in [d]. *)
Definition was_entry (t d : nat) (n : string) (i : nat) (ty : ftype) : Prop :=
  ∃ t0, (t0 < t)%nat ∧ entry t0 d n = Some (i, ty).

Lemma was_entry_later t t' d n i ty : (t ≤ t')%nat → was_entry t d n i ty → was_entry t' d n i ty.
Proof. intros Hle (t0 & H & ?). exists t0. split; [lia|done]. Qed.

(** The handle was opened under [n] in [d], and is the regular file that was really there. *)
Definition opened_real (h : log fans) (d : nat) (n : string) (f : nat) : Prop :=
  existT (FOpenRead d n) (Ok f) ∈ h ∧ was_entry (length h) (dir_of d) n (file_at f) FRegular.

Lemma opened_real_later l h d n f : opened_real h d n f → opened_real (l ++ h) d n f.
Proof.
  intros [H1 H2]. split; [apply elem_of_app; by right|]. eapply was_entry_later; [|exact H2]. rewrite length_app. lia.
Qed.

(** ** Reading *)

(** The calls that open a file and look at it. *)
Definition looks (c : fcall) : Prop :=
  match c with FLstat _ _ | FOpenRead _ _ | FStat _ | FClose _ => True | _ => False end.

Lemma wp_openRegularMax_watched ok h root n max : (∀ h c, looks c → ok h c) →
  wp watched ok h (openRegularMax root n max) (λ h' r, (length h ≤ length h')%nat ∧
    ∀ f, r = Ok f → opened_real h' root n f).
Proof.
  intros Hok. unfold openRegularMax, and_then. wp_call; [by apply Hok|]. intros [lfi|e] Hl; [|by split; [simpl; lia|]].
  specialize (Hl lfi eq_refl). destruct (fi_type lfi); try by split; [simpl; lia|].
  wp_call; [by apply Hok|]. intros [f|e] _; [|by split; [simpl; lia|]].
  wp_call; [by apply Hok|]. intros [fi|e] Hs; [|unfold close_with; wp_call; [by apply Hok|]; intros r _; by split; [simpl; lia|]].
  specialize (Hs fi eq_refl). unfold SameFile. destruct (Nat.eqb_spec (fi_id lfi) (fi_id fi)) as [E|]; cbn [negb];
    [|unfold close_with; wp_call; [by apply Hok|]; intros r _; by split; [simpl; lia|]].
  destruct (_ <? _); [unfold close_with; wp_call; [by apply Hok|]; intros r _; by split; [simpl; lia|]|].
  split; [simpl; lia|]. intros f' [= <-]. split; [right; left|]. exists (length h). split; [simpl; lia|]. rewrite Hl. congruence.
Qed.

(** The content a read returns is that of a regular file that was itself in the directory
    under the name: no symlink is followed, wherever it points and whenever it appears. *)
Theorem readFileIn_no_link h root n h' data : runs watched (readFileIn root n) h h' (Ok data) →
  ∃ i t, was_entry (length h') (dir_of root) n i FRegular ∧ data = bytes t i.
Proof.
  intros Hr. refine (wp_post watched h _ (λ h' r, ∀ data, r = Ok data → ∃ i t, was_entry (length h') (dir_of root) n i FRegular ∧ data = bytes t i) _ h' _ Hr data eq_refl).
  unfold readFileIn, and_then. apply wp_bind. eapply wp_mono; [by apply wp_openRegularMax_watched|]. intros h1 [f|e] [_ Hf]; [|done].
  destruct (Hf f eq_refl) as [_ Hf']. clear Hf. rename Hf' into Hf. unfold deferred, readAllCapped, and_then. apply wp_bind. wp_call; [done|]. intros [d|e] Hd.
  - apply wp_ret. wp_call; [done|]. intros r _ d'. destruct (maxHostFileSize <? len d) eqn:E; [done|]. intros [= <-].
    exists (file_at f), (length h1). split; [eapply was_entry_later; [|exact Hf]; simpl; lia|].
    rewrite (Hd d eq_refl) in E |- *. apply Z.ltb_ge in E. by apply limited_all; [apply maxHostFileSize_nonneg|].
  - apply wp_ret. by wp_call.
Qed.

(** ** Walking to a directory *)

(** [walk t d ns d']: every step of the path [ns] from the directory [d] was, before [t],
    really a directory, never a link, and the last one is [d']. *)
Fixpoint walk (t d : nat) (ns : list string) (d' : nat) : Prop :=
  match ns with
  | [] => d' = d
  | n :: ns => ∃ i, was_entry t d n i FDir ∧ walk t i ns d'
  end.

Lemma walk_later t t' d ns d' : (t ≤ t')%nat → walk t d ns d' → walk t' d ns d'.
Proof.
  intros Hle. revert d. induction ns as [|n ns IH]; intros d; simpl; [done|]. intros (i & Hi & Hw).
  exists i. split; [by eapply was_entry_later|by apply IH].
Qed.

Lemma wp_lstat_or_mkdir h root n :
  wp watched (λ _ _, True) h (lstat_or_mkdir root n) (λ h' r, (length h ≤ length h')%nat ∧
    ∀ fi, r = Ok fi → was_entry (length h') (dir_of root) n (fi_id fi) (fi_type fi)).
Proof.
  assert (∀ h1, (length h ≤ length h1)%nat → wp watched (λ _ _, True) h1 (trigger (FLstat root n))
    (λ h' r, (length h ≤ length h')%nat ∧ ∀ fi, r = Ok fi → was_entry (length h') (dir_of root) n (fi_id fi) (fi_type fi))) as Hl.
  { intros h1 Hle. wp_last; [done|]. intros r Hr. split; [simpl; lia|]. intros fi E. exists (length h1). split; [simpl; lia|]. by apply Hr. }
  unfold lstat_or_mkdir. wp_cut (Hl h); [done|]. intros h1 [fi|e] [Hle H]; [by split|].
  destruct (errors_Is e ErrNotExist); [|by split]. wp_call; [done|]. intros [e'|] _; [destruct (errors_Is e' ErrExist)|].
  - apply Hl. simpl. lia.
  - by split; [simpl; lia|].
  - apply Hl. simpl. lia.
Qed.

Lemma wp_openSubdir h root n :
  wp watched (λ _ _, True) h (openSubdir root n) (λ h' r, (length h ≤ length h')%nat ∧
    ∀ d, r = Ok d → was_entry (length h') (dir_of root) n (dir_of d) FDir).
Proof.
  unfold openSubdir, and_then. wp_cut wp_lstat_or_mkdir. intros h1 [lfi|e] [Hle H]; [|by split]. specialize (H lfi eq_refl).
  destruct (fi_type lfi); try by split. wp_call; [done|]. intros [d|e] _; [|by split; [simpl; lia|]].
  wp_call; [done|]. intros [fi|e] Hs; [|wp_call; [done|]; intros r _; by split; [simpl; lia|]].
  specialize (Hs fi eq_refl). unfold SameFile. destruct (Nat.eqb_spec (fi_id lfi) (fi_id fi)) as [E|]; cbn [negb];
    [|wp_call; [done|]; intros r _; by split; [simpl; lia|]].
  split; [simpl; lia|]. intros d' [= <-]. rewrite <- Hs, <- E. eapply was_entry_later; [|exact H]. simpl. lia.
Qed.

Lemma wp_open_components h root ns :
  wp watched (λ _ _, True) h (open_components root ns) (λ h' r, (length h ≤ length h')%nat ∧
    ∀ d, r = Ok d → walk (length h') (dir_of root) ns (dir_of d)).
Proof.
  revert h root. induction ns as [|n ns IH]; intros h root; cbn [open_components].
  - split; [done|]. by intros d [= <-].
  - wp_cut wp_openSubdir. intros h1 [next|e] [Hle H]; (wp_call; [done|]); intros r _; [|by split; [simpl; lia|]].
    eapply wp_mono; [apply IH|]. intros h2 r2 [Hle2 H2]. cbn [length] in Hle2. split; [lia|]. intros d Hd. exists (dir_of next).
    split; [|by apply H2]. eapply was_entry_later; [|by apply H]. lia.
Qed.

(** C24: The directory a node path opens is the one its components really lead to from the node's
    root: each of them was a directory under its name, and no link was followed, whatever
    other processes do to the directories on the way. *)
Theorem openNodeDir_no_link h hostRoot nodeDir h' d : runs watched (openNodeDir hostRoot nodeDir) h h' (Ok d) →
  walk (length h') (path_dir hostRoot) (node_components nodeDir) (dir_of d).
Proof.
  intros Hr. refine (wp_post watched h _ (λ h' r, ∀ d, r = Ok d → walk (length h') (path_dir hostRoot) (node_components nodeDir) (dir_of d)) _ h' _ Hr d eq_refl).
  unfold openNodeDir. wp_call; [done|]. intros [root|e] Hd; [|done]. rewrite <- (Hd root eq_refl).
  eapply wp_mono; [apply wp_open_components|]. intros h2 r [_ H]. exact H.
Qed.

(** ** Writing *)

(** The handle was opened by creating its file; the name in the directory was. *)
Definition created (h : log fans) (f : nat) : Prop := ∃ d n' p, existT (FCreateExcl d n' p) (Ok f) ∈ h.
Definition created_as (h : log fans) (d : nat) (n : string) : Prop := ∃ p f, existT (FCreateExcl d n p) (Ok f) ∈ h.

Lemma created_later l h f : created h f → created (l ++ h) f.
Proof. intros (d & n' & p & H). exists d, n', p. apply elem_of_app. right. exact H. Qed.

Lemma created_as_later l h d n : created_as h d n → created_as (l ++ h) d n.
Proof. intros (p & f & H). exists p, f. apply elem_of_app. right. exact H. Qed.

Section Replace.
Context (root : nat) (n : string).

(** The calls of a replacement of [n]: a temp file of its own is created, filled and renamed. *)
Definition replacing_calls (h : log fans) (c : fcall) : Prop :=
  match c with
  | FRandRead | FStat _ | FSync _ | FClose _ | FOpenSelf _ => True
  | FWrite f _ | FChown f _ | FChmod f _ => created h f
  | FCreateExcl d n' p => d = root ∧ temp_of n n' ∧ p = 0x180
  | FRename d a b => d = root ∧ b = n ∧ temp_of n a ∧ created_as h root a
  | FRemove d n' => d = root ∧ temp_of n n' ∧ created_as h root n'
  | _ => False
  end.

Notation rwp := (wp watched replacing_calls).

(** The temp file [tmp] is open as [f]. *)
Definition filling (tmp : string) (f : nat) (h : log fans) : Prop := created h f ∧ created_as h root tmp.

Lemma filling_later tmp f l h : filling tmp f h → filling tmp f (l ++ h).
Proof. intros [??]. split; [by apply created_later|by apply created_as_later]. Qed.

(** Steps on a created file; what follows starts from a longer log. *)
Lemma wp_tmp_filling h tmp f msg p k : filling tmp f h → rwp h p (λ _ _, True) →
  (∀ h', filling tmp f h' → rwp h' k (λ h' _, filling tmp f h')) → rwp h (tmp_step f msg p k) (λ h' _, filling tmp f h').
Proof.
  intros Hc Hp Hk. unfold tmp_step. apply wp_bind. eapply wp_mono; [by apply wp_extends|].
  intros h' [e|] [[l ->] _]; [|by apply Hk, filling_later]. unfold close_with. wp_call; [done|]. intros r _. by apply (filling_later _ _ (_ :: l)).
Qed.

Lemma wp_syncDir_replacing h d : rwp h (syncDir d) (λ _ _, True).
Proof.
  unfold syncDir. wp_call; [done|]. intros [f|e] _; [|done]. unfold deferred. apply wp_bind. wp_call; [done|]. intros e _. by wp_call.
Qed.

Lemma wp_fill_filling h tmp data m f : temp_of n tmp → filling tmp f h →
  rwp h (fill_and_rename root n tmp data m f) (λ h' _, filling tmp f h').
Proof.
  intros Ht Hf. unfold fill_and_rename.
  apply wp_tmp_filling; [done| |clear h Hf; intros h Hf]; [wp_call; [by apply Hf|]; by intros [??] _|].
  apply wp_tmp_filling; [done| |clear h Hf; intros h Hf].
  { destruct (owner m) as [o|]; [|done]. unfold chownIfOther. wp_call; [done|]. intros [fi|e] _; [|done].
    destruct (bool_decide _); [done|]. wp_last; [|done]. apply (created_later [_]), Hf. }
  apply wp_tmp_filling; [done| |clear h Hf; intros h Hf]; [by wp_last; [apply Hf|]|].
  apply wp_tmp_filling; [done|by wp_last|clear h Hf; intros h Hf].
  wp_call; [done|]. intros [e|] _; [by apply (filling_later _ _ [_])|].
  wp_call; [split_and!; [done..|]; apply (created_as_later [_]), Hf|]. intros [e|] _; [by apply (filling_later _ _ [_; _])|].
  eapply wp_mono; [apply wp_extends, wp_syncDir_replacing|]. intros h' r [[l ->] _]. by apply filling_later, (filling_later _ _ [_; _]).
Qed.

Lemma wp_replaceFile_calls h data m : rwp h (replaceFile root n data m) (λ _ _, True).
Proof.
  unfold replaceFile. wp_call; [done|]. intros [suffix|e] _; [|done]. assert (temp_of n (tmp_name n suffix)) as Ht by by exists suffix.
  wp_call; [done|]. intros [f|e] _; [|done]. unfold deferred. apply wp_bind.
  eapply wp_mono; [apply wp_fill_filling; [done|]|].
  - split; [eexists _, _, _; left|eexists _, _; left].
  - intros h' r [_ Hc]. by wp_call.
Qed.
End Replace.

Section Confined.
Context (root : nat) (n : string).

(** The calls of a write of [n]: the file is looked at, then its backup and it are replaced. *)
Definition writing (h : log fans) (c : fcall) : Prop :=
  looks c ∨ replacing_calls root n h c ∨ replacing_calls root (bak n) h c ∨
  match c with
  | FReadLimit f _ | FChmod f _ => opened_real h root n f
  | _ => False
  end.

Lemma wp_replace_writing h n' data m : n' = n ∨ n' = bak n → wp watched writing h (replaceFile root n' data m) (λ _ _, True).
Proof. intros Hn. eapply wp_weaken; [|apply wp_replaceFile_calls]. intros h1 c Hc. unfold writing. destruct Hn as [-> | ->]; tauto. Qed.

Lemma close_writing {A} h f (r : A) : wp watched writing h (close_with f r) (λ _ _, True).
Proof. unfold close_with. by wp_call; [left|]. Qed.

Lemma wp_readAll_writing h f : opened_real h root n f →
  wp watched writing h (readAllCapped f) (λ _ _, True).
Proof. intros Hf. unfold readAllCapped, and_then. wp_call; [by right; right; right|]. by intros [d|e] _. Qed.

Lemma wp_write_over_writing h data meta f : opened_real h root n f →
  wp watched writing h (write_over root n data meta f) (λ _ _, True).
Proof.
  intros Hf. unfold write_over. wp_call; [by left|]. intros [fi|e] _; [|apply close_writing].
  apply wp_bind. eapply wp_mono; [by apply wp_extends, wp_readAll_writing, (opened_real_later [_])|].
  intros h1 [old|e] [[l ->] _]; [|apply close_writing].
  destruct (String.eqb old data).
  - apply wp_bind. eapply (wp_mono _ _ _ _ (λ _ _, True)); [|intros; apply close_writing].
    destruct (negb _); [|done]. wp_last; [|done]. right; right; right. by apply opened_real_later, (opened_real_later [_]).
  - wp_call; [by left|]. intros r _. apply wp_bind. eapply wp_mono; [apply wp_replace_writing; by right|]. by intros h2 [e|] _.
Qed.

Lemma wp_writeIn_writing h data meta : wp watched writing h (writeIn root n data meta) (λ _ _, True).
Proof.
  unfold writeIn. apply wp_bind. eapply wp_mono; [apply wp_openRegularMax_watched; by left|].
  intros h1 o [_ Ho]. apply wp_bind. eapply (wp_mono _ _ _ _ (λ _ _, True)).
  - destruct o as [f|e]; [|done]. by apply wp_write_over_writing, Ho.
  - intros h2 [r|m] _; [done|]. apply wp_bind. eapply wp_mono; [apply wp_replace_writing; by left|]. done.
Qed.

(** The names a write of [n] uses: [n], its backup, and their temp files. *)
Definition target_name (n' : string) : Prop := n' = n ∨ n' = bak n.
Definition scratch_name (n' : string) : Prop := temp_of n n' ∨ temp_of (bak n) n'.

(** What a call of a write may change: bytes and owner of a file it created, the mode of one
    or of the regular file really under [n], and the entries of [root] for its own names. *)
Definition confined (h : log fans) (c : fcall) : Prop :=
  match c with
  | FWrite f _ | FChown f _ => created h f
  | FChmod f _ => created h f ∨ was_entry (length h) (dir_of root) n (file_at f) FRegular
  | FCreateExcl d n' _ | FRemove d n' => d = root ∧ scratch_name n'
  | FRename d a b => d = root ∧ scratch_name a ∧ target_name b
  | FMkdir _ _ _ | FMkdirAll _ _ | FCreateTemp _ _ | FRemovePath _ => False
  | _ => True
  end.

Lemma writing_confined h c : writing h c → confined h c.
Proof. unfold writing, scratch_name, target_name. destruct c; cbn; unfold scratch_name, target_name, opened_real; intuition. Qed.

(** Whatever other processes do to the directory, a write changes bytes and owner only of
    files it created itself, modes only of those and of the regular file that was really
    under the name, and no entry but the file, its backup and their temp files: a planted
    link never sends the installer's write elsewhere. *)
Theorem writeIn_confined h data meta h' r pre c a post :
  runs watched (writeIn root n data meta) h h' r → h' = post ++ existT c a :: pre → (∃ l, pre = l ++ h) → confined pre c.
Proof.
  intros Hr -> Hp. eapply log_ok_at; [|exact Hp]. exact (wp_calls _ _ _ _ _ _ (wp_weaken _ _ _ _ _ _ writing_confined (wp_writeIn_writing h data meta)) Hr).
Qed.
End Confined.
End Races.

(** ** A node *)

(** Every name is a directory but [config.yaml], a regular file. *)
Definition node_entry (t d : nat) (n : string) : option (nat * ftype) :=
  if String.eqb n "config.yaml" then Some (7%nat, FRegular) else Some (S d, FDir).

Definition node_answer (u : unit) (c : fcall) : fans c * unit :=
  (match c return fans c with
   | FLstat d n => match node_entry 0 d n with Some (i, ty) => Ok (MkInfo i ty 0x1A4 3 None) | None => Err (ESentinel ErrNotExist) end
   | FOpenRoot _ => Ok 0%nat
   | FSubRoot d _ => Ok (S d)
   | FStatRoot d => Ok (MkInfo d FDir 0x1ED 0 None)
   | FOpenRead _ _ | FCreateExcl _ _ _ | FOpenSelf _ => Ok 1%nat
   | FStat _ => Ok (MkInfo 7 FRegular 0x1A4 3 None)
   | FReadLimit _ l => Ok (limited l "old")
   | FReadFile _ => Err (ESentinel ErrNotExist)
   | FRandRead => Ok "12345678"
   | FCreateTemp _ _ => Err (EMsg "read-only")
   | FWrite _ d => (len d, None)
   | FCloseRoot _ | FSleep _ => tt
   | FNow => 0
   | FMkdir _ _ _ | FRename _ _ _ | FRemove _ _ | FChmod _ _ | FChown _ _ | FSync _ | FClose _ | FFlock _
   | FMkdirAll _ _ | FRemovePath _ => None
   end, u).

Notation node_watched := (watched node_entry (λ _ _, "old") (λ d, d) (λ _, 7%nat) (λ _, 0%nat)).

Lemma node_runs {A} (p : fprog A) : runs node_watched p [] (play node_answer tt p []).1.2 (play node_answer tt p []).2.
Proof.
  refine (play_runs_in node_watched node_answer tt p [] _). intros s h c. destruct c; try exact I; cbn; try (by intros ? [= <-]).
  unfold node_entry. destruct (String.eqb name "config.yaml"); by intros ? [= <-].
Qed.

Lemma readFileIn_no_link_witness : ∃ i t, was_entry node_entry 5 3 "config.yaml" i FRegular ∧ "old" = (λ _ _ : nat, "old") t i.
Proof.
  exact (readFileIn_no_link node_entry (λ _ _, "old") (λ d, d) (λ _, 7%nat) (λ _, 0%nat) [] 3 "config.yaml" _ "old"
    (node_runs (readFileIn 3 "config.yaml"))).
Defined.

Lemma openNodeDir_no_link_witness : walk node_entry (length (play node_answer tt (openNodeDir "/host" "/etc/kubernetes") []).1.2) 0 ["etc"; "kubernetes"] 2.
Proof.
  exact (openNodeDir_no_link node_entry (λ _ _, "old") (λ d, d) (λ _, 7%nat) (λ _, 0%nat) [] "/host" "/etc/kubernetes" _ 2
    (node_runs (openNodeDir "/host" "/etc/kubernetes"))).
Defined.

Definition node_write : log fans := (play node_answer tt (writeForeignIn 0 "config.yaml" "new") []).1.2.

Lemma writeIn_confined_witness : confined node_entry (λ d, d) (λ _, 7%nat) 0 "config.yaml" (drop 5 node_write)
  (FRename 0 (tmp_name "config.yaml" "12345678") "config.yaml").
Proof.
  refine (writeIn_confined node_entry (λ _ _, "old") (λ d, d) (λ _, 7%nat) (λ _, 0%nat) 0 "config.yaml" [] "new" foreign_meta
    node_write (Ok true) (drop 5 node_write) (FRename 0 (tmp_name "config.yaml" "12345678") "config.yaml") None (take 4 node_write)
    (node_runs (writeForeignIn 0 "config.yaml" "new")) _ _).
  - reflexivity.
  - exists (drop 5 node_write). by rewrite app_nil_r.
Defined.
