(* ===== verification/HostLocks.v ===== *)
(** * Lock files

    [installer/lock.go]: the exclusive flock several installers on a node take around the
    files they share. The wait polls, so that it ends with an error instead of blocking for
    ever; the lock dies with the process and the lock file is never replaced or removed. *)

From S2P Require Import Prelude Effects GoStrings GoStd GoTime GoPath Host HostFiles.

Definition nodeLockPath : string := "/run/harbor-bridge-installer.lock".
Definition lockSuffix : string := ".lock".
Definition defaultLockTimeout : Duration := 10 * Minute.
Definition lockPollInterval : Duration := 200 * 1000000.

Definition openLockFile (root : dirh) (name : string) : fprog (res fileh) :=
  r ← trigger (FCreateExcl root name 0x180);
  match r with
  | Ok f =>
      e ← trigger (FClose f);
      match e with
      | Some e => Ret (Err e)
      | None => openRegular root name
      end
  | Err e => if errors_Is e ErrExist then openRegular root name else Ret (Err e)
  end.

(** The polling loop; [None] is out of fuel. *)
Fixpoint lock_loop (fuel : nat) (deadline : Time) (f : fileh) : fprog (option (res fileh)) :=
  match fuel with
  | O => Ret None
  | S fuel =>
      e ← trigger (FFlock f);
      match e with
      | None => Ret (Some (Ok f))
      | Some e =>
          if negb (errors_Is e EWOULDBLOCK) then close_with f (Some (Err (EWrap "lock" e)))
          else
            now ← trigger FNow;
            if negb (Before now deadline) then close_with f (Some (Err (EMsg "timed out waiting for the lock")))
            else
              _ ← trigger (FSleep lockPollInterval);
              lock_loop fuel deadline f
      end
  end.

(** Every round but the last waits for [lockPollInterval]. *)
Definition lock_fuel (timeout : Duration) : nat := Z.to_nat (timeout / lockPollInterval + 2).

(** The handle that holds the lock; closing it is [unlock]. *)
Definition lockFileIn (root : dirh) (name : string) (timeout : Duration) : fprog (option (res fileh)) :=
  o ← openLockFile root name;
  match o with
  | Err e => Ret (Some (Err (EWrap "lock" e)))
  | Ok f =>
      now ← trigger FNow;
      lock_loop (lock_fuel timeout) (Add now timeout) f
  end.

Definition lockFile (path : string) (timeout : Duration) : fprog (option (res fileh)) :=
  with_root (Dir path) (λ e, Some (Err (EWrap "lock" e))) (λ root, lockFileIn root (Base path) timeout).

Definition unlock (f : fileh) : fprog unit := _ ← trigger (FClose f); Ret tt.

(** ** The wait ends *)

(** The earliest instant the clock can show after a log, and a clock that never goes back
    and advances by every wait. *)
Fixpoint fclock (h : log fans) : option Time :=
  match h with
  | [] => None
  | existT FNow t :: _ => Some t
  | existT (FSleep d) _ :: h => (λ c, c + Z.max 0 d) <$> fclock h
  | _ :: h => fclock h
  end.
Definition fclock_env (h : log fans) (c : fcall) : fans c → Prop :=
  match c with FNow => λ t, ∀ c0, fclock h = Some c0 → c0 ≤ t | _ => λ _, True end.

Lemma wp_lock_loop fuel : ∀ deadline f h c, fclock h = Some c → deadline - c ≤ (Z.of_nat fuel - 1) * lockPollInterval →
  (0 < fuel)%nat → wp fclock_env (λ _ _, True) h (lock_loop fuel deadline f) (λ _ r, r ≠ None).
Proof.
  induction fuel as [|fuel IH]; intros deadline f h c Hc Hd Hf; [lia|]. cbn [lock_loop].
  wp_call; [done|]. intros [e|] _; [|done]. destruct (negb _); [unfold close_with; by wp_call|].
  wp_call; [done|]. intros now Hnow. unfold Before. destruct (Z.ltb_spec now deadline) as [Hlt|Hge]; cbn [negb]; [|unfold close_with; by wp_call].
  specialize (Hnow c Hc). wp_call; [done|]. intros u _.
  assert (0 < lockPollInterval) as Hp by done. rewrite Nat2Z.inj_succ in Hd.
  apply (IH _ _ _ (now + lockPollInterval)); [cbn; f_equal; lia| |]; nia.
Qed.

(** Taking a lock always returns within its timeout: with the lock, or with an error. *)
Theorem lockFileIn_returns root name timeout h h' r : 0 ≤ timeout →
  runs fclock_env (lockFileIn root name timeout) h h' r → r ≠ None.
Proof.
  intros Ht Hr. refine (wp_post fclock_env h _ (λ _ r, r ≠ None) _ h' r Hr).
  unfold lockFileIn. apply wp_bind. eapply wp_mono; [apply wp_true|]. intros h1 [f|e] _; [|done].
  wp_call; [done|]. intros now _. apply (wp_lock_loop _ _ _ _ now); [done| |unfold lock_fuel]; unfold lock_fuel, Add, lockPollInterval in *;
    pose proof (Z.div_pos timeout (200 * 1000000)); pose proof (Z.mod_pos_bound timeout (200 * 1000000));
    pose proof (Z.div_mod timeout (200 * 1000000)); lia.
Qed.

(** A lock another installer holds. *)
Definition held_lock (t : Time) (c : fcall) : fans c * Time :=
  match c return fans c * Time with
  | FLstat _ _ => (Ok (MkInfo 1 FRegular 0x180 0 None), t)
  | FOpenRoot _ | FSubRoot _ _ | FOpenRead _ _ | FOpenSelf _ => (Ok 1%nat, t)
  | FCreateExcl _ _ _ => (Err (ESentinel ErrExist), t)
  | FStatRoot _ | FStat _ => (Ok (MkInfo 1 FRegular 0x180 0 None), t)
  | FReadLimit _ _ | FReadFile _ | FRandRead => (Ok "", t)
  | FCreateTemp _ _ => (Err (EMsg "read-only"), t)
  | FWrite _ d => ((len d, None), t)
  | FCloseRoot _ => (tt, t)
  | FSleep d => (tt, t + Z.max 0 d)
  | FNow => (t, t)
  | FFlock _ => (Some (ESentinel EWOULDBLOCK), t)
  | FMkdir _ _ _ | FRename _ _ _ | FRemove _ _ | FChmod _ _ | FChown _ _ | FSync _ | FClose _
  | FMkdirAll _ _ | FRemovePath _ => (None, t)
  end.

Lemma held_lock_clock s h c : (∀ c0, fclock h = Some c0 → c0 ≤ s) →
  fclock_env h c (held_lock s c).1 ∧ (∀ c0, fclock (existT c (held_lock s c).1 :: h) = Some c0 → c0 ≤ (held_lock s c).2).
Proof.
  intros H. destruct c; cbn; try (split; [exact I|exact H]).
  - split; [exact H|]. intros c0 [= <-]. lia.
  - split; [exact I|]. destruct (fclock h) as [c0|]; [|done]. intros c1 [= <-]. specialize (H c0 eq_refl). lia.
Qed.

Definition demo_lock := play held_lock 0 (lockFileIn 0 "config.lock" (2 * Second)) [].

Lemma lockFileIn_returns_witness : demo_lock.2 ≠ None ∧ demo_lock.2 = Some (Err (EMsg "timed out waiting for the lock")).
Proof.
  split; [|by vm_compute].
  refine (lockFileIn_returns 0 "config.lock" (2 * Second) [] demo_lock.1.2 _ _ _); [done|].
  refine (play_runs_inv fclock_env (λ s h, ∀ c0, fclock h = Some c0 → c0 ≤ s) held_lock 0 _ [] _ _); [|done].
  intros s h c. apply held_lock_clock.
Defined.
