(* ===== verification/InstallerState.v ===== *)
(** * The installer's state file

    [installer/state.go]: what the installer last applied and restarted kubelet for,
    and the content kubelet rejected. The file is JSON text; loading and saving are
    programs over the host's files, and a saved record is loaded back. *)

From S2P Require Import Prelude Effects GoStrings GoStd GoTime Utf8 Json JsonIndent InstallerConfig Host.

(** ** Records *)

Record rejection := MkRejection {
  RMode : string; RBinDir : string; RConfigFile : string; REnvFile : string; RUnit : string;
  REntryHash : string; RAppliedHash : string; RKubelet : string; Reason : string; At : string }.

Record state := MkState {
  SchemaVersion : Z; SMode : string; SBinDir : string; SConfigFile : string; SEnvFile : string;
  AppliedHash : string; EntryHash : string; Rejected : option rejection }.

Record target := MkTarget {
  mode : string; binDir : string; configFile : string; tEnvFile : string; entryHash : string; fileHash : string }.

Definition stateSchemaVersion : Z := 1.
Definition defaultKubeletPath : string := "/etc/default/kubelet".

Definition zero_rejection : rejection := MkRejection "" "" "" "" "" "" "" "" "" "".
Definition zero_state : state := MkState 0 "" "" "" "" "" "" None.

(** [target.state]. *)
Definition target_state (t : target) : state :=
  MkState 0 (mode t) (binDir t) (configFile t) (tEnvFile t) (fileHash t) (entryHash t) None.

Definition testedBy (r : rejection) (kubelet : string) : bool :=
  String.eqb (RKubelet r) "" || String.eqb kubelet "" || String.eqb (RKubelet r) kubelet.

(** [target.rejection]. *)
Definition target_rejection (t : target) (unit kubelet reason : string) (at_ : Time) : rejection :=
  MkRejection (mode t) (binDir t) (configFile t) (tEnvFile t) unit (entryHash t) (fileHash t) kubelet reason (FormatRFC3339 at_).

Definition rejects (s : option state) (t : target) (unit : string) : option rejection :=
  match s with
  | Some s =>
      match Rejected s with
      | Some r =>
          if String.eqb (RMode r) (mode t) && String.eqb (RBinDir r) (binDir t) && String.eqb (RConfigFile r) (configFile t)
             && String.eqb (REnvFile r) (tEnvFile t) && String.eqb (RUnit r) unit
             && String.eqb (REntryHash r) (entryHash t) && String.eqb (RAppliedHash r) (fileHash t)
          then Some r else None
      | None => None
      end
  | None => None
  end.

Definition envFile (s : state) : string :=
  if String.eqb (SEnvFile s) "" && String.eqb (SMode s) modePatch then defaultKubeletPath else SEnvFile s.

Definition matches (s : option state) (t : target) : bool :=
  match s with
  | None => false
  | Some s =>
      String.eqb (SMode s) (mode t) && String.eqb (SBinDir s) (binDir t) && String.eqb (SConfigFile s) (configFile t)
      && String.eqb (envFile s) (tEnvFile t) && negb (String.eqb (EntryHash s) "") && String.eqb (EntryHash s) (entryHash t)
  end.

Definition matchesLegacy (s : option state) (t : target) : bool :=
  match s with
  | None => false
  | Some s =>
      String.eqb (SMode s) (mode t) && String.eqb (SBinDir s) (binDir t) && String.eqb (SConfigFile s) (configFile t)
      && String.eqb (envFile s) (tEnvFile t) && String.eqb (EntryHash s) "" && String.eqb (AppliedHash s) (fileHash t)
  end.

(** ** The content hash *)

(** What is hashed: each part after its length. *)
Fixpoint frame (parts : list string) : string :=
  match parts with [] => EmptyString | p :: parts => FormatInt (len p) +:+ String ":" (p +:+ frame parts) end.

Definition contentHash (parts : list string) : string := sha256_hex (frame parts).

(** ** The file *)

(** A field with [omitempty] is left out when empty. *)
Definition omitempty (k v : string) : list (string * json) := if String.eqb v "" then [] else [(k, JString v)].

Definition rejection_json (r : rejection) : json :=
  JObject ([("mode", JString (RMode r)); ("binDir", JString (RBinDir r)); ("configFile", JString (RConfigFile r))]
    ++ omitempty "envFile" (REnvFile r)
    ++ [("unit", JString (RUnit r)); ("entryHash", JString (REntryHash r)); ("appliedHash", JString (RAppliedHash r))]
    ++ omitempty "kubelet" (RKubelet r) ++ [("reason", JString (Reason r)); ("at", JString (At r))]).

Definition state_json (s : state) : json :=
  JObject ([("schemaVersion", JNumber (FormatInt (SchemaVersion s))); ("mode", JString (SMode s)); ("binDir", JString (SBinDir s));
      ("configFile", JString (SConfigFile s))] ++ omitempty "envFile" (SEnvFile s) ++ [("appliedHash", JString (AppliedHash s))]
    ++ omitempty "entryHash" (EntryHash s) ++ match Rejected s with Some r => [("rejected", rejection_json r)] | None => [] end).

Definition set_rejection (r : rejection) (k : string) (j : json) : res rejection :=
  let '(MkRejection m b c e u eh ah kb re at_) := r in
  if is_field "mode" k then res_map (λ v, MkRejection v b c e u eh ah kb re at_) (decode_string m j)
  else if is_field "binDir" k then res_map (λ v, MkRejection m v c e u eh ah kb re at_) (decode_string b j)
  else if is_field "configFile" k then res_map (λ v, MkRejection m b v e u eh ah kb re at_) (decode_string c j)
  else if is_field "envFile" k then res_map (λ v, MkRejection m b c v u eh ah kb re at_) (decode_string e j)
  else if is_field "unit" k then res_map (λ v, MkRejection m b c e v eh ah kb re at_) (decode_string u j)
  else if is_field "entryHash" k then res_map (λ v, MkRejection m b c e u v ah kb re at_) (decode_string eh j)
  else if is_field "appliedHash" k then res_map (λ v, MkRejection m b c e u eh v kb re at_) (decode_string ah j)
  else if is_field "kubelet" k then res_map (λ v, MkRejection m b c e u eh ah v re at_) (decode_string kb j)
  else if is_field "reason" k then res_map (λ v, MkRejection m b c e u eh ah kb v at_) (decode_string re j)
  else if is_field "at" k then res_map (λ v, MkRejection m b c e u eh ah kb re v) (decode_string at_ j)
  else Ok r.

(** A pointer to a struct: [null] makes it nil, an object is decoded into what it
    points to, or into a new struct. *)
Definition decode_rejection (old : option rejection) (j : json) : res (option rejection) :=
  match j with
  | JNull => Ok None
  | _ => res_map Some (decode_struct set_rejection (default zero_rejection old) j)
  end.

Definition set_state (s : state) (k : string) (j : json) : res state :=
  let '(MkState v m b c e ah eh r) := s in
  if is_field "schemaVersion" k then res_map (λ v, MkState v m b c e ah eh r) (decode_int v j)
  else if is_field "mode" k then res_map (λ x, MkState v x b c e ah eh r) (decode_string m j)
  else if is_field "binDir" k then res_map (λ x, MkState v m x c e ah eh r) (decode_string b j)
  else if is_field "configFile" k then res_map (λ x, MkState v m b x e ah eh r) (decode_string c j)
  else if is_field "envFile" k then res_map (λ x, MkState v m b c x ah eh r) (decode_string e j)
  else if is_field "appliedHash" k then res_map (λ x, MkState v m b c e x eh r) (decode_string ah j)
  else if is_field "entryHash" k then res_map (λ x, MkState v m b c e ah x r) (decode_string eh j)
  else if is_field "rejected" k then res_map (λ x, MkState v m b c e ah eh x) (decode_rejection r j)
  else Ok s.

Definition decode_state (raw : string) : res state :=
  match Unmarshal raw with
  | Err e => Err e
  | Ok j => decode_struct set_state zero_state j
  end.

(** What [loadState] makes of the file's content. *)
Definition parse_state (raw : string) : option state :=
  match decode_state raw with
  | Err _ => None
  | Ok s => if SchemaVersion s =? stateSchemaVersion then Some s else None
  end.

(** What [loadState] returns for the answer to its read. *)
Definition loaded (r : res string) : res (option state) :=
  match r with
  | Err e => if errors_Is e ErrNotExist then Ok None else Err (EWrap "read installer state" e)
  | Ok raw => Ok (parse_state raw)
  end.

Definition loadState (path : string) : host (res (option state)) :=
  r ← trigger (ReadHostFile path); Ret (loaded r).

Definition stamped (s : state) : state :=
  MkState stateSchemaVersion (SMode s) (SBinDir s) (SConfigFile s) (SEnvFile s) (AppliedHash s) (EntryHash s) (Rejected s).
Definition state_text (s : state) : string := MarshalIndent (state_json (stamped s)) +:+ String (ascii_of_nat 10) EmptyString.

Definition saveState (path : string) (s : state) : host (option gerr) :=
  r ← trigger (WriteFileAtomic path (state_text s) 0x180);
  match r with
  | Err e => Ret (Some (EWrap "write installer state" e))
  | Ok _ => Ret None
  end.

(** ** A saved record is loaded back *)

Definition wf_rejection (r : rejection) : bool :=
  forallb ValidString [RMode r; RBinDir r; RConfigFile r; REnvFile r; RUnit r; REntryHash r; RAppliedHash r; RKubelet r; Reason r; At r].
Definition wf_state (s : state) : bool :=
  forallb ValidString [SMode s; SBinDir s; SConfigFile s; SEnvFile s; AppliedHash s; EntryHash s]
  && match Rejected s with Some r => wf_rejection r | None => true end.

(** An object whose members are well-formed. *)
Definition wf_fields (fs : list (string * json)) : Prop := foldr (λ f P, (ValidString f.1 = true ∧ wf_json f.2) ∧ P) True fs.

Lemma wf_fields_app fs gs : wf_fields fs → wf_fields gs → wf_fields (fs ++ gs).
Proof. induction fs as [|f fs IH]; [done|]. intros [H Hf] Hg. split; [done|]. by apply IH. Qed.

Lemma wf_omitempty k v : ValidString k = true → ValidString v = true → wf_fields (omitempty k v).
Proof. intros Hk Hv. unfold omitempty. by destruct (String.eqb v ""). Qed.

Lemma rejection_wf r : wf_rejection r = true → wf_json (rejection_json r).
Proof.
  intros H. unfold wf_rejection in H. cbn [forallb] in H. rewrite !andb_true_iff in H. destruct_and!.
  change (wf_fields ([("mode", JString (RMode r)); ("binDir", JString (RBinDir r)); ("configFile", JString (RConfigFile r))]
    ++ omitempty "envFile" (REnvFile r)
    ++ [("unit", JString (RUnit r)); ("entryHash", JString (REntryHash r)); ("appliedHash", JString (RAppliedHash r))]
    ++ omitempty "kubelet" (RKubelet r) ++ [("reason", JString (Reason r)); ("at", JString (At r))])).
  repeat (apply wf_fields_app || apply wf_omitempty); done.
Qed.

Lemma state_wf s : wf_state s = true → wf_json (state_json (stamped s)).
Proof.
  intros H. unfold wf_state in H. cbn [forallb] in H. rewrite !andb_true_iff in H. destruct_and!.
  unfold state_json. cbn [wf_json]. apply wf_fields_app; [|repeat (apply wf_fields_app || apply wf_omitempty); try done].
  - split_and!; try done. by exists 1.
  - cbn [stamped Rejected]. destruct (Rejected s) as [r|]; [|done]. split; [|done]. split; [done|]. by apply rejection_wf.
Qed.

Lemma state_nesting s : (nesting (state_json s) ≤ maxNestingDepth)%nat.
Proof.
  unfold state_json, rejection_json, omitempty, maxNestingDepth.
  destruct (Rejected s); repeat case_match; cbn; lia.
Qed.

Lemma rejection_decoded r : decode_rejection None (rejection_json r) = Ok (Some r).
Proof.
  destruct r as [m b c e u eh ah kb re at_]. unfold rejection_json, omitempty. cbn [REnvFile RKubelet].
  destruct (String.eqb_spec e "") as [->|]; destruct (String.eqb_spec kb "") as [->|]; reflexivity.
Qed.

Lemma decode_fields_app {A} (set : A → string → json → res A) a fs gs :
  decode_fields set a (fs ++ gs) = match decode_fields set a fs with Ok a => decode_fields set a gs | Err e => Err e end.
Proof.
  revert a. induction fs as [|[k j] fs IH]; intros a; [done|]. change (((k, j) :: fs) ++ gs) with ((k, j) :: (fs ++ gs)).
  cbn [decode_fields]. destruct (set a k j); [apply IH|done].
Qed.

Lemma state_decoded s : decode_struct set_state zero_state (state_json (stamped s)) = Ok (stamped s).
Proof.
  destruct s as [v m b c e ah eh r]. unfold state_json, stamped. cbn [decode_struct SEnvFile EntryHash Rejected]. rewrite !app_assoc.
  rewrite decode_fields_app.
  replace (decode_fields set_state zero_state _) with (@Ok state (MkState stateSchemaVersion m b c e ah eh None)).
  - destruct r as [r|]; [|done]. cbn [decode_fields]. change (set_state ?s "rejected" ?j) with
      (res_map (λ x, MkState stateSchemaVersion m b c e ah eh x) (decode_rejection None j)). by rewrite rejection_decoded.
  - unfold omitempty. destruct (String.eqb_spec e "") as [->|]; destruct (String.eqb_spec eh "") as [->|]; reflexivity.
Qed.

Lemma parse_state_text s : wf_state s = true → parse_state (state_text s) = Some (stamped s).
Proof.
  intros Hs. unfold parse_state, decode_state, state_text.
  rewrite Unmarshal_indent; [|by apply state_wf|apply state_nesting|done]. by rewrite state_decoded.
Qed.

(** ** The hash tells content apart *)

Lemma digits_no_colon s : all_bytes (in_range "0" "9") s = true → ContainsByte s ":" = false.
Proof.
  induction s as [|c s IH]; [done|]. cbn [all_bytes ContainsByte]. intros [Hc Hs]%andb_true_iff.
  apply orb_false_iff. split; [|by apply IH]. apply not_true_is_false. intros ->%Ascii.eqb_eq. done.
Qed.

Lemma frame_head n s : 0 ≤ n ≤ int64_max → Cut (FormatInt n +:+ String ":" s) ":" = Some (FormatInt n, s).
Proof.
  intros Hn. apply Cut_app, digits_no_colon. unfold FormatInt. replace (n <? 0) with false by lia.
  apply format_go_digits; [lia|done].
Qed.

(** Two lists of parts with the same framing are the same list. *)
Lemma frame_inj ps qs : Forall (λ p, len p ≤ int64_max) ps → Forall (λ p, len p ≤ int64_max) qs → frame ps = frame qs → ps = qs.
Proof.
  revert qs. induction ps as [|p ps IH]; intros [|q qs] Hp Hq; cbn [frame]; [done|..].
  - intros E. apply (f_equal String.length) in E. rewrite str_length_app in E. cbn in E. lia.
  - intros E. apply (f_equal String.length) in E. rewrite str_length_app in E. cbn in E. lia.
  - apply Forall_cons in Hp as [Hp Hps]. apply Forall_cons in Hq as [Hq Hqs]. intros E.
    apply (f_equal (λ s, Cut s ":")) in E. rewrite !frame_head in E by (split; [unfold len; lia|done]).
    injection E as El E. apply (f_equal ParseInt) in El.
    rewrite !ParseInt_FormatInt in El by (unfold len, int64_min in *; lia). injection El as El.
    apply str_app_inv_len in E as [-> E]; [|unfold len in El; lia]. by rewrite (IH qs).
Qed.

(** The installer reads back the record it wrote. A record of valid UTF-8 texts
    that was saved is loaded from the written bytes, with its schema version set. *)
Theorem state_roundtrip path s h h' : wf_state s = true → runs any_env (saveState path s) h h' None →
  ∃ data b, h' = existT (WriteFileAtomic path data 0x180) (Ok b) :: h ∧ loaded (Ok data) = Ok (Some (stamped s)).
Proof.
  intros Hs Hr. refine (wp_post any_env h _ (λ h' r, r = None →
    ∃ data b, h' = existT (WriteFileAtomic path data 0x180) (Ok b) :: h ∧ loaded (Ok data) = Ok (Some (stamped s))) _ _ _ Hr eq_refl).
  unfold saveState. wp_call; [done|]. intros [b|e] _; apply wp_ret; [|done]. intros _. exists (state_text s), b.
  cbn [loaded]. by rewrite parse_state_text.
Qed.

(** Equal hashes mean equal content. Two lists of parts with the same content hash
    are the same list, part by part, unless two different texts have the same SHA-256. *)
Theorem contentHash_separates ps qs : Forall (λ p, len p ≤ int64_max) ps → Forall (λ p, len p ≤ int64_max) qs →
  contentHash ps = contentHash qs → ps = qs ∨ frame ps ≠ frame qs ∧ sha256_hex (frame ps) = sha256_hex (frame qs).
Proof.
  intros Hp Hq E. destruct (String.eqb_spec (frame ps) (frame qs)) as [Ef|Hf]; [left; by apply frame_inj|by right].
Qed.

Definition demo_target : target := MkTarget modeMerge "/usr/libexec/kubelet/plugins" "/etc/kubernetes/cp.yaml" "" (contentHash ["entry"]) (contentHash ["file"]).
Definition demo_record : state := MkState 0 modePatch "/b" "/c" "" "h" "" (Some (target_rejection demo_target "kubelet" "" "why" 0)).

Definition demo_saved : log hans := [existT (WriteFileAtomic "/s" (state_text demo_record) 0x180) (Ok true)].

Lemma state_roundtrip_witness :
  ∃ data b, demo_saved = [existT (WriteFileAtomic "/s" data 0x180) (Ok b)] ∧
    loaded (Ok data) = Ok (Some (stamped demo_record)).
Proof.
  apply (state_roundtrip "/s" demo_record []); [vm_compute; reflexivity|]. exists (Ok true). done.
Defined.

Lemma contentHash_separates_witness :
  contentHash ["a"; "b"] = contentHash ["a"; "b"] ∧ (["a"; "b"] = ["a"; "b"] ∨
    frame ["a"; "b"] ≠ frame ["a"; "b"] ∧ sha256_hex (frame ["a"; "b"]) = sha256_hex (frame ["a"; "b"])).
Proof. split; [reflexivity|]. apply contentHash_separates; [repeat constructor; by vm_compute..|reflexivity]. Defined.
