(* ===== verification/EnvFile.v ===== *)
(** * The kubelet environment file

    [installer/defaultkubelet.go]: [parseEnvFile], the installer's reading of a
    systemd EnvironmentFile, and [mergeExtraArgs], which puts the two
    credential-provider flags into its KUBELET_EXTRA_ARGS. This file holds the
    definitions; [EnvFileParse] and [EnvFileMerge] prove what they do. *)

From S2P Require Import Prelude.
From S2P Require Import GoStrings.
From S2P Require Import GoStd.
From S2P Require Import Utf8.

Definition nl : ascii := ascii_of_nat 10.
Definition cr : ascii := ascii_of_nat 13.
Definition tab : ascii := ascii_of_nat 9.
Definition dquote : ascii := ascii_of_nat 34.
Definition squote : ascii := ascii_of_nat 39.
Definition backtick : ascii := ascii_of_nat 96.
Definition nul : ascii := ascii_of_nat 0.

(** A one-byte string. *)
Definition str1 (c : ascii) : string := String c EmptyString.

Definition extraArgsKey : string := "KUBELET_EXTRA_ARGS".
Definition flagBinDir : string := "--image-credential-provider-bin-dir".
Definition flagConfigFile : string := "--image-credential-provider-config".

(** Character classes of systemd's parser. *)
Definition envWhitespace : string := String " " (String tab (String nl (str1 cr))).
Definition envNewline : string := String nl (str1 cr).
Definition envComments : string := "#;".
Definition envShellNeedEscape : string := String dquote (String backslash (String backtick "$")).

(** ** Reading *)

Record envAssignment := MkAssignment {
  akey : string; avalue : string; afirst : nat; alast : nat; afterContinuedComment : bool }.

Definition systemdValidUTF8 (s : string) : bool :=
  match runes s with
  | None => false
  | Some rs => negb (existsb (λ r, ((0xFDD0 <=? r) && (r <=? 0xFDEF)) || (Z.land r 0xFFFE =? 0xFFFE)) rs)
  end.

(** The parser's states. *)
Inductive pstate :=
| preKey | inKey | preValue | inValue | valueEscape | singleQuote | doubleQuote | doubleQuoteEscape
| comment | commentEscape.

#[export] Instance pstate_eq_dec : EqDecision pstate.
Proof. solve_decision. Defined.

(** The parser's variables; [None] is the source's -1. *)
Record parser := MkParser {
  out : list envAssignment; key : string; value : string;
  lastKeyWS : option nat; lastValueWS : option nat;
  line : nat; first : nat; continuedComment : bool; startsContinued : bool; state : pstate }.

Definition parser0 : parser := MkParser [] "" "" None None 0 0 false false preKey.

Definition unloadable (m : string) : gerr := EWrap m (ESentinel errUnloadableEnvFile).

(** [s[:n]] for the index [n] of trailing white space, if there is one. *)
Definition cut_at (n : option nat) (s : string) : string :=
  match n with Some k => take_str k s | None => s end.

Definition push (p : parser) : res parser :=
  let k := cut_at (lastKeyWS p) (key p) in
  if negb (systemdValidUTF8 k) then Err (unloadable "name is not valid UTF-8")
  else if negb (systemdValidUTF8 (value p)) then Err (unloadable "value is not valid UTF-8")
  else Ok (MkParser (out p ++ [MkAssignment k (value p) (first p) (line p) (startsContinued p)]) "" ""
             (lastKeyWS p) (lastValueWS p) (line p) (first p) (continuedComment p) (startsContinued p) (state p)).

(** Assignments to single variables of the parser. *)
Definition goto (st : pstate) (p : parser) : parser :=
  MkParser (out p) (key p) (value p) (lastKeyWS p) (lastValueWS p) (line p) (first p)
    (continuedComment p) (startsContinued p) st.
Definition set_key (k : string) (p : parser) : parser :=
  MkParser (out p) k (value p) (lastKeyWS p) (lastValueWS p) (line p) (first p)
    (continuedComment p) (startsContinued p) (state p).
Definition set_value (v : string) (p : parser) : parser :=
  MkParser (out p) (key p) v (lastKeyWS p) (lastValueWS p) (line p) (first p)
    (continuedComment p) (startsContinued p) (state p).
Definition set_keyWS (w : option nat) (p : parser) : parser :=
  MkParser (out p) (key p) (value p) w (lastValueWS p) (line p) (first p)
    (continuedComment p) (startsContinued p) (state p).
Definition set_valueWS (w : option nat) (p : parser) : parser :=
  MkParser (out p) (key p) (value p) (lastKeyWS p) w (line p) (first p)
    (continuedComment p) (startsContinued p) (state p).
Definition start_key (p : parser) : parser :=
  MkParser (out p) (key p) (value p) (lastKeyWS p) (lastValueWS p) (line p) (line p)
    (continuedComment p) (continuedComment p) (state p).
Definition next_line (cc : bool) (p : parser) : parser :=
  MkParser (out p) (key p) (value p) (lastKeyWS p) (lastValueWS p) (S (line p)) (first p)
    cc (startsContinued p) (state p).

Definition add_value (c : ascii) (p : parser) : parser := set_value (value p +:+ str1 c) p.

(** The index of the first byte of the white space that ends [s], after one more
    byte [c]. *)
Definition track_ws (ws : bool) (last : option nat) (s : string) : option nat :=
  if ws then match last with None => Some (String.length s) | Some k => Some k end else None.

(** The [switch state] of the loop's body for the byte [c]. *)
Definition parse_byte (c : ascii) (p : parser) : res parser :=
  let isNewline := ContainsByte envNewline c in
  let isWS := ContainsByte envWhitespace c in
  match state p with
  | preKey =>
      if ContainsByte envComments c then Ok (goto comment p)
      else if negb isWS then Ok (set_key (str1 c) (start_key (set_keyWS None (goto inKey p))))
      else Ok p
  | inKey =>
      if isNewline then Ok (set_key "" (goto preKey p))
      else if Ascii.eqb c "=" then Ok (set_valueWS None (goto preValue p))
      else Ok (set_key (key p +:+ str1 c) (set_keyWS (track_ws isWS (lastKeyWS p) (key p)) p))
  | preValue =>
      if isNewline then push (goto preKey p)
      else if Ascii.eqb c squote then Ok (goto singleQuote p)
      else if Ascii.eqb c dquote then Ok (goto doubleQuote p)
      else if Ascii.eqb c backslash then Ok (goto valueEscape p)
      else if negb isWS then Ok (add_value c (goto inValue p))
      else Ok p
  | inValue =>
      if isNewline then push (set_value (cut_at (lastValueWS p) (value p)) (goto preKey p))
      else if Ascii.eqb c backslash then Ok (set_valueWS None (goto valueEscape p))
      else Ok (add_value c (set_valueWS (track_ws isWS (lastValueWS p) (value p)) p))
  | valueEscape => Ok (if isNewline then goto inValue p else add_value c (goto inValue p))
  | singleQuote => Ok (if Ascii.eqb c squote then goto preValue p else add_value c p)
  | doubleQuote =>
      Ok (if Ascii.eqb c dquote then goto preValue p
          else if Ascii.eqb c backslash then goto doubleQuoteEscape p
          else add_value c p)
  | doubleQuoteEscape =>
      Ok (let p := goto doubleQuote p in
          if ContainsByte envShellNeedEscape c then add_value c p
          else if negb (Ascii.eqb c nl) then add_value c (add_value backslash p)
          else p)
  | comment =>
      Ok (if Ascii.eqb c backslash then goto commentEscape p
          else if isNewline then goto preKey p else p)
  | commentEscape => Ok (if isNewline then goto preKey p else goto comment p)
  end.

(** The text after the last line break of [s]: [s[strings.LastIndexByte(s, '\n')+1:]]. *)
Fixpoint last_line (s : string) : string :=
  match s with
  | EmptyString => EmptyString
  | String c s' => if ContainsByte s' nl then last_line s' else if Ascii.eqb c nl then s' else s
  end.

(** [commentEndsInBackslash(content, end)] on [content[:end]], all it looks at. *)
Definition commentEndsInBackslash (before : string) : bool :=
  let body := TrimSuffix (last_line before) (str1 cr) in
  match TrimLeft body envWhitespace with
  | EmptyString => false
  | String c _ => ContainsByte envComments c && HasSuffix body (str1 backslash)
  end.

(** The loop over the bytes: [before] is [content[:i]], [rest] is [content[i:]]. *)
Fixpoint parse_loop (before rest : string) (p : parser) : res parser :=
  match rest with
  | EmptyString => Ok p
  | String c rest' =>
      match parse_byte c p with
      | Err e => Err e
      | Ok p' =>
          parse_loop (before +:+ str1 c) rest'
            (if Ascii.eqb c nl
             then next_line (bool_decide (state p' = preKey) && commentEndsInBackslash before) p'
             else p')
      end
  end.

(** The end of the input: an assignment still being read is pushed. *)
Definition parse_end (p : parser) : res (list envAssignment) :=
  match state p with
  | preValue | inValue | valueEscape | singleQuote | doubleQuote | doubleQuoteEscape =>
      match push (if bool_decide (state p = inValue)
                  then set_value (cut_at (lastValueWS p) (value p)) p else p) with
      | Ok p' => Ok (out p')
      | Err e => Err e
      end
  | _ => Ok (out p)
  end.

(** A carriage return that does not end a line. *)
Fixpoint lone_cr (s : string) : bool :=
  match s with
  | EmptyString => false
  | String c s' =>
      (Ascii.eqb c cr && negb match s' with String d _ => Ascii.eqb d nl | EmptyString => false end) || lone_cr s'
  end.

Definition parseEnvFile (content : string) : res (list envAssignment) :=
  if ContainsByte content nul then Err (unloadable "holds a NUL byte")
  else if lone_cr content then Err (EMsg "carriage return inside a line")
  else match parse_loop "" content parser0 with Ok p => parse_end p | Err e => Err e end.

(** ** Rewriting *)

(** [strings.Trim(s, cutset)] *)
Definition Trim (s cutset : string) : string := TrimRight (TrimLeft s cutset) cutset.

(** The bytes an argument may not hold, and white space with them. *)
Definition quoting : string := String dquote (String squote (String backslash (String "$" (str1 backtick)))).

(** [val[1 : n-1]] when the value is quoted with one kind of quote at both ends. *)
Definition unquote_outer (val : string) : string :=
  match val with
  | String q rest =>
      if Ascii.eqb q dquote || Ascii.eqb q squote then default val (CutSuffix rest (str1 q)) else val
  | EmptyString => val
  end.

Definition unquoteExtraArgs (val : string) : res string :=
  let val := unquote_outer val in
  if ContainsAny val quoting then Err (EMsg "KUBELET_EXTRA_ARGS contains quoting, escapes, or expansions")
  else Ok val.

(** [strings.FieldsFunc] over the white space of [envWhitespace]; [cur] is the field
    being read. *)
Fixpoint split_args (cur : string) (s : string) : list string :=
  match s with
  | EmptyString => match cur with EmptyString => [] | _ => [cur] end
  | String c s' =>
      if ContainsByte envWhitespace c
      then match cur with EmptyString => split_args "" s' | _ => cur :: split_args "" s' end
      else split_args (cur +:+ str1 c) s'
  end.

Definition splitArgs (val : string) : list string := split_args "" val.

Fixpoint strip_flags (skipNext : bool) (args : list string) : list string :=
  match args with
  | [] => []
  | arg :: args' =>
      if skipNext then strip_flags false args'
      else if String.eqb arg flagBinDir || String.eqb arg flagConfigFile then strip_flags true args'
      else if HasPrefix arg (flagBinDir +:+ "=") || HasPrefix arg (flagConfigFile +:+ "=")
      then strip_flags false args'
      else arg :: strip_flags false args'
  end.

Definition stripCredentialProviderFlags (args : list string) : list string := strip_flags false args.

(** The flags the installer adds, and the line that holds the arguments [args]. *)
Definition our_flags (binDir configFile : string) : list string :=
  [flagBinDir +:+ "=" +:+ binDir; flagConfigFile +:+ "=" +:+ configFile].
Definition extra_line (args : list string) : string :=
  extraArgsKey +:+ "=" +:+ str1 dquote +:+ Join args " " +:+ str1 dquote.

(** [lines[i]]; the installer indexes only lines the parser counted. *)
Definition nth_line (lines : list string) (i : nat) : string := default "" (lines !! i).

Definition appendedByEarlierInstaller (operator ours : envAssignment) (lines : list string) : bool :=
  if HasPrefix (TrimSpace (nth_line lines (afirst operator))) (extraArgsKey +:+ "=") then false
  else if negb (Nat.eqb (afirst ours) (alast ours)) || afterContinuedComment ours then false
  else match CutPrefix (nth_line lines (afirst ours)) (extraArgsKey +:+ "=" +:+ str1 dquote) with
  | None => false
  | Some v =>
      match CutSuffix v (str1 dquote) with
      | None => false
      | Some v =>
          match Cut v " " with
          | None => false
          | Some (binDir, configFile) =>
              match CutPrefix binDir (flagBinDir +:+ "="), CutPrefix configFile (flagConfigFile +:+ "=") with
              | Some b, Some c =>
                  negb (String.eqb b "") && negb (String.eqb c "") &&
                  negb (ContainsAny (b +:+ c) (String " " (String tab quoting)))
              | _, _ => false
              end
          end
      end
  end.

(** [openAtEnd]: would a line added after [content] not be an assignment of its own? *)
Definition probe_key : string := "HARBOR_BRIDGE_INSTALLER_PROBE".
Definition probe_line : string := probe_key +:+ "=x" +:+ str1 nl.

Definition openAtEnd (content : string) : bool :=
  if HasSuffix (TrimRight content (String cr (str1 nl))) (str1 backslash) then true
  else
    let probe := if negb (String.eqb content "") && negb (HasSuffix content (str1 nl))
                 then content +:+ str1 nl else content in
    match parseEnvFile (probe +:+ probe_line) with
    | Err _ => true
    | Ok assignments =>
        match last assignments with
        | None => true
        | Some a => negb (String.eqb (akey a) probe_key) || negb (String.eqb (avalue a) "x")
        end
    end.

(** The lines of the file without the empty segment after its last line break. *)
Definition file_lines (content : string) : list string :=
  let lines := Split content nl in
  match last lines with Some EmptyString => removelast lines | _ => lines end.

(** The new text of the line of the one assignment [a] that is left, or the reason
    to refuse. *)
Definition rewrite_line (lines : list string) (ours : list string) (a : envAssignment) : res string :=
  if negb (Nat.eqb (afirst a) (alast a)) then Err (EMsg "KUBELET_EXTRA_ARGS continues over several lines")
  else if afterContinuedComment a then Err (EMsg "KUBELET_EXTRA_ARGS follows a comment line that ends in a backslash")
  else
    let raw := match Cut (nth_line lines (afirst a)) "=" with Some (_, after) => after | None => "" end in
    match unquoteExtraArgs (Trim raw envWhitespace) with
    | Err e => Err e
    | Ok val => Ok (extra_line (stripCredentialProviderFlags (splitArgs val) ++ ours))
    end.

Definition is_extra (a : envAssignment) : bool := String.eqb (akey a) extraArgsKey.

Definition mergeExtraArgs (existing binDir configFile : string) : res string :=
  let ours := our_flags binDir configFile in
  match parseEnvFile existing with
  | Err e => Err e
  | Ok assignments =>
      let lines := file_lines existing in
      let extra := List.filter is_extra assignments in
      (* the operator's assignments, and the line an earlier installer appended *)
      let '(extra, appended) :=
        match extra with
        | [operator; theirs] =>
            if appendedByEarlierInstaller operator theirs lines
            then ([operator], Some (afirst theirs)) else (extra, None)
        | _ => (extra, None)
        end in
      match extra with
      | _ :: _ :: _ => Err (EMsg "multiple KUBELET_EXTRA_ARGS lines")
      | _ =>
          let found := match extra with [] => false | _ => true end in
          match (match extra with
                 | a :: _ => match rewrite_line lines ours a with
                             | Ok l => Ok (<[afirst a := l]> lines)
                             | Err e => Err e
                             end
                 | [] => Ok lines
                 end) with
          | Err e => Err e
          | Ok lines =>
              if (negb found || negb (HasSuffix existing (str1 nl))) && openAtEnd existing
              then Err (EMsg "the last line of the file ends inside a quoted value, after an escape, or in a continued comment")
              else
                let lines := match appended with Some j => take j lines ++ drop (S j) lines | None => lines end in
                let lines := if found then lines else lines ++ [extra_line ours] in
                Ok (Join lines (str1 nl) +:+ str1 nl)
          end
      end
  end.
