(* ===== verification/Discover.v ===== *)
(** * Finding the node's kubelet

    [installer/discover.go]: the installer sees every process of the node, those of
    pods too, and must act only on the kubelet of the host. [findKubelet] is a program
    over [/proc]; messages about the processes it leaves aside are dropped. *)

From S2P Require Import Prelude Effects GoStrings GoStd GoTime GoPath InstallerConfig Host InstallerState EnvFile.

(** ** Reading /proc *)

(** The parent in the text of [/proc/<pid>/stat]. *)
Definition parsePPID (raw : string) : option Z :=
  match after_last ")" raw with
  | None => None
  | Some rest => match Fields rest with
                 | _ :: ppid :: _ => ParseInt ppid
                 | _ => None
                 end
  end.

Definition readPPID (procDir : string) : host (res Z) :=
  r ← trigger (OsReadFile (JoinPath procDir "stat"));
  match r with
  | Err e => Ret (Err (EWrap "read stat" e))
  | Ok raw => match parsePPID raw with
              | Some ppid => Ret (Ok ppid)
              | None => Ret (Err (EMsg "malformed stat"))
              end
  end.

Definition nonempty (s : string) : bool := negb (String.eqb s "").
Definition splitCmdline (raw : string) : list string := List.filter nonempty (Split (TrimRight raw (str1 nul)) nul).

(** The value a flag has after the arguments before [argv] gave it [value]. *)
Fixpoint flag_value (flag : string) (value : string) (argv : list string) : string :=
  match argv with
  | [] => value
  | arg :: argv =>
      let value := match CutPrefix arg (flag +:+ "=") with
                   | Some v => v
                   | None => if String.eqb arg flag then match argv with next :: _ => next | [] => value end else value
                   end in
      flag_value flag value argv
  end.
Definition flagValue (argv : list string) (flag : string) : string := flag_value flag "" argv.

(** ** The kubelet process *)

Definition candidate : Type := Z * list string.

(** The body of the loop over [/proc]: the process [name], when it is the kubelet of
    the host as far as the installer can tell. *)
Definition examine (procRoot hostMnt name : string) : host (option candidate) :=
  match ParseInt name with
  | None => Ret None
  | Some pid =>
      let dir := JoinPath procRoot name in
      comm ← trigger (OsReadFile (JoinPath dir "comm"));
      match comm with
      | Err _ => Ret None
      | Ok comm =>
          if negb (String.eqb (TrimSpace comm) "kubelet") then Ret None
          else
            ppid ← readPPID dir;
            match ppid with
            | Err _ => Ret None
            | Ok ppid =>
                if negb (ppid =? 1) then Ret None
                else
                  cg ← trigger (OsReadFile (JoinPath dir "cgroup"));
                  match cg with
                  | Err _ => Ret None
                  | Ok cg =>
                      if Contains cg "kubepods" then Ret None
                      else
                        mnt ← trigger (Readlink (JoinPath (JoinPath dir "ns") "mnt"));
                        match mnt with
                        | Err _ => Ret None
                        | Ok mnt =>
                            if negb (String.eqb mnt hostMnt) then Ret None
                            else
                              raw ← trigger (OsReadFile (JoinPath dir "cmdline"));
                              match raw with
                              | Err _ => Ret None
                              | Ok raw => match splitCmdline raw with
                                          | [] => Ret None
                                          | cmdline => Ret (Some (pid, cmdline))
                                          end
                              end
                        end
                  end
            end
      end
  end.

Fixpoint scan (procRoot hostMnt : string) (entries : list string) : host (list candidate) :=
  match entries with
  | [] => Ret []
  | name :: entries =>
      c ← examine procRoot hostMnt name;
      found ← scan procRoot hostMnt entries;
      Ret (match c with Some c => c :: found | None => found end)
  end.

Definition findKubelet (procRoot : string) : host (res candidate) :=
  entries ← trigger (ReadDir procRoot);
  match entries with
  | Err e => Ret (Err (EWrap "read /proc" e))
  | Ok entries =>
      hostMnt ← trigger (Readlink (JoinPath (JoinPath (JoinPath procRoot "1") "ns") "mnt"));
      match hostMnt with
      | Err e => Ret (Err (EWrap "read init's mount namespace" e))
      | Ok hostMnt =>
          found ← scan procRoot hostMnt entries;
          match found with
          | [c] => Ret (Ok c)
          | [] => Ret (Err (EMsg "no kubelet process found"))
          | _ => Ret (Err (EMsg "several processes look like the node kubelet"))
          end
      end
  end.

(** ** Its wiring *)

Record kubeletWiring := MkWiring { WBinDir : string; WConfigFile : string }.

Definition wired (w : kubeletWiring) : bool := nonempty (WBinDir w) && nonempty (WConfigFile w).

(** The loop over the two flags runs in the order of a Go map; either error is one. *)
Definition validate (w : kubeletWiring) : option gerr := check_paths [WBinDir w; WConfigFile w].

Definition discoverKubelet (procRoot : string) : host (res kubeletWiring) :=
  r ← findKubelet procRoot;
  match r with
  | Err e => Ret (Err e)
  | Ok (_, cmdline) =>
      let w := MkWiring (flagValue cmdline flagBinDir) (flagValue cmdline flagConfigFile) in
      match validate w with
      | Some e => Ret (Err e)
      | None => Ret (Ok w)
      end
  end.

(** ** Which kubelet it is *)

Definition maxKubeletBinarySize : Z := Z.shiftl 1 30.

(** The content of the kubelet's own configuration file, or a text that says why
    there is none. *)
Definition kubeletConfigText (c : config) (cmdline : list string) : host string :=
  let p := flagValue cmdline "--config" in
  if String.eqb p "" then Ret "no --config"
  else match validNodePath p with
  | Some _ => Ret ("unreadable --config " +:+ p)
  | None =>
      data ← trigger (ReadHostFile (hostPath c p));
      Ret (match data with Ok data => data | Err _ => "unreadable --config " +:+ p end)
  end.

Definition kubeletIdentity (c : config) (procRoot : string) : host string :=
  r ← findKubelet procRoot;
  match r with
  | Err _ => Ret ""
  | Ok (pid, cmdline) =>
      exe ← trigger (Readlink (JoinPath (JoinPath procRoot (FormatInt pid)) "exe"));
      match exe with
      | Err _ => Ret ""
      | Ok exe =>
          let exe := TrimSuffix exe " (deleted)" in
          match validNodePath exe with
          | Some _ => Ret ""
          | None =>
              binary ← trigger (HashHostFile (hostPath c exe) maxKubeletBinarySize);
              match binary with
              | Err _ => Ret ""
              | Ok binary =>
                  text ← kubeletConfigText c cmdline;
                  let args := stripCredentialProviderFlags (tail cmdline) in
                  Ret (contentHash [binary; Join args (str1 nul); text])
              end
          end
      end
  end.

(** ** What is found in a fixed /proc *)

(** The content of [/proc] while the installer reads it. *)
Record procfs := MkProc { file : string → res string; link : string → res string; dir : string → res (list string) }.

Definition proc_env (s : procfs) (h : log hans) (c : hcall) : hans c → Prop :=
  match c with
  | OsReadFile p => λ r, r = file s p
  | Readlink p => λ r, r = link s p
  | ReadDir p => λ r, r = dir s p
  | _ => λ _, True
  end.

Section Proc.
Context (s : procfs) (procRoot : string).

Definition mount_of (pid : string) : res string := link s (JoinPath (JoinPath (JoinPath procRoot pid) "ns") "mnt").
Definition proc_file (pid name : string) : res string := file s (JoinPath (JoinPath procRoot pid) name).

(** The process [name] is a child of init named kubelet, outside every pod's cgroup,
    in the mount namespace [hostMnt], with a command line. *)
Definition host_kubelet (hostMnt name : string) (c : candidate) : Prop :=
  ∃ comm stat cg raw, ParseInt name = Some c.1 ∧ proc_file name "comm" = Ok comm ∧ TrimSpace comm = "kubelet" ∧
    proc_file name "stat" = Ok stat ∧ parsePPID stat = Some 1 ∧
    proc_file name "cgroup" = Ok cg ∧ Contains cg "kubepods" = false ∧
    mount_of name = Ok hostMnt ∧ proc_file name "cmdline" = Ok raw ∧ splitCmdline raw = c.2 ∧ c.2 ≠ [].

Definition examined (hostMnt name : string) (r : option candidate) : Prop := ∀ c, r = Some c ↔ host_kubelet hostMnt name c.

Lemma examined_None hostMnt name : (∀ c, ¬ host_kubelet hostMnt name c) → examined hostMnt name None.
Proof. intros H c. split; [done|]. intros Hc. by apply H in Hc. Qed.

(** A failing guard: no candidate satisfies it. *)
Ltac left_aside := apply examined_None; intros ? (? & ? & ? & ? & ? & ? & ? & ? & ? & ? & ? & ? & ? & ? & ?);
  unfold proc_file, mount_of in *; congruence.

Lemma wp_examine hostMnt name h :
  wp (proc_env s) (λ _ _, True) h (examine procRoot hostMnt name) (λ _ r, examined hostMnt name r).
Proof.
  unfold examine. destruct (ParseInt name) as [pid|] eqn:Ep; [|apply wp_ret; left_aside].
  wp_call; [done|]. intros comm Hcomm. cbn in Hcomm. destruct comm as [comm|]; [|apply wp_ret; left_aside].
  destruct (String.eqb_spec (TrimSpace comm) "kubelet"); [|apply wp_ret; left_aside]. cbn [negb].
  apply wp_bind. unfold readPPID. wp_call; [done|]. intros stat Hstat. cbn in Hstat.
  destruct stat as [stat|]; [|apply wp_ret; left_aside].
  destruct (parsePPID stat) as [ppid|] eqn:Epp; [|apply wp_ret; left_aside]. apply wp_ret.
  destruct (Z.eqb_spec ppid 1) as [->|]; [|apply wp_ret; left_aside]. cbn [negb].
  wp_call; [done|]. intros cg Hcg. cbn in Hcg. destruct cg as [cg|]; [|apply wp_ret; left_aside].
  destruct (Contains cg "kubepods") eqn:Ec; [apply wp_ret; left_aside|].
  wp_call; [done|]. intros mnt Hmnt. cbn in Hmnt. destruct mnt as [mnt|]; [|apply wp_ret; left_aside].
  destruct (String.eqb_spec mnt hostMnt) as [->|]; [|apply wp_ret; left_aside]. cbn [negb].
  wp_call; [done|]. intros raw Hraw. cbn in Hraw. destruct raw as [raw|]; [|apply wp_ret; left_aside].
  destruct (splitCmdline raw) as [|arg args] eqn:El; [apply wp_ret; left_aside|]. apply wp_ret. intros c. split.
  - intros [= <-]. exists comm, stat, cg, raw. done.
  - intros (comm' & stat' & cg' & raw' & Hp & _ & _ & _ & _ & _ & _ & _ & Hr & Hs & _). unfold proc_file in Hr.
    destruct c as [pid' args']. cbn [fst snd] in Hp, Hs.
    rewrite Hr in Hraw. injection Hraw as <-. rewrite Hp in Ep. injection Ep as <-. by rewrite <- Hs, El.
Qed.

(** The candidates of a list of processes, in its order. *)
Inductive candidates (hostMnt : string) : list string → list candidate → Prop :=
| candidates_nil : candidates hostMnt [] []
| candidates_take name names c cs : host_kubelet hostMnt name c → candidates hostMnt names cs → candidates hostMnt (name :: names) (c :: cs)
| candidates_skip name names cs : (∀ c, ¬ host_kubelet hostMnt name c) → candidates hostMnt names cs → candidates hostMnt (name :: names) cs.

Lemma wp_scan hostMnt names h :
  wp (proc_env s) (λ _ _, True) h (scan procRoot hostMnt names) (λ _ cs, candidates hostMnt names cs).
Proof.
  revert h. induction names as [|name names IH]; intros h; [apply wp_ret; constructor|]. cbn [scan].
  wp_cut wp_examine. intros h1 c Hc. wp_cut IH. intros h2 cs Hcs. apply wp_ret. destruct c as [c|].
  - apply candidates_take; [by apply Hc|done].
  - apply candidates_skip; [|done]. intros c Hk. apply Hc in Hk. done.
Qed.

(** The only candidate is the only host kubelet among the processes. *)
Lemma candidates_single hostMnt names c : candidates hostMnt names [c] →
  (∃ name, name ∈ names ∧ host_kubelet hostMnt name c) ∧ ∀ name c', name ∈ names → host_kubelet hostMnt name c' → c' = c.
Proof.
  assert (Hnone : ∀ names, candidates hostMnt names [] → ∀ name c', name ∈ names → ¬ host_kubelet hostMnt name c').
  { intros ns H. remember [] as cs eqn:E. induction H as [| |name ns cs Hn H IH]; [|done|]; intros n c'; [by intros ?%elem_of_nil|].
    intros [->|Hin]%elem_of_cons; [apply Hn|by apply IH]. }
  intros H. remember [c] as cs eqn:E. induction H as [|name names c' cs Hk H IH|name names cs Hn H IH]; [done|..].
  - injection E as -> ->. split; [exists name; split; [left|done]|]. intros n c' [->|Hin]%elem_of_cons Hk'.
    + destruct Hk as (c1 & s1 & g1 & r1 & Hp & _ & _ & _ & _ & _ & _ & _ & Hr & Hs & _).
      destruct Hk' as (c2 & s2 & g2 & r2 & Hp' & _ & _ & _ & _ & _ & _ & _ & Hr' & Hs' & _).
      destruct c, c'. cbn [fst snd] in *. congruence.
    + by eapply Hnone in Hk'.
  - destruct (IH E) as [(n & Hin & Hk) Hu]. split; [exists n; split; [by right|done]|].
    intros n' c' [->|Hin']%elem_of_cons Hk'; [by apply Hn in Hk'|by eapply Hu].
Qed.

Lemma wp_findKubelet h :
  wp (proc_env s) (λ _ _, True) h (findKubelet procRoot) (λ _ r, ∀ c, r = Ok c →
    ∃ names hostMnt, dir s procRoot = Ok names ∧ mount_of "1" = Ok hostMnt ∧ candidates hostMnt names [c]).
Proof.
  unfold findKubelet. wp_call; [done|]. intros names Hn. cbn in Hn. destruct names as [names|]; [|by apply wp_ret].
  wp_call; [done|]. intros mnt Hm. cbn in Hm. destruct mnt as [mnt|]; [|by apply wp_ret].
  wp_cut wp_scan. intros h1 cs Hcs. destruct cs as [|c [|? ?]]; apply wp_ret; [done| |done].
  intros c' [= <-]. exists names, mnt. done.
Qed.

(** C25: The installer acts only on the kubelet of the host. The process it takes for
    kubelet is a child of init, outside every pod's cgroup and in init's own mount
    namespace; the command line it returns is that process's, and no other process of
    the node meets these conditions: with two such processes it refuses. *)
Theorem findKubelet_host_only h h' pid cmdline :
  runs (proc_env s) (findKubelet procRoot) h h' (Ok (pid, cmdline)) →
  ∃ names hostMnt, dir s procRoot = Ok names ∧ mount_of "1" = Ok hostMnt ∧
    (∃ name, name ∈ names ∧ host_kubelet hostMnt name (pid, cmdline)) ∧
    ∀ name c, name ∈ names → host_kubelet hostMnt name c → c = (pid, cmdline).
Proof.
  intros Hr. eapply wp_post in Hr; [|apply wp_findKubelet]. destruct (Hr _ eq_refl) as (names & mnt & Hn & Hm & Hc).
  apply candidates_single in Hc as [? ?]. by exists names, mnt.
Qed.
End Proc.

(** ** A node with an impostor *)

Definition demo_proc : procfs := MkProc
  (λ p, if String.eqb p "/proc/42/comm" || String.eqb p "/proc/77/comm" then Ok ("kubelet" +:+ str1 nl)
        else if String.eqb p "/proc/42/stat" then Ok "42 (kubelet) S 1 42 42 0"
        else if String.eqb p "/proc/77/stat" then Ok "77 (x) S 1 (kubelet) S 300 77 0"
        else if String.eqb p "/proc/42/cgroup" then Ok "0::/system.slice/kubelet.service"
        else if String.eqb p "/proc/42/cmdline"
        then Ok ("/usr/bin/kubelet" +:+ str1 nul +:+ flagBinDir +:+ "=/a" +:+ str1 nul +:+ flagBinDir +:+ str1 nul +:+ "/b" +:+ str1 nul)
        else Err (ESentinel ErrNotExist))
  (λ p, if String.eqb p "/proc/1/ns/mnt" || String.eqb p "/proc/42/ns/mnt" then Ok "mnt:[1]" else Ok "mnt:[2]")
  (λ p, Ok ["1"; "42"; "77"; "self"]).

Definition demo_read (u : unit) (c : hcall) : hans c * unit :=
  (match c return hans c with
   | OsReadFile p => file demo_proc p
   | Readlink p => link demo_proc p
   | ReadDir p => dir demo_proc p
   | call => empty_node call
   end, tt).

Definition demo_found := play demo_read tt (findKubelet "/proc") [].
Definition demo_cmdline : list string := ["/usr/bin/kubelet"; flagBinDir +:+ "=/a"; flagBinDir; "/b"].

Lemma demo_found_is : demo_found.2 = Ok (42, demo_cmdline) ∧ flagValue demo_cmdline flagBinDir = "/b".
Proof. vm_compute. split; reflexivity. Qed.

Lemma findKubelet_host_only_witness :
  ∃ names hostMnt, dir demo_proc "/proc" = Ok names ∧ mount_of demo_proc "/proc" "1" = Ok hostMnt ∧
    (∃ name, name ∈ names ∧ host_kubelet demo_proc "/proc" hostMnt name (42, demo_cmdline)) ∧
    ∀ name c, name ∈ names → host_kubelet demo_proc "/proc" hostMnt name c → c = (42, demo_cmdline).
Proof.
  apply (findKubelet_host_only demo_proc "/proc" [] demo_found.1.2). rewrite <- (proj1 demo_found_is).
  apply play_runs_in. by intros u h [].
Defined.
