(* ===== verification/ProviderConfig.v ===== *)
(** * The kubelet's credential-provider configuration

    [installer/providerconfig.go]: the document kubelet reads its credential providers
    from, shared by several installs and by the cloud. An install changes its own entry
    and nothing else, and writes only text that reads back as the document it meant.

    A Go [map[string]any] is the list of its entries in key order, a number the text of its
    float64. The YAML library is a parameter: what it reads from a text and writes for a
    document. The theorems hold whatever it does, because the code reads back what it is
    about to write. *)

From S2P Require Import Prelude Effects GoStrings GoStd GoTime GoDuration Utf8 Json JsonIndent Host.

(** ** Values *)

Notation obj := (list (string * json)).

Fixpoint lookup_key (m : obj) (k : string) : option json :=
  match m with
  | [] => None
  | (k', v) :: m => if String.eqb k k' then Some v else lookup_key m k
  end.

(** [m[k] = v]. *)
Fixpoint set_key (m : obj) (k : string) (v : json) : obj :=
  match m with
  | [] => [(k, v)]
  | (k', v') :: m' =>
      if String.eqb k k' then (k, v) :: m'
      else if String.ltb k k' then (k, v) :: m
      else (k', v') :: set_key m' k v
  end.

(** The type assertions [v.(string)], [v.([]any)] and [v.(map[string]any)]. *)
Definition as_string (v : option json) : option string := match v with Some (JString s) => Some s | _ => None end.
Definition as_list (v : option json) : option (list json) := match v with Some (JArray l) => Some l | _ => None end.
Definition as_map (v : json) : option obj := match v with JObject m => Some m | _ => None end.

(** [s, _ := m[k].(string)], and the same of a list and of a map. *)
Definition string_at (m : obj) (k : string) : string := default "" (as_string (lookup_key m k)).
Definition list_at (m : obj) (k : string) : list json := default [] (as_list (lookup_key m k)).

(** [m[k] == s]. *)
Definition key_is (m : obj) (k s : string) : bool :=
  match lookup_key m k with Some (JString s') => String.eqb s' s | _ => false end.

(** [reflect.DeepEqual]. *)
Fixpoint DeepEqual (a b : json) : bool :=
  match a, b with
  | JNull, JNull => true
  | JBool a, JBool b => Bool.eqb a b
  | JNumber a, JNumber b => String.eqb a b
  | JString a, JString b => String.eqb a b
  | JArray a, JArray b =>
      (fix go (a b : list json) : bool :=
         match a, b with
         | [], [] => true
         | x :: a, y :: b => DeepEqual x y && go a b
         | _, _ => false
         end) a b
  | JObject a, JObject b =>
      (fix go (a b : obj) : bool :=
         match a, b with
         | [], [] => true
         | (k, x) :: a, (k', y) :: b => String.eqb k k' && DeepEqual x y && go a b
         | _, _ => false
         end) a b
  | _, _ => false
  end.

(** ** Reading the document *)

Definition credentialProviderConfigAPIVersion : string := "kubelet.config.k8s.io/v1".
Definition bridgeEndpointEnv : string := "HARBOR_BRIDGE_ENDPOINT".

Definition providerList (cfg : obj) : res (list json) :=
  match lookup_key cfg "providers" with
  | None | Some JNull => Ok []
  | Some (JArray l) => Ok l
  | Some _ => Err (EMsg "providers is not a list")
  end.

Definition isBridgeProvider (entry : obj) : bool :=
  existsb (λ e, match as_map e with Some m => key_is m "name" bridgeEndpointEnv | None => false end) (list_at entry "env").

Definition isJSON (doc : string) : bool :=
  match TrimLeft doc (String " " (String "009" (String "013" (String "010" "")))) with
  | String c _ => Ascii.eqb c "{"
  | EmptyString => false
  end.

(** The first entry named [name]. *)
Fixpoint find_provider (ps : list json) (name : string) : option obj :=
  match ps with
  | [] => None
  | p :: ps => match as_map p with
               | Some m => if key_is m "name" name then Some m else find_provider ps name
               | None => find_provider ps name
               end
  end.

(** [json.Marshal] of an entry: the keys in order. *)
Definition entryBytes (entry : obj) : res string := Ok (print (JObject entry)).

(** ** Validation of the rendered entry *)

Definition credentialProviderAPIVersions : list string :=
  ["credentialprovider.kubelet.k8s.io/v1"; "credentialprovider.kubelet.k8s.io/v1beta1"; "credentialprovider.kubelet.k8s.io/v1alpha1"].
Definition tokenAPIVersion : string := "credentialprovider.kubelet.k8s.io/v1".

Section Validate.
(** [url.Parse]: the scheme and the host. *)
Context (ParseURL : string → res (string * string)).

Fixpoint endpoint_problem (env : list json) : option string :=
  match env with
  | [] => Some "HARBOR_BRIDGE_ENDPOINT is not set"
  | e :: env =>
      let m := default [] (as_map e) in
      if negb (key_is m "name" bridgeEndpointEnv) then endpoint_problem env
      else match ParseURL (string_at m "value") with
      | Err _ => Some "not a valid URL"
      | Ok (scheme, host) =>
          if negb (String.eqb scheme "https") then Some "does not use https"
          else if String.eqb host "" then Some "has no host"
          else None
      end
  end.

Definition bridgeEndpointProblem (entry : obj) : option string := endpoint_problem (list_at entry "env").

Definition problem_if (b : bool) (m : string) : list string := if b then [m] else [].

Definition image_problems (img : json) : list string :=
  match img with
  | JString s => match ParseURL ("https://" +:+ s) with Ok _ => [] | Err _ => ["matchImages entry is not a valid image host pattern"] end
  | _ => ["matchImages entry is not a string"]
  end.

Definition cache_duration_problems (v : option json) : list string :=
  match as_string v with
  | None => ["defaultCacheDuration is not a duration string"]
  | Some d => match ParseDuration d with
              | Err _ => ["defaultCacheDuration is not a Go duration"]
              | Ok dur => problem_if (dur <? 0) "defaultCacheDuration is negative"
              end
  end.

Definition token_problems (apiVersion : string) (raw : option json) : list string :=
  match raw with
  | None => []
  | Some raw =>
      let ta := default [] (as_map raw) in
      let ct := string_at ta "cacheType" in
      problem_if (negb (String.eqb apiVersion tokenAPIVersion)) "tokenAttributes needs apiVersion v1" ++
      problem_if (String.eqb (string_at ta "serviceAccountTokenAudience") "") "serviceAccountTokenAudience is empty" ++
      problem_if (match lookup_key ta "requireServiceAccount" with Some (JBool _) => false | _ => true end)
        "requireServiceAccount is not true or false" ++
      problem_if (negb (String.eqb ct "ServiceAccount") && negb (String.eqb ct "Token")) "cacheType is not ServiceAccount or Token"
  end.

Definition entry_problems (entry : obj) : list string :=
  let apiVersion := string_at entry "apiVersion" in
  let images := list_at entry "matchImages" in
  problem_if (negb (existsb (String.eqb apiVersion) credentialProviderAPIVersions)) "apiVersion" ++
  problem_if (match images with [] => true | _ => false end) "matchImages is empty" ++
  List.concat (map image_problems images) ++
  cache_duration_problems (lookup_key entry "defaultCacheDuration") ++
  match bridgeEndpointProblem entry with Some m => [m] | None => [] end ++
  token_problems apiVersion (lookup_key entry "tokenAttributes").

Definition validateEntry (entry : obj) : option gerr :=
  match entry_problems entry with
  | [] => None
  | problems => Some (EMsg (Join problems "; "))
  end.
End Validate.

(** ** The node's address *)

(** [bytes.ReplaceAll] with a non-empty [old]; [skip] bytes of a match are left. *)
Fixpoint replace_all (skip : nat) (s old new : string) : string :=
  match s with
  | EmptyString => EmptyString
  | String c rest =>
      match skip with
      | S skip => replace_all skip rest old new
      | O => if HasPrefix s old then new +:+ replace_all (pred (String.length old)) rest old new
             else String c (replace_all 0 rest old new)
      end
  end.
Definition ReplaceAll (s old new : string) : string := replace_all 0 s old new.

Record addr := MkAddr { Is4 : bool; Zone : string; AString : string }.

Definition placeholder : string := "$(NODE_IP)".

Section NodeIP.
(** [netip.ParseAddr]. *)
Context (ParseAddr : string → res addr).

Definition substituteNodeIP (rendered nodeIP : string) : res string :=
  if negb (Contains rendered placeholder) then Ok rendered
  else if String.eqb nodeIP "" then Err (EMsg "rendered config references $(NODE_IP) but NODE_IP is not set")
  else match ParseAddr nodeIP with
  | Err _ => Err (EMsg "NODE_IP is not an IP address")
  | Ok a =>
      if negb (String.eqb (Zone a) "") then Err (EMsg "NODE_IP is not an IP address")
      else
        let bracketed := "[" +:+ placeholder +:+ "]" in
        if Is4 a then
          if Contains rendered bracketed then Err (EMsg "$(NODE_IP) in brackets is no valid host for an IPv4 address")
          else Ok (ReplaceAll rendered placeholder (AString a))
        else
          let host := "[" +:+ AString a +:+ "]" in
          Ok (ReplaceAll (ReplaceAll rendered bracketed host) placeholder host)
  end.
End NodeIP.

(** ** Merging and composing *)

Section Documents.
(** [sigs.k8s.io/yaml]: reading a document into a map, and writing one. *)
Context (yaml_Unmarshal : string → res obj) (yaml_Marshal : obj → res string).
(** [json.Unmarshal] into a map. *)
Context (json_Unmarshal : string → res obj).
(** [fmt.Sprint] of a value that is not a string. *)
Context (Sprint : option json → string).

Definition renderedProvider (rendered name : string) : res obj :=
  match yaml_Unmarshal rendered with
  | Err e => Err (EWrap "parse rendered credential-provider config" e)
  | Ok cfg =>
      match providerList cfg with
      | Err e => Err (EWrap "rendered credential-provider config" e)
      | Ok ps => match find_provider ps name with
                 | Some entry => Ok entry
                 | None => Err (EMsg "rendered credential-provider config has no such provider")
                 end
      end
  end.

Definition checkRoundTrip (out : string) (want : obj) (asJSON : bool) : option gerr :=
  match yaml_Unmarshal out with
  | Err e => Some (EJoin (ESentinel errNoRoundTrip) e)
  | Ok back =>
      if negb (DeepEqual (JObject back) (JObject want)) then Some (EWrap "YAML" (ESentinel errNoRoundTrip))
      else if negb asJSON then None
      else match json_Unmarshal out with
      | Err e => Some (EJoin (ESentinel errNoRoundTrip) e)
      | Ok back => if negb (DeepEqual (JObject back) (JObject want)) then Some (EWrap "JSON" (ESentinel errNoRoundTrip)) else None
      end
  end.

Definition marshalMatching (cfg : obj) (asJSON : bool) : res string :=
  if negb asJSON then yaml_Marshal cfg
  else Ok (MarshalIndent (JObject cfg) +:+ String (ascii_of_nat 10) EmptyString).

(** The providers with [entry] in the place of the first one of its name. *)
Inductive replacement := Replaced (ps : list json) | Absent | Foreign.

Fixpoint replace_provider (ps : list json) (name : string) (entry : obj) : replacement :=
  match ps with
  | [] => Absent
  | p :: ps' =>
      let rest := match replace_provider ps' name entry with Replaced l => Replaced (p :: l) | r => r end in
      match as_map p with
      | None => rest
      | Some pm =>
          if key_is pm "name" name then
            if negb (isBridgeProvider pm) then Foreign else Replaced (JObject entry :: ps')
          else rest
      end
  end.

Definition mergeProvider (existing : string) (entry : obj) : res (string * bool) :=
  match yaml_Unmarshal existing with
  | Err e => Err (EWrap "parse node credential-provider config" e)
  | Ok cfg =>
      if negb (key_is cfg "apiVersion" credentialProviderConfigAPIVersion)
      then Err (EMsg "refusing to merge into an unknown schema")
      else match providerList cfg with
      | Err e => Err (EWrap "node credential-provider config" e)
      | Ok ps =>
          match as_string (lookup_key entry "name") with
          | None | Some "" => Err (EMsg "provider entry has no name")
          | Some name =>
              match (match replace_provider ps name entry with
                     | Replaced l => Some l
                     | Absent => Some (ps ++ [JObject entry])
                     | Foreign => None
                     end) with
              | None => Err (EMsg "refusing to replace a provider that is not a harbor-bridge plugin")
              | Some ps' =>
                  let cfg' := set_key cfg "providers" (JArray ps') in
                  if DeepEqual (JObject cfg) (JObject cfg') then Ok (existing, false)
                  else
                    let asJSON := isJSON existing in
                    match marshalMatching cfg' asJSON with
                    | Err e => Err (EWrap "marshal merged credential-provider config" e)
                    | Ok out =>
                        match checkRoundTrip out cfg' asJSON with
                        | Some e => Err (EWrap "merged credential-provider config" e)
                        | None => Ok (out, true)
                        end
                    end
              end
          end
      end
  end.

(** What the loop of [composeOwnConfig] keeps and drops. *)
Record composing := MkComposing { kept : list json; seen : list string; dropped : list string }.

Definition has_seen (c : composing) (n : string) : bool := existsb (String.eqb n) (seen c).
Definition keep (c : composing) (p : json) (n : string) : composing := MkComposing (kept c ++ [p]) (n :: seen c) (dropped c).
Definition drop_entry (c : composing) (n : string) : composing := MkComposing (kept c) (seen c) (dropped c ++ [n]).

Fixpoint compose (name : string) (entry : obj) (sibling : obj → host bool) (c : composing) (ps : list json) : host composing :=
  match ps with
  | [] => Ret c
  | p :: ps =>
      let pname := match as_map p with Some pm => string_at pm "name" | None => "" end in
      c ← (match as_map p with
           | Some pm =>
               if String.eqb pname name && negb (has_seen c name) then Ret (keep c (JObject entry) name)
               else if negb (String.eqb pname name) && negb (has_seen c pname) then
                 s ← sibling pm;
                 Ret (if s : bool then keep c (JObject pm) pname else drop_entry c pname)
               else Ret (drop_entry c pname)
           | None => Ret (drop_entry c pname)
           end);
      compose name entry sibling c ps
  end.

(** The document the kept entries make. *)
Definition composed (existing rendered : string) (cur : obj) (c : composing) : res (string * list string) :=
  if (length (kept c) =? 1)%nat then Ok (rendered, dropped c)
  else match yaml_Unmarshal rendered with
  | Err e => Err (EWrap "parse rendered credential-provider config" e)
  | Ok doc =>
      let doc := set_key doc "providers" (JArray (kept c)) in
      if DeepEqual (JObject cur) (JObject doc) then Ok (existing, dropped c)
      else match yaml_Marshal doc with
      | Err e => Err (EWrap "marshal credential-provider config" e)
      | Ok out => match checkRoundTrip out doc false with
                  | Some e => Err e
                  | None => Ok (out, dropped c)
                  end
      end
  end.

Definition composeOwnConfig (existing rendered : string) (entry : obj) (sibling : obj → host bool)
    : host (res (string * list string)) :=
  match yaml_Unmarshal existing with
  | Err e => Ret (Err (EWrap "parse" e))
  | Ok cur =>
      if negb (key_is cur "apiVersion" credentialProviderConfigAPIVersion) then Ret (Err (EMsg "apiVersion"))
      else match providerList cur with
      | Err e => Ret (Err e)
      | Ok ps =>
          match as_string (lookup_key entry "name") with
          | None | Some "" => Ret (Err (EMsg "provider entry has no name"))
          | Some name =>
              c ← compose name entry sibling (MkComposing [] [] []) ps;
              let c := if has_seen c name then c else MkComposing (kept c ++ [JObject entry]) (seen c) (dropped c) in
              Ret (composed existing rendered cur c)
          end
      end
  end.

(** Names that keep kubelet from starting. *)
Definition refused_name (n : string) : bool :=
  String.eqb n "" || String.eqb n "." || String.eqb n ".." || ContainsAny n "/ ".

Fixpoint start_problems (own : string) (hasBinary : string → host bool) (seen : list string) (ps : list json) : host (list string) :=
  match ps with
  | [] => Ret []
  | p :: ps =>
      match as_string (lookup_key (default [] (as_map p)) "name") with
      | None => rest ← start_problems own hasBinary seen ps; Ret ("provider has no string name" :: rest)
      | Some name =>
          here ← (if refused_name name then Ret ["kubelet refuses the provider name"]
                  else if existsb (String.eqb name) seen then Ret ["the provider name occurs more than once"]
                  else if negb (String.eqb name own) then
                    b ← hasBinary name;
                    Ret (if b : bool then [] else ["the binary of the provider is missing"])
                  else Ret []);
          rest ← start_problems own hasBinary (name :: seen) ps;
          Ret (here ++ rest)
      end
  end.

Definition kubeletStartProblems (doc own : string) (hasBinary : string → host bool) : host (res (list string)) :=
  match yaml_Unmarshal doc with
  | Err e => Ret (Err (EWrap "parse credential-provider config" e))
  | Ok cfg =>
      match providerList cfg with
      | Err e => Ret (Err e)
      | Ok ps => problems ← start_problems own hasBinary [] ps; Ret (Ok problems)
      end
  end.

(** [fmt.Sprint(pm["name"])]; a string prints as itself. *)
Definition sprint_name (pm : obj) : string := match lookup_key pm "name" with Some (JString s) => s | v => Sprint v end.

Fixpoint bridge_names (name : string) (counts : option (obj → host bool)) (ps : list json) : host (list string) :=
  match ps with
  | [] => Ret []
  | p :: ps =>
      b ← (match as_map p with
           | Some pm =>
               if negb (key_is pm "name" name) && isBridgeProvider pm then
                 match counts with Some counts => counts pm | None => Ret true end
               else Ret false
           | None => Ret false
           end);
      rest ← bridge_names name counts ps;
      Ret (if b : bool then sprint_name (default [] (as_map p)) :: rest else rest)
  end.

Definition otherBridgeProviders (doc name : string) (counts : option (obj → host bool)) : host (list string) :=
  match yaml_Unmarshal doc with
  | Err _ => Ret []
  | Ok cfg => match providerList cfg with
              | Err _ => Ret []
              | Ok ps => bridge_names name counts ps
              end
  end.
End Documents.
