(* ===== verification/ProviderMerge.v ===== *)
(** * An install changes only its own provider

    The documents [ProviderConfig] writes: a merge keeps every entry but the install's own
    and is idempotent; a chart-owned document holds the install's entry and the entries
    other installs vouch for, each name once; and what kubelet could not start with is
    reported. *)

From S2P Require Import Prelude Effects GoStrings GoStd GoTime GoDuration Utf8 Json JsonIndent Host ProviderConfig.

(** ** Values *)

Section JsonInd.
Context (P : json → Prop).
Hypothesis (Hnull : P JNull) (Hbool : ∀ b, P (JBool b)) (Hnum : ∀ n, P (JNumber n)) (Hstr : ∀ s, P (JString s)).
Hypothesis (Harr : ∀ l, Forall P l → P (JArray l)).
Hypothesis (Hobj : ∀ fs, Forall (λ f, P f.2) fs → P (JObject fs)).

Fixpoint json_nested_ind (j : json) : P j :=
  match j with
  | JNull => Hnull
  | JBool b => Hbool b
  | JNumber n => Hnum n
  | JString s => Hstr s
  | JArray l => Harr l ((fix go (l : list json) : Forall P l :=
      match l with [] => Forall_nil_2 _ | x :: l => Forall_cons_2 _ _ _ (json_nested_ind x) (go l) end) l)
  | JObject fs => Hobj fs ((fix go (fs : obj) : Forall (λ f, P f.2) fs :=
      match fs with [] => Forall_nil_2 _ | f :: fs => Forall_cons_2 _ _ _ (json_nested_ind f.2) (go fs) end) fs)
  end.
End JsonInd.

Lemma DeepEqual_eq a b : DeepEqual a b = true ↔ a = b.
Proof.
  revert b. induction a as [| | | |l IH|fs IH] using json_nested_ind; intros [| | | |l'|fs']; cbn [DeepEqual]; try (split; congruence).
  - rewrite Bool.eqb_true_iff. split; congruence.
  - rewrite String.eqb_eq. split; congruence.
  - rewrite String.eqb_eq. split; congruence.
  - assert (∀ l', (fix go (a b : list json) : bool := match a, b with [], [] => true | x :: a, y :: b => DeepEqual x y && go a b | _, _ => false end) l l' = true ↔ l = l') as ->.
    { clear l'. induction IH as [|x l Hx _ IH]; intros [|y l']; try (split; congruence).
      rewrite andb_true_iff, Hx, IH. split; [by intros [-> ->]|by intros [= -> ->]]. }
    split; congruence.
  - assert (∀ fs', (fix go (a b : obj) : bool := match a, b with [], [] => true | (k, x) :: a, (k', y) :: b => String.eqb k k' && DeepEqual x y && go a b | _, _ => false end) fs fs' = true ↔ fs = fs') as ->.
    { clear fs'. induction IH as [|[k x] fs Hx _ IH]; intros [|[k' y] fs']; try (split; congruence). cbn in Hx.
      rewrite !andb_true_iff, String.eqb_eq, Hx, IH. split; [by intros [[-> ->] ->]|by intros [= -> -> ->]]. }
    split; congruence.
Qed.

Lemma DeepEqual_refl a : DeepEqual a a = true.
Proof. by apply DeepEqual_eq. Qed.

Lemma lookup_set_key m k v : lookup_key (set_key m k v) k = Some v.
Proof.
  induction m as [|[k' v'] m IH]; cbn [set_key lookup_key]; [by rewrite String.eqb_refl|].
  destruct (String.eqb k k') eqn:E; [by cbn [lookup_key]; rewrite String.eqb_refl|].
  destruct (String.ltb k k'); cbn [lookup_key]; [by rewrite String.eqb_refl|]. by rewrite E.
Qed.

Lemma lookup_set_other m k v k' : k' ≠ k → lookup_key (set_key m k v) k' = lookup_key m k'.
Proof.
  intros Hne. apply String.eqb_neq in Hne as Hb.
  induction m as [|[k1 v1] m IH]; cbn [set_key lookup_key]; [by rewrite Hb|].
  destruct (String.eqb_spec k k1) as [->|]; [cbn [lookup_key]; by rewrite Hb|].
  destruct (String.ltb k k1); cbn [lookup_key]; [by rewrite Hb|]. by rewrite IH.
Qed.

Lemma set_set_key m k v v' : set_key (set_key m k v) k v' = set_key m k v'.
Proof.
  induction m as [|[k1 v1] m IH]; cbn [set_key]; [by rewrite String.eqb_refl|].
  destruct (String.eqb k k1) eqn:E; [cbn [set_key]; by rewrite String.eqb_refl|].
  destruct (String.ltb k k1) eqn:El; cbn [set_key]; [by rewrite String.eqb_refl|]. by rewrite E, El, IH.
Qed.

Lemma key_is_set_other m k v k' s : k' ≠ k → key_is (set_key m k v) k' s = key_is m k' s.
Proof. intros H. unfold key_is. by rewrite lookup_set_other. Qed.

Lemma providerList_set cfg ps : providerList (set_key cfg "providers" (JArray ps)) = Ok ps.
Proof. unfold providerList. by rewrite lookup_set_key. Qed.

(** ** Merging *)

(** The entry is a provider named [name]. *)
Definition named (name : string) (p : json) : bool := match as_map p with Some m => key_is m "name" name | None => false end.
Definition is_bridge (p : json) : bool := match as_map p with Some m => isBridgeProvider m | None => false end.

(** [ps'] is [ps] with [entry] in the place of the first provider of its name, which is a
    bridge entry, or after them all. *)
Definition merged_into (ps : list json) (name : string) (entry : obj) (ps' : list json) : Prop :=
  (∃ pre p post, ps = pre ++ p :: post ∧ named name p = true ∧ is_bridge p = true ∧
     Forall (λ q, named name q = false) pre ∧ ps' = pre ++ JObject entry :: post) ∨
  (Forall (λ q, named name q = false) ps ∧ ps' = ps ++ [JObject entry]).

Lemma replace_provider_spec ps name entry :
  match replace_provider ps name entry with
  | Replaced ps' => ∃ pre p post, ps = pre ++ p :: post ∧ named name p = true ∧ is_bridge p = true ∧
      Forall (λ q, named name q = false) pre ∧ ps' = pre ++ JObject entry :: post
  | Absent => Forall (λ q, named name q = false) ps
  | Foreign => ∃ pre p post, ps = pre ++ p :: post ∧ named name p = true ∧ is_bridge p = false
  end.
Proof.
  induction ps as [|p ps IH]; cbn [replace_provider]; [constructor|].
  assert (named name p = false → match (match replace_provider ps name entry with Replaced l => Replaced (p :: l) | r => r end) with
    | Replaced ps' => ∃ pre q post, p :: ps = pre ++ q :: post ∧ named name q = true ∧ is_bridge q = true ∧
        Forall (λ q, named name q = false) pre ∧ ps' = pre ++ JObject entry :: post
    | Absent => Forall (λ q, named name q = false) (p :: ps)
    | Foreign => ∃ pre q post, p :: ps = pre ++ q :: post ∧ named name q = true ∧ is_bridge q = false
    end) as Hskip.
  { intros Hp. destruct (replace_provider ps name entry) as [l| |].
    - destruct IH as (pre & q & post & -> & H1 & H2 & H3 & ->). exists (p :: pre), q, post. split_and!; [done..| |done]. by constructor.
    - by constructor.
    - destruct IH as (pre & q & post & -> & H1 & H2). by exists (p :: pre), q, post. }
  unfold named, is_bridge in *. destruct (as_map p) as [pm|] eqn:Ep; [|by apply Hskip].
  destruct (key_is pm "name" name) eqn:Ek; [|by apply Hskip].
  destruct (isBridgeProvider pm) eqn:Eb; cbn [negb].
  - exists [], p, ps. rewrite Ep. by split_and!.
  - exists [], p, ps. by rewrite Ep.
Qed.

Lemma replace_provider_here pre name entry post : Forall (λ q, named name q = false) pre →
  key_is entry "name" name = true → isBridgeProvider entry = true →
  replace_provider (pre ++ JObject entry :: post) name entry = Replaced (pre ++ JObject entry :: post).
Proof.
  intros Hpre Hn Hb. induction Hpre as [|p pre Hp _ IH]; cbn [app replace_provider as_map].
  - by rewrite Hn, Hb.
  - rewrite IH. unfold named in Hp. destruct (as_map p) as [pm|]; [|done]. by rewrite Hp.
Qed.

Section Merge.
Context (yaml_Unmarshal : string → res obj) (yaml_Marshal : obj → res string) (json_Unmarshal : string → res obj).
Notation mergeProvider := (mergeProvider yaml_Unmarshal yaml_Marshal json_Unmarshal).
Notation checkRoundTrip := (checkRoundTrip yaml_Unmarshal json_Unmarshal).

Lemma checkRoundTrip_reads out want asJSON : checkRoundTrip out want asJSON = None → yaml_Unmarshal out = Ok want.
Proof.
  unfold ProviderConfig.checkRoundTrip. destruct (yaml_Unmarshal out) as [back|]; [|done].
  destruct (DeepEqual (JObject back) (JObject want)) eqn:E; [|done]. apply DeepEqual_eq in E. congruence.
Qed.

(** A merge that succeeds: what it read, what it returns and what that reads as. *)
Lemma mergeProvider_inv existing entry out changed : mergeProvider existing entry = Ok (out, changed) →
  ∃ cfg ps name ps', yaml_Unmarshal existing = Ok cfg ∧ key_is cfg "apiVersion" credentialProviderConfigAPIVersion = true ∧
    providerList cfg = Ok ps ∧ as_string (lookup_key entry "name") = Some name ∧ name ≠ "" ∧
    merged_into ps name entry ps' ∧ yaml_Unmarshal out = Ok (set_key cfg "providers" (JArray ps')) ∧
    (changed = false → out = existing).
Proof.
  unfold ProviderConfig.mergeProvider. destruct (yaml_Unmarshal existing) as [cfg|] eqn:Hy; [|done].
  destruct (key_is cfg _ _) eqn:Hv; [|done]. destruct (providerList cfg) as [ps|] eqn:Hl; [|done].
  destruct (as_string _) as [[|a n]|] eqn:Hn; [done| |done]. cbn [negb]. set (name := String a n) in *.
  destruct (match replace_provider ps name entry with Replaced l => Some l | Absent => Some (ps ++ [JObject entry]) | Foreign => None end)
    as [ps'|] eqn:Hr; [|done].
  assert (merged_into ps name entry ps') as Hm.
  { pose proof (replace_provider_spec ps name entry) as H. destruct (replace_provider ps name entry); [| |done];
      injection Hr as <-; [by left|by right]. }
  intros H. exists cfg, ps, name, ps'. do 6 (split; [done|]).
  destruct (DeepEqual _ _) eqn:E.
  { injection H as <- <-. apply DeepEqual_eq in E. injection E as E. rewrite Hy, <- E. done. }
  destruct (marshalMatching _ _ _) as [o|]; [|done]. destruct (checkRoundTrip _ _ _) as [e|] eqn:Hc; [done|].
  injection H as <- <-. split; [by eapply checkRoundTrip_reads|done].
Qed.

(** C23: What a merge writes reads back as the document it found, with this install's entry in
    the place of its earlier one or at the end: every other provider and every other field
    is kept, in order, and a provider of the same name that is no bridge's is never
    replaced. *)
Theorem mergeProvider_keeps_others existing entry out changed : mergeProvider existing entry = Ok (out, changed) →
  ∃ cfg ps name ps', yaml_Unmarshal existing = Ok cfg ∧ providerList cfg = Ok ps ∧
    as_string (lookup_key entry "name") = Some name ∧ merged_into ps name entry ps' ∧
    yaml_Unmarshal out = Ok (set_key cfg "providers" (JArray ps')).
Proof. intros (cfg & ps & name & ps' & ? & _ & ? & ? & _ & ? & ? & _)%mergeProvider_inv. by exists cfg, ps, name, ps'. Qed.

(** Merging again changes nothing, so a later pass does not restart kubelet. *)
Theorem mergeProvider_idempotent existing entry out changed : isBridgeProvider entry = true →
  mergeProvider existing entry = Ok (out, changed) → mergeProvider out entry = Ok (out, false).
Proof.
  intros Hb (cfg & ps & name & ps' & Hy & Hv & Hl & Hn & Hne & Hm & Ho & _)%mergeProvider_inv.
  assert (key_is entry "name" name = true) as Hk.
  { unfold key_is, as_string in *. destruct (lookup_key entry "name") as [[]|]; try done. injection Hn as ->. apply String.eqb_refl. }
  assert (replace_provider ps' name entry = Replaced ps') as Hr.
  { destruct Hm as [(pre & p & post & -> & _ & _ & Hpre & ->)|[Hall ->]]; by apply replace_provider_here. }
  unfold ProviderConfig.mergeProvider. rewrite Ho, key_is_set_other, Hv, providerList_set, Hn by done. cbn [negb].
  destruct name as [|a n]; [done|]. by rewrite Hr, set_set_key, DeepEqual_refl.
Qed.
End Merge.

(** ** The chart-owned document *)

Definition provider_name (p : json) : string := match as_map p with Some pm => string_at pm "name" | None => "" end.

Section Compose.
Context (yaml_Unmarshal : string → res obj) (yaml_Marshal : obj → res string) (json_Unmarshal : string → res obj).
Context (env : log hans → ∀ c, hans c → Prop) (ok : log hans → hcall → Prop).
(** The entries another install vouches for, which [sibling] tells. *)
Context (vouched : obj → Prop) (sibling : obj → host bool).
Hypothesis sibling_tells : ∀ h pm, wp env ok h (sibling pm) (λ _ b, b = true ↔ vouched pm).
Context (name : string) (entry : obj).
Hypothesis entry_name : string_at entry "name" = name.

(** An entry that may be in the document, and the documents of an install: its own entry,
    vouched entries of other names, and each name once. *)
Definition may_hold (p : json) : Prop := p = JObject entry ∨ ∃ pm, p = JObject pm ∧ vouched pm ∧ string_at pm "name" ≠ name.

Definition sound_entries (l : list json) : Prop := Forall may_hold l ∧ NoDup (map provider_name l).

(** Every name another install vouches for in [ps] is in [l]. *)
Definition keeps_vouched (ps l : list json) : Prop :=
  ∀ pm, JObject pm ∈ ps → vouched pm → string_at pm "name" ≠ name → string_at pm "name" ∈ map provider_name l.

Definition composing_inv (done : list json) (c : composing) : Prop :=
  sound_entries (kept c) ∧ (∀ n, n ∈ seen c ↔ n ∈ map provider_name (kept c)) ∧ keeps_vouched done (kept c).

Lemma has_seen_in c n : has_seen c n = true ↔ n ∈ seen c.
Proof.
  unfold has_seen. rewrite existsb_exists_elem. split; [by intros (x & ? & ->%String.eqb_eq)|].
  intros H. exists n. split; [done|apply String.eqb_refl].
Qed.

Lemma composing_keep done c p : composing_inv done c → may_hold p → has_seen c (provider_name p) = false →
  composing_inv (done ++ [p]) (keep c p (provider_name p)).
Proof.
  intros ((Hf & Hd) & Hs & Hk) Hp Hn. assert (provider_name p ∉ map provider_name (kept c)) as Hnew.
  { rewrite <- Hs. intros Hin%has_seen_in. congruence. }
  split_and!; [split|..]; cbn [kept seen keep].
  - apply Forall_app. split; [done|]. by constructor.
  - rewrite map_app. apply NoDup_app. split_and!; [done|intros x Hx ->%list_elem_of_singleton; done|apply NoDup_singleton].
  - intros n. rewrite map_app, elem_of_app, elem_of_cons, Hs. cbn. rewrite list_elem_of_singleton. tauto.
  - intros pm [Hin|E%list_elem_of_singleton]%elem_of_app Hv Hne; rewrite map_app; apply elem_of_app; [left; by apply Hk|right].
    rewrite <- E. by left.
Qed.

Lemma composing_skip done c p : composing_inv done c →
  (∀ pm, p = JObject pm → vouched pm → string_at pm "name" ≠ name → has_seen c (string_at pm "name") = true) →
  composing_inv (done ++ [p]) (drop_entry c (provider_name p)).
Proof.
  intros (Hg & Hs & Hk) Hp. split_and!; [done..|]. intros pm [Hin|E%list_elem_of_singleton]%elem_of_app Hv Hne; [by apply Hk|].
  apply Hs, has_seen_in. by apply Hp.
Qed.

Lemma composing_own done c p : composing_inv done c → provider_name p = name → has_seen c name = false →
  composing_inv (done ++ [p]) (keep c (JObject entry) name).
Proof.
  intros Hc Hp Hn. assert (provider_name (JObject entry) = name) as He by exact entry_name. rewrite <- He in Hn.
  pose proof (composing_keep done c (JObject entry) Hc (or_introl eq_refl) Hn) as (Hg & Hs & Hk). rewrite He in Hg, Hs, Hk.
  split_and!; [done..|]. intros pm [Hin|E%list_elem_of_singleton]%elem_of_app Hv Hne; [apply Hk; [apply elem_of_app; by left|done..]|].
  subst p. by rewrite <- Hp in Hne.
Qed.

Lemma wp_compose ps : ∀ done c h, composing_inv done c →
  wp env ok h (compose name entry sibling c ps) (λ _ c', composing_inv (done ++ ps) c').
Proof.
  induction ps as [|p ps IH]; intros done c h Hc; cbn [compose]; [cbn; by rewrite app_nil_r|].
  fold (provider_name p). apply wp_bind. eapply (wp_mono _ _ _ _ (λ _ c', composing_inv (done ++ [p]) c')).
  - destruct (as_map p) as [pm|] eqn:Ep; [|apply wp_ret, composing_skip; [done|]; by intros pm ->].
    assert (p = JObject pm) as -> by (destruct p; try done; by injection Ep as ->). cbn [provider_name as_map] in *.
    destruct (String.eqb_spec (string_at pm "name") name) as [E|Hne]; cbn [andb negb].
    + destruct (has_seen c name) eqn:Hs; cbn [negb]; apply wp_ret.
      * apply (composing_skip done c (JObject pm)); [done|]. by intros ? [= <-].
      * by apply (composing_own done c (JObject pm)).
    + destruct (has_seen c (string_at pm "name")) eqn:Hs; cbn [negb].
      * apply wp_ret. apply (composing_skip done c (JObject pm)); [done|]. by intros ? [= <-].
      * wp_cut sibling_tells. intros h1 [] Hb; apply wp_ret.
        -- apply (composing_keep done c (JObject pm)); [done|right|done]. exists pm. split_and!; [done|by apply Hb|done].
        -- apply (composing_skip done c (JObject pm)); [done|]. intros ? [= <-] Hv. by apply Hb in Hv.
  - intros h1 c1 H1. replace (done ++ p :: ps) with ((done ++ [p]) ++ ps) by by rewrite <- app_assoc. by apply IH.
Qed.

(** The entries of the document an install leaves, from the entries [ps] it found. *)
Definition chart_entries (ps l : list json) : Prop := sound_entries l ∧ keeps_vouched ps l ∧ JObject entry ∈ l.

(** The text [out] stands for the entries [l]: it is the rendered document when the
    install's is the only one, and otherwise reads as the rendered document with them. *)
Definition stands_for (rendered out : string) (l : list json) : Prop :=
  (l = [JObject entry] ∧ out = rendered) ∨
  ∃ doc, yaml_Unmarshal rendered = Ok doc ∧ yaml_Unmarshal out = Ok (set_key doc "providers" (JArray l)).

Lemma composed_stands_for existing rendered cur c out d : JObject entry ∈ kept c → yaml_Unmarshal existing = Ok cur →
  composed yaml_Unmarshal yaml_Marshal json_Unmarshal existing rendered cur c = Ok (out, d) → stands_for rendered out (kept c).
Proof.
  intros Hin Hc. unfold composed. destruct (Nat.eqb_spec (length (kept c)) 1) as [E|_].
  - intros [= <- _]. left. split; [|done]. destruct (kept c) as [|x [|]]; [done| |done]. by apply list_elem_of_singleton in Hin as ->.
  - destruct (yaml_Unmarshal rendered) as [doc|] eqn:Hr; [|done]. destruct (DeepEqual _ _) eqn:E.
    + intros [= <- _]. right. exists doc. split; [done|]. apply DeepEqual_eq in E. injection E as <-. done.
    + destruct (yaml_Marshal _) as [o|]; [|done]. destruct (checkRoundTrip _ _ _ _ _) eqn:Hk; [done|].
      intros [= <- _]. right. exists doc. split; [done|]. by eapply checkRoundTrip_reads.
Qed.

Lemma own_entry_kept c done : composing_inv done c → has_seen c name = true → JObject entry ∈ kept c.
Proof.
  intros ((Hf & _) & Hs & _) Hn%has_seen_in. apply Hs in Hn. apply list_elem_of_In, in_map_iff in Hn as (p & Hp & Hin).
  apply list_elem_of_In in Hin. rewrite Forall_forall in Hf. destruct (Hf p Hin) as [->|(pm & -> & _ & Hne)]; [done|]. by rewrite <- Hp in Hne.
Qed.

Lemma composing_final c ps : composing_inv ps c →
  chart_entries ps (kept (if has_seen c name then c else MkComposing (kept c ++ [JObject entry]) (seen c) (dropped c))).
Proof.
  intros Hc. destruct (has_seen c name) eqn:Hn.
  - destruct Hc as (Hg & Hs & Hk). split_and!; [done..|]. by eapply own_entry_kept.
  - assert (provider_name (JObject entry) = name) as He by exact entry_name. rewrite <- He in Hn.
    pose proof (composing_keep ps c (JObject entry) Hc (or_introl eq_refl) Hn) as (Hg & _ & Hk).
    split_and!; [exact Hg| |apply elem_of_app; right; by left]. intros pm Hin. apply Hk. apply elem_of_app. by left.
Qed.

(** C22: The chart-owned document an install writes, read back: its own entry, and every entry of
    the document it found that another install vouches for, each provider name once, and
    nothing else: an entry somebody planted there is gone. *)
Theorem composeOwnConfig_entries existing rendered h h' out d :
  as_string (lookup_key entry "name") = Some name →
  runs env (composeOwnConfig yaml_Unmarshal yaml_Marshal json_Unmarshal existing rendered entry sibling) h h' (Ok (out, d)) →
  ∃ cur ps l, yaml_Unmarshal existing = Ok cur ∧ providerList cur = Ok ps ∧ chart_entries ps l ∧ stands_for rendered out l.
Proof.
  intros Hname Hr. refine (proj2 (wp_sound env ok h _ (λ _ r, ∀ out d, r = Ok (out, d) → ∃ cur ps l,
    yaml_Unmarshal existing = Ok cur ∧ providerList cur = Ok ps ∧ chart_entries ps l ∧ stands_for rendered out l) h' _ _ Hr) out d eq_refl).
  unfold composeOwnConfig. destruct (yaml_Unmarshal existing) as [cur|] eqn:Hy; [|done].
  destruct (negb _); [done|]. destruct (providerList cur) as [ps|] eqn:Hl; [|done]. rewrite Hname.
  assert (∀ n, n = name → wp env ok h (c ← compose n entry sibling (MkComposing [] [] []) ps;
    let c := if has_seen c n then c else MkComposing (kept c ++ [JObject entry]) (seen c) (dropped c) in
    Ret (composed yaml_Unmarshal yaml_Marshal json_Unmarshal existing rendered cur c))
    (λ _ r, ∀ out d, r = Ok (out, d) → ∃ cur0 ps l, Ok cur = Ok cur0 ∧ providerList cur0 = Ok ps ∧ chart_entries ps l ∧ stands_for rendered out l)) as Hwp.
  { intros n ->. apply wp_bind. eapply wp_mono; [apply (wp_compose ps []); split_and!; [split; constructor|done|by intros pm Hin%elem_of_nil]|].
    intros h1 c Hc%composing_final. apply wp_ret. intros out' d' Ho. exists cur, ps. eexists. split_and!; [done..|exact Hc|].
    eapply composed_stands_for; [by destruct Hc as (_ & _ & ?)|exact Hy|exact Ho]. }
  destruct name as [|a n] eqn:En; [done|]. by apply Hwp.
Qed.
End Compose.

(** ** What kubelet cannot start with *)

Section Start.
Context (env : log hans → ∀ c, hans c → Prop) (own : string) (binary : string → Prop) (hasBinary : string → host bool).
Hypothesis binary_tells : ∀ h n, wp env (λ _ _, True) h (hasBinary n) (λ _ b, b = true ↔ binary n).

(** Every provider has a name kubelet takes, its own, and a binary. *)
Fixpoint startable (seen : list string) (ps : list json) : Prop :=
  match ps with
  | [] => True
  | p :: ps => ∃ n, as_string (lookup_key (default [] (as_map p)) "name") = Some n ∧ refused_name n = false ∧ n ∉ seen ∧
      (n = own ∨ binary n) ∧ startable (n :: seen) ps
  end.

Lemma wp_start_problems ps : ∀ seen h,
  wp env (λ _ _, True) h (start_problems own hasBinary seen ps) (λ _ l, l = [] ↔ startable seen ps).
Proof.
  induction ps as [|p ps IH]; intros seen h; cbn [start_problems startable]; [done|].
  destruct (as_string _) as [n|].
  2: { wp_cut IH. intros h1 l _. split; [done|]. by intros (n & ? & _). }
  apply wp_bind. eapply (wp_mono _ _ _ _ (λ _ l, l = [] ↔ refused_name n = false ∧ n ∉ seen ∧ (n = own ∨ binary n))).
  - destruct (refused_name n) eqn:Hr; [cbn; naive_solver|].
    destruct (existsb (String.eqb n) seen) eqn:Hs.
    { apply existsb_exists_elem in Hs as (x & Hx & ->%String.eqb_eq). cbn. naive_solver. }
    assert (n ∉ seen) as Hn.
    { intros Hin. rewrite (proj2 (existsb_exists_elem _ _)) in Hs; [done|]. exists n. split; [done|apply String.eqb_refl]. }
    destruct (String.eqb_spec n own) as [->|Hne]; cbn [negb]; [cbn; tauto|].
    wp_cut binary_tells. intros h1 [] Hb; cbn; naive_solver.
  - intros h1 here Hh. wp_cut IH. intros h2 rest Hrest. cbn. rewrite app_nil, Hh, Hrest. naive_solver.
Qed.
End Start.

(** ** Concrete documents *)

(** JSON is YAML: documents as the JSON reader and writer see them. *)
Definition demo_read_doc (text : string) : res obj :=
  match Unmarshal text with Ok (JObject fs) => Ok fs | Ok _ => Err (EMsg "not an object") | Err e => Err e end.
Definition demo_write_doc (o : obj) : res string := Ok (print (JObject o)).

Definition demo_bridge (name endpoint : string) : obj :=
  [("env", JArray [JObject [("name", JString bridgeEndpointEnv); ("value", JString endpoint)]]); ("name", JString name)].
Definition demo_cloud : obj := [("args", JArray [JString "get-credentials"]); ("name", JString "ecr-credential-provider")].
Definition demo_planted : obj := [("name", JString "evil")].
Definition demo_document (ps : list json) : obj :=
  [("apiVersion", JString credentialProviderConfigAPIVersion); ("kind", JString "CredentialProviderConfig"); ("providers", JArray ps)].
Definition demo_text (ps : list json) : string := print (JObject (demo_document ps)).
Definition demo_entry : obj := demo_bridge "harbor-bridge-plugin" "https://bridge:8443".

Notation demo_merge := (mergeProvider demo_read_doc demo_write_doc demo_read_doc).
Definition demo_merged : string :=
  MarshalIndent (JObject (demo_document [JObject demo_cloud; JObject demo_entry])) +:+ String (ascii_of_nat 10) EmptyString.

Lemma mergeProvider_keeps_others_witness :
  ∃ cfg ps name ps', demo_read_doc (demo_text [JObject demo_cloud]) = Ok cfg ∧ providerList cfg = Ok ps ∧
    as_string (lookup_key demo_entry "name") = Some name ∧ merged_into ps name demo_entry ps' ∧
    demo_read_doc demo_merged = Ok (set_key cfg "providers" (JArray ps')).
Proof.
  refine (mergeProvider_keeps_others demo_read_doc demo_write_doc demo_read_doc (demo_text [JObject demo_cloud]) demo_entry demo_merged true _).
  by vm_compute.
Defined.

Lemma mergeProvider_idempotent_witness : demo_merge demo_merged demo_entry = Ok (demo_merged, false).
Proof.
  refine (mergeProvider_idempotent demo_read_doc demo_write_doc demo_read_doc (demo_text [JObject demo_cloud]) demo_entry demo_merged true eq_refl _).
  by vm_compute.
Defined.

(** A provider of the install's name that is not a bridge's is not replaced. *)
Example foreign_refused :
  demo_merge (demo_text [JObject [("name", JString "harbor-bridge-plugin")]]) demo_entry =
    Err (EMsg "refusing to replace a provider that is not a harbor-bridge plugin").
Proof. by vm_compute. Qed.

(** The other install's entry stays, the planted one goes. *)
Definition demo_sibling (pm : obj) : host bool := Ret (key_is pm "name" "team-b").
Definition demo_team_b : obj := demo_bridge "team-b" "https://b:8443".

Lemma composeOwnConfig_entries_witness : ∃ cur ps l,
  demo_read_doc (demo_text [JObject demo_team_b; JObject demo_planted]) = Ok cur ∧ providerList cur = Ok ps ∧
  chart_entries (λ pm, key_is pm "name" "team-b" = true) "harbor-bridge-plugin" demo_entry ps l ∧
  stands_for demo_read_doc demo_entry (demo_text [JObject demo_entry]) (demo_text [JObject demo_team_b; JObject demo_entry]) l.
Proof.
  refine (composeOwnConfig_entries demo_read_doc demo_write_doc demo_read_doc any_env (λ _ _, True)
    (λ pm, key_is pm "name" "team-b" = true) demo_sibling (λ _ _, iff_refl _) "harbor-bridge-plugin" demo_entry eq_refl
    (demo_text [JObject demo_team_b; JObject demo_planted]) (demo_text [JObject demo_entry]) [] []
    (demo_text [JObject demo_team_b; JObject demo_entry]) ["evil"] eq_refl _).
  split; [done|]. by vm_compute.
Defined.

(** The address of an IPv6 node goes in brackets, once. *)
Example node_ip_substituted :
  let parse s := Ok (MkAddr false "" s) in
  substituteNodeIP parse "https://$(NODE_IP):31443" "fd00::5" = Ok "https://[fd00::5]:31443" ∧
  substituteNodeIP parse "https://[$(NODE_IP)]:31443" "fd00::5" = Ok "https://[fd00::5]:31443" ∧
  substituteNodeIP (λ s, Ok (MkAddr true "" s)) "https://[$(NODE_IP)]" "10.0.0.1" =
    Err (EMsg "$(NODE_IP) in brackets is no valid host for an IPv4 address").
Proof. by vm_compute. Qed.
