(* ===== verification/Records.v ===== *)
(** * Records of what an install wrote

    [installer/record.go]: next to its binary, out of reach of the pods that can write the
    configuration, every install keeps the entries it may have in kubelet's configuration.
    Another install keeps such an entry only when its record holds it. *)

From S2P Require Import Prelude Effects GoStrings GoStd GoTime GoPath Utf8 Json InstallerConfig Host.

(** [Entries] are JSON texts ([json.RawMessage]), compared byte for byte. *)
Record entryRecord := MkRecord { Entries : list string; ChartOwnedConfig : string }.

Definition holds (r : option entryRecord) (entryJSON : string) : bool :=
  match r with None => false | Some r => existsb (λ e, String.eqb e entryJSON) (Entries r) end.

(** ** The JSON form *)

(** The text of the next value, and what follows it. *)
Definition raw_value (s : string) : option (string * string) :=
  let s := skip_space s in
  match read_value (S (String.length s)) 0 s with
  | Some (_, rest) => Some (take_str (String.length s - String.length rest) s, rest)
  | None => None
  end.

(** The texts of the elements of an array, after its bracket. *)
Fixpoint raw_elements (fuel : nat) (s : string) : option (list string) :=
  match fuel with
  | O => None
  | S fuel =>
      match raw_value s with
      | None => match skip_space s with String "]" _ => Some [] | _ => None end
      | Some (raw, rest) =>
          match skip_space rest with
          | String "," rest => cons raw <$> raw_elements fuel rest
          | String "]" _ => Some [raw]
          | _ => None
          end
      end
  end.

(** The members of an object, after its brace. *)
Fixpoint raw_members (fuel : nat) (s : string) : option (list (string * string)) :=
  match fuel with
  | O => None
  | S fuel =>
      match skip_space s with
      | String "}" _ => Some []
      | s =>
          match read_value (S (String.length s)) 0 s with
          | Some (JString k, rest) =>
              match expect ":" (skip_space rest) with
              | None => None
              | Some rest =>
                  match raw_value rest with
                  | None => None
                  | Some (raw, rest) =>
                      match skip_space rest with
                      | String "," rest => cons (k, raw) <$> raw_members fuel rest
                      | String "}" _ => Some [(k, raw)]
                      | _ => None
                      end
                  end
              end
          | _ => None
          end
      end
  end.

(** A [[]json.RawMessage]. *)
Definition decode_raw_list (raw : string) : option (list string) :=
  match Unmarshal raw with
  | Ok JNull => Some []
  | Ok (JArray _) => match skip_space raw with String _ s => raw_elements (S (String.length s)) s | EmptyString => None end
  | _ => None
  end.

Definition set_record (r : option entryRecord) (f : string * string) : option entryRecord :=
  match r with
  | None => None
  | Some r =>
      if is_field "entries" f.1 then (λ l, MkRecord l (ChartOwnedConfig r)) <$> decode_raw_list f.2
      else if is_field "chartOwnedConfig" f.1 then
        match Unmarshal f.2 with
        | Ok j => match decode_string (ChartOwnedConfig r) j with Ok s => Some (MkRecord (Entries r) s) | Err _ => None end
        | Err _ => None
        end
      else Some r
  end.

Definition zero_record : entryRecord := MkRecord [] "".

(** [json.Unmarshal] into a record; an error of any field is [None]. *)
Definition decode_record (text : string) : option entryRecord :=
  match Unmarshal text with
  | Ok JNull => Some zero_record
  | Ok (JObject _) =>
      match skip_space text with
      | String _ s => match raw_members (S (String.length s)) s with
                      | Some fs => fold_left set_record fs (Some zero_record)
                      | None => None
                      end
      | EmptyString => None
      end
  | _ => None
  end.

(** [json.Marshal] of a raw message: the text without white space between its tokens, and
    with the characters escaped that HTML gives a meaning. *)
Fixpoint compact_go (in_string escaped : bool) (skip : nat) (s : string) : string :=
  match s with
  | EmptyString => EmptyString
  | String c rest =>
      match skip with
      | S skip => compact_go in_string false skip rest
      | O =>
          if in_string then
            match line_separator s with
            | Some t => t +:+ compact_go true false 2 rest
            | None =>
                (if Ascii.eqb c "<" || Ascii.eqb c ">" || Ascii.eqb c "&" then escape_u (byte_val c) else String c EmptyString)
                +:+ compact_go (escaped || negb (Ascii.eqb c quote)) (negb escaped && Ascii.eqb c rsolidus) 0 rest
            end
          else if is_json_space c then compact_go false false 0 rest
          else String c (compact_go (Ascii.eqb c quote) false 0 rest)
      end
  end.

Definition compact (raw : string) : res string :=
  match Unmarshal raw with Ok _ => Ok (compact_go false false 0 raw) | Err e => Err e end.

Fixpoint compact_all (l : list string) : res (list string) :=
  match l with
  | [] => Ok []
  | raw :: l => match compact raw, compact_all l with
                | Ok t, Ok ts => Ok (t :: ts)
                | Err e, _ => Err e
                | _, Err e => Err e
                end
  end.

(** A record whose slice is nil prints it as null. *)
Definition record_text (r : entryRecord) : res string :=
  match compact_all (Entries r) with
  | Err e => Err (EWrap "marshal entry record" e)
  | Ok l =>
      Ok ("{" +:+ quote_string "entries" +:+ ":" +:+
          (match l with [] => "null" | _ => "[" +:+ Join l "," +:+ "]" end) +:+
          (if String.eqb (ChartOwnedConfig r) "" then "" else "," +:+ quote_string "chartOwnedConfig" +:+ ":" +:+ quote_string (ChartOwnedConfig r))
          +:+ "}")
  end.

(** ** Reading and writing *)

Definition recordFileMode : Z := 0x180.

Section Record.
Context (c : config).

Definition record_path (binDir : string) : string := JoinPath binDir (RecordFile (filesFor (ProviderName c))).

Definition readRecord (path : string) : host (option entryRecord) :=
  r ← trigger (ReadHostFile (hostPath c path));
  Ret (match r with Err _ => None | Ok raw => decode_record raw end).

Definition writeRecord (binDir : string) (r : entryRecord) : host (option gerr) :=
  match record_text r with
  | Err e => Ret (Some e)
  | Ok raw =>
      w ← trigger (WriteFileAtomic (hostPath c (record_path binDir)) raw recordFileMode);
      Ret (match w with Err e => Some e | Ok _ => None end)
  end.

(** The record with the entry added. *)
Definition with_entry (r : option entryRecord) (entryJSON chartOwned : string) : entryRecord :=
  let old := match r with Some r => Entries r | None => [] end in
  MkRecord (if holds r entryJSON then old else old ++ [entryJSON]) chartOwned.

Definition beginRecord (binDir entryJSON chartOwned : string) : host (res entryRecord) :=
  r ← readRecord (record_path binDir);
  let r := with_entry r entryJSON chartOwned in
  e ← writeRecord binDir r;
  Ret (match e with Some e => Err e | None => Ok r end).

Definition commitRecord (binDir entryJSON chartOwned : string) : host (option gerr) :=
  writeRecord binDir (MkRecord [entryJSON] chartOwned).

(** The loop over the directory's entries. *)
Fixpoint claims_in (binDir configPath : string) (entries : list (string * ftype)) : host bool :=
  match entries with
  | [] => Ret false
  | (f, t) :: entries =>
      match CutSuffix f recordSuffix with
      | None => claims_in binDir configPath entries
      | Some name =>
          if bool_decide (t = FDir) || bool_decide (validProviderName name ≠ None) then claims_in binDir configPath entries
          else
            r ← readRecord (JoinPath binDir f);
            match r with
            | Some r => if String.eqb (ChartOwnedConfig r) configPath then Ret true else claims_in binDir configPath entries
            | None => claims_in binDir configPath entries
            end
      end
  end.

Definition claimsChartOwned (binDir configPath : string) : host (res bool) :=
  r ← trigger (OpenDir (hostPath c binDir));
  match r with
  | Err e => Ret (if errors_Is e ErrNotExist then Ok false else Err (EWrap "list the records" e))
  | Ok root =>
      hdefer (trigger (CloseDir root)) (
        l ← trigger (ReadEntries root);
        match l with
        | Err e => Ret (Err (EWrap "list the records" e))
        | Ok entries => b ← claims_in binDir configPath entries; Ret (Ok b)
        end)
  end.
End Record.

Example record_samples :
  let e := print (JObject [("name", JString "team-b<1>")]) in
  match record_text (MkRecord [e; "[1, 2]"] "/etc/cp.yaml") with
  | Ok text => decode_record text = Some (MkRecord [e; "[1,2]"] "/etc/cp.yaml")
  | Err _ => False
  end ∧ decode_record "{}" = Some zero_record ∧ decode_record "[" = None.
Proof. by vm_compute. Qed.
