(* ===== verification/KubeletUnit.v ===== *)
(** * The kubelet unit

    [installer/restart.go]: what systemd reports about kubelet's unit, and the wait
    after a restart for a kubelet process that stays up. *)

From S2P Require Import Prelude Effects GoStrings GoStd GoTime InstallerConfig Host EnvFile.

(** ** What systemctl prints *)

Record envFileRef := MkEnvFileRef { EPath : string; Optional : bool }.
Record unitEnvironment := MkUnitEnv { EFiles : list envFileRef; Assignments : string }.
Record unitStatus := MkUnitStatus { ActiveState : string; MainPID : Z; NRestarts : Z }.

(** [strings.LastIndex(s, sub)], as the text before and from there. *)
Fixpoint cut_last (s sub : string) : option (string * string) :=
  match s with
  | EmptyString => if String.eqb sub "" then Some ("", "") else None
  | String c s' =>
      match cut_last s' sub with
      | Some (a, b) => Some (String c a, b)
      | None => if HasPrefix s sub then Some ("", s) else None
      end
  end.

Definition env_file_ref (v : string) : envFileRef :=
  match cut_last v " (ignore_errors=" with
  | Some (path, rest) => MkEnvFileRef path (String.eqb rest " (ignore_errors=yes)")
  | None => MkEnvFileRef v false
  end.

Definition env_line (env : unitEnvironment) (line : string) : unitEnvironment :=
  let line := TrimRight line (str1 cr) in
  match CutPrefix line "EnvironmentFiles=" with
  | Some v => let ref := env_file_ref v in
              if String.eqb (EPath ref) "" then env else MkUnitEnv (EFiles env ++ [ref]) (Assignments env)
  | None => match CutPrefix line "Environment=" with
            | Some v => MkUnitEnv (EFiles env) v
            | None => env
            end
  end.

Definition parseUnitEnvironment (out : string) : unitEnvironment :=
  fold_left env_line (Split out nl) (MkUnitEnv [] "").

(** [shows lines refs]: these lines of [systemctl show] print the settings [refs] of
    EnvironmentFiles, in this order, each with its path and whether its errors are ignored. *)
Inductive shows : list string → list envFileRef → Prop :=
| shows_end : shows [] []
| shows_file p lines refs : p ≠ "" → shows lines refs →
    shows (("EnvironmentFiles=" +:+ p +:+ " (ignore_errors=no)") :: lines) (MkEnvFileRef p false :: refs)
| shows_optional p lines refs : p ≠ "" → shows lines refs →
    shows (("EnvironmentFiles=" +:+ p +:+ " (ignore_errors=yes)") :: lines) (MkEnvFileRef p true :: refs)
| shows_other l lines refs : (∀ v, l ≠ "EnvironmentFiles=" +:+ v) → shows lines refs → shows (l :: lines) refs.

Lemma cut_last_app p t sub : cut_last t sub = Some ("", t) → cut_last (p +:+ t) sub = Some (p, t).
Proof. intros H. induction p as [|ch p IH]; [exact H|]. rewrite app_cons. cbn [cut_last]. by rewrite IH. Qed.

Lemma env_line_file env p t : p ≠ "" → (t = " (ignore_errors=no)" ∨ t = " (ignore_errors=yes)") →
  env_line env ("EnvironmentFiles=" +:+ p +:+ t) =
  MkUnitEnv (EFiles env ++ [MkEnvFileRef p (String.eqb t " (ignore_errors=yes)")]) (Assignments env).
Proof.
  intros Hp Ht. unfold env_line.
  assert (TrimRight ("EnvironmentFiles=" +:+ p +:+ t) (str1 cr) = "EnvironmentFiles=" +:+ p +:+ t) as ->.
  { destruct Ht as [-> | ->]; [change " (ignore_errors=no)" with (" (ignore_errors=no" +:+ str1 ")")|
      change " (ignore_errors=yes)" with (" (ignore_errors=yes" +:+ str1 ")")]; rewrite <- !str_app_assoc; by apply TrimRight_keep. }
  rewrite (proj2 (CutPrefix_Some _ _ (p +:+ t)) eq_refl).
  unfold env_file_ref. rewrite cut_last_app by (by destruct Ht as [-> | ->]). cbn [EPath]. by destruct (String.eqb_spec p "").
Qed.

Lemma TrimRight_prefix l cs v : TrimRight l cs = v → ∃ t, l = v +:+ t.
Proof. intros <-. destruct (TrimRight_spec l cs) as (t & E & _). by exists t. Qed.

Lemma env_line_other env l : (∀ v, l ≠ "EnvironmentFiles=" +:+ v) → EFiles (env_line env l) = EFiles env.
Proof.
  intros Hl. unfold env_line. destruct (CutPrefix _ "EnvironmentFiles=") as [v|] eqn:E.
  - apply CutPrefix_Some, TrimRight_prefix in E as [t ->]. destruct (Hl (v +:+ t)). by rewrite str_app_assoc.
  - by destruct (CutPrefix _ "Environment=").
Qed.

Lemma env_lines_shown lines refs : shows lines refs → ∀ env, EFiles (fold_left env_line lines env) = EFiles env ++ refs.
Proof.
  induction 1 as [|p lines refs Hp _ IH|p lines refs Hp _ IH|l lines refs Hl _ IH]; intros env; cbn [fold_left]; [by rewrite app_nil_r|..].
  - rewrite IH, env_line_file by auto. cbn [EFiles]. by rewrite <- app_assoc.
  - rewrite IH, env_line_file by auto. cbn [EFiles]. by rewrite <- app_assoc.
  - by rewrite IH, env_line_other.
Qed.

Lemma parseUnitEnvironment_shown out refs : shows (Split out nl) refs → EFiles (parseUnitEnvironment out) = refs.
Proof. intros H. unfold parseUnitEnvironment. by rewrite (env_lines_shown _ _ H). Qed.

Definition status_line (st : unitStatus) (line : string) : res unitStatus :=
  match Cut (TrimSpace line) "=" with
  | None => Ok st
  | Some (key, value) =>
      if String.eqb key "ActiveState" then Ok (MkUnitStatus value (MainPID st) (NRestarts st))
      else if String.eqb key "MainPID" then
        match ParseInt value with
        | Some n => if n <? 0 then Err (EMsg "MainPID is not a PID") else Ok (MkUnitStatus (ActiveState st) n (NRestarts st))
        | None => Err (EMsg "MainPID is not a PID")
        end
      else if String.eqb key "NRestarts" then
        match ParseInt value with
        | Some n => if 0 <=? n then Ok (MkUnitStatus (ActiveState st) (MainPID st) n) else Ok st
        | None => Ok st
        end
      else Ok st
  end.

Fixpoint status_lines (st : unitStatus) (lines : list string) : res unitStatus :=
  match lines with
  | [] => Ok st
  | line :: lines => match status_line st line with Ok st => status_lines st lines | Err e => Err e end
  end.

Definition parseUnitStatus (out : string) : res unitStatus :=
  match status_lines (MkUnitStatus "" (-1) (-1)) (Split out nl) with
  | Err e => Err e
  | Ok st => if String.eqb (ActiveState st) "" || (MainPID st <? 0)
             then Err (EMsg "systemctl show did not report ActiveState and MainPID") else Ok st
  end.

(** ** Driving the unit *)

Definition restart_unit (unit : string) : host (option gerr) :=
  match validUnitName unit with
  | Some e => Ret (Some e)
  | None =>
      r ← trigger (Systemctl ["daemon-reload"]);
      match r.2 with
      | Some e => Ret (Some (EWrap "systemctl daemon-reload" e))
      | None =>
          r ← trigger (Systemctl ["restart"; unit]);
          match r.2 with
          | Some e => Ret (Some (EWrap "systemctl restart" e))
          | None => Ret None
          end
      end
  end.

Definition show_status (unit : string) : hcall :=
  Systemctl ["show"; "--property=ActiveState"; "--property=MainPID"; "--property=NRestarts"; unit].

Definition status (unit : string) : host (res unitStatus) :=
  match validUnitName unit with
  | Some e => Ret (Err e)
  | None =>
      r ← trigger (show_status unit);
      match r.2 with
      | Some e => Ret (Err (EWrap "systemctl show" e))
      | None => Ret (parseUnitStatus r.1)
      end
  end.

Definition show_environment (unit : string) : hcall :=
  Systemctl ["show"; "--property=EnvironmentFiles"; "--property=Environment"; unit].

Definition environment (unit : string) : host (res unitEnvironment) :=
  match validUnitName unit with
  | Some e => Ret (Err e)
  | None =>
      r ← trigger (show_environment unit);
      match r.2 with
      | Some e => Ret (Err (EWrap "systemctl show" e))
      | None => Ret (Ok (parseUnitEnvironment r.1))
      end
  end.

(** ** Waiting for a healthy kubelet *)

Record verifyTiming := MkTiming { timeout : Duration; interval : Duration; settle : Duration }.
Definition defaultVerifyTiming : verifyTiming := MkTiming (90 * Second) (2 * Second) (15 * Second).

Definition sameProcess (first second : unitStatus) : bool :=
  String.eqb (ActiveState second) "active" && (0 <? MainPID second) && (MainPID second =? MainPID first)
  && ((NRestarts first <? 0) || (NRestarts second <? 0) || (NRestarts first =? NRestarts second)).

Section Wait.
Context (unit : string) (vt : verifyTiming) (check : option (host (option gerr))).

Definition run_check : host (option gerr) := match check with Some p => p | None => Ret None end.

(** One attempt: the end of the wait, or the outcome of the last check. *)
Inductive waiting := Settled (e : option gerr) | Again (lastCheck : option gerr).

Definition try_once (lastCheck : option gerr) : host waiting :=
  first ← status unit;
  match first with
  | Err e => Ret (Settled (Some e))
  | Ok first =>
      if String.eqb (ActiveState first) "active" && (0 <? MainPID first) then
        lastCheck ← run_check;
        match lastCheck with
        | Some _ => Ret (Again lastCheck)
        | None =>
            _ ← trigger (HSleep (settle vt));
            second ← status unit;
            match second with
            | Err e => Ret (Settled (Some e))
            | Ok second => if sameProcess first second then Ret (Settled None) else Ret (Again None)
            end
        end
      else Ret (Again lastCheck)
  end.

Definition wait_error (lastCheck : option gerr) : gerr :=
  match lastCheck with
  | Some e => EWrap "kubelet unit is active but not wired as intended" e
  | None => EMsg "kubelet unit did not become stably active"
  end.

(** The loop; [None] when [fuel] attempts were not enough. *)
Fixpoint wait_loop (fuel : nat) (deadline : Time) (lastCheck : option gerr) : host (option (option gerr)) :=
  now ← trigger HNow;
  if Before now deadline then
    match fuel with
    | O => Ret None
    | S fuel =>
        w ← try_once lastCheck;
        match w with
        | Settled e => Ret (Some e)
        | Again lastCheck =>
            _ ← trigger (HSleep (interval vt));
            wait_loop fuel deadline lastCheck
        end
    end
  else Ret (Some (Some (wait_error lastCheck))).

(** Every attempt waits for [interval], so this many are enough. *)
Definition wait_fuel : nat := Z.to_nat (timeout vt / interval vt + 1).

Definition waitKubeletHealthy : host (option (option gerr)) :=
  now ← trigger HNow;
  wait_loop wait_fuel (Add now (timeout vt)) None.
End Wait.

(** ** The wait ends, and what its success means *)

Section Waited.
Context (unit : string) (vt : verifyTiming) (check : option (host (option gerr))).

(** [h'] ends with a healthy kubelet: the unit was active with a main process, the
    check held, and after the settle period the unit was still active with the same main
    process, which systemd had not restarted (where it reports restarts); all of it after [h]. *)
Definition healthy (h h' : log hans) : Prop :=
  ∃ out1 out2 first second l h1,
    h' = existT (show_status unit) (out2, None) :: existT (HSleep (settle vt)) tt :: h1 ∧
    runs any_env (run_check check) (existT (show_status unit) (out1, None) :: l ++ h) h1 None ∧
    parseUnitStatus out1 = Ok first ∧ parseUnitStatus out2 = Ok second ∧
    ActiveState first = "active" ∧ 0 < MainPID first ∧ ActiveState second = "active" ∧ MainPID second = MainPID first ∧
    (0 ≤ NRestarts first → 0 ≤ NRestarts second → NRestarts second = NRestarts first).

(** An answer of [status] with the output it stands for. *)
Definition status_answer (h h' : log hans) (r : res unitStatus) : Prop :=
  match r with
  | Ok st => ∃ out, h' = existT (show_status unit) (out, None) :: h ∧ parseUnitStatus out = Ok st
  | Err _ => True
  end.

Lemma wp_status h : wp any_env (λ _ _, True) h (status unit) (status_answer h).
Proof.
  unfold status. destruct (validUnitName unit); [done|]. wp_call; [done|]. intros [out [e|]] _; apply wp_ret; [done|].
  cbn [fst]. unfold status_answer. destruct (parseUnitStatus out) eqn:E; [|done]. by exists out.
Qed.

Lemma wp_try_once lastCheck h :
  wp any_env (λ _ _, True) h (try_once unit vt check lastCheck) (λ h' w, w = Settled None → healthy h h').
Proof.
  unfold try_once. wp_cut wp_status. intros h1 [first|e] H1; [|by apply wp_ret].
  destruct H1 as (out1 & -> & E1). destruct (String.eqb_spec (ActiveState first) "active"); [|by apply wp_ret].
  destruct (Z.ltb_spec 0 (MainPID first)); [|by apply wp_ret]. cbn [andb].
  wp_cut (wp_runs any_env (existT (show_status unit) (out1, None) :: h) (run_check check)). intros h2 [e'|] H2; [by apply wp_ret|]. wp_call; [done|]. intros [] _.
  wp_cut wp_status. intros h3 [second|e'] H3; [|by apply wp_ret]. destruct H3 as (out2 & -> & E2).
  destruct (sameProcess first second) eqn:Es; apply wp_ret; [|done]. intros _. unfold sameProcess in Es.
  rewrite !andb_true_iff, !orb_true_iff, String.eqb_eq, !Z.ltb_lt, !Z.eqb_eq in Es. destruct Es as (((? & _) & ?) & Hn).
  exists out1, out2, first, second, [], h2. split_and!; try done. intros ??. destruct Hn as [[]|]; lia.
Qed.

Lemma wp_wait_loop fuel deadline lastCheck h :
  wp any_env (λ _ _, True) h (wait_loop unit vt check fuel deadline lastCheck) (λ h' r, r = Some None → healthy h h').
Proof.
  revert lastCheck h. induction fuel as [|fuel IH]; intros lastCheck h; cbn [wait_loop]; (wp_call; [done|]); intros now _;
    destruct (Before now deadline); try by apply wp_ret.
  apply wp_bind. eapply wp_mono; [apply wp_extends, wp_try_once|]. intros h1 w [[l ->] Hw].
  assert (Hup : ∀ h' h2, (∃ l, h2 = l ++ h) → healthy h2 h' → healthy h h').
  { intros h' h2 [l2 ->] (o1 & o2 & f & s & l3 & h3 & ? & Hr & ?). exists o1, o2, f, s, (l3 ++ l2), h3.
    by rewrite <- app_assoc. }
  destruct w as [e|lc].
  - apply wp_ret. intros [= ->]. eapply Hup, Hw; [|done]. by exists [existT HNow now].
  - wp_call; [done|]. intros [] _. eapply wp_mono; [apply IH|]. intros h' r Hr E. eapply Hup, Hr, E.
    eexists (_ :: l ++ [_]). cbn. by rewrite <- app_assoc.
Qed.

Lemma wp_wait_healthy h :
  wp any_env (λ _ _, True) h (waitKubeletHealthy unit vt check) (λ h' r, r = Some None → healthy h h').
Proof.
  unfold waitKubeletHealthy. wp_call; [done|]. intros now _. eapply wp_mono; [apply wp_wait_loop|].
  intros h1 r H1 E. destruct (H1 E) as (o1 & o2 & f & s & l & h2 & ? & Hc & ?). exists o1, o2, f, s, (l ++ [existT HNow now]), h2.
  by rewrite <- app_assoc.
Qed.

(** *** Termination *)

Lemma wp_try_clock lastCheck h c0 : clock h = Some c0 →
  wp clock_env (λ _ _, True) h (try_once unit vt check lastCheck) (λ h' _, ∃ c1, clock h' = Some c1 ∧ c0 ≤ c1).
Proof.
  intros Hc. eapply wp_mono; [exact (clock_advances _ _ _ c0 (λ _ _, True) Hc (wp_true _ _ _))|].
  intros h' a [H _]. exact H.
Qed.

Lemma wp_wait_returns fuel deadline lastCheck h c0 : 0 < interval vt → clock h = Some c0 → deadline ≤ c0 + Z.of_nat fuel * interval vt →
  wp clock_env (λ _ _, True) h (wait_loop unit vt check fuel deadline lastCheck) (λ _ r, r ≠ None).
Proof.
  intros Hi. revert lastCheck h c0. induction fuel as [|fuel IH]; intros lastCheck h c0 Hc Hd; cbn [wait_loop];
    (wp_call; [done|]); intros now Hn; cbn in Hn; specialize (Hn _ Hc); unfold Before; destruct (Z.ltb_spec now deadline); try by apply wp_ret.
  - lia.
  - wp_cut (wp_try_clock lastCheck (existT HNow now :: h) now eq_refl). intros h1 w (c1 & Hc1 & Hle).
    destruct w as [e|lc]; [by apply wp_ret|]. wp_call; [done|]. intros [] _.
    apply (IH _ _ (c1 + Z.max 0 (interval vt))); [cbn; by rewrite Hc1|]. lia.
Qed.

(** C40: The wait always ends. With a clock that advances by at least every wait, the
    bound on the number of attempts is never reached: the wait ends by itself, at the
    latest when an attempt finds the timeout passed. *)
Theorem waitKubeletHealthy_returns h h' r : 0 < interval vt → 0 ≤ timeout vt →
  runs clock_env (waitKubeletHealthy unit vt check) h h' r → r ≠ None.
Proof.
  intros Hi Ht. revert h' r. refine (wp_post _ _ _ _ _). unfold waitKubeletHealthy.
  wp_call; [done|]. intros now _. apply (wp_wait_returns _ _ _ _ now); [done|done|]. unfold Add, wait_fuel.
  pose proof (Z.div_pos (timeout vt) (interval vt) Ht Hi). rewrite Z2Nat.id by lia.
  pose proof (Z.mul_succ_div_gt (timeout vt) (interval vt) Hi). lia.
Qed.
End Waited.

(** ** A node whose kubelet comes up, or does not *)

(** The time, the state file, and whether kubelet stays up. *)
Record demo_node := MkNode { node_time : Time; node_file : option string; node_healthy : bool }.

Definition demo_serve (n : demo_node) (call : hcall) : hans call * demo_node :=
  match call return hans call * demo_node with
  | ReadHostFile _ => (match node_file n with Some text => Ok text | None => Err (ESentinel ErrNotExist) end, n)
  | WriteFileAtomic _ data _ => (Ok true, MkNode (node_time n) (Some data) (node_healthy n))
  | EnsureWritableDir _ => (None, n)
  | Systemctl _ => ((if node_healthy n then "ActiveState=active" +:+ str1 nl +:+ "MainPID=42" +:+ str1 nl +:+ "NRestarts=0"
                     else "ActiveState=activating" +:+ str1 nl +:+ "MainPID=0", None), n)
  | HNow => (node_time n, n)
  | HSleep d => (tt, MkNode (node_time n + d) (node_file n) (node_healthy n))
  | call => (empty_node call, n)
  end.

Lemma unit_samples :
  parseUnitStatus ("ActiveState=active" +:+ str1 nl +:+ "MainPID=42" +:+ str1 cr +:+ str1 nl) = Ok (MkUnitStatus "active" 42 (-1)) ∧
  parseUnitStatus "MainPID=x" = Err (EMsg "MainPID is not a PID") ∧
  parseUnitEnvironment ("EnvironmentFiles=/etc/default/kubelet (ignore_errors=yes)" +:+ str1 nl +:+ "EnvironmentFiles=/a b" +:+ str1 nl +:+ "Environment=A=1") =
    MkUnitEnv [MkEnvFileRef "/etc/default/kubelet" true; MkEnvFileRef "/a b" false] "A=1".
Proof. vm_compute. split_and!; reflexivity. Qed.

(** A clock that only the waits advance. *)
Definition demo_wait := play demo_serve (MkNode 0 None false) (waitKubeletHealthy "kubelet" defaultVerifyTiming None) [].

Fixpoint clocked (h : log hans) : bool :=
  match h with
  | [] => true
  | existT HNow t :: h => match clock h with Some c0 => c0 <=? t | None => true end && clocked h
  | _ :: h => clocked h
  end.

Lemma play_clocked {A} (p : host A) (h h' : log hans) a : runs any_env p h h' a → clocked h' = true → runs clock_env p h h' a.
Proof.
  intros Hr Hc. assert (Hext : ∀ l h0, clocked (l ++ h0) = true → clocked h0 = true).
  { intros l h0. induction l as [|[c r] l IH]; [done|]. destruct c; try exact IH. cbn. intros [_ H]%andb_true_iff. by apply IH. }
  revert h Hr. induction p as [x|c k IH]; intros h; cbn; [done|]. intros (r & _ & Hr). exists r. split; [|by apply IH].
  destruct (runs_extends _ _ _ _ _ Hr) as [l ->]. apply Hext in Hc. destruct c; try done. cbn in Hc |- *.
  intros c0 E. rewrite E in Hc. apply andb_true_iff in Hc as [Hc _]. lia.
Qed.

Lemma waitKubeletHealthy_returns_witness : demo_wait.2 ≠ None.
Proof.
  apply (waitKubeletHealthy_returns "kubelet" defaultVerifyTiming None [] demo_wait.1.2); [done|done|].
  apply play_clocked; [|vm_compute; reflexivity]. apply play_runs_in. done.
Defined.
