(* ===== verification/Restart.v ===== *)
(** * Restarting kubelet

    The end of an install pass ([installer/run.go], ADR-0021 and ADR-0033): kubelet is
    restarted only onto content it has not been restarted for, the restart counts only
    when kubelet stays up, and otherwise the files go back, kubelet is restarted onto
    them, and the content is recorded as rejected. What a later pass makes of that record is
    [InstallRejected]. *)

From S2P Require Import Prelude Effects GoStrings GoStd GoTime GoPath Utf8 Json InstallerConfig Host InstallerState Discover KubeletUnit.

(** ** Rollback *)

Record rollback := MkRollback { rfiles : list string; steps : list (host (option gerr)) }.

Definition rollback_step (r : rollback) (restore : host (option gerr)) : rollback := MkRollback (rfiles r) (steps r ++ [restore]).
Definition rollback_file (r : rollback) (nodePath : string) (restore : host (option gerr)) : rollback :=
  MkRollback (rfiles r ++ [nodePath]) (steps r ++ [restore]).

(** [errors.Join]. *)
Definition join_errors (errs : list gerr) : option gerr :=
  match errs with [] => None | e :: errs => Some (fold_left EJoin errs e) end.

Fixpoint run_steps (steps : list (host (option gerr))) : host (list gerr) :=
  match steps with
  | [] => Ret []
  | step :: steps =>
      e ← step;
      errs ← run_steps steps;
      Ret (match e with Some e => e :: errs | None => errs end)
  end.

Definition restore (r : rollback) : host (option gerr) := errs ← run_steps (steps r); Ret (join_errors errs).

Definition describe (r : rollback) : string := Join (rfiles r) " and ".

(** ** The pass's end *)

Definition statePath (c : config) : string := JoinPath (hostPath c (StateDir c)) (State (filesFor (ProviderName c))).

Section Pass.
Context (c : config) (procRoot : string) (vt : verifyTiming).
(** The text of an error, [err.Error()]. *)
Context (error_text : gerr → string).

(** A restart that is verified: the error of either. *)
Definition restart_verified (verify : option (host (option gerr))) : host (option gerr) :=
  e ← restart_unit (KubeletUnit c);
  match e with
  | Some e => Ret (Some e)
  | None =>
      w ← waitKubeletHealthy (KubeletUnit c) vt verify;
      Ret (match w with Some e => e | None => Some (EMsg "still waiting") end)
  end.

(** The message of a failed restart. *)
Definition journal : string := "Check `journalctl -u " +:+ KubeletUnit c +:+ "` on the node".

Definition unchanged_message (cause : gerr) (rb : rollback) : string :=
  error_text cause +:+ "; this pass did not change " +:+ describe rb +:+
  ": an earlier pass wrote them and did not verify its kubelet restart, so this pass has no earlier content to restore. The .bak copies next to them hold what that pass replaced; check `journalctl -u "
  +:+ KubeletUnit c +:+ "` on the node".

Definition restored_message (cause : gerr) (rb : rollback) (rerr kerr : option gerr) : string :=
  match rerr, kerr with
  | None, None => error_text cause +:+ "; restored the previous " +:+ describe rb +:+ " and restarted kubelet, which runs on them again"
  | Some rerr, None => error_text cause +:+ "; restoring the previous " +:+ describe rb +:+ " failed (" +:+ error_text rerr +:+ "); kubelet runs again after one more restart"
  | None, Some kerr => error_text cause +:+ "; restored the previous " +:+ describe rb +:+
      ", but the kubelet restart onto them did not verify either: " +:+ error_text kerr +:+ ". " +:+ journal
  | Some rerr, Some kerr => error_text cause +:+ "; restoring the previous " +:+ describe rb +:+ " failed (" +:+ error_text rerr +:+
      "), and the kubelet restart after it did not verify either: " +:+ error_text kerr +:+ ". " +:+ journal
  end.

Definition roll_back (cause : gerr) (changedNow : bool) (rb : rollback) : host string :=
  if negb changedNow then Ret (unchanged_message cause rb)
  else
    rerr ← restore rb;
    kerr ← restart_verified None;
    Ret (restored_message cause rb rerr kerr).

(** The record with the rejection added. *)
Definition with_rejection (st : option state) (r : rejection) : state :=
  let s := default zero_state st in
  MkState (SchemaVersion s) (SMode s) (SBinDir s) (SConfigFile s) (SEnvFile s) (AppliedHash s) (EntryHash s) (Some r).

Definition rejectRestart (st : option state) (t : target) (changedNow : bool) (rb : rollback) (cause : gerr) : host gerr :=
  msg ← roll_back cause changedNow rb;
  kubelet ← kubeletIdentity c procRoot;
  now ← trigger HNow;
  e ← saveState (statePath c) (with_rejection st (target_rejection t (KubeletUnit c) kubelet msg now));
  match e with
  | Some e => Ret (EWrap (msg +:+ ". Recording the rejected content failed too, so the next pass restarts kubelet onto it again") e)
  | None => Ret (EMsg (msg +:+ ". The content is recorded as rejected; later passes with the same content restart nothing (ADR-0033)"))
  end.

Definition finishWithRestart (t : target) (changedNow : bool) (verify : option (host (option gerr))) (rb : rollback) : host (option gerr) :=
  r ← loadState (statePath c);
  match r with
  | Err e => Ret (Some e)
  | Ok st =>
      if negb changedNow && matches st t then Ret None
      else if negb changedNow && matchesLegacy st t then saveState (statePath c) (target_state t)
      else
        e ← trigger (EnsureWritableDir (hostPath c (StateDir c)));
        match e with
        | Some e =>
            let e := EWrap "state dir" e in
            if changedNow then
              rerr ← restore rb;
              match rerr with
              | Some rerr => Ret (Some (EJoin e rerr))
              | None => Ret (Some e)
              end
            else Ret (Some e)
        | None =>
            e ← restart_verified verify;
            match e with
            | Some e => e ← rejectRestart st t changedNow rb e; Ret (Some e)
            | None => saveState (statePath c) (target_state t)
            end
        end
  end.

Definition refuseRejected (t : target) : host (option gerr) :=
  r ← loadState (statePath c);
  match r with
  | Err e => Ret (Some e)
  | Ok st =>
      match rejects st t (KubeletUnit c) with
      | None => Ret None
      | Some r =>
          if negb (String.eqb (RKubelet r) "") then
            now ← kubeletIdentity c procRoot;
            if negb (testedBy r now) then Ret None
            else Ret (Some (EMsg "refusing to restart kubelet onto content it already rejected"))
          else Ret (Some (EMsg "refusing to restart kubelet onto content it already rejected"))
      end
  end.
End Pass.

(** ** What a pass ends with *)

Section Outcomes.
Context (c : config) (procRoot : string) (vt : verifyTiming) (error_text : gerr → string).
Notation unit := (KubeletUnit c).

(** The commands of a restart that systemd accepted. *)
Definition restarted (h h1 : log hans) : Prop :=
  ∃ o1 o2, h1 = existT (Systemctl ["restart"; unit]) (o2, None) :: existT (Systemctl ["daemon-reload"]) (o1, None) :: h.

(** The check runs no restart command; then the wait runs none. *)
Definition checks_only (verify : option (host (option gerr))) : Prop := ∀ p, verify = Some p → calls (λ call, is_restart call = false) p.

Lemma wait_restarts_none verify : checks_only verify → calls (λ call, is_restart call = false) (waitKubeletHealthy unit vt verify).
Proof.
  intros Hv. assert (Hc : calls (λ call, is_restart call = false) (run_check verify)) by (unfold run_check; destruct verify; [by apply Hv|exact I]).
  unfold waitKubeletHealthy. apply calls_bind; [by apply calls_trigger|]. intros now. generalize (wait_fuel vt) as fuel. generalize (@None gerr) as lc.
  intros lc fuel. revert lc. induction fuel as [|fuel IH]; intros lc; cbn [wait_loop]; (apply calls_bind; [by apply calls_trigger|]); intros t;
    destruct (Before t _); try exact I.
  apply calls_bind; [|intros [e|lc']; [exact I|apply calls_bind; [by apply calls_trigger|intros _; apply IH]]].
  unfold try_once, status.
  repeat first [exact Hc | apply calls_bind; [|intros ?] | by apply calls_trigger | case_match | exact I].
Qed.

Lemma restarted_once h h1 : restarted h h1 → ∃ l, h1 = l ++ h ∧ length (restarts l) = 1%nat.
Proof.
  intros (o1 & o2 & ->). exists [existT (Systemctl ["restart"; unit]) (o2, None); existT (Systemctl ["daemon-reload"]) (o1, None)]. by split.
Qed.

Lemma restarts_none l : Forall (λ e : event hans, is_restart (projT1 e) = false) l → restarts l = [].
Proof. induction 1 as [|e l He _ IH]; [done|]. unfold restarts in *. cbn [List.filter]. by rewrite He. Qed.

Lemma restarts_app l l' : restarts (l ++ l') = restarts l ++ restarts l'.
Proof. apply List.filter_app. Qed.

(** A restart after which kubelet stayed up, the only one (if the check runs none). *)
Definition restarted_healthy (verify : option (host (option gerr))) (h h' : log hans) : Prop :=
  (∃ h1, restarted h h1 ∧ healthy unit vt verify h1 h') ∧ (checks_only verify → ∃ l, h' = l ++ h ∧ length (restarts l) = 1%nat).

Lemma wp_restart_unit h : wp any_env (λ _ _, True) h (restart_unit unit) (λ h' e, e = None → restarted h h').
Proof.
  unfold restart_unit. destruct (validUnitName unit); [done|]. wp_call; [done|]. intros [o1 [e|]] _; [by apply wp_ret|]. cbn [snd].
  wp_call; [done|]. intros [o2 [e|]] _; apply wp_ret; [done|]. intros _. by exists o1, o2.
Qed.

Lemma wp_restart_verified verify h :
  wp any_env (λ _ _, True) h (restart_verified c vt verify) (λ h' e, e = None → restarted_healthy verify h h').
Proof.
  unfold restart_verified. wp_cut wp_restart_unit. intros h1 [e|] H1; [by apply wp_ret|].
  apply wp_bind. eapply wp_mono; [apply wp_and_runs, wp_wait_healthy|]. intros h2 w [Hr H2]. apply wp_ret. destruct w as [e|]; [|done]. intros ->.
  split; [exists h1; auto|]. intros Hv. destruct (restarted_once h h1 (H1 eq_refl)) as (l1 & -> & Hl1).
  eapply wp_post in Hr; [|exact (calls_new any_env _ _ _ (wait_restarts_none verify Hv))]. destruct Hr as (l2 & -> & Hl2).
  exists (l2 ++ l1). rewrite <- app_assoc, restarts_app, (restarts_none l2 Hl2). done.
Qed.

(** The record of a verified restart, written to the state file. *)
Definition saved (t : target) (h h' : log hans) (ans : res bool) : Prop :=
  h' = existT (WriteFileAtomic (statePath c) (state_text (target_state t)) 0x180) ans :: h.

(** The pass gave up on [t]: when it had changed files it ran the whole rollback and
    then restarted kubelet; it identified kubelet, and wrote a record that rejects [t]. *)
Record recorded (t : target) (changedNow : bool) (rb : rollback) (h h' : log hans) (rec : state) (ans : res bool) : Prop := {
  rec_written : ∃ h3, h' = existT (WriteFileAtomic (statePath c) (state_text rec) 0x180) ans :: h3;
  rec_rejection : ∃ kubelet msg at_ ha hb, runs any_env (kubeletIdentity c procRoot) ha hb kubelet ∧
    Rejected rec = Some (target_rejection t unit kubelet msg at_);
  rec_rolled_back : changedNow = true → ∃ h1 h2 h3 rerr kerr, (∃ l, h1 = l ++ h) ∧ runs any_env (restore rb) h1 h2 rerr ∧
    runs any_env (restart_verified c vt None) h2 h3 kerr ∧ ∃ l, h' = l ++ h3
}.

Lemma wp_saveState s h (Q : log hans → option gerr → Prop) :
  (∀ ans, Q (existT (WriteFileAtomic (statePath c) (state_text s) 0x180) ans :: h)
     (match ans with Ok _ => None | Err e => Some (EWrap "write installer state" e) end)) →
  wp any_env (λ _ _, True) h (saveState (statePath c) s) Q.
Proof. intros HQ. unfold saveState. wp_call; [done|]. intros ans _. specialize (HQ ans). by destruct ans; apply wp_ret. Qed.

Lemma wp_roll_back cause changedNow rb h :
  wp any_env (λ _ _, True) h (roll_back c vt error_text cause changedNow rb) (λ h' _, (∃ l, h' = l ++ h) ∧
    (changedNow = true → ∃ h2 rerr kerr, runs any_env (restore rb) h h2 rerr ∧ runs any_env (restart_verified c vt None) h2 h' kerr)).
Proof.
  eapply wp_mono; [apply wp_extends|]. 2: { intros h' msg H. exact H. } unfold roll_back.
  destruct changedNow; cbn [negb]; [|by apply wp_ret].
  wp_cut (wp_runs any_env h (restore rb)). intros h2 rerr H2.
  wp_cut (wp_runs any_env h2 (restart_verified c vt None)). intros h3 kerr H3. apply wp_ret. intros _. by exists h2, rerr, kerr.
Qed.

Lemma wp_rejectRestart st t changedNow rb cause h :
  wp any_env (λ _ _, True) h (rejectRestart c procRoot vt error_text st t changedNow rb cause)
    (λ h' _, ∃ rec ans, recorded t changedNow rb h h' rec ans).
Proof.
  unfold rejectRestart. wp_cut wp_roll_back. intros h1 msg [[l ->] Hrb].
  apply wp_bind. eapply wp_mono; [apply wp_extends, (wp_runs any_env (l ++ h) (kubeletIdentity c procRoot))|].
  intros h2 kubelet [[l2 ->] Hk]. wp_call; [done|]. intros now _. apply wp_bind, wp_saveState. intros ans.
  assert (Hgoal : ∃ rec ans0, recorded t changedNow rb h (existT (WriteFileAtomic (statePath c)
    (state_text (with_rejection st (target_rejection t unit kubelet msg now))) 0x180) ans :: existT HNow now :: l2 ++ l ++ h) rec ans0).
  { eexists _, ans. split; [by eexists|by eexists kubelet, msg, now, _, _|]. intros Hc. destruct (Hrb Hc) as (h2 & rerr & kerr & H1 & H2).
    eexists h, h2, _, rerr, kerr. split_and!; [by exists []|done|exact H2|]. by eexists (_ :: _ :: l2). }
  by destruct ans; apply wp_ret.
Qed.

(** The ways a pass ends, started after [h]. *)
Inductive pass_end (t : target) (changedNow : bool) (verify : option (host (option gerr))) (rb : rollback) (h : log hans)
    : log hans → option gerr → Prop :=
| end_unreadable a e : loaded a = Err e →
    pass_end t changedNow verify rb h (existT (ReadHostFile (statePath c)) a :: h) (Some e)
| end_current a st : loaded a = Ok st → changedNow = false → matches st t = true →
    pass_end t changedNow verify rb h (existT (ReadHostFile (statePath c)) a :: h) None
| end_legacy a st h' ans r : loaded a = Ok st → changedNow = false → matchesLegacy st t = true →
    saved t (existT (ReadHostFile (statePath c)) a :: h) h' ans → (r = None ↔ ∃ b, ans = Ok b) →
    pass_end t changedNow verify rb h h' r
| end_unwritable a e h' r : (if changedNow then
      ∃ rerr, runs any_env (restore rb) (existT (EnsureWritableDir (hostPath c (StateDir c))) (Some e) :: existT (ReadHostFile (statePath c)) a :: h) h' rerr
      else h' = existT (EnsureWritableDir (hostPath c (StateDir c))) (Some e) :: existT (ReadHostFile (statePath c)) a :: h) →
    r ≠ None → pass_end t changedNow verify rb h h' r
| end_verified a h1 h' ans r :
    restarted_healthy verify (existT (EnsureWritableDir (hostPath c (StateDir c))) None :: existT (ReadHostFile (statePath c)) a :: h) h1 →
    saved t h1 h' ans → (r = None ↔ ∃ b, ans = Ok b) → pass_end t changedNow verify rb h h' r
| end_rejected a h1 h' e rec ans :
    runs any_env (restart_verified c vt verify)
      (existT (EnsureWritableDir (hostPath c (StateDir c))) None :: existT (ReadHostFile (statePath c)) a :: h) h1 (Some e) →
    recorded t changedNow rb h1 h' rec ans → ∀ e', pass_end t changedNow verify rb h h' (Some e').

Lemma save_result (ans : res bool) :
  (match ans with Ok _ => None | Err e => Some (EWrap "write installer state" e) end) = None ↔ ∃ b, ans = Ok b.
Proof. destruct ans as [b|e]; split; try done; [by exists b|by intros []]. Qed.

Lemma wp_finishWithRestart t changedNow verify rb h :
  wp any_env (λ _ _, True) h (finishWithRestart c procRoot vt error_text t changedNow verify rb) (pass_end t changedNow verify rb h).
Proof.
  unfold finishWithRestart, loadState. apply wp_bind. wp_call; [done|]. intros a _. apply wp_ret.
  destruct (loaded a) as [st|e] eqn:El; [|by apply wp_ret, end_unreadable].
  destruct (negb changedNow && matches st t) eqn:E1.
  { apply andb_true_iff in E1 as [Hc%negb_true_iff Hm]. by eapply wp_ret, end_current. }
  destruct (negb changedNow && matchesLegacy st t) eqn:E2.
  { apply andb_true_iff in E2 as [Hc%negb_true_iff Hm]. apply wp_saveState. intros ans.
    eapply end_legacy; [done|done|done|done|apply save_result]. }
  wp_call; [done|]. intros [e|] _.
  - destruct changedNow; [|apply wp_ret; by eapply (end_unwritable _ _ _ _ _ a e)].
    match goal with |- wp _ _ ?h1 _ _ => wp_cut (wp_runs any_env h1 (restore rb)) end.
    intros h2 rerr H2. by destruct rerr; apply wp_ret; (eapply (end_unwritable _ _ _ _ _ a e); [by eexists|]).
  - apply wp_bind. eapply wp_mono; [apply wp_and_runs, wp_restart_verified|]. cbv beta.
    intros h2 [e|] [Hr Hh]; [|apply wp_saveState; intros ans; eapply end_verified; [by apply Hh|done|apply save_result]].
    wp_cut wp_rejectRestart. intros h3 e' (rec & ans & Hrec). apply wp_ret. by eapply end_rejected.
Qed.

(** The state file records a restart for the wiring of [t]. *)
Definition covers (st : state) (t : target) : Prop :=
  SMode st = mode t ∧ SBinDir st = binDir t ∧ SConfigFile st = configFile t ∧ envFile st = tEnvFile t.

Lemma matches_covers st t : matches st t = true → ∃ s, st = Some s ∧ covers s t ∧ EntryHash s = entryHash t.
Proof.
  destruct st as [s|]; [|done]. cbn. rewrite !andb_true_iff, !String.eqb_eq. intros (((((? & ?) & ?) & ?) & _) & ?). by exists s.
Qed.

Lemma matchesLegacy_covers st t : matchesLegacy st t = true → ∃ s, st = Some s ∧ covers s t ∧ EntryHash s = "" ∧ AppliedHash s = fileHash t.
Proof.
  destruct st as [s|]; [|done]. cbn. rewrite !andb_true_iff, !String.eqb_eq. intros (((((? & ?) & ?) & ?) & ?) & ?). by exists s.
Qed.

(** C20: A pass that succeeds verified what it restarted. Either it changed no file and restarted
    nothing, because the state file records a restart for this wiring with the same entry
    (or, recorded by an older installer, with the same files, which it then records anew);
    or it ran exactly one restart command, after which systemd showed the unit active with a
    main process, the check held, and after the settle period the unit was active with the
    same main process and no further restart of it, and the pass recorded this content in the
    state file. (The check itself runs no restart command.) *)
Theorem finishWithRestart_success t changedNow verify rb h h' : checks_only verify →
  runs any_env (finishWithRestart c procRoot vt error_text t changedNow verify rb) h h' None →
  ∃ a l, h' = l ++ h ∧ let h0 := existT (ReadHostFile (statePath c)) a :: h in
    (∃ st, loaded a = Ok (Some st) ∧ changedNow = false ∧ covers st t ∧ restarts l = [] ∧
       (EntryHash st = entryHash t ∧ h' = h0 ∨ EntryHash st = "" ∧ AppliedHash st = fileHash t ∧ ∃ b, saved t h0 h' (Ok b))) ∨
    length (restarts l) = 1%nat ∧
    ∃ h1 b, restarted_healthy verify (existT (EnsureWritableDir (hostPath c (StateDir c))) None :: h0) h1 ∧ saved t h1 h' (Ok b).
Proof.
  intros Hv Hr. eapply wp_post in Hr; [|apply wp_finishWithRestart].
  inversion Hr as [|a st Hl Hc Hm|a st ? ans ? Hl Hc Hm Hs Hres| |a h1 ? ans ? Hh Hs Hres|]; subst.
  - apply matches_covers in Hm as (s & -> & Hcov & He). exists a, [existT (ReadHostFile (statePath c)) a]. split; [done|]. left.
    exists s. split_and!; try done. by left.
  - apply matchesLegacy_covers in Hm as (s & -> & Hcov & He & Hf). destruct (proj1 Hres eq_refl) as [b ->]. unfold saved in Hs.
    eexists a, [_; _]. split; [exact Hs|]. left. exists s. split_and!; try done. right. split_and!; [done..|]. by exists b.
  - done.
  - destruct (proj1 Hres eq_refl) as [b ->]. destruct (proj2 Hh Hv) as (l & -> & Hl). unfold saved in Hs.
    eexists a, (_ :: l ++ [_; _]). split; [rewrite Hs; cbn; by rewrite <- app_assoc|]. right. split.
    + cbn. change (restarts (l ++ ?x)) with (List.filter (λ e : event hans, is_restart (projT1 e)) (l ++ x)). rewrite List.filter_app. cbn.
      by rewrite app_nil_r.
    + eexists _, b. split; [exact Hh|exact Hs].
Qed.

(** *** The next pass *)

Definition file_is (path text : string) (h : log hans) (call : hcall) : hans call → Prop :=
  match call with ReadHostFile p => λ r, p = path → r = Ok text | _ => λ _, True end.

Lemma rejects_own t kubelet msg at_ rec : Rejected rec = Some (target_rejection t unit kubelet msg at_) →
  rejects (Some (stamped rec)) t unit = Some (target_rejection t unit kubelet msg at_).
Proof. intros H. unfold rejects, stamped. cbn [Rejected]. rewrite H. cbn. by rewrite !String.eqb_refl. Qed.

Lemma wp_refuseRejected t rec kubelet msg at_ h : wf_state rec = true → Rejected rec = Some (target_rejection t unit kubelet msg at_) →
  wp (file_is (statePath c) (state_text rec)) (λ _ _, True) h (refuseRejected c procRoot t)
    (λ h' r, r = None → ∃ h1 now, runs any_env (kubeletIdentity c procRoot) h1 h' now ∧ now ≠ "" ∧ kubelet ≠ "" ∧ now ≠ kubelet).
Proof.
  intros Hwf Hrej. unfold refuseRejected, loadState. apply wp_bind. wp_call; [done|]. intros a Ha. rewrite (Ha eq_refl). apply wp_ret.
  cbn [loaded]. rewrite parse_state_text, (rejects_own _ _ _ _ _ Hrej) by done. cbn [target_rejection RKubelet].
  destruct (String.eqb_spec kubelet "") as [->|Hk]; [by apply wp_ret|]. cbn [negb].
  match goal with |- wp _ _ ?h1 _ _ => wp_cut (wp_runs (file_is (statePath c) (state_text rec)) h1 (kubeletIdentity c procRoot)) end.
  intros h2 now Hnow. unfold testedBy, target_rejection. cbn [RKubelet].
  destruct (String.eqb_spec kubelet ""); [done|]. destruct (String.eqb_spec now ""); [by apply wp_ret|].
  destruct (String.eqb_spec kubelet now); [by apply wp_ret|]. apply wp_ret. intros _. eexists _, now.
  split; [by eapply runs_env_mono|]. done.
Qed.

Lemma calls_examine hostMnt name : calls read_only (examine procRoot hostMnt name).
Proof. unfold examine, readPPID. repeat first [apply calls_bind; [|intros ?] | by apply calls_trigger | case_match | exact I]. Qed.

Lemma calls_findKubelet : calls read_only (findKubelet procRoot).
Proof.
  assert (Hs : ∀ hostMnt names, calls read_only (scan procRoot hostMnt names)).
  { intros hostMnt names. induction names as [|n names IH]; [exact I|]. cbn [scan].
    repeat first [apply calls_bind; [|intros ?] | apply calls_examine | exact IH | exact I]. }
  unfold findKubelet. repeat first [apply calls_bind; [|intros ?] | by apply calls_trigger | apply Hs | case_match | exact I].
Qed.

Lemma calls_refuseRejected t : calls read_only (refuseRejected c procRoot t).
Proof.
  unfold refuseRejected, loadState, kubeletIdentity, kubeletConfigText.
  repeat first [apply calls_bind; [|intros ?] | by apply calls_trigger | apply calls_findKubelet | case_match | exact I].
Qed.

(** Two logs over the same one that end the same way. *)
Lemma same_second {A} (l l' : list A) x y x' y' h : l ++ x :: y :: h = l' ++ x' :: y' :: h → x = x'.
Proof.
  intros E. change (x :: y :: h) with ([x; y] ++ h) in E. change (x' :: y' :: h) with ([x'; y'] ++ h) in E.
  rewrite !app_assoc in E. apply app_inj_2 in E as [E _]; [|done]. apply app_inj_2 in E as [_ E]; [|done]. by injection E.
Qed.

(** When a pass got as far as restarting kubelet and failed, kubelet was verified and only the
    record of that could not be written; or the pass rolled back (when it had changed files:
    every step of the rollback, then a restart onto the restored files) and wrote a record
    that rejects this content. *)
Lemma failed_restart t changedNow verify rb h h' e a :
  runs any_env (finishWithRestart c procRoot vt error_text t changedNow verify rb) h h' (Some e) →
  (∃ l, h' = l ++ existT (EnsureWritableDir (hostPath c (StateDir c))) None :: existT (ReadHostFile (statePath c)) a :: h) →
  (∃ h0 h1 e', restarted_healthy verify h0 h1 ∧ saved t h1 h' (Err e')) ∨
  ∃ h1 rec ans, recorded t changedNow rb h1 h' rec ans.
Proof.
  intros Hr [l Hl]. eapply wp_post in Hr; [|apply wp_finishWithRestart]. remember (Some e) as r eqn:Er.
  destruct Hr as [a1 e1 _|a1 st1|a1 st1 h1 ans r _ _ _ Hs _|a1 e1 h1 r Hif _|a1 h1 h2 ans r Hh Hs Hres|a1 h1 h2 e1 rec ans _ Hrec e2].
  - apply (f_equal length) in Hl. rewrite length_app in Hl. cbn in Hl. unfold log, event in *. lia.
  - done.
  - rewrite Hs in Hl. by apply (same_second []) in Hl.
  - assert (∃ l1, h1 = l1 ++ existT (EnsureWritableDir (hostPath c (StateDir c))) (Some e1) :: existT (ReadHostFile (statePath c)) a1 :: h) as [l1 ->].
    { destruct changedNow; [|by exists []]. destruct Hif as [rerr Hx]. by eapply runs_extends. }
    apply same_second in Hl. apply (f_equal (λ e : event hans, match e with existT (EnsureWritableDir _) o => is_Some o | _ => True end)) in Hl.
    assert (@is_Some gerr None) by (rewrite <- Hl; by eexists). by destruct H.
  - left. destruct ans as [b|e']; [by rewrite (proj2 Hres (ex_intro _ b eq_refl)) in Er|]. by eexists _, h1, e'.
  - right. by exists h1, rec, ans.
Qed.
End Outcomes.

(** ** A pass on a node *)

Definition demo_cfg : config :=
  MkConfig modeMerge "/host" "" "/etc/kubernetes/harbor-bridge" "/usr/libexec/kubelet/plugins" "/etc/kubernetes/cp.yaml" false "kubelet"
    "/var/lib/harbor-bridge" "" defaultProviderName "".

Definition demo_rollback : rollback :=
  rollback_file (MkRollback [] []) "/etc/kubernetes/cp.yaml"
    (r ← trigger (WriteFileAtomic "/host/etc/kubernetes/cp.yaml" "old" 0x180); Ret (match r with Ok _ => None | Err e => Some e end)).

Definition demo_pass (up : bool) :=
  play demo_serve (MkNode 0 None up) (finishWithRestart demo_cfg "/proc" defaultVerifyTiming (λ _, "error") demo_target true None demo_rollback) [].

Lemma demo_pass_runs up : runs any_env (finishWithRestart demo_cfg "/proc" defaultVerifyTiming (λ _, "error") demo_target true None demo_rollback) []
  (demo_pass up).1.2 (demo_pass up).2.
Proof. apply play_runs_in. done. Qed.

Lemma demo_pass_results : (demo_pass true).2 = None ∧ length (restarts (demo_pass true).1.2) = 1%nat ∧
  is_Some (demo_pass false).2 ∧ length (restarts (demo_pass false).1.2) = 2%nat.
Proof. vm_compute. split_and!; [reflexivity|reflexivity|by eexists|reflexivity]. Qed.

Lemma finishWithRestart_success_witness :
  ∃ a l, (demo_pass true).1.2 = l ++ [] ∧ let h0 := [existT (ReadHostFile (statePath demo_cfg)) a] in
    (∃ st, loaded a = Ok (Some st) ∧ true = false ∧ covers st demo_target ∧ restarts l = [] ∧
       (EntryHash st = entryHash demo_target ∧ (demo_pass true).1.2 = h0 ∨
        EntryHash st = "" ∧ AppliedHash st = fileHash demo_target ∧ ∃ b, saved demo_cfg demo_target h0 (demo_pass true).1.2 (Ok b))) ∨
    length (restarts l) = 1%nat ∧
    ∃ h1 b, restarted_healthy demo_cfg defaultVerifyTiming None (existT (EnsureWritableDir (hostPath demo_cfg (StateDir demo_cfg))) None :: h0) h1 ∧
      saved demo_cfg demo_target h1 (demo_pass true).1.2 (Ok b).
Proof.
  apply (finishWithRestart_success demo_cfg "/proc" defaultVerifyTiming (λ _, "error") demo_target true None demo_rollback []).
  - intros p [=].
  - rewrite <- (proj1 demo_pass_results). apply demo_pass_runs.
Defined.

Lemma demo_pass_suffix : ∃ l, (demo_pass false).1.2 = l ++
  [existT (EnsureWritableDir (hostPath demo_cfg (StateDir demo_cfg))) None; existT (ReadHostFile (statePath demo_cfg)) (Err (ESentinel ErrNotExist))].
Proof. eexists (take (length (demo_pass false).1.2 - 2) (demo_pass false).1.2). vm_compute. reflexivity. Qed.

Lemma demo_pass_fails : ∃ e, (demo_pass false).2 = Some e.
Proof. destruct demo_pass_results as (_ & _ & [e He] & _). by exists e. Qed.
