(* ===== verification/EnvFileParse.v ===== *)
(** * Reading the environment file, line by line

    [parseEnvFile] of [EnvFile] works byte by byte. This file shows how it acts on
    whole lines: what it reads after a line break depends on nothing that came
    before ([parse_resume]), a line adds at most one assignment and the line of an
    assignment that starts and ends on it has the form key, "=", value
    ([line_step]), and a KUBELET_EXTRA_ARGS line that [unquoteExtraArgs] accepts
    assigns exactly the text [unquoteExtraArgs] returns ([extra_line_read]). *)

From S2P Require Import Prelude.
From S2P Require Import GoStrings.
From S2P Require Import GoStd.
From S2P Require Import Utf8.
From S2P Require Import EnvFile.

Create HintDb env.

(** ** The loop *)

Lemma parse_loop_app before s t p :
  parse_loop before (s +:+ t) p =
  match parse_loop before s p with Ok p' => parse_loop (before +:+ s) t p' | Err e => Err e end.
Proof.
  revert before p. induction s as [|c s IH]; intros before p; [by rewrite app_nil_l, str_app_nil_r|].
  rewrite app_cons. cbn [parse_loop]. destruct (parse_byte c p); [|done]. rewrite IH.
  replace ((before +:+ str1 c) +:+ s) with (before +:+ String c s); [done|]. by rewrite str_app_assoc.
Qed.

Lemma last_line_snoc s c : last_line (s +:+ str1 c) = if Ascii.eqb c nl then "" else last_line s +:+ str1 c.
Proof.
  induction s as [|d s IH]; [rewrite app_nil_l; unfold str1; cbn [last_line ContainsByte]; by destruct (Ascii.eqb c nl)|]. rewrite app_cons. cbn [last_line].
  rewrite ContainsByte_app, IH. change (ContainsByte (str1 c) nl) with (Ascii.eqb c nl || false).
  rewrite orb_false_r. destruct (Ascii.eqb c nl).
  - by rewrite orb_true_r.
  - rewrite orb_false_r. destruct (ContainsByte s nl); [done|]. by destruct (Ascii.eqb d nl).
Qed.

(** ** Independence of the past

    Two parsers that agree on what a line can see read the rest alike: [o1] and
    [o2] are what they had read before, and the second counts its lines from [d]
    further on. *)

Definition shift (d : nat) (a : envAssignment) : envAssignment :=
  MkAssignment (akey a) (avalue a) (afirst a + d) (alast a + d) (afterContinuedComment a).

Definition reading (st : pstate) : bool :=
  match st with preKey | comment | commentEscape => false | _ => true end.
Definition in_value (st : pstate) : bool :=
  match st with preKey | inKey | comment | commentEscape => false | _ => true end.

Record sim (d : nat) (o1 o2 : list envAssignment) (p q : parser) : Prop := {
  sim_state : state p = state q;
  sim_value : value p = value q;
  sim_line : line q = (line p + d)%nat;
  sim_cc : continuedComment p = continuedComment q;
  sim_out : ∃ new, out p = o1 ++ new ∧ out q = o2 ++ (shift d <$> new);
  sim_key : reading (state p) = true → key p = key q ∧ lastKeyWS p = lastKeyWS q ∧
    first q = (first p + d)%nat ∧ startsContinued p = startsContinued q;
  sim_ws : in_value (state p) = true → lastValueWS p = lastValueWS q }.

Definition res_rel {A} (R : A → A → Prop) (r r' : res A) : Prop :=
  match r, r' with Ok a, Ok b => R a b | Err e, Err e' => e = e' | _, _ => False end.

Lemma sim_push d o1 o2 p q : in_value (state p) = true → sim d o1 o2 p q →
  res_rel (sim d o1 o2) (push (goto preKey p)) (push (goto preKey q)).
Proof.
  intros Hv [Hs Hval Hl Hcc (new & Hp & Hq) Hk Hws]. destruct (Hk ltac:(by destruct (state p))) as (Ek & Ew & Ef & Es).
  unfold push, goto; cbn. rewrite <- Ek, <- Ew, <- Hval.
  destruct (negb (systemdValidUTF8 _)); [done|]. destruct (negb (systemdValidUTF8 _)); [done|]. cbn.
  constructor; cbn; try done. exists (new ++ [MkAssignment (cut_at (lastKeyWS p) (key p)) (value p) (first p) (line p) (startsContinued p)]).
  rewrite Hp, Hq, fmap_app, !app_assoc. split; [done|]. cbn. unfold shift; cbn. by rewrite Ef, Hl, Es.
Qed.

Lemma sim_byte d o1 o2 c p q : sim d o1 o2 p q → res_rel (sim d o1 o2) (parse_byte c p) (parse_byte c q).
Proof.
  intros S. pose proof S as [Hs Hval Hl Hcc Ho Hk Hws]. unfold parse_byte. rewrite <- Hs.
  destruct (state p) eqn:Est; cbn [reading in_value] in *;
    try specialize (Hk eq_refl) as (Ek & Ew & Ef & Es); try specialize (Hws eq_refl).
  all: rewrite <- ?Ek, <- ?Ew, <- ?Hws, <- ?Hval.
  all: repeat match goal with |- context [if ?b then _ else _] => destruct b end.
  all: try (apply (sim_push d o1 o2 p q); [by rewrite Est | done]).
  all: try (cbn; constructor; cbn; rewrite ?Est; try done; try congruence; by rewrite <- ?Hval, <- ?Ek, <- ?Hcc).
  apply (sim_push d o1 o2 (set_value _ p) (set_value _ q)); [cbn; by rewrite Est|].
  constructor; cbn; rewrite ?Est; done.
Qed.

Lemma sim_loop d o1 o2 rest : ∀ before before' p q, last_line before = last_line before' → sim d o1 o2 p q →
  res_rel (sim d o1 o2) (parse_loop before rest p) (parse_loop before' rest q).
Proof.
  induction rest as [|c rest IH]; intros before before' p q Hb S; [done|]. cbn [parse_loop].
  pose proof (sim_byte d o1 o2 c p q S) as Hc.
  destruct (parse_byte c p) as [p'|e], (parse_byte c q) as [q'|e']; try done. cbn in Hc.
  apply IH; [by rewrite !last_line_snoc, Hb|]. destruct (Ascii.eqb c nl); [|done].
  destruct Hc as [Hs Hval Hl Hcc Ho Hk Hws]. constructor; cbn; try done; [by rewrite Hl|].
  unfold commentEndsInBackslash. by rewrite Hs, Hb.
Qed.

Lemma sim_end d o1 o2 p q : sim d o1 o2 p q →
  res_rel (λ a b, ∃ new, a = o1 ++ new ∧ b = o2 ++ (shift d <$> new)) (parse_end p) (parse_end q).
Proof.
  intros S. pose proof S as [Hs Hval Hl Hcc Ho Hk Hws]. unfold parse_end. rewrite <- Hs.
  assert (Hpush : ∀ p q, in_value (state p) = true → sim d o1 o2 p q →
    res_rel (λ a b, ∃ new, a = o1 ++ new ∧ b = o2 ++ (shift d <$> new))
      match push p with Ok p' => Ok (out p') | Err e => Err e end
      match push q with Ok q' => Ok (out q') | Err e => Err e end).
  { intros p' q' Hv S'. pose proof (sim_push d o1 o2 p' q' Hv S') as Hp.
    unfold push, goto in *; cbn in *.
    repeat match goal with |- context [if ?b then _ else _] => destruct b end; try done.
    cbn in *. apply Hp. }
  destruct (state p) eqn:Est; try done; apply Hpush; rewrite ?bool_decide_true, ?bool_decide_false by done;
    cbn; rewrite ?Est; try done.
  constructor; cbn; rewrite ?Est; try done.
  rewrite (Hws eq_refl). by rewrite Hval.
Qed.

(** ** Reading from the start of a line *)


Definition finish (r : res parser) : res (list envAssignment) :=
  match r with Ok p => parse_end p | Err e => Err e end.

(** The assignments of [rest], a text that starts on line [n]. *)
Definition parse_from (n : nat) (cc : bool) (rest : string) : res (list envAssignment) :=
  finish (parse_loop "" rest (MkParser [] "" "" None None n 0 cc false preKey)).

Definition fresh (p : parser) : Prop := state p = preKey ∧ value p = "".

Lemma fresh_sim d p q : fresh p → fresh q → line q = (line p + d)%nat → continuedComment p = continuedComment q →
  sim d (out p) (out q) p q.
Proof.
  intros [Hp Hvp] [Hq Hvq] Hl Hcc. constructor; rewrite ?Hp, ?Hq, ?Hvp, ?Hvq; try done.
  exists []. by rewrite !app_nil_r.
Qed.

Lemma finish_sim d o1 o2 r r' : res_rel (sim d o1 o2) r r' →
  res_rel (λ a b, ∃ new, a = o1 ++ new ∧ b = o2 ++ (shift d <$> new)) (finish r) (finish r').
Proof. destruct r, r'; try done. apply sim_end. Qed.

Lemma parse_resume before rest p : fresh p → last_line before = "" →
  finish (parse_loop before rest p) = res_map (app (out p)) (parse_from (line p) (continuedComment p) rest).
Proof.
  intros Hf Hb. unfold parse_from.
  set (q := MkParser [] "" "" None None (line p) 0 (continuedComment p) false preKey).
  assert (S : sim 0 [] (out p) q p) by (apply (fresh_sim 0 q p); cbn; [done|done|lia|done]).
  pose proof (finish_sim _ _ _ _ _ (sim_loop 0 [] (out p) rest "" before q p ltac:(by rewrite Hb) S)) as H.
  destruct (finish (parse_loop "" rest q)) as [a|], (finish (parse_loop before rest p)) as [b|]; cbn in *; try done; [|by f_equal].
  destruct H as (new & -> & ->). do 2 f_equal. change ([] ++ new) with new. rewrite <- (list_fmap_id new) at 2.
  apply list_fmap_ext. intros _ [] _. unfold shift; cbn. by rewrite !Nat.add_0_r.
Qed.

Lemma parse_from_shift n d cc rest :
  parse_from (n + d) cc rest = res_map (fmap (shift d)) (parse_from n cc rest).
Proof.
  unfold parse_from.
  set (p := MkParser [] "" "" None None n 0 cc false preKey).
  set (q := MkParser [] "" "" None None (n + d) 0 cc false preKey).
  assert (S : sim d [] [] p q) by (by apply (fresh_sim d p q)).
  pose proof (finish_sim _ _ _ _ _ (sim_loop d [] [] rest "" "" p q eq_refl S)) as H.
  destruct (finish (parse_loop "" rest p)) as [a|], (finish (parse_loop "" rest q)) as [b|]; cbn in *; try done; [|by f_equal].
  by destruct H as (new & -> & ->).
Qed.

(** ** The bytes of one line *)

Definition is_ws (c : ascii) : bool := ContainsByte envWhitespace c.
Definition no_break (c : ascii) : bool := negb (ContainsByte envNewline c).
Definition breakless (b : string) : bool := all_bytes no_break b.
Definition eol (e : string) : Prop := e = str1 nl ∨ e = String cr (str1 nl).

Lemma no_break_nl c : no_break c = true → Ascii.eqb c nl = false.
Proof. unfold no_break. intros H. bsimpl. destruct (Ascii.eqb_spec c nl) as [->|]; done. Qed.

Lemma no_break_newline c : no_break c = true → ContainsByte envNewline c = false.
Proof. unfold no_break. intros H. by bsimpl. Qed.
#[export] Hint Resolve no_break_nl no_break_newline : env.

(** A line, its line break included, is a text without breaks and an end of line. *)
Lemma line_eol l : ContainsByte l nl = false → lone_cr (l +:+ str1 nl) = false →
  ∃ b e, l +:+ str1 nl = b +:+ e ∧ breakless b = true ∧ eol e ∧ (l = b ∨ l = b +:+ str1 cr).
Proof.
  induction l as [|c l IH]; intros Hn Hc.
  { exists "", (str1 nl). split_and!; [done..|by left|by left]. }
  rewrite app_cons in *. cbn [ContainsByte lone_cr] in *. bsimpl.
  destruct (IH ltac:(done) ltac:(done)) as (b & e & E & Hb & He & Hl).
  destruct (Ascii.eqb_spec c cr) as [->|Hcr].
  - destruct l as [|d l].
    { exists "", (String cr (str1 nl)). split_and!; [done..|by right|by right]. }
    rewrite app_cons in *. cbn [ContainsByte lone_cr] in *. bsimpl. destruct H as [|Hd]; [done|]. bsimpl. congruence.
  - exists (String c b), e. rewrite app_cons, <- E. split_and!; [done| |done|].
    + cbn. unfold breakless in Hb. rewrite Hb. unfold no_break, envNewline, str1. cbn [ContainsByte].
      rewrite andb_true_r. apply negb_true_iff. rewrite (Ascii.eqb_sym nl c), (Ascii.eqb_sym cr c).
      rewrite (proj2 (Ascii.eqb_neq c cr) Hcr). destruct (Ascii.eqb c nl); done.
    + rewrite ?app_cons. naive_solver.
Qed.

(** What stays as it is while a value is read. *)
Definition frame (p p' : parser) : Prop :=
  out p' = out p ∧ key p' = key p ∧ lastKeyWS p' = lastKeyWS p ∧ line p' = line p ∧ first p' = first p ∧
  continuedComment p' = continuedComment p ∧ startsContinued p' = startsContinued p.

Lemma frame_refl p : frame p p. Proof. by split_and!. Qed.
Lemma frame_trans p q r : frame p q → frame q r → frame p r.
Proof. unfold frame. intros (-> & -> & -> & -> & -> & -> & ->). done. Qed.
#[export] Hint Resolve frame_refl : env.

(** A set of states that the bytes of a line do not leave. *)
Lemma body_run (P : parser → Prop) :
  (∀ c p, P p → no_break c = true → ∃ p', parse_byte c p = Ok p' ∧ P p' ∧ frame p p') →
  ∀ b before p, breakless b = true → P p → ∃ p', parse_loop before b p = Ok p' ∧ P p' ∧ frame p p'.
Proof.
  intros Hstep b. induction b as [|c b IH]; intros before p Hb HP; [by exists p|].
  unfold breakless in *. cbn [all_bytes] in Hb. bsimpl. destruct (Hstep c p HP) as (p1 & E1 & HP1 & F1); [done|].
  cbn [parse_loop]. rewrite E1, no_break_nl by done.
  destruct (IH (before +:+ str1 c) p1 ltac:(done) HP1) as (p2 & E2 & HP2 & F2).
  exists p2. split_and!; [done..|]. by eapply frame_trans.
Qed.

Lemma value_body b before p : breakless b = true → in_value (state p) = true →
  ∃ p', parse_loop before b p = Ok p' ∧ in_value (state p') = true ∧ frame p p'.
Proof.
  apply (body_run (λ p, in_value (state p) = true)). clear. intros c p HP Hc.
  unfold parse_byte. rewrite no_break_newline by done.
  destruct (state p) eqn:Est; try done;
    repeat match goal with |- context [if ?x then _ else _] => destruct x end;
    (eexists; split; [reflexivity|]; cbn; rewrite ?Est; by split_and!).
Qed.

Definition in_comment (st : pstate) : bool := match st with comment | commentEscape => true | _ => false end.

Lemma comment_body v b before p : breakless b = true → in_comment (state p) = true ∧ value p = v →
  ∃ p', parse_loop before b p = Ok p' ∧ (in_comment (state p') = true ∧ value p' = v) ∧ frame p p'.
Proof.
  apply (body_run (λ p, in_comment (state p) = true ∧ value p = v)). clear. intros c p [HP Hv] Hc.
  unfold parse_byte. rewrite no_break_newline by done.
  destruct (state p) eqn:Est; try done;
    repeat match goal with |- context [if ?x then _ else _] => destruct x end;
    (eexists; split; [reflexivity|]; cbn; rewrite ?Est; by split_and!).
Qed.

Lemma ws_body w before p : all_bytes is_ws w = true → ContainsByte w nl = false → state p = preKey →
  parse_loop before w p = Ok p.
Proof.
  revert before. induction w as [|c w IH]; intros before Hw Hn Hs; [done|]. cbn [all_bytes ContainsByte] in Hw, Hn.
  apply andb_true_iff in Hw as [Hc Hw]. apply orb_false_iff in Hn as [Hcn Hn].
  cbn [parse_loop]. unfold parse_byte. rewrite Hs. change (ContainsByte envWhitespace c) with (is_ws c).
  rewrite Hc.
  assert (ContainsByte envComments c = false) as ->.
  { unfold is_ws, envWhitespace, envComments, str1 in *. cbn [ContainsByte] in *.
    destruct (Ascii.eqb_spec "#" c) as [<-|]; [done|]. by destruct (Ascii.eqb_spec ";" c) as [<-|]. }
  cbn [negb]. rewrite Hcn. by apply IH.
Qed.

(** *** Trailing white space *)

(** The mark [m] cuts off exactly the white space at the end of [s]. *)
Definition trimmed (m : option nat) (s : string) : Prop :=
  cut_at m s = TrimRight s envWhitespace ∧ ∀ k, m = Some k → (k ≤ String.length s)%nat.

Lemma TrimRight_app_cut s t cs : all_bytes (ContainsByte cs) t = true → TrimRight (s +:+ t) cs = TrimRight s cs.
Proof.
  intros Ht. induction s as [|a s IH].
  - rewrite app_nil_l. destruct t as [|c t]; [done|]. cbn [all_bytes TrimRight] in *. by rewrite Ht.
  - rewrite app_cons. cbn [TrimRight]. by rewrite all_bytes_app, Ht, andb_true_r, IH.
Qed.

Lemma TrimRight_snoc_keep s c cs : ContainsByte cs c = false → TrimRight (s +:+ str1 c) cs = s +:+ str1 c.
Proof. intros H. unfold str1. by rewrite TrimRight_keep. Qed.

Lemma trimmed_snoc m s c : trimmed m s → trimmed (track_ws (is_ws c) m s) (s +:+ str1 c).
Proof.
  intros [Hc Hk]. unfold track_ws. destruct (is_ws c) eqn:Hw.
  - assert (Hcut : TrimRight (s +:+ str1 c) envWhitespace = TrimRight s envWhitespace).
    { apply TrimRight_app_cut. unfold str1. cbn [all_bytes]. unfold is_ws in Hw. by rewrite Hw. }
    unfold trimmed. rewrite Hcut. destruct m as [k|]; cbn in *.
    + specialize (Hk k eq_refl). split; [|intros ? [= <-]; rewrite str_length_app; lia].
      rewrite <- Hc. rewrite <- (take_drop_str k s) at 1. rewrite str_app_assoc.
      rewrite take_str_app_ge, take_str_length, Nat.min_l by (rewrite ?take_str_length; lia).
      by rewrite Nat.sub_diag, str_app_nil_r.
    + rewrite take_str_app. split; [done|]. intros ? [= <-]. rewrite str_length_app. lia.
  - split; [|done]. cbn. symmetry. by apply TrimRight_snoc_keep.
Qed.

(** *** Keys *)

Definition key_read (p p' : parser) (k : string) : Prop :=
  state p' = inKey ∧ key p' = k ∧ trimmed (lastKeyWS p') k ∧ value p' = value p ∧ out p' = out p ∧
  line p' = line p ∧ first p' = line p ∧ startsContinued p' = continuedComment p ∧
  continuedComment p' = continuedComment p.

Lemma key_body k2 : ∀ before p0 p k, breakless k2 = true → ContainsByte k2 "=" = false → key_read p0 p k →
  ∃ p', parse_loop before k2 p = Ok p' ∧ key_read p0 p' (k +:+ k2).
Proof.
  induction k2 as [|c k2 IH]; intros before p0 p k Hb He HR; [exists p; by rewrite str_app_nil_r|].
  unfold breakless in *. cbn [all_bytes ContainsByte] in *. bsimpl. cbn [parse_loop]. unfold parse_byte.
  pose proof HR as (Hs & Hk & Ht & HR').
  assert (no_break c = true) by done.
  rewrite Hs, no_break_newline, no_break_nl by done.
  match goal with H : Ascii.eqb c "=" = false |- _ => rewrite H end.
  replace (k +:+ String c k2) with ((k +:+ str1 c) +:+ k2) by (by rewrite str_app_assoc).
  apply IH; [done|done|]. unfold key_read; cbn. subst k. split_and!; try apply HR'; [done..|].
  by apply trimmed_snoc.
Qed.

Lemma key_start c before p : fresh p → is_ws c = false → ContainsByte envComments c = false →
  ∃ p', parse_loop before (str1 c) p = Ok p' ∧ key_read p p' (str1 c).
Proof.
  intros [Hs Hv] Hw Hc. unfold str1 at 1. cbn [parse_loop]. unfold parse_byte. rewrite Hs, Hc.
  change (ContainsByte envWhitespace c) with (is_ws c). rewrite Hw. cbn [negb].
  assert (Ascii.eqb c nl = false) as -> by (destruct (Ascii.eqb_spec c nl) as [->|]; done).
  eexists; split; [reflexivity|]. unfold key_read; cbn. split_and!; try done.
  split; [|done]. symmetry. by apply (TrimRight_snoc_keep "").
Qed.

(** *** The end of a line *)

Definition line_open (st : pstate) : bool :=
  match st with inValue | singleQuote | doubleQuote => true | _ => false end.

Definition wf_start (p : parser) : Prop :=
  fresh p ∨ line_open (state p) = true ∧ (first p < line p)%nat.

(** The assignment a parser in a value pushes, with the value [v]. *)
Definition pending (p : parser) (v : string) : envAssignment :=
  MkAssignment (cut_at (lastKeyWS p) (key p)) v (first p) (line p) (startsContinued p).

Lemma push_Ok p p' : push p = Ok p' →
  out p' = out p ++ [pending p (value p)] ∧ value p' = "" ∧ state p' = state p ∧ line p' = line p ∧ first p' = first p.
Proof. unfold push. intros H. repeat case_step_in H; [done..|]. by injection H as <-. Qed.

Lemma pending_frame p q v : frame p q → pending q v = pending p v.
Proof. intros (_ & Hk & Hw & Hl & Hf & _ & Hs). unfold pending. by rewrite Hk, Hw, Hl, Hf, Hs. Qed.

(** A byte of a line break ends the assignment or stays in the value. *)
Lemma value_break c p p' : ContainsByte envNewline c = true → in_value (state p) = true → parse_byte c p = Ok p' →
  (frame p p' ∧ line_open (state p') = true) ∨
  (fresh p' ∧ line p' = line p ∧ ∃ v, out p' = out p ++ [pending p v]).
Proof.
  intros Hc Hv. unfold parse_byte. rewrite Hc.
  assert (Ascii.eqb c squote = false ∧ Ascii.eqb c dquote = false ∧ Ascii.eqb c backslash = false) as (-> & -> & ->).
  { unfold envNewline, str1 in Hc. cbn [ContainsByte] in Hc. bsimpl.
    destruct Hc as [Hc|Hc]; bsimpl; [apply Ascii.eqb_eq in Hc as <-; done|].
    destruct Hc as [Hc|]; [apply Ascii.eqb_eq in Hc as <-|]; done. }
  destruct (state p) eqn:Est; try done; intros H.
  1, 2: right; apply push_Ok in H as (Eo & Ev & Es & El & Ef); split_and!; [done..|]; by eexists.
  all: left; repeat case_step_in H; injection H as <-; cbn; rewrite ?Est; (split; [by split_and!|done]).
Qed.

Lemma fresh_nl before p : fresh p → ∃ cc, parse_loop before (str1 nl) p = Ok (next_line cc p).
Proof.
  intros [Hs Hv]. unfold str1. cbn [parse_loop]. unfold parse_byte. rewrite Hs.
  change (ContainsByte envComments nl) with false. change (ContainsByte envWhitespace nl) with true.
  cbn [negb]. rewrite eqb_refl_ascii. by eexists.
Qed.

Lemma value_nl before p p' : in_value (state p) = true → (first p ≤ line p)%nat →
  parse_loop before (str1 nl) p = Ok p' →
  line p' = S (line p) ∧ wf_start p' ∧
  (out p' = out p ∧ ¬ fresh p' ∨ fresh p' ∧ ∃ v, out p' = out p ++ [pending p v]).
Proof.
  intros Hv Hf. unfold str1. cbn [parse_loop]. destruct (parse_byte nl p) as [q|] eqn:E; [|done].
  rewrite eqb_refl_ascii. intros [= <-].
  destruct (value_break nl p q eq_refl Hv E) as [[F Hs]|(Hfr & Hl & v & Ho)]; cbn.
  - destruct F as (Ho & _ & _ & Hl & Hfi & _). rewrite Ho, Hl. split_and!; [done| |].
    + right. cbn. rewrite Hl, Hfi. split; [done|lia].
    + left. split; [done|]. intros [Hq _]. cbn in Hq. by rewrite Hq in Hs.
  - rewrite Hl. split_and!; [done|by left|]. right. split; [done|]. by exists v.
Qed.

Lemma value_eol e before p p' : eol e → in_value (state p) = true → (first p ≤ line p)%nat →
  parse_loop before e p = Ok p' →
  line p' = S (line p) ∧ wf_start p' ∧
  (out p' = out p ∧ ¬ fresh p' ∨ fresh p' ∧ ∃ v, out p' = out p ++ [pending p v]).
Proof.
  intros [->| ->] Hv Hf; [by apply value_nl|].
  cbn [parse_loop]. destruct (parse_byte cr p) as [q|] eqn:E; [|done].
  change (Ascii.eqb cr nl) with false. cbv iota.
  destruct (value_break cr p q eq_refl Hv E) as [[F Hs]|(Hfr & Hl & v & Ho)].
  - intros H. pose proof F as (Ho & _ & _ & Hl & Hfi & _).
    apply value_nl in H as (H1 & H2 & H3); [|by destruct (state q)|lia].
    rewrite H1, Hl. split_and!; [done..|]. rewrite Ho in H3.
    destruct H3 as [?|(? & v & Hp)]; [by left|]. right. split; [done|]. exists v. by rewrite Hp, (pending_frame p).
  - destruct (fresh_nl (before +:+ str1 cr) q Hfr) as [cc E'].
    intros H. rewrite E' in H. injection H as <-. cbn. rewrite Hl. split_and!; [done|by left|].
    right. split; [done|]. by exists v.
Qed.

(** *** A whole line *)

(** The text of a line that starts with an assignment to the key [TrimRight k]. *)
Definition key_line (l k raw : string) : Prop :=
  ∃ w c k', l = w +:+ k +:+ "=" +:+ raw ∧ all_bytes is_ws w = true ∧ k = String c k' ∧
    is_ws c = false ∧ ContainsByte envComments c = false ∧ ContainsByte k' "=" = false.

Lemma TrimLeft_spec s cs : ∃ w, s = w +:+ TrimLeft s cs ∧ all_bytes (ContainsByte cs) w = true ∧
  match TrimLeft s cs with String c _ => ContainsByte cs c = false | EmptyString => True end.
Proof.
  induction s as [|a s (w & E & Hw & Hh)]; [by exists ""|]. cbn [TrimLeft].
  destruct (ContainsByte cs a) eqn:Ha.
  - exists (String a w). rewrite app_cons, <- E. split_and!; [done| |done]. cbn [all_bytes]. by rewrite Ha.
  - exists "". by split_and!.
Qed.

Lemma break_eol e before p : eol e → in_comment (state p) = true ∨ state p = inKey ∨ state p = preKey →
  value p = "" → ∃ p', parse_loop before e p = Ok p' ∧ fresh p' ∧ out p' = out p ∧ line p' = S (line p).
Proof.
  intros He Hs Hv. assert (Hb : ∀ c, ContainsByte envNewline c = true → is_ws c = true →
    ContainsByte envComments c = false → Ascii.eqb c backslash = false →
    ∃ q, parse_byte c p = Ok q ∧ fresh q ∧ out q = out p ∧ line q = line p).
  { intros c Hc Hw Hcm Hbs. unfold parse_byte. change (ContainsByte envWhitespace c) with (is_ws c).
    rewrite Hc, Hw, Hcm, Hbs. destruct (state p) eqn:Est; try naive_solver;
      (eexists; split; [reflexivity|]; by split_and!). }
  destruct He as [->| ->].
  - destruct (Hb nl) as (q & E & Hf & Ho & Hl); [done..|]. unfold str1. cbn [parse_loop]. rewrite E.
    rewrite eqb_refl_ascii. eexists; split; [reflexivity|]. cbn. rewrite Hl. by split_and!.
  - destruct (Hb cr) as (q & E & Hf & Ho & Hl); [done..|]. cbn [parse_loop]. rewrite E.
    change (Ascii.eqb cr nl) with false. cbv iota.
    destruct (fresh_nl (before +:+ str1 cr) q Hf) as [cc E']. rewrite E'.
    eexists; split; [reflexivity|]. cbn. rewrite Hl. by split_and!.
Qed.

(** The first byte of a line that is not white space decides what it is. *)
Inductive line_kind (b : string) : Prop :=
| LBlank : all_bytes is_ws b = true → line_kind b
| LComment w c r : b = w +:+ String c r → all_bytes is_ws w = true → ContainsByte envComments c = true → line_kind b
| LNoValue w c r : b = w +:+ String c r → all_bytes is_ws w = true → is_ws c = false →
    ContainsByte envComments c = false → ContainsByte r "=" = false → line_kind b
| LAssign k raw : key_line b k raw → line_kind b.

Lemma line_kind_total b : line_kind b.
Proof.
  destruct (TrimLeft_spec b envWhitespace) as (w & E & Hw & Hh).
  destruct (TrimLeft b envWhitespace) as [|c r]; [rewrite str_app_nil_r in E; subst w; by apply LBlank|].
  destruct (ContainsByte envComments c) eqn:Hc; [by eapply LComment|].
  destruct (Cut r "=") as [[k' raw]|] eqn:Hcut.
  - apply Cut_Some in Hcut as [-> Hk]. apply (LAssign b (String c k') raw). exists w, c, k'.
    split_and!; try done.
  - apply Cut_None in Hcut. by eapply LNoValue.
Qed.

Lemma breakless_nl b : breakless b = true → ContainsByte b nl = false.
Proof. apply all_bytes_ContainsByte. done. Qed.

Lemma breakless_app s t : breakless (s +:+ t) = true ↔ breakless s = true ∧ breakless t = true.
Proof. unfold breakless. rewrite all_bytes_app. by rewrite andb_true_iff. Qed.

(** The key of an assignment line, up to its value. *)
Lemma key_line_run before w c k' p : breakless (w +:+ String c k') = true → fresh p →
  all_bytes is_ws w = true → is_ws c = false → ContainsByte envComments c = false → ContainsByte k' "=" = false →
  ∃ p', parse_loop before (w +:+ String c k') p = Ok p' ∧ key_read p p' (String c k').
Proof.
  intros Hb Hf Hw Hc Hcc Hk. apply breakless_app in Hb as [Hbw Hbk].
  rewrite parse_loop_app, ws_body by (done || by apply breakless_nl || apply Hf).
  change (String c k') with (str1 c +:+ k') in *. apply breakless_app in Hbk as [_ Hbk].
  rewrite parse_loop_app. destruct (key_start c (before +:+ w) p Hf Hc Hcc) as (p1 & -> & K1).
  by apply key_body.
Qed.

Lemma equals_run before p0 p k : key_read p0 p k →
  ∃ p', parse_loop before "=" p = Ok p' ∧ state p' = preValue ∧ frame p p' ∧ value p' = value p ∧ lastValueWS p' = None.
Proof.
  intros (Hs & _). cbn [parse_loop]. unfold parse_byte. rewrite Hs.
  change (ContainsByte envNewline "=") with false. cbn. eexists; split; [reflexivity|]. by split_and!.
Qed.

Lemma line_step l before p p' : wf_start p → ContainsByte l nl = false → lone_cr (l +:+ str1 nl) = false →
  parse_loop before (l +:+ str1 nl) p = Ok p' →
  line p' = S (line p) ∧ wf_start p' ∧
  (out p' = out p ∨ fresh p' ∧ ∃ a, out p' = out p ++ [a] ∧ alast a = line p ∧
     ((afirst a < line p)%nat ∨
      fresh p ∧ ∃ k raw v, key_line l k raw ∧
        a = MkAssignment (TrimRight k envWhitespace) v (line p) (line p) (continuedComment p))).
Proof.
  intros Hwf Hn Hcr. destruct (line_eol l Hn Hcr) as (b & e & -> & Hb & He & Hl). rewrite parse_loop_app.
  destruct Hwf as [Hf|[Ho Hlt]].
  2: { destruct (value_body b before p Hb) as (q & -> & Hq & F); [by destruct (state p)|].
    pose proof F as (Eo & _ & _ & El & Ef & _). intros H.
    apply value_eol in H as (H1 & H2 & H3); [|done|done|lia]. rewrite H1, El. split_and!; [done..|].
    rewrite Eo in H3. destruct H3 as [[? _]|(? & v & Hp)]; [by left|]. right. split; [done|].
    exists (pending q v). rewrite (pending_frame p q) in * by done. split_and!; [done..|]. by left. }
  pose proof Hf as [Hs Hv].
  assert (Hbreak : ∀ q, parse_loop before b p = Ok q → in_comment (state q) = true ∨ state q = inKey ∨ state q = preKey →
    value q = "" → out q = out p → line q = line p →
    match parse_loop before b p with Ok p1 => parse_loop (before +:+ b) e p1 | Err e => Err e end = Ok p' →
    line p' = S (line p) ∧ wf_start p' ∧ out p' = out p).
  { intros q -> Hq Hvq Hoq Hlq H. destruct (break_eol e (before +:+ b) q He Hq Hvq) as (q' & E & Hf' & Ho' & Hl').
    rewrite E in H. injection H as <-. rewrite Ho', Hl', Hoq, Hlq. split_and!; [done|by left|done]. }
  destruct (line_kind_total b) as [Hw|w c r E Hw Hc|w c r E Hw Hc Hcc Hr|k raw HK].
  - intros H. destruct (Hbreak p) as (? & ? & ?); auto. apply ws_body; [done|by apply breakless_nl|done].
  - intros H. subst b. pose proof Hb as Hb'. apply breakless_app in Hb' as [Hbw Hbc].
    change (String c r) with (str1 c +:+ r) in *. apply breakless_app in Hbc as [_ Hbr].
    assert (Hc1 : parse_loop (before +:+ w) (str1 c) p = Ok (goto comment p)).
    { unfold str1. cbn [parse_loop]. unfold parse_byte. rewrite Hs, Hc.
      by destruct (Ascii.eqb_spec c nl) as [->|]. }
    destruct (comment_body "" r ((before +:+ w) +:+ str1 c) (goto comment p) Hbr) as (q & Eq & [Hq Hvq] & F); [done|].
    destruct F as (Eo & _ & _ & El & _).
    destruct (Hbreak q) as (? & ? & ?); auto.
    rewrite parse_loop_app, ws_body by (done || by apply breakless_nl). by rewrite parse_loop_app, Hc1.
  - intros H. subst b. destruct (key_line_run before w c r p) as (q & E & (K1 & _ & _ & K4 & K5 & K6 & _)); try done.
    destruct (Hbreak q) as (? & ? & ?); auto. by rewrite K4.
  - destruct HK as (w & c & k' & E & Hw & -> & Hc & Hcc & Hk). subst b. intros H.
    replace (w +:+ String c k' +:+ "=" +:+ raw) with ((w +:+ String c k') +:+ "=" +:+ raw) in * by (by rewrite str_app_assoc).
    pose proof Hb as Hb'. apply breakless_app in Hb' as [Hbk Hbr]. apply breakless_app in Hbr as [_ Hbr].
    destruct (key_line_run before w c k' p) as (q & E & K); try done.
    destruct (equals_run (before +:+ w +:+ String c k') p q (String c k') K) as (q1 & E1 & Hq1 & F1 & _).
    destruct (value_body raw ((before +:+ w +:+ String c k') +:+ "=") q1 Hbr) as (q2 & E2 & Hq2 & F2); [by rewrite Hq1|].
    rewrite parse_loop_app, E, parse_loop_app, E1, E2 in H.
    destruct K as (_ & Kk & [Kt _] & _ & Ko & Kl & Kf & Ks & _).
    pose proof (frame_trans _ _ _ F1 F2) as F. pose proof F as (Eo & Ek & Ew & El & Ef & _ & Es).
    apply value_eol in H as (H1 & H2 & H3); [|done|done|lia]. rewrite H1, El, Kl. split_and!; [done..|].
    rewrite Eo, Ko in H3. destruct H3 as [[? _]|(? & v & Hp)]; [by left|]. right. split; [done|].
    exists (pending q2 v). split_and!; [done|cbn; lia|]. right. split; [done|].
    unfold pending. rewrite Ek, Ew, Ef, El, Es, Kk, Kt, Kf, Kl, Ks.
    destruct Hl as [-> | ->].
    + exists (String c k'), raw, v. split; [|done]. exists w, c, k'. by rewrite ?str_app_assoc.
    + exists (String c k'), (raw +:+ str1 cr), v. split; [|done]. exists w, c, k'. by rewrite ?str_app_assoc.
Qed.

(** ** KUBELET_EXTRA_ARGS lines

    A value without quoting of its own, bare or between one pair of quotes, is read
    as it stands. *)

Lemma last_line_app before l : ContainsByte l nl = false → last_line (before +:+ l) = last_line before +:+ l.
Proof.
  revert before. induction l as [|c l IH]; intros before H; [by rewrite !str_app_nil_r|].
  cbn [ContainsByte] in H. apply orb_false_iff in H as [Hc H].
  replace (before +:+ String c l) with ((before +:+ str1 c) +:+ l) by (by rewrite str_app_assoc).
  rewrite IH by done. rewrite last_line_snoc, Hc. by rewrite str_app_assoc.
Qed.

(** The value read so far is [v], once the white space at its end is cut. *)
Definition value_is (v : string) (p : parser) : Prop :=
  state p = preValue ∧ value p = v ∨ state p = inValue ∧ cut_at (lastValueWS p) (value p) = v.

Lemma value_ws w before p : breakless w = true → all_bytes is_ws w = true → state p = preValue →
  parse_loop before w p = Ok p.
Proof.
  revert before. induction w as [|c w IH]; intros before Hb Hw Hs; [done|].
  unfold breakless in *. cbn [all_bytes] in *. apply andb_true_iff in Hb as [Hbc Hb]. apply andb_true_iff in Hw as [Hc Hw].
  cbn [parse_loop]. unfold parse_byte. rewrite Hs. rewrite no_break_newline, no_break_nl by done.
  change (ContainsByte envWhitespace c) with (is_ws c). rewrite Hc. cbn [negb].
  assert (Ascii.eqb c squote = false ∧ Ascii.eqb c dquote = false ∧ Ascii.eqb c backslash = false) as (-> & -> & ->).
  { split_and!; apply not_true_is_false; intros ->%Ascii.eqb_eq; done. }
  by apply IH.
Qed.

(** Bytes that quoting leaves alone. *)
Definition bare (s : string) : bool := negb (ContainsAny s quoting).

Lemma bare_cons c s : bare (String c s) = true →
  Ascii.eqb c squote = false ∧ Ascii.eqb c dquote = false ∧ Ascii.eqb c backslash = false ∧ bare s = true.
Proof.
  unfold bare, quoting, str1. cbn [ContainsAny ContainsByte]. intros H. bsimpl.
  rewrite (Ascii.eqb_sym c squote), (Ascii.eqb_sym c dquote), (Ascii.eqb_sym c backslash).
  split_and!; try done. by apply negb_true_iff.
Qed.

Lemma quoted_run q x before p : q = dquote ∨ q = squote → bare x = true → breakless x = true →
  state p = (if Ascii.eqb q dquote then doubleQuote else singleQuote) →
  ∃ p', parse_loop before x p = Ok p' ∧ state p' = state p ∧ frame p p' ∧ value p' = value p +:+ x.
Proof.
  intros Hq. revert before p. induction x as [|c x IH]; intros before p Hx Hb Hs.
  { exists p. rewrite str_app_nil_r. split_and!; auto with env. }
  apply bare_cons in Hx as (H1 & H2 & H3 & Hx). unfold breakless in *. cbn [all_bytes] in Hb. apply andb_true_iff in Hb as [Hbc Hb].
  cbn [parse_loop]. rewrite no_break_nl by done.
  assert (parse_byte c p = Ok (add_value c p)) as ->.
  { unfold parse_byte. destruct Hq as [-> | ->]; rewrite Hs; cbn; rewrite ?H1, ?H2, ?H3; done. }
  destruct (IH (before +:+ str1 c) (add_value c p) Hx Hb Hs) as (p' & E & Hp & F & Hv).
  exists p'. cbn in Hv. rewrite Hv, str_app_assoc. by split_and!.
Qed.

Lemma bare_run x before p : bare x = true → breakless x = true → state p = inValue → trimmed (lastValueWS p) (value p) →
  ∃ p', parse_loop before x p = Ok p' ∧ state p' = inValue ∧ frame p p' ∧ value p' = value p +:+ x ∧
    trimmed (lastValueWS p') (value p').
Proof.
  revert before p. induction x as [|c x IH]; intros before p Hx Hb Hs Ht.
  { exists p. rewrite str_app_nil_r. split_and!; auto with env. }
  apply bare_cons in Hx as (H1 & H2 & H3 & Hx). unfold breakless in *. cbn [all_bytes] in Hb. apply andb_true_iff in Hb as [Hbc Hb].
  cbn [parse_loop]. unfold parse_byte. rewrite Hs, no_break_nl, no_break_newline, H3 by done.
  set (p1 := add_value c _).
  destruct (IH (before +:+ str1 c) p1 Hx Hb Hs) as (p' & E & Hp & F & Hv & Ht'); [by apply trimmed_snoc|].
  exists p'. cbn in Hv. rewrite Hv, str_app_assoc in *. by split_and!.
Qed.

Lemma all_bytes_bare w : all_bytes is_ws w = true → bare w = true.
Proof.
  induction w as [|c w IH]; [done|]. cbn [all_bytes]. intros [Hc Hw]%andb_true_iff.
  unfold bare in *. cbn [ContainsAny]. rewrite negb_orb. apply andb_true_iff. split; [|by apply IH].
  apply negb_true_iff, not_true_is_false. intros Hq. unfold quoting, str1 in Hq. cbn [ContainsByte] in Hq.
  repeat (apply orb_true_iff in Hq as [<-%Ascii.eqb_eq|Hq]; [done|]). done.
Qed.

Lemma bare_app s t : bare (s +:+ t) = bare s && bare t.
Proof.
  unfold bare. rewrite <- negb_orb. f_equal. induction s as [|c s IH]; [done|].
  rewrite app_cons. cbn [ContainsAny]. by rewrite IH, orb_assoc.
Qed.

Lemma Trim_spec s : ∃ w1 w2, s = w1 +:+ Trim s envWhitespace +:+ w2 ∧
  all_bytes is_ws w1 = true ∧ all_bytes is_ws w2 = true ∧
  TrimRight (Trim s envWhitespace) envWhitespace = Trim s envWhitespace ∧
  match Trim s envWhitespace with String c _ => is_ws c = false | EmptyString => True end.
Proof.
  unfold Trim. destruct (TrimLeft_spec s envWhitespace) as (w1 & E & Hw1 & Hh).
  destruct (TrimRight_spec (TrimLeft s envWhitespace) envWhitespace) as (w2 & E2 & Hw2).
  exists w1, w2. rewrite <- E2, <- E. split_and!; try done.
  - rewrite E2 at 2. by rewrite TrimRight_app_cut.
  - destruct (TrimLeft s envWhitespace) as [|c t]; [done|]. cbn [TrimRight]. rewrite Hh. done.
Qed.

Lemma unquote_cases t val : unquoteExtraArgs t = Ok val →
  bare val = true ∧ (t = val ∨ ∃ q, (q = dquote ∨ q = squote) ∧ t = String q (val +:+ str1 q)).
Proof.
  unfold unquoteExtraArgs. destruct (ContainsAny (unquote_outer t) quoting) eqn:E; [done|]. intros [= <-].
  split; [unfold bare; by rewrite E|]. destruct t as [|q r]; [by left|]. cbn [unquote_outer].
  destruct (Ascii.eqb q dquote || Ascii.eqb q squote) eqn:Hq; [|by left].
  destruct (CutSuffix r (str1 q)) as [x|] eqn:Hx; [|by left]. right. exists q. cbn.
  apply CutSuffix_Some in Hx as ->. split; [|done].
  apply orb_true_iff in Hq as [->%Ascii.eqb_eq| ->%Ascii.eqb_eq]; auto.
Qed.

(** The value of the line: what [unquoteExtraArgs] takes it for. *)
Lemma value_read raw val before p : breakless raw = true → unquoteExtraArgs (Trim raw envWhitespace) = Ok val →
  state p = preValue → value p = "" → lastValueWS p = None →
  ∃ p', parse_loop before raw p = Ok p' ∧ value_is val p' ∧ frame p p'.
Proof.
  intros Hb HU Hs Hv Hw. destruct (Trim_spec raw) as (w1 & w2 & E & Hw1 & Hw2 & Ht & Hh).
  apply unquote_cases in HU as [Hbare Hcase]. rewrite E in Hb |- *. clear E.
  apply breakless_app in Hb as [Hb1 Hb]. apply breakless_app in Hb as [Hbt Hb2].
  rewrite parse_loop_app, value_ws by done.
  destruct Hcase as [Et|(q & Hq & Et)]; rewrite Et in *; clear Et.
  - destruct val as [|c val].
    { rewrite app_nil_l, value_ws by done. exists p. split_and!; auto with env. by left. }
    rewrite app_cons. change (String c (val +:+ w2)) with (str1 c +:+ (val +:+ w2)). rewrite parse_loop_app.
    apply bare_cons in Hbare as (H1 & H2 & H3 & Hbare). unfold breakless in Hbt. cbn [all_bytes] in Hbt.
    apply andb_true_iff in Hbt as [Hbc Hbt].
    assert (parse_loop (before +:+ w1) (str1 c) p = Ok (add_value c (goto inValue p))) as ->.
    { unfold str1. cbn [parse_loop]. unfold parse_byte. rewrite Hs, no_break_newline, no_break_nl, H1, H2, H3 by done.
      change (ContainsByte envWhitespace c) with (is_ws c). by rewrite Hh. }
    destruct (bare_run (val +:+ w2) ((before +:+ w1) +:+ str1 c) (add_value c (goto inValue p))) as (p' & E & Hp & F & Hv' & Ht').
    + rewrite bare_app, Hbare. by apply all_bytes_bare.
    + by apply breakless_app.
    + done.
    + cbn. rewrite Hv, Hw. split; [|done]. symmetry. by apply (TrimRight_snoc_keep "").
    + exists p'. split_and!; [done| |done]. right. split; [done|]. destruct Ht' as [Hc _]. rewrite Hc, Hv'.
      cbn [value add_value set_value goto]. rewrite Hv. change (("" +:+ str1 c) +:+ val +:+ w2) with (String c val +:+ w2).
      by rewrite TrimRight_app_cut.
  - change (String q (val +:+ str1 q)) with (str1 q +:+ (val +:+ str1 q)) in *. rewrite !str_app_assoc.
    apply breakless_app in Hbt as [Hbq Hbt]. apply breakless_app in Hbt as [Hbv _].
    set (p1 := goto (if Ascii.eqb q dquote then doubleQuote else singleQuote) p).
    assert (∀ bf, parse_loop bf (str1 q) p = Ok p1) as E1.
    { intros bf. unfold str1. cbn [parse_loop]. unfold parse_byte. rewrite Hs. by destruct Hq as [-> | ->]. }
    rewrite parse_loop_app, E1.
    destruct (quoted_run q val ((before +:+ w1) +:+ str1 q) p1 Hq Hbare Hbv eq_refl) as (p2 & E2 & Hs2 & F2 & Hv2).
    rewrite parse_loop_app, E2, parse_loop_app.
    assert (∀ bf, parse_loop bf (str1 q) p2 = Ok (goto preValue p2)) as E3.
    { intros bf. unfold str1. cbn [parse_loop]. unfold parse_byte. rewrite Hs2. by destruct Hq as [-> | ->]. }
    rewrite E3, value_ws by done. exists (goto preValue p2). split_and!; [done| |done].
    left. split; [done|]. cbn. rewrite Hv2. cbn. by rewrite Hv.
Qed.

Lemma value_is_break v c before p p' : value_is v p → ContainsByte envNewline c = true →
  systemdValidUTF8 (cut_at (lastKeyWS p) (key p)) = true →
  (systemdValidUTF8 v = true → ∃ q, parse_byte c p = Ok q ∧ fresh q ∧ out q = out p ++ [pending p v] ∧ line q = line p) ∧
  (parse_loop before (str1 c) p = Ok p' → systemdValidUTF8 v = true).
Proof.
  intros Hv Hc Hk. unfold str1. cbn [parse_loop]. unfold parse_byte. rewrite Hc.
  destruct Hv as [[Hs Hv]|[Hs Hv]]; rewrite Hs; unfold push; cbn -[cut_at]; rewrite Hk, Hv; cbn -[cut_at];
    (destruct (systemdValidUTF8 v); [|done]); (split; [|done]); intros _;
    (eexists; split; [reflexivity|]); by split_and!.
Qed.

Lemma value_is_eol v e before p : value_is v p → eol e → systemdValidUTF8 (cut_at (lastKeyWS p) (key p)) = true →
  (systemdValidUTF8 v = true → ∃ p' l, parse_loop before e p = Ok p' ∧ fresh p' ∧ out p' = out p ++ [pending p v] ∧
     line p' = S (line p) ∧ e = l +:+ str1 nl ∧ continuedComment p' = commentEndsInBackslash (before +:+ l)) ∧
  (∀ p', parse_loop before e p = Ok p' → systemdValidUTF8 v = true).
Proof.
  intros Hv He Hk. destruct He as [-> | ->]; split.
  - intros Hval. destruct (value_is_break v nl before p p Hv eq_refl Hk) as [H _].
    destruct (H Hval) as (q & E & [Hs Hq] & Ho & Hl). unfold str1. cbn [parse_loop]. rewrite E, eqb_refl_ascii.
    eexists _, "". split; [reflexivity|]. cbn. rewrite str_app_nil_r, Hs, Hl. rewrite bool_decide_true by done. by split_and!.
  - intros p'. apply (value_is_break v nl before p p' Hv eq_refl Hk).
  - intros Hval. destruct (value_is_break v cr before p p Hv eq_refl Hk) as [H _].
    destruct (H Hval) as (q & E & Hf & Ho & Hl). pose proof Hf as [Hs Hq]. cbn [parse_loop]. rewrite E.
    change (Ascii.eqb cr nl) with false. unfold str1 at 2. cbn [parse_loop]. unfold parse_byte. rewrite Hs.
    change (ContainsByte envComments nl) with false. change (ContainsByte envWhitespace nl) with true. cbn [negb].
    rewrite eqb_refl_ascii, Hs. eexists _, (str1 cr). split; [reflexivity|]. cbn -[str1].
    rewrite Hl. rewrite bool_decide_true by done. by split_and!.
  - intros p' H. change (String cr (str1 nl)) with (str1 cr +:+ str1 nl) in H. rewrite parse_loop_app in H.
    destruct (parse_loop before (str1 cr) p) as [q|] eqn:E; [|done].
    by apply (value_is_break v cr before p q Hv eq_refl Hk).
Qed.

Lemma lone_cr_app s t : lone_cr (s +:+ t) = false → lone_cr t = false.
Proof. induction s as [|c s IH]; [done|]. rewrite app_cons. cbn [lone_cr]. intros H. bsimpl. by apply IH. Qed.

Lemma lone_cr_prefix s d t : ContainsByte s nl = false → Ascii.eqb d nl = false → lone_cr (s +:+ String d t) = false →
  breakless s = true.
Proof.
  intros Hn Hd. induction s as [|c s IH]; [done|]. rewrite app_cons. cbn [lone_cr ContainsByte] in *.
  apply orb_false_iff in Hn as [Hc Hn]. intros [H1 H2]%orb_false_iff. unfold breakless in *. cbn [all_bytes].
  rewrite IH by done. rewrite andb_true_r. unfold no_break, envNewline, str1. cbn [ContainsByte].
  rewrite (Ascii.eqb_sym nl), (Ascii.eqb_sym cr), Hc. cbn [orb]. destruct (Ascii.eqb c cr); [|done].
  cbn [andb] in H1. destruct s as [|c' s]; [rewrite app_nil_l in H1; by rewrite Hd in H1|].
  rewrite app_cons in H1. cbn [ContainsByte] in Hn. apply orb_false_iff in Hn as [Hn _]. by rewrite Hn in H1.
Qed.

Lemma TrimLeft_all w s cs : all_bytes (ContainsByte cs) w = true → TrimLeft (w +:+ s) cs = TrimLeft s cs.
Proof.
  induction w as [|c w IH]; [done|]. cbn [all_bytes]. intros [Hc Hw]%andb_true_iff.
  rewrite app_cons. cbn [TrimLeft]. rewrite Hc. by apply IH.
Qed.

(** A line whose first byte is no comment mark is no comment. *)
Lemma no_comment before w c r : last_line before = "" → ContainsByte (w +:+ String c r) nl = false →
  all_bytes is_ws w = true → is_ws c = false → ContainsByte envComments c = false →
  commentEndsInBackslash (before +:+ w +:+ String c r) = false.
Proof.
  intros Hb Hn Hw Hc Hcc. unfold commentEndsInBackslash. rewrite last_line_app, Hb, app_nil_l by done.
  unfold TrimSuffix. destruct (CutSuffix (w +:+ String c r) (str1 cr)) as [u|] eqn:E; cbn [default from_option id].
  2: { rewrite TrimLeft_all by done. cbn [TrimLeft]. unfold is_ws in Hc. by rewrite Hc, Hcc. }
  apply CutSuffix_Some in E.
  assert (TrimLeft (u +:+ str1 cr) envWhitespace = String c r) as Ht.
  { rewrite <- E, TrimLeft_all by done. cbn [TrimLeft]. unfold is_ws in Hc. by rewrite Hc. }
  destruct (TrimLeft_spec u envWhitespace) as (w' & Eu & Hw' & Hh).
  rewrite Eu, str_app_assoc, TrimLeft_all in Ht by done.
  destruct (TrimLeft u envWhitespace) as [|d u']; [done|]. rewrite app_cons in Ht. cbn [TrimLeft] in Ht.
  rewrite Hh in Ht. injection Ht as -> _. by rewrite Hcc.
Qed.

(** A KUBELET_EXTRA_ARGS line that [unquoteExtraArgs] accepts, read as a line. *)
Lemma extra_line_read l k raw val before p :
  key_line l k raw → TrimRight k envWhitespace = extraArgsKey → unquoteExtraArgs (Trim raw envWhitespace) = Ok val →
  fresh p → last_line before = "" → ContainsByte l nl = false → lone_cr (l +:+ str1 nl) = false →
  (systemdValidUTF8 val = true → ∃ p', parse_loop before (l +:+ str1 nl) p = Ok p' ∧ fresh p' ∧ line p' = S (line p) ∧
     continuedComment p' = false ∧
     out p' = out p ++ [MkAssignment extraArgsKey val (line p) (line p) (continuedComment p)]) ∧
  (∀ p', parse_loop before (l +:+ str1 nl) p = Ok p' → systemdValidUTF8 val = true).
Proof.
  intros (w & c & k' & -> & Hw & Hk & Hc & Hcc & Hk') HT HU Hf Hb Hn Hcr. subst k.
  assert (El : (w +:+ String c k' +:+ "=" +:+ raw) +:+ str1 nl = (w +:+ String c k') +:+ "=" +:+ (raw +:+ str1 nl))
    by (by rewrite !str_app_assoc).
  rewrite El in *. clear El.
  assert (Hn' := Hn). rewrite !ContainsByte_app in Hn'. bsimpl.
  destruct (line_eol raw) as (rb & e & Er & Hbr & He & Hraw); [done| |].
  { by apply lone_cr_app in Hcr; apply (lone_cr_app "=") in Hcr. }
  assert (HU' : unquoteExtraArgs (Trim rb envWhitespace) = Ok val).
  { destruct Hraw as [-> | ->]; [done|]. revert HU. unfold Trim.
    destruct (TrimLeft_spec rb envWhitespace) as (w' & E & Hw' & Hh). rewrite E at 1.
    rewrite str_app_assoc, TrimLeft_all by done. destruct (TrimLeft rb envWhitespace) as [|d t] eqn:Et; [done|].
    rewrite app_cons. cbn [TrimLeft]. rewrite Hh. rewrite <- app_cons. by rewrite TrimRight_app_cut. }
  rewrite Er.
  assert (Hbk : breakless (w +:+ String c k') = true).
  { apply (lone_cr_prefix _ "=" (raw +:+ str1 nl)); [|done|done]. rewrite ContainsByte_app. by apply orb_false_iff. }
  destruct (key_line_run before w c k' p) as (q & E & K); try done.
  destruct (equals_run (before +:+ w +:+ String c k') p q (String c k') K) as (q1 & E1 & Hq1 & F1 & Hv1 & Hw1).
  destruct K as (_ & Kk & [Kt _] & Kv & Ko & Kl & Kf & Ks & _).
  destruct (value_read rb val ((before +:+ w +:+ String c k') +:+ "=") q1) as (q2 & E2 & Hq2 & F2); try done.
  { rewrite Hv1, Kv. apply Hf. }
  pose proof (frame_trans _ _ _ F1 F2) as (Eo & Ek & Ew & El & Ef & _ & Es).
  assert (Hkey : cut_at (lastKeyWS q2) (key q2) = extraArgsKey) by (by rewrite Ek, Ew, Kk, Kt).
  destruct (value_is_eol val e (((before +:+ w +:+ String c k') +:+ "=") +:+ rb) q2 Hq2 He) as [V1 V2]; [by rewrite Hkey|].
  rewrite parse_loop_app, E, parse_loop_app, E1, parse_loop_app, E2. split; [|done].
  intros Hval. destruct (V1 Hval) as (p' & l' & E3 & Hf' & Ho' & Hl' & Ee & Hc').
  exists p'. split_and!; [done|done|by rewrite Hl', El, Kl| |].
  - rewrite Hc'. assert (raw = rb +:+ l') as ->.
    { rewrite Ee in Er. rewrite <- str_app_assoc in Er. by apply str_app_inv_tail in Er. }
    rewrite !str_app_assoc. rewrite app_cons. by apply no_comment.
  - rewrite Ho'. unfold pending. by rewrite Hkey, Ef, El, Es, Kf, Kl, Ks, Eo, Ko.
Qed.
