(* ===== verification/EnvFileMerge.v ===== *)
(** * Rewriting the kubelet environment file

    What [mergeExtraArgs] of [EnvFile] does to what systemd reads from the file:
    the operator's arguments stay, every other variable keeps its value, the two
    credential-provider flags come last, and a second run changes nothing. The
    proofs read the file line by line ([EnvFileParse]). *)

From S2P Require Import Prelude.
From S2P Require Import GoStrings.
From S2P Require Import GoStd.
From S2P Require Import Utf8.
From S2P Require Import EnvFile.
From S2P Require Import EnvFileParse.
From S2P Require Import InstallerConfig.

(** ** Files as lists of lines *)

Fixpoint unlines (ls : list string) : string :=
  match ls with [] => "" | l :: ls => l +:+ str1 nl +:+ unlines ls end.

Lemma unlines_app ls ls' : unlines (ls ++ ls') = unlines ls +:+ unlines ls'.
Proof. induction ls as [|l ls IH]; [done|]. cbn [app unlines]. by rewrite IH, !str_app_assoc. Qed.

Lemma unlines_Join ls : ls ≠ [] → Join ls (str1 nl) +:+ str1 nl = unlines ls.
Proof.
  intros Hne. induction ls as [|l ls IH]; [done|]. clear Hne. cbn [unlines].
  destruct ls as [|l' ls]; [cbn [Join unlines]; by rewrite str_app_nil_r|].
  rewrite <- IH by done. change (Join (l :: l' :: ls) (str1 nl)) with (l +:+ str1 nl +:+ Join (l' :: ls) (str1 nl)).
  by rewrite !str_app_assoc.
Qed.

Definition line_ok (l : string) : Prop := ContainsByte l nl = false.

Lemma last_line_unlines ls : Forall line_ok ls → last_line (unlines ls) = "".
Proof.
  induction ls as [|l ls IH] using rev_ind; [done|]. intros H. rewrite unlines_app. cbn [unlines].
  rewrite str_app_nil_r, <- str_app_assoc. by rewrite last_line_snoc.
Qed.

Lemma lone_cr_app_l s t : lone_cr (s +:+ str1 nl +:+ t) = false → lone_cr (s +:+ str1 nl) = false.
Proof.
  induction s as [|c s IH]; [done|]. rewrite !app_cons. cbn [lone_cr]. intros [H1 H2]%orb_false_iff.
  apply orb_false_iff. split; [|by apply IH]. by destruct s.
Qed.

Lemma lone_cr_join s t : lone_cr (s +:+ str1 nl) = false → lone_cr t = false → lone_cr (s +:+ str1 nl +:+ t) = false.
Proof.
  intros H Ht. induction s as [|c s IH]; [done|]. rewrite !app_cons in *. cbn [lone_cr] in *.
  apply orb_false_iff in H as [H1 H2]. rewrite IH by done. rewrite orb_false_r. by destruct s.
Qed.

Lemma lone_cr_unlines ls : lone_cr (unlines ls) = false ↔ Forall (λ l, lone_cr (l +:+ str1 nl) = false) ls.
Proof.
  induction ls as [|l ls IH]; cbn [unlines]; [split; [by constructor|done]|].
  rewrite Forall_cons, <- IH. split.
  - intros H. split; [by eapply lone_cr_app_l|]. rewrite <- str_app_assoc in H. by eapply lone_cr_app.
  - intros [H1 H2]. by apply lone_cr_join.
Qed.

(** ** The lines of a file, in order *)

Definition good_lines (ls : list string) : Prop :=
  Forall (λ l, line_ok l ∧ lone_cr (l +:+ str1 nl) = false) ls.

Lemma good_lines_ok ls : good_lines ls → Forall line_ok ls.
Proof. intros H. eapply Forall_impl; [exact H|]. by intros l []. Qed.
#[export] Hint Resolve good_lines_ok last_line_unlines : env.

(** Where an assignment that starts and ends on one line was read: the line, the
    parser at its start, with the assignments [new1] read before, and the lines
    before and after. *)
Definition read_at (before : string) (ls : list string) (p : parser) (new1 : list envAssignment) (a : envAssignment) : Prop :=
  ∃ pre l post q k raw v, ls = pre ++ l :: post ∧ parse_loop before (unlines pre) p = Ok q ∧ fresh q ∧
    line q = (line p + length pre)%nat ∧ out q = out p ++ new1 ∧ key_line l k raw ∧
    a = MkAssignment (TrimRight k envWhitespace) v (line q) (line q) (continuedComment q).

Lemma lines_run ls : ∀ before p p', wf_start p → good_lines ls → parse_loop before (unlines ls) p = Ok p' →
  wf_start p' ∧ line p' = (line p + length ls)%nat ∧
  ∃ new, out p' = out p ++ new ∧
    ∀ new1 a new2, new = new1 ++ a :: new2 → afirst a = alast a → read_at before ls p new1 a.
Proof.
  induction ls as [|l ls IH]; intros before p p' Hwf Hok.
  { intros [= <-]. split_and!; [done|cbn; lia|]. exists []. rewrite app_nil_r. split; [done|]. by intros []. }
  apply Forall_cons in Hok as [[Hn Hcr] Hok]. cbn [unlines]. rewrite <- str_app_assoc, parse_loop_app.
  destruct (parse_loop before (l +:+ str1 nl) p) as [p1|] eqn:E1; [|done]. intros H.
  destruct (line_step l before p p1 Hwf Hn Hcr E1) as (Hl1 & Hwf1 & Ho1).
  destruct (IH _ _ _ Hwf1 Hok H) as (Hwf' & Hl' & new & Ho' & Hnew). split_and!; [done|cbn; lia|].
  assert (Hlater : ∀ o new1 a new2, out p1 = out p ++ o → new = new1 ++ a :: new2 → afirst a = alast a →
    read_at before (l :: ls) p (o ++ new1) a).
  { intros o new1 a new2 Eo En Hfl.
    destruct (Hnew new1 a new2 En Hfl) as (pre & m & post & q & k & raw & v & -> & Eq & Hf & Hlq & Hoq & HK & Ea).
    exists (l :: pre), m, post, q, k, raw, v. split_and!; try done; [|cbn; lia|by rewrite Hoq, Eo, app_assoc].
    cbn [unlines]. by rewrite <- str_app_assoc, parse_loop_app, E1. }
  destruct Ho1 as [Ho1|(_ & a & Ho1 & Hla & Ha)].
  - exists new. rewrite Ho', Ho1. split; [done|]. intros new1 b new2. apply (Hlater []). by rewrite app_nil_r.
  - exists (a :: new). rewrite Ho', Ho1, <- app_assoc. split; [done|].
    intros [|b new1] c new2 [= <- En] Hfl; [|by apply (Hlater [a] new1 c new2)].
    destruct Ha as [|(Hf & k & raw & v & HK & ->)]; [lia|].
    exists [], l, ls, p, k, raw, v. rewrite app_nil_r. split_and!; try done.
Qed.

Lemma parse_end_wf p asgs : wf_start p → parse_end p = Ok asgs →
  asgs = out p ∧ fresh p ∨ ∃ b, asgs = out p ++ [b] ∧ (afirst b < alast b)%nat.
Proof.
  intros [Hf|[Ho Hlt]]; unfold parse_end.
  - pose proof Hf as [-> _]. intros [= <-]. by left.
  - destruct (state p) eqn:Es; try done; intros H; right;
      (destruct (push _) as [q|] eqn:E in H; [|done]); injection H as <-;
      apply push_Ok in E as (-> & _);
      rewrite ?bool_decide_true, ?bool_decide_false by done; by eexists.
Qed.

Definition start_parser (n : nat) (cc : bool) : parser := MkParser [] "" "" None None n 0 cc false preKey.

Lemma start_fresh n cc : wf_start (start_parser n cc). Proof. by left. Qed.

(** Reading some lines first, when a line of its own starts after them. *)
Lemma parse_from_app n cc pre q rest : parse_loop "" (unlines pre) (start_parser n cc) = Ok q → fresh q →
  Forall line_ok pre →
  parse_from n cc (unlines pre +:+ rest) = res_map (app (out q)) (parse_from (line q) (continuedComment q) rest).
Proof.
  intros E Hf Hok. unfold parse_from at 1. fold (start_parser n cc). rewrite parse_loop_app, E.
  apply parse_resume; [done|]. rewrite app_nil_l. by apply last_line_unlines.
Qed.

(** A KUBELET_EXTRA_ARGS line and what follows it. *)
Lemma extra_read n cc l k raw val rest : key_line l k raw → TrimRight k envWhitespace = extraArgsKey →
  unquoteExtraArgs (Trim raw envWhitespace) = Ok val → line_ok l → lone_cr (l +:+ str1 nl) = false →
  systemdValidUTF8 val = true →
  parse_from n cc (l +:+ str1 nl +:+ rest) =
  res_map (cons (MkAssignment extraArgsKey val n n cc)) (parse_from (S n) false rest).
Proof.
  intros HK HT HU Hn Hcr Hv. rewrite <- str_app_assoc. unfold parse_from at 1. fold (start_parser n cc). rewrite parse_loop_app.
  destruct (extra_line_read l k raw val "" (start_parser n cc)) as [H _]; try done.
  destruct (H Hv) as (p' & -> & Hf & Hl & Hcc & Ho). cbn in Hl, Ho.
  rewrite parse_resume; [by rewrite Ho, Hl, Hcc|done|].
  rewrite app_nil_l, last_line_snoc. done.
Qed.

Lemma extra_at n cc ls o1 a tail : parse_from n cc (unlines ls) = Ok (o1 ++ a :: tail) → good_lines ls →
  akey a = extraArgsKey → afirst a = alast a →
  ∃ pre l post k raw, ls = pre ++ l :: post ∧ alast a = (n + length pre)%nat ∧
    key_line l k raw ∧ TrimRight k envWhitespace = extraArgsKey ∧
    (∀ rest, parse_from n cc (unlines pre +:+ rest) =
       res_map (app o1) (parse_from (n + length pre) (afterContinuedComment a) rest)) ∧
    ∀ val, unquoteExtraArgs (Trim raw envWhitespace) = Ok val → systemdValidUTF8 val = true ∧ avalue a = val ∧
      parse_from (S (n + length pre)) false (unlines post) = Ok tail.
Proof.
  intros HP Hok Hkey Hfl. pose proof HP as HP'. unfold parse_from in HP. fold (start_parser n cc) in HP.
  destruct (parse_loop "" (unlines ls) (start_parser n cc)) as [p'|] eqn:E; [|done]. cbn in HP.
  destruct (lines_run ls "" _ p' (start_fresh n cc) Hok E) as (Hwf & _ & new & Ho & Hnew). cbn in Ho.
  assert (∃ new2, new = o1 ++ a :: new2) as [new2 Hin].
  { destruct (parse_end_wf p' _ Hwf HP) as [[Ea _]|(b & Ea & Hb)]; [rewrite Ho in Ea; eauto|].
    rewrite Ho in Ea. destruct tail as [|t tail _] using rev_ind.
    - apply app_inj_tail in Ea as [_ ->]. lia.
    - rewrite app_comm_cons, app_assoc in Ea. apply app_inj_tail in Ea as [<- _]. eauto. }
  destruct (Hnew o1 a new2 Hin Hfl) as (pre & l & post & q & k & raw & v & -> & Eq & Hf & Hlq & Hoq & HK & Ea). cbn in Hlq, Hoq.
  subst a. cbn in Hkey, Hfl |- *. apply Forall_app in Hok as [Hpre Hpost]. apply Forall_cons in Hpost as [[Hn Hcr] Hpost].
  exists pre, l, post, k, raw. rewrite <- Hlq, <- Hoq in *. split_and!; try done.
  { intros rest. apply parse_from_app; auto with env. }
  intros val HU.
  destruct (extra_line_read l k raw val (unlines pre) q) as [Hread Hvalid]; try done; [by eauto with env|].
  rewrite unlines_app, parse_loop_app, Eq in E. cbn [unlines] in E. rewrite app_nil_l, <- str_app_assoc, parse_loop_app in E.
  assert (systemdValidUTF8 val = true) as Hv.
  { destruct (parse_loop (unlines pre) (l +:+ str1 nl) q) eqn:Eql; [|done]. by eapply Hvalid. }
  split; [done|]. rewrite unlines_app in HP'. cbn [unlines] in HP'.
  rewrite (parse_from_app n cc pre q) in HP' by eauto with env.
  rewrite (extra_read _ _ l k raw val) in HP' by done.
  destruct (parse_from (S (line q)) false (unlines post)) as [t|]; [|done]. cbn in HP'.
  injection HP' as HP'. apply app_inv_head in HP'. injection HP' as _ Ev Et. by rewrite Ev, Et.
Qed.

(** ** Arguments *)

Definition no_ws (s : string) : bool := all_bytes (λ c, negb (is_ws c)) s.

(** An argument that can stand unquoted in a quoted, space-joined list. *)
Definition word (a : string) : Prop := a ≠ "" ∧ no_ws a = true ∧ bare a = true ∧ systemdValidUTF8 a = true ∧
  ContainsByte a nul = false.

Lemma systemdValid_app s t : systemdValidUTF8 s = true → systemdValidUTF8 t = true → systemdValidUTF8 (s +:+ t) = true.
Proof.
  unfold systemdValidUTF8. intros Hs Ht. destruct (runes s) as [r1|] eqn:E1; [|done].
  destruct (runes t) as [r2|] eqn:E2; [|done]. rewrite (runes_app s t r1 E1), E2. cbn.
  rewrite existsb_app, negb_orb. by rewrite Hs, Ht.
Qed.

Lemma systemdValid_split s c t : byte_val c < 0x80 → systemdValidUTF8 (s +:+ String c t) = true →
  systemdValidUTF8 s = true ∧ systemdValidUTF8 t = true.
Proof.
  unfold systemdValidUTF8. intros Hc H. destruct (runes (s +:+ String c t)) as [rs|] eqn:E; [|done].
  destruct (runes_split s c t rs Hc E) as (r1 & r2 & -> & -> & ->).
  rewrite existsb_app in H. cbn [existsb] in H. rewrite !negb_orb, !andb_true_iff in H. by destruct H as (? & _ & ?).
Qed.

Lemma ws_ascii c : is_ws c = true → byte_val c < 0x80.
Proof.
  unfold is_ws, envWhitespace, str1. cbn [ContainsByte]. intros H.
  repeat (apply orb_true_iff in H as [<-%Ascii.eqb_eq|H]; [done|]). done.
Qed.

Lemma no_ws_snoc s c : no_ws (s +:+ str1 c) = no_ws s && negb (is_ws c).
Proof. unfold no_ws. rewrite all_bytes_app. unfold str1. cbn [all_bytes]. by rewrite andb_true_r. Qed.

Lemma str_snoc_ne s c : s +:+ str1 c ≠ "".
Proof. by destruct s. Qed.

Lemma split_args_words s : ∀ cur, no_ws cur = true → bare (cur +:+ s) = true → systemdValidUTF8 (cur +:+ s) = true →
  ContainsByte (cur +:+ s) nul = false → Forall word (split_args cur s).
Proof.
  induction s as [|c s IH]; intros cur Hc Hb Hv Hn; cbn [split_args].
  { rewrite str_app_nil_r in *. destruct cur; [done|]. repeat constructor; done. }
  change (ContainsByte envWhitespace c) with (is_ws c). destruct (is_ws c) eqn:Hw.
  - destruct (systemdValid_split cur c s (ws_ascii c Hw) Hv) as [Hv1 Hv2].
    rewrite bare_app in Hb. apply andb_true_iff in Hb as [Hb1 Hb2].
    change (String c s) with (str1 c +:+ s) in Hb2. rewrite bare_app in Hb2. apply andb_true_iff in Hb2 as [_ Hb2].
    rewrite ContainsByte_app in Hn. cbn [ContainsByte] in Hn. bsimpl.
    assert (Forall word (split_args "" s)) by by apply IH.
    destruct cur; [done|]. by constructor.
  - apply IH; [by rewrite no_ws_snoc, Hc, Hw|..]; by rewrite str_app_assoc.
Qed.

Lemma splitArgs_words val : bare val = true → systemdValidUTF8 val = true → ContainsByte val nul = false → Forall word (splitArgs val).
Proof. intros. by apply split_args_words. Qed.

Lemma split_args_word a : ∀ cur rest, no_ws a = true → split_args cur (a +:+ rest) = split_args (cur +:+ a) rest.
Proof.
  induction a as [|c a IH]; intros cur rest Ha; [by rewrite str_app_nil_r|].
  unfold no_ws in *. cbn [all_bytes] in Ha. apply andb_true_iff in Ha as [Hc Ha]. apply negb_true_iff in Hc.
  rewrite app_cons. cbn [split_args]. unfold is_ws in Hc. rewrite Hc, IH by done. by rewrite str_app_assoc.
Qed.

(** Splitting a space-joined list of words gives the words back. *)
Lemma splitArgs_Join ws : Forall word ws → splitArgs (Join ws " ") = ws.
Proof.
  unfold splitArgs. induction 1 as [|a ws (Hne & Hw & _) Hall IH]; [done|].
  destruct ws as [|b ws].
  - cbn [Join]. rewrite <- (str_app_nil_r a) at 1. rewrite split_args_word, app_nil_l by done. cbn [split_args]. by destruct a.
  - change (Join (a :: b :: ws) " ") with (a +:+ String " " (Join (b :: ws) " ")).
    rewrite split_args_word, app_nil_l by done. cbn [split_args].
    change (ContainsByte envWhitespace " ") with true. cbv iota. rewrite IH. by destruct a.
Qed.

Lemma Join_words ws : Forall word ws → bare (Join ws " ") = true ∧ systemdValidUTF8 (Join ws " ") = true ∧
  all_bytes (λ c, negb (is_ws c) || Ascii.eqb c " ") (Join ws " ") = true.
Proof.
  induction 1 as [|a ws (Hne & Hw & Hb & Hv & _) Hall (IH1 & IH2 & IH3)]; [done|].
  assert (Ha : all_bytes (λ c, negb (is_ws c) || Ascii.eqb c " ") a = true).
  { eapply all_bytes_impl; [|exact Hw]. intros c Hc. by rewrite Hc. }
  destruct ws as [|b ws]; [done|]. change (Join (a :: b :: ws) " ") with (a +:+ " " +:+ Join (b :: ws) " ").
  rewrite !bare_app, !all_bytes_app, IH1, IH3, Hb, Ha. split_and!; try done.
  apply systemdValid_app; [done|]. by apply systemdValid_app.
Qed.

Lemma strip_flags_sub skip args : ∀ a, a ∈ strip_flags skip args → a ∈ args.
Proof.
  revert skip. induction args as [|b args IH]; intros skip a; [by destruct skip|]. cbn [strip_flags].
  repeat case_step; intros Ha; try (right; by eapply IH).
  apply elem_of_cons in Ha as [->|Ha]; [by left|]. right. by eapply IH.
Qed.

Lemma strip_words args : Forall word args → Forall word (stripCredentialProviderFlags args).
Proof. rewrite !Forall_forall. intros H a Ha. by apply H, (strip_flags_sub false). Qed.

(** The flags are gone, whatever they were followed by. *)
Lemma strip_flags_idem skip args : ∀ ours, 
  stripCredentialProviderFlags (strip_flags skip args ++ ours) = strip_flags skip args ++ stripCredentialProviderFlags ours.
Proof.
  revert skip. induction args as [|b args IH]; intros skip ours; [by destruct skip|]. cbn [strip_flags].
  destruct skip; [by apply IH|]. repeat case_step; try by apply IH.
  cbn [app]. unfold stripCredentialProviderFlags in *. cbn [strip_flags].
  repeat match goal with E : _ = false |- _ => rewrite E; clear E end. f_equal. by apply IH.
Qed.

(** ** The lines of a file and its end *)

Lemma Join_Split s c : Join (Split s c) (str1 c) = s.
Proof.
  induction s as [|a s IH]; [done|]. cbn [Split]. pose proof (Split_ne s c) as Hne.
  destruct (Ascii.eqb_spec a c) as [->|].
  - destruct (Split s c) as [|w ws]; [done|]. change (Join ("" :: w :: ws) (str1 c)) with (str1 c +:+ Join (w :: ws) (str1 c)).
    by rewrite IH.
  - destruct (Split s c) as [|w [|w' ws]]; [done|..].
    + cbn [Join] in *. by rewrite IH.
    + change (Join (String a w :: w' :: ws) (str1 c)) with (String a (Join (w :: w' :: ws) (str1 c))). by rewrite IH.
Qed.

Lemma Join_snoc ls x : Join (ls ++ [x]) (str1 nl) = unlines ls +:+ x.
Proof.
  induction ls as [|l ls IH]; [done|]. cbn [app unlines]. rewrite !str_app_assoc, <- IH.
  by destruct ls.
Qed.

Lemma file_lines_spec s : Forall line_ok (file_lines s) ∧
  (unlines (file_lines s) = s ∧ (s = "" ∨ HasSuffix s (str1 nl) = true) ∨
   unlines (file_lines s) = s +:+ str1 nl ∧ s ≠ "" ∧ HasSuffix s (str1 nl) = false).
Proof.
  unfold file_lines. pose proof (Split_parts s nl) as Hparts. pose proof (Join_Split s nl) as HJ.
  pose proof (Split_ne s nl) as Hne. destruct (Split s nl) as [|x ls _] using rev_ind; [done|]. clear Hne.
  rewrite Join_snoc in HJ. rewrite last_snoc. apply Forall_app in Hparts as [Hls Hx]. apply Forall_cons in Hx as [Hx _].
  destruct x as [|c x].
  - rewrite removelast_last. split; [done|]. left. rewrite str_app_nil_r in HJ. split; [done|]. subst s.
    destruct ls as [|l ls _] using rev_ind; [by left|]. right. rewrite unlines_app. cbn [unlines].
    rewrite str_app_nil_r, <- str_app_assoc. apply HasSuffix_app.
  - split; [apply Forall_app; split; [done|by constructor]|]. right. rewrite unlines_app. cbn [unlines].
    rewrite str_app_nil_r, <- str_app_assoc, HJ. split_and!; [done|by subst s; destruct (unlines ls)|].
    apply not_true_is_false. intros [u Hu]%HasSuffix_spec. rewrite Hu in HJ.
    assert (∃ y d, String c x = y +:+ str1 d) as (y & d & Ey).
    { clear. revert c. induction x as [|e x IH]; intros c; [by exists "", c|].
      destruct (IH e) as (y & d & ->). by exists (String c y), d. }
    rewrite Ey, <- str_app_assoc in HJ. rewrite Ey, ContainsByte_app in Hx.
    assert (d = nl) as ->.
    { apply (f_equal String.rev) in HJ. rewrite !str_rev_app in HJ. by injection HJ as ->. }
    apply orb_false_iff in Hx as [_ Hx]. done.
Qed.

Definition in_quotes (st : pstate) : bool := match st with singleQuote | doubleQuote => true | _ => false end.

Lemma quotes_nl before p : in_quotes (state p) = true → ∃ cc, parse_loop before (str1 nl) p = Ok (next_line cc (add_value nl p)).
Proof.
  intros Hs. unfold str1. cbn [parse_loop]. assert (parse_byte nl p = Ok (add_value nl p)) as ->.
  { unfold parse_byte. by destruct (state p). }
  rewrite eqb_refl_ascii. by eexists.
Qed.

Lemma quotes_end p r : in_quotes (state p) = true → parse_end p = Ok r → r = out p ++ [pending p (value p)].
Proof.
  intros Hs. unfold parse_end. destruct (state p) eqn:Es; try done; rewrite bool_decide_false by done;
    (destruct (push p) as [q|] eqn:E; [|done]); intros [= <-]; by apply push_Ok in E as (-> & _).
Qed.

Lemma long_ne s : (1 < String.length s)%nat → s ≠ "x".
Proof. by intros H ->; cbn in H; lia. Qed.

(** A line added inside an open value is not an assignment of its own. *)
Lemma probe_open before p : wf_start p → ¬ fresh p → ∀ r, finish (parse_loop before probe_line p) = Ok r →
  ∃ a, last r = Some a ∧ avalue a ≠ "x".
Proof.
  intros [?|[Ho Hlt]] Hnf r; [done|]. unfold probe_line. rewrite <- str_app_assoc.
  set (text := probe_key +:+ "=x"). rewrite parse_loop_app.
  assert (Hquote : ∀ q, (q = dquote ∨ q = squote) → state p = (if Ascii.eqb q dquote then doubleQuote else singleQuote) →
    finish (match parse_loop before text p with Ok p' => parse_loop (before +:+ text) (str1 nl) p' | Err e => Err e end) = Ok r →
    ∃ a, last r = Some a ∧ avalue a ≠ "x").
  { intros q Hq Hs. destruct (quoted_run q text before p Hq eq_refl eq_refl Hs) as (p' & -> & Hs' & F & Hv).
    assert (Hp' : in_quotes (state p') = true) by (rewrite Hs', Hs; by destruct (Ascii.eqb q dquote)).
    destruct (quotes_nl (before +:+ text) p' Hp') as [cc ->]. intros H. apply quotes_end in H as ->; [|done].
    rewrite last_snoc. eexists; split; [reflexivity|]. cbn -[text String.append].
    apply long_ne. rewrite Hv, !str_length_app. change (String.length text) with 31%nat. lia. }
  destruct (state p) eqn:Es; try done; [|by apply (Hquote squote); auto|by apply (Hquote dquote); auto].
  change text with (str1 "H" +:+ drop_str 1 text). rewrite parse_loop_app.
  assert (∀ bf, parse_loop bf (str1 "H") p = Ok (add_value "H" (set_valueWS None p))) as E1.
  { intros bf. unfold str1. cbn [parse_loop]. unfold parse_byte. by rewrite Es. }
  rewrite E1.
  destruct (bare_run (drop_str 1 text) (before +:+ str1 "H") (add_value "H" (set_valueWS None p)) eq_refl eq_refl Es)
    as (p' & -> & Hs' & F & Hv & [Ht _]).
  { split; [|done]. symmetry. by apply TrimRight_snoc_keep. }
  intros H. set (bf := before +:+ _) in H. clearbody bf.
  destruct (parse_loop bf (str1 nl) p') as [p2|] eqn:E; [|done].
  assert (value_is (TrimRight (value p') envWhitespace) p') as Hvi by (right; by rewrite Ht).
  unfold str1 in E. cbn [parse_loop] in E. rewrite eqb_refl_ascii in E.
  destruct (parse_byte nl p') as [p3|] eqn:E3; [|done]. injection E as <-.
  unfold parse_byte in E3. rewrite Hs' in E3. change (ContainsByte envNewline nl) with true in E3. cbv iota in E3.
  apply push_Ok in E3 as (Eo & _ & Es3 & _). cbn in H. unfold parse_end in H. cbn in Es3, H. rewrite Es3 in H.
  injection H as <-. rewrite Eo. cbn -[cut_at]. rewrite last_snoc. eexists; split; [reflexivity|].
  cbn -[cut_at]. rewrite Ht, Hv.
  change (drop_str 1 text) with ("ARBOR_BRIDGE_INSTALLER_PROBE=" +:+ String "x" ""). rewrite <- str_app_assoc.
  rewrite TrimRight_keep by done. apply long_ne. rewrite !str_length_app. cbn. lia.
Qed.

Lemma last_line_suffix s : ∃ u, s = u +:+ last_line s.
Proof.
  induction s as [|c s [u IH]]; [by exists ""|]. cbn [last_line]. destruct (ContainsByte s nl).
  - exists (String c u). by rewrite app_cons, <- IH.
  - destruct (Ascii.eqb_spec c nl) as [->|]; [by exists (str1 nl)|by exists ""].
Qed.

Lemma comment_backslash s : commentEndsInBackslash s = true →
  ∃ y t, s = y +:+ String backslash t ∧ (t = "" ∨ t = str1 cr).
Proof.
  unfold commentEndsInBackslash. destruct (last_line_suffix s) as [u Hu]. intros H.
  assert (HasSuffix (TrimSuffix (last_line s) (str1 cr)) (str1 backslash) = true) as [y Hy]%HasSuffix_spec.
  { destruct (TrimLeft _ _); [done|]. by apply andb_true_iff in H as [_ H]. }
  unfold TrimSuffix in Hy. destruct (CutSuffix (last_line s) (str1 cr)) as [v|] eqn:E; cbn in Hy.
  - apply CutSuffix_Some in E. exists (u +:+ y), (str1 cr). rewrite Hu, E, Hy, !str_app_assoc. auto.
  - exists (u +:+ y), "". rewrite Hu, Hy, !str_app_assoc. auto.
Qed.

(** A comment that ends in a backslash before the last line break. *)
Lemma continued_end ls p q : parse_loop "" (unlines ls) p = Ok q → continuedComment p = false →
  continuedComment q = true → ∃ y t, unlines ls = y +:+ String backslash (t +:+ str1 nl) ∧ (t = "" ∨ t = str1 cr).
Proof.
  destruct ls as [|l ls _] using rev_ind; [intros [= <-]; congruence|]. rewrite unlines_app. cbn [unlines].
  rewrite str_app_nil_r, <- str_app_assoc, parse_loop_app. destruct (parse_loop "" (unlines ls +:+ l) p) as [p1|]; [|done].
  unfold str1 at 1. cbn [parse_loop]. rewrite eqb_refl_ascii. destruct (parse_byte nl p1); [|done].
  intros [= <-] _. cbn. intros [_ H]%andb_true_iff. rewrite app_nil_l in H.
  apply comment_backslash in H as (y & t & E & Ht). exists y, t. split; [|done]. rewrite E, str_app_assoc. done.
Qed.

Lemma openAtEnd_backslash y t : all_bytes (ContainsByte (String cr (str1 nl))) t = true →
  openAtEnd (y +:+ String backslash t) = true.
Proof.
  intros Ht. unfold openAtEnd. rewrite TrimRight_keep by done.
  assert (TrimRight t (String cr (str1 nl)) = "") as ->.
  { rewrite <- (app_nil_l t). by rewrite TrimRight_app_cut. }
  change (String backslash "") with (str1 backslash). by rewrite HasSuffix_app.
Qed.

Lemma good_lines_intro ls : Forall line_ok ls → lone_cr (unlines ls) = false → good_lines ls.
Proof. intros Hok Hcr. apply Forall_and. split; [done|]. by apply lone_cr_unlines. Qed.

Lemma lone_cr_lines ls s : lone_cr (unlines ls +:+ s) = false → lone_cr (unlines ls) = false.
Proof.
  destruct ls as [|l ls _] using rev_ind; [done|]. rewrite unlines_app. cbn [unlines].
  rewrite str_app_nil_r, <- str_app_assoc, str_app_assoc. apply lone_cr_app_l.
Qed.

(** A file that is not open at its end leaves the parser at the start of a line. *)
Lemma closed_end existing : openAtEnd existing = false →
  ∃ q, parse_loop "" (unlines (file_lines existing)) parser0 = Ok q ∧ fresh q ∧ continuedComment q = false.
Proof.
  intros Ho. destruct (file_lines_spec existing) as [Hok Hls]. pose proof Ho as Ho'. unfold openAtEnd in Ho.
  destruct (HasSuffix (TrimRight existing _) _) eqn:Hbs; [done|].
  assert (Hprobe : (if negb (String.eqb existing "") && negb (HasSuffix existing (str1 nl))
      then existing +:+ str1 nl else existing) = unlines (file_lines existing)).
  { destruct Hls as [[-> [-> | ->]]|(-> & Hne & ->)]; [done|by rewrite andb_false_r|].
    destruct (String.eqb_spec existing ""); done. }
  rewrite Hprobe in Ho. clear Hprobe. unfold parseEnvFile in Ho.
  destruct (ContainsByte _ nul); [done|]. destruct (lone_cr _) eqn:Hcr in Ho; [done|].
  rewrite parse_loop_app, app_nil_l in Ho.
  destruct (parse_loop "" (unlines (file_lines existing)) parser0) as [q|] eqn:E; [|done].
  assert (good_lines (file_lines existing)) as Hgood by (apply good_lines_intro; [done|by eapply lone_cr_lines]).
  destruct (lines_run _ "" parser0 q (start_fresh 0 false) Hgood E) as (Hwf & _).
  exists q. split; [done|]. split.
  - destruct (decide (state q = preKey ∧ value q = "")) as [?|Hnf]; [done|].
    fold (finish (parse_loop (unlines (file_lines existing)) probe_line q)) in Ho.
    destruct (finish _) as [r|] eqn:Er; [|done].
    destruct (probe_open _ q Hwf Hnf r Er) as (a & Hl & Hx). rewrite Hl in Ho.
    apply orb_false_iff in Ho as [_ Ho]. apply negb_false_iff, String.eqb_eq in Ho. done.
  - apply not_true_is_false. intros Hcc.
    destruct (continued_end _ parser0 q E eq_refl Hcc) as (y & t & Ey & Ht). rewrite Ey in Hls.
    destruct Hls as [[Hls _]|[Hls _]].
    + rewrite <- Hls in Ho'. rewrite openAtEnd_backslash in Ho'; [done|]. by destruct Ht as [-> | ->].
    + change (String backslash (t +:+ str1 nl)) with (String backslash t +:+ str1 nl) in Hls.
      rewrite <- str_app_assoc in Hls. apply str_app_inv_tail in Hls. rewrite <- Hls in Ho'.
      rewrite openAtEnd_backslash in Ho'; [done|]. by destruct Ht as [-> | ->].
Qed.

(** A line break ends the last line as the end of the file does. *)
Lemma nl_end before p q asgs : parse_loop before (str1 nl) p = Ok q → fresh q → parse_end p = Ok asgs → out q = asgs.
Proof.
  unfold str1. cbn [parse_loop]. rewrite eqb_refl_ascii. destruct (parse_byte nl p) as [p1|] eqn:E; [|done].
  intros [= <-] [Hs Hv]. cbn in Hs, Hv |- *. unfold parse_byte in E. change (ContainsByte envNewline nl) with true in E.
  unfold parse_end. destruct (state p) eqn:Es; cbn -[push cut_at] in E;
    rewrite ?bool_decide_true, ?bool_decide_false by done.
  1, 2, 9, 10: by injection E as <-; intros [= <-].
  1, 2: apply push_Ok in E as (Eo & _); (destruct (push _) as [p2|] eqn:E2; [|done]);
    apply push_Ok in E2 as (Eo2 & _); intros [= <-]; by rewrite Eo, Eo2.
  all: injection E as <-; cbn in Hs; congruence.
Qed.

Lemma fresh_end p : fresh p → parse_end p = Ok (out p).
Proof. intros [Hs _]. unfold parse_end. by rewrite Hs. Qed.

Lemma lone_cr_nl s : lone_cr s = false → lone_cr (s +:+ str1 nl) = false.
Proof.
  induction s as [|c s IH]; [done|]. rewrite app_cons. cbn [lone_cr]. intros [H1 H2]%orb_false_iff.
  rewrite IH by done. rewrite orb_false_r. destruct s; [|done]. by destruct (Ascii.eqb c cr).
Qed.

Lemma normal_file existing asgs : parseEnvFile existing = Ok asgs →
  HasSuffix existing (str1 nl) = true ∨ openAtEnd existing = false →
  good_lines (file_lines existing) ∧ ContainsByte (unlines (file_lines existing)) nul = false ∧
  parse_from 0 false (unlines (file_lines existing)) = Ok asgs.
Proof.
  unfold parseEnvFile. intros HP Hend. destruct (file_lines_spec existing) as [Hok Hls].
  destruct (ContainsByte existing nul) eqn:Hnul; [done|]. destruct (lone_cr existing) eqn:Hcr; [done|].
  destruct Hls as [[Els _]|(Els & Hne & Hnl)].
  - split_and!; [apply good_lines_intro; [done|by rewrite Els]|by rewrite Els|]. by rewrite Els.
  - destruct Hend as [|Hopen]; [congruence|]. destruct (closed_end existing Hopen) as (q & E & Hf & _).
    assert (lone_cr (unlines (file_lines existing)) = false) by (rewrite Els; by apply lone_cr_nl).
    split_and!; [by apply good_lines_intro|rewrite Els, ContainsByte_app, Hnul; done|].
    unfold parse_from. fold parser0. rewrite E. cbn. rewrite fresh_end by done. f_equal.
    rewrite Els, parse_loop_app in E. destruct (parse_loop "" existing parser0) as [p|]; [|done].
    by eapply nl_end.
Qed.

(** ** The line the installer writes *)

Lemma str_no_byte f s c : f c = false → all_bytes f s = true → ContainsByte s c = false.
Proof. apply all_bytes_ContainsByte. Qed.

Lemma no_cr_lone s : ContainsByte s cr = false → lone_cr (s +:+ str1 nl) = false.
Proof.
  induction s as [|c s IH]; [done|]. cbn [ContainsByte]. intros [Hc Hs]%orb_false_iff.
  rewrite app_cons. cbn [lone_cr]. by rewrite Hc, IH.
Qed.

Definition extra_raw (args : list string) : string := str1 dquote +:+ Join args " " +:+ str1 dquote.

Lemma key_line_extra args : key_line (extra_line args) extraArgsKey (extra_raw args).
Proof. exists "", "K"%char, "UBELET_EXTRA_ARGS". by split_and!. Qed.

Lemma quoted_unquoted v : bare v = true → unquoteExtraArgs (Trim (str1 dquote +:+ v +:+ str1 dquote) envWhitespace) = Ok v.
Proof.
  intros Hb. assert (Trim (str1 dquote +:+ v +:+ str1 dquote) envWhitespace = str1 dquote +:+ v +:+ str1 dquote) as ->.
  { unfold Trim. change (str1 dquote +:+ ?x) with (String dquote x). cbn [TrimLeft].
    change (ContainsByte envWhitespace dquote) with false. cbv iota.
    change (String dquote (v +:+ str1 dquote)) with ((str1 dquote +:+ v) +:+ str1 dquote). by apply TrimRight_snoc_keep. }
  unfold unquoteExtraArgs. change (str1 dquote +:+ ?x) with (String dquote x). cbn [unquote_outer].
  rewrite eqb_refl_ascii. cbn [orb]. rewrite CutSuffix_app. cbn [default from_option id].
  unfold bare in Hb. apply negb_true_iff in Hb. by rewrite Hb.
Qed.

Lemma extra_raw_unquoted args : Forall word args → unquoteExtraArgs (Trim (extra_raw args) envWhitespace) = Ok (Join args " ").
Proof. intros Hw. apply quoted_unquoted. by apply Join_words. Qed.

Lemma extra_line_bytes f args : Forall word args → (∀ c, ContainsByte extraArgsKey c = true → f c = true) →
  f "="%char = true → f dquote = true → (∀ c, negb (is_ws c) || Ascii.eqb c " " = true → f c = true) →
  all_bytes f (extra_line args) = true.
Proof.
  intros Hw Hk He Hq Hc. destruct (Join_words args Hw) as (_ & _ & Hj). unfold extra_line.
  rewrite !all_bytes_app. unfold str1. cbn [all_bytes extraArgsKey].
  rewrite He, Hq. rewrite (all_bytes_impl _ f _ Hc Hj). by rewrite !Hk.
Qed.

Lemma extra_line_good args : Forall word args → line_ok (extra_line args) ∧ lone_cr (extra_line args +:+ str1 nl) = false.
Proof.
  intros Hw. split.
  - apply (str_no_byte (λ c, negb (Ascii.eqb c nl))); [done|]. apply extra_line_bytes; try done.
    + intros c Hc. apply negb_true_iff, not_true_is_false. intros ->%Ascii.eqb_eq. done.
    + intros c Hc. apply negb_true_iff, not_true_is_false. intros ->%Ascii.eqb_eq. done.
  - apply no_cr_lone, (str_no_byte (λ c, negb (Ascii.eqb c cr))); [done|]. apply extra_line_bytes; try done.
    + intros c Hc. apply negb_true_iff, not_true_is_false. intros ->%Ascii.eqb_eq. done.
    + intros c Hc. apply negb_true_iff, not_true_is_false. intros ->%Ascii.eqb_eq. done.
Qed.

(** Reading a file with the line in it. *)
Lemma extra_line_parsed n cc args rest : Forall word args →
  parse_from n cc (extra_line args +:+ str1 nl +:+ rest) =
  res_map (cons (MkAssignment extraArgsKey (Join args " ") n n cc)) (parse_from (S n) false rest).
Proof.
  intros Hw. destruct (extra_line_good args Hw) as [Hn Hcr]. destruct (Join_words args Hw) as (_ & Hv & _).
  eapply extra_read; [apply key_line_extra|done|by apply extra_raw_unquoted|done..].
Qed.

Lemma Join_nul ws : Forall word ws → ContainsByte (Join ws " ") nul = false.
Proof.
  induction 1 as [|a ws (_ & _ & _ & _ & Ha) Hall IH]; [done|].
  destruct ws as [|b ws]; [done|]. change (Join (a :: b :: ws) " ") with (a +:+ " " +:+ Join (b :: ws) " ").
  by rewrite !ContainsByte_app, Ha, IH.
Qed.

Lemma extra_line_nul args : Forall word args → ContainsByte (extra_line args) nul = false.
Proof. intros Hw. unfold extra_line. rewrite !ContainsByte_app, Join_nul by done. done. Qed.

Lemma unlines_nul ls : ContainsByte (unlines ls) nul = false ↔ Forall (λ l, ContainsByte l nul = false) ls.
Proof.
  induction ls as [|l ls IH]; [by split; [constructor|]|]. cbn [unlines].
  rewrite !ContainsByte_app, Forall_cons, <- IH, !orb_false_iff. naive_solver.
Qed.

(** ** What a rewritten line was *)

Lemma all_bytes_no_byte f s c : all_bytes f s = true → f c = false → ContainsByte s c = false.
Proof. intros H Hc. by eapply all_bytes_ContainsByte. Qed.

Lemma key_line_Cut l k raw : key_line l k raw → TrimRight k envWhitespace = extraArgsKey →
  ∃ before, Cut l "=" = Some (before, raw).
Proof.
  intros (w & c & k' & -> & Hw & -> & Hc & Hcc & Hk') HT. exists (w +:+ String c k').
  replace (w +:+ String c k' +:+ "=" +:+ raw) with ((w +:+ String c k') +:+ String "=" raw) by (by rewrite str_app_assoc).
  apply Cut_app. rewrite ContainsByte_app. rewrite (all_bytes_no_byte is_ws) by done.
  destruct (TrimRight_spec (String c k') envWhitespace) as (t & E & Ht). rewrite HT in E. rewrite E, ContainsByte_app.
  rewrite (all_bytes_no_byte is_ws t) by done. done.
Qed.

Lemma ContainsByte_Trim s c : ContainsByte s c = false → ContainsByte (Trim s envWhitespace) c = false.
Proof.
  destruct (Trim_spec s) as (w1 & w2 & E & _). rewrite E at 1. rewrite !ContainsByte_app.
  intros [_ [H _]%orb_false_iff]%orb_false_iff. done.
Qed.

Lemma rewrite_line_inv lines ours a l : rewrite_line lines ours a = Ok l →
  afirst a = alast a ∧ afterContinuedComment a = false ∧
  ∀ l0 k raw, nth_line lines (afirst a) = l0 → key_line l0 k raw → TrimRight k envWhitespace = extraArgsKey →
    ∃ val, unquoteExtraArgs (Trim raw envWhitespace) = Ok val ∧
      l = extra_line (stripCredentialProviderFlags (splitArgs val) ++ ours) ∧
      (ContainsByte l0 nul = false → ContainsByte val nul = false).
Proof.
  unfold rewrite_line. destruct (Nat.eqb_spec (afirst a) (alast a)) as [Hfl|]; [|done]. cbn [negb].
  destruct (afterContinuedComment a); [done|]. intros H. split_and!; [done..|].
  intros l0 k raw <- HK HT. destruct (key_line_Cut _ k raw HK HT) as [bf Hcut]. rewrite Hcut in H.
  destruct (unquoteExtraArgs _) as [val|] eqn:E; [|done]. exists val. injection H as <-. split_and!; [done..|].
  destruct HK as (w & c & k' & E0 & _). rewrite E0, !ContainsByte_app. intros [_ [_ [_ H]%orb_false_iff]%orb_false_iff]%orb_false_iff.
  apply ContainsByte_Trim in H. apply unquote_cases in E as [_ [<-|(q & _ & E)]]; [done|].
  rewrite E in H. cbn [ContainsByte] in H. rewrite ContainsByte_app in H. by bsimpl.
Qed.

(** ** The three shapes of a rewritten file *)

Definition pairs (l : list envAssignment) : list (string * string) := (λ a, (akey a, avalue a)) <$> l.
Definition extras (l : list envAssignment) : list envAssignment := List.filter is_extra l.
Definition others (l : list envAssignment) : list envAssignment := List.filter (λ a, negb (is_extra a)) l.

(** The operator's arguments: those of the first KUBELET_EXTRA_ARGS assignment. *)
Definition old_args (asgs : list envAssignment) : list string :=
  match extras asgs with a :: _ => splitArgs (avalue a) | [] => [] end.

(** [new] is a file whose only KUBELET_EXTRA_ARGS assignment is the line the
    installer writes, and which assigns everything else as before. *)
Definition merged (asgs : list envAssignment) (ours : list string) (new : string) : Prop :=
  ∃ pre post o1 tail, let args := stripCredentialProviderFlags (old_args asgs) in
    good_lines pre ∧ good_lines post ∧ new = unlines (pre ++ extra_line (args ++ ours) :: post) ∧
    ContainsByte new nul = false ∧ Forall word args ∧
    parse_from 0 false new =
      Ok (o1 ++ MkAssignment extraArgsKey (Join (args ++ ours) " ") (length pre) (length pre) false :: tail) ∧
    extras o1 = [] ∧ extras tail = [] ∧ pairs (o1 ++ tail) = pairs (others asgs).

Lemma filter_split {A} (f : A → bool) l a r : List.filter f l = a :: r →
  ∃ l1 l2, l = l1 ++ a :: l2 ∧ List.filter f l1 = [] ∧ f a = true ∧ List.filter f l2 = r.
Proof.
  induction l as [|x l IH]; [done|]. cbn. destruct (f x) eqn:E.
  - intros [= -> <-]. by exists [], l.
  - intros H. destruct (IH H) as (l1 & l2 & -> & H1 & H2 & H3). exists (x :: l1), l2. cbn. by rewrite E.
Qed.

Lemma others_all l : extras l = [] → others l = l.
Proof.
  unfold extras, others. induction l as [|a l IH]; [done|]. cbn. destruct (is_extra a); [done|]. cbn.
  intros H. by rewrite IH.
Qed.

Lemma others_app l l' : others (l ++ l') = others l ++ others l'.
Proof. apply List.filter_app. Qed.

Lemma others_cons a l : is_extra a = true → others (a :: l) = others l.
Proof. unfold others. cbn. by intros ->. Qed.

Lemma old_args_eq o1 a t : extras o1 = [] → is_extra a = true → old_args (o1 ++ a :: t) = splitArgs (avalue a).
Proof. unfold old_args, extras. rewrite List.filter_app. intros -> Ha. cbn. by rewrite Ha. Qed.

Lemma good_lines_middle pre l post : good_lines (pre ++ l :: post) → good_lines pre ∧ good_lines post.
Proof. intros [H1 H2]%Forall_app. by apply Forall_cons in H2 as [_ H2]. Qed.

Lemma nth_line_middle pre l post : nth_line (pre ++ l :: post) (length pre) = l.
Proof. unfold nth_line. by rewrite list_lookup_middle. Qed.

Lemma nul_middle pre l post l' : ContainsByte (unlines (pre ++ l :: post)) nul = false → ContainsByte l' nul = false →
  ContainsByte (unlines (pre ++ l' :: post)) nul = false ∧ ContainsByte l nul = false.
Proof. rewrite !unlines_nul, !Forall_app, !Forall_cons. naive_solver. Qed.

(** Rewriting the operator's line: the file up to it, and the file after it. *)
Lemma rewritten lines asgs o1 a t1 ours l : parse_from 0 false (unlines lines) = Ok asgs → good_lines lines →
  ContainsByte (unlines lines) nul = false → asgs = o1 ++ a :: t1 → extras o1 = [] → is_extra a = true →
  rewrite_line lines ours a = Ok l → Forall word ours →
  let args := stripCredentialProviderFlags (old_args asgs) in
  ∃ pre l0 post, lines = pre ++ l0 :: post ∧ afirst a = length pre ∧ l = extra_line (args ++ ours) ∧ Forall word args ∧
    ContainsByte (unlines (pre ++ l :: post)) nul = false ∧
    parse_from (S (length pre)) false (unlines post) = Ok t1 ∧
    ∀ rest, parse_from 0 false (unlines pre +:+ l +:+ str1 nl +:+ rest) =
      res_map (λ t, o1 ++ MkAssignment extraArgsKey (Join (args ++ ours) " ") (length pre) (length pre) false :: t)
        (parse_from (S (length pre)) false rest).
Proof.
  intros HP Hok Hnul -> Ho1 Ha Hrw Hours args.
  destruct (rewrite_line_inv lines ours a l Hrw) as (Hfl & Hcc & Hinv).
  destruct (extra_at 0 false lines o1 a t1 HP Hok) as (pre & l0 & post & k & raw & -> & Hla & HK & HT & Hpre & Hval);
    [by apply String.eqb_eq|done|]. cbn in Hla, Hpre, Hval.
  destruct (Hinv l0 k raw) as (val & HU & -> & Hvn); [by rewrite Hfl, Hla, nth_line_middle|done|done|].
  destruct (Hval val HU) as (Hv & Eval & Ht1).
  assert (args = stripCredentialProviderFlags (splitArgs val)) as Eargs.
  { subst args. by rewrite old_args_eq, Eval by done. }
  assert (ContainsByte l0 nul = false) as Hl0 by (by eapply (nul_middle pre l0 post ""); [exact Hnul|]).
  assert (Forall word args) as Hwords.
  { rewrite Eargs. apply strip_words, splitArgs_words; [by apply unquote_cases in HU as [? _]|done|auto]. }
  rewrite <- Eargs in *. clearbody args.
  assert (Forall word (args ++ ours)) as Hall by (by apply Forall_app).
  exists pre, l0, post. rewrite Hfl. split_and!; try done.
  - eapply (nul_middle pre l0 post); [exact Hnul|]. by apply extra_line_nul.
  - intros rest. rewrite Hpre, Hcc, extra_line_parsed by done. by destruct (parse_from _ _ rest).
Qed.

Lemma merged_found lines asgs a ours l : parse_from 0 false (unlines lines) = Ok asgs → good_lines lines →
  ContainsByte (unlines lines) nul = false → extras asgs = [a] → rewrite_line lines ours a = Ok l → Forall word ours →
  merged asgs ours (unlines (<[afirst a := l]> lines)) ∧ <[afirst a := l]> lines ≠ [].
Proof.
  intros HP Hok Hnul Hex Hrw Hours. destruct (filter_split _ _ _ _ Hex) as (o1 & t1 & E & Ho1 & Ha & Ht1).
  destruct (rewritten lines asgs o1 a t1 ours l) as (pre & l0 & post & -> & Hfa & -> & Hw & Hn & Hpt & Hr); try done.
  rewrite Hfa, insert_app_r_alt, Nat.sub_diag by done. cbn. split; [|by destruct pre].
  apply good_lines_middle in Hok as [Hpre Hpost]. exists pre, post, o1, t1.
  split_and!; try done.
  - rewrite unlines_app. cbn [unlines]. by rewrite Hr, Hpt.
  - rewrite E, others_app, others_cons by done. by rewrite !others_all by done.
Qed.

Lemma bare_wide s : ContainsAny s (String " " (String tab quoting)) = false → bare s = true.
Proof.
  unfold bare. induction s as [|c s IH]; [done|]. cbn [ContainsAny]. intros [H1 H2]%orb_false_iff.
  apply negb_true_iff, orb_false_iff. split; [|by apply negb_true_iff, IH].
  cbn [ContainsByte] in H1. by bsimpl.
Qed.

Lemma appended_inv operator theirs lines : appendedByEarlierInstaller operator theirs lines = true →
  afirst theirs = alast theirs ∧ afterContinuedComment theirs = false ∧
  ∃ v, nth_line lines (afirst theirs) = extraArgsKey +:+ "=" +:+ str1 dquote +:+ v +:+ str1 dquote ∧ bare v = true.
Proof.
  unfold appendedByEarlierInstaller. destruct (HasPrefix _ _); [done|].
  destruct (Nat.eqb_spec (afirst theirs) (alast theirs)); [|done]. cbn [negb orb].
  destruct (afterContinuedComment theirs); [done|].
  destruct (CutPrefix (nth_line _ _) _) as [v0|] eqn:E0; [|done]. apply CutPrefix_Some in E0.
  destruct (CutSuffix v0 _) as [v|] eqn:E1; [|done]. apply CutSuffix_Some in E1.
  destruct (Cut v " ") as [[b c]|] eqn:E2; [|done]. apply Cut_Some in E2 as [E2 _].
  destruct (CutPrefix b _) as [b'|] eqn:Eb; [|done]. destruct (CutPrefix c _) as [c'|] eqn:Ec; [|done].
  apply CutPrefix_Some in Eb, Ec. intros [_ H]%andb_true_iff. apply negb_true_iff, bare_wide in H.
  rewrite bare_app in H. apply andb_true_iff in H as [Hb Hc]. split_and!; [done..|]. exists v. split.
  - by rewrite E0, E1, !str_app_assoc.
  - rewrite E2, Eb, Ec. change (String " " ?x) with (" " +:+ x).
    rewrite !bare_app, Hb, Hc. done.
Qed.

Lemma pairs_shift d l : pairs (shift d <$> l) = pairs l.
Proof. unfold pairs. rewrite <- list_fmap_compose. by apply list_fmap_ext. Qed.

Lemma extras_shift d l : extras (shift d <$> l) = [] → extras l = [].
Proof.
  unfold extras. induction l as [|a l IH]; [done|]. cbn. unfold is_extra at 1 3. cbn. destruct (String.eqb _ _); [done|]. done.
Qed.

(** Replacing one line and dropping a later one. *)
Lemma drop_line {A} (pre : list A) l0 pre2 m post2 l i j : i = length pre → j = length (pre ++ l0 :: pre2) →
  take j (<[i := l]> (pre ++ l0 :: pre2 ++ m :: post2)) ++ drop (S j) (<[i := l]> (pre ++ l0 :: pre2 ++ m :: post2))
  = pre ++ l :: pre2 ++ post2.
Proof.
  intros -> Hj. rewrite insert_app_r_alt, Nat.sub_diag by done. cbn [insert list_insert].
  rewrite (app_assoc pre (l :: pre2) (m :: post2) : pre ++ l :: pre2 ++ m :: post2 = _).
  assert (j = length (pre ++ l :: pre2)) as -> by (rewrite Hj, !length_app; cbn; lia).
  rewrite take_app_length, drop_app_ge by lia.
  replace (S _ - _)%nat with 1%nat by lia. cbn. by rewrite <- app_assoc.
Qed.

Lemma merged_appended lines asgs operator theirs ours l : parse_from 0 false (unlines lines) = Ok asgs → good_lines lines →
  ContainsByte (unlines lines) nul = false → extras asgs = [operator; theirs] →
  appendedByEarlierInstaller operator theirs lines = true → rewrite_line lines ours operator = Ok l → Forall word ours →
  merged asgs ours (unlines (take (afirst theirs) (<[afirst operator := l]> lines) ++ drop (S (afirst theirs)) (<[afirst operator := l]> lines))) ∧
  take (afirst theirs) (<[afirst operator := l]> lines) ++ drop (S (afirst theirs)) (<[afirst operator := l]> lines) ≠ [].
Proof.
  intros HP Hok Hnul Hex Happ Hrw Hours. destruct (filter_split _ _ _ _ Hex) as (o1 & t1 & E & Ho1 & Ha & Ht1).
  destruct (filter_split _ _ _ _ Ht1) as (o2 & t2 & E2 & Ho2 & Hth & Ht2).
  destruct (rewritten lines asgs o1 operator t1 ours l) as (pre & l0 & post & -> & Hfa & -> & Hw & Hn & Hpt & Hr); try done.
  apply good_lines_middle in Hok as [Hpre Hpost].
  destruct (appended_inv _ _ _ Happ) as (Hfl & Hcc & v & Hline & Hv). rewrite E2 in Hpt.
  destruct (extra_at (S (length pre)) false post o2 theirs t2 Hpt Hpost)
    as (pre2 & m & post2 & k & raw & -> & Hla & HK & HT & Hpre2 & Hval); [by apply String.eqb_eq|done|].
  rewrite Hcc in Hpre2.
  assert (Hm : pre ++ l0 :: pre2 ++ m :: post2 = (pre ++ l0 :: pre2) ++ m :: post2) by (by rewrite <- app_assoc).
  assert (Hj : afirst theirs = length (pre ++ l0 :: pre2)) by (rewrite Hfl, Hla, length_app; cbn; lia).
  rewrite Hj, Hm, nth_line_middle in Hline. subst m.
  assert (raw = str1 dquote +:+ v +:+ str1 dquote) as ->.
  { destruct (key_line_Cut _ k raw HK HT) as [bf Hcut].
    change ("=" +:+ ?x) with (String "=" x) in Hcut. rewrite Cut_app in Hcut by done. congruence. }
  destruct (Hval v (quoted_unquoted v Hv)) as (_ & _ & Hpost2). clear Hval.
  set (args := stripCredentialProviderFlags (old_args asgs)) in *.
  rewrite (drop_line pre l0 pre2 _ post2 (extra_line (args ++ ours)) (afirst operator) (afirst theirs) Hfa Hj).
  split; [|by destruct pre].
  assert (∃ t2', parse_from (S (length pre) + length pre2) false (unlines post2) = Ok t2' ∧ t2 = shift 1 <$> t2') as (t2' & Et2' & ->).
  { rewrite <- Nat.add_1_r, parse_from_shift in Hpost2. destruct (parse_from (S (length pre) + length pre2) _ _) as [t2'|]; [|done].
    cbn in Hpost2. exists t2'. by split; [|congruence]. }
  apply good_lines_middle in Hpost as [Hpost1 Hpost2'].
  exists pre, (pre2 ++ post2), o1, (o2 ++ t2'). fold args. split_and!; try done.
  - by apply Forall_app.
  - rewrite unlines_nul in Hn |- *. rewrite !Forall_app, !Forall_cons, !Forall_app, !Forall_cons in *. naive_solver.
  - rewrite unlines_app. cbn [unlines]. rewrite Hr, unlines_app, Hpre2, Et2'. done.
  - unfold extras in *. rewrite List.filter_app, Ho2. by apply (extras_shift 1).
  - rewrite E, E2, others_app, others_cons, others_app, others_cons by done. rewrite !others_all by done.
    unfold pairs. rewrite !fmap_app. fold (pairs t2'). fold (pairs (shift 1 <$> t2')). by rewrite pairs_shift.
Qed.

Lemma merged_new existing asgs ours : parse_from 0 false (unlines (file_lines existing)) = Ok asgs →
  good_lines (file_lines existing) → ContainsByte (unlines (file_lines existing)) nul = false → extras asgs = [] →
  openAtEnd existing = false → Forall word ours →
  merged asgs ours (unlines (file_lines existing ++ [extra_line ours])).
Proof.
  intros HP Hok Hnul Hex Hopen Hours. destruct (closed_end existing Hopen) as (q & E & Hf & Hcc).
  destruct (lines_run _ "" parser0 q (start_fresh 0 false) Hok E) as (_ & Hl & _). cbn in Hl.
  assert (asgs = out q) as ->.
  { unfold parse_from in HP. fold parser0 in HP. rewrite E in HP. cbn in HP. rewrite fresh_end in HP by done. congruence. }
  assert (old_args (out q) = []) as Hold by (unfold old_args; by rewrite Hex).
  exists (file_lines existing), [], (out q), []. rewrite Hold. cbn [stripCredentialProviderFlags strip_flags app].
  split_and!; try done; [constructor|..|by rewrite app_nil_r, others_all].
  - rewrite unlines_app, ContainsByte_app, Hnul. cbn [unlines]. rewrite !ContainsByte_app, extra_line_nul by done. done.
  - rewrite unlines_app. cbn [unlines]. rewrite (parse_from_app 0 false _ q) by auto with env.
    rewrite extra_line_parsed by done. by rewrite Hl, Hcc.
Qed.

(** ** The installer's flags *)

Lemma ascii_runes s : all_bytes (λ c, byte_val c <? 0x80) s = true → runes s = Some (bytes_of s).
Proof.
  induction s as [|c s IH]; [done|]. cbn [all_bytes]. intros [Hc Hs]%andb_true_iff. cbn [runes]. by rewrite Hc, IH.
Qed.

Lemma ascii_valid s : all_bytes (λ c, byte_val c <? 0x80) s = true → systemdValidUTF8 s = true.
Proof.
  intros H. unfold systemdValidUTF8. rewrite (ascii_runes s H). apply negb_true_iff.
  induction s as [|c s IH]; [done|]. cbn [all_bytes] in H. apply andb_true_iff in H as [Hc Hs].
  cbn [bytes_of existsb]. rewrite IH by done. rewrite orb_false_r.
  apply orb_false_iff. split; [lia|]. destruct c as [[] [] [] [] [] [] [] []]; done.
Qed.

Lemma node_char_plain c : node_char c = true →
  negb (is_ws c) = true ∧ ContainsByte quoting c = false ∧ byte_val c <? 0x80 = true ∧ Ascii.eqb c nul = false.
Proof. destruct c as [[] [] [] [] [] [] [] []]; done. Qed.

Lemma node_string_bare s : all_bytes node_char s = true → bare s = true.
Proof.
  unfold bare. induction s as [|c s IH]; [done|]. cbn [all_bytes ContainsAny]. intros [Hc Hs]%andb_true_iff.
  apply node_char_plain in Hc as (_ & -> & _). by apply IH.
Qed.

Lemma flag_word flag p : nodePathChars p = true → word flag → word (flag +:+ "=" +:+ p).
Proof.
  intros Hp (Hne & Hw & Hb & Hv & Hn).
  assert (all_bytes node_char p = true) as Hc.
  { destruct p as [|c [|d p]]; [done..|]. cbn in Hp. apply andb_true_iff in Hp as [[Hc Hd]%andb_true_iff Hp].
    apply Ascii.eqb_eq in Hc as ->. cbn [all_bytes]. by rewrite Hd, Hp. }
  split_and!.
  - by destruct flag.
  - unfold no_ws in *. rewrite !all_bytes_app, Hw. eapply all_bytes_impl; [|exact Hc]. by intros c (? & _)%node_char_plain.
  - rewrite !bare_app, Hb. by apply node_string_bare.
  - apply systemdValid_app; [done|]. apply systemdValid_app; [done|]. apply ascii_valid.
    eapply all_bytes_impl; [|exact Hc]. by intros c (_ & _ & ? & _)%node_char_plain.
  - rewrite !ContainsByte_app, Hn. cbn. apply (str_no_byte node_char); done.
Qed.

Lemma our_flags_words binDir configFile : nodePathChars binDir = true → nodePathChars configFile = true →
  Forall word (our_flags binDir configFile).
Proof. intros Hb Hc. repeat constructor; apply flag_word; try done; by split_and!. Qed.

(** Every successful rewriting has one of the three shapes. *)
Lemma merge_merged existing binDir configFile new asgs : nodePathChars binDir = true → nodePathChars configFile = true →
  parseEnvFile existing = Ok asgs → mergeExtraArgs existing binDir configFile = Ok new →
  merged asgs (our_flags binDir configFile) new.
Proof.
  intros Hb Hc HP. unfold mergeExtraArgs. rewrite HP. pose proof (our_flags_words binDir configFile Hb Hc) as Hours.
  set (ours := our_flags binDir configFile) in *. clearbody ours.
  assert (Hnorm : ∀ found, (negb found || negb (HasSuffix existing (str1 nl))) && openAtEnd existing = false →
    (found = false → openAtEnd existing = false) ∧
    good_lines (file_lines existing) ∧ ContainsByte (unlines (file_lines existing)) nul = false ∧
    parse_from 0 false (unlines (file_lines existing)) = Ok asgs).
  { intros found H. split; [intros ->; done|]. apply normal_file; [done|].
    apply andb_false_iff in H as [H|H]; [left|by right]. apply orb_false_iff in H as [_ H]. by apply negb_false_iff. }
  fold (extras asgs). destruct (extras asgs) as [|a [|b [|? ?]]] eqn:Hex.
  - destruct (_ && openAtEnd existing) eqn:Ho; [done|]. destruct (Hnorm false Ho) as (Hopen & Hok & Hnul & HP').
    cbn. intros [= <-]. rewrite unlines_Join by (by destruct (file_lines existing)). apply merged_new; auto.
  - destruct (rewrite_line _ ours a) as [l|] eqn:Hrw; [|done].
    destruct (_ && openAtEnd existing) eqn:Ho; [done|]. destruct (Hnorm true Ho) as (_ & Hok & Hnul & HP').
    intros [= <-]. destruct (merged_found _ _ _ _ _ HP' Hok Hnul Hex Hrw Hours) as [Hm Hne]. by rewrite unlines_Join.
  - destruct (appendedByEarlierInstaller a b _) eqn:Happ; [|done].
    destruct (rewrite_line _ ours a) as [l|] eqn:Hrw; [|done].
    destruct (_ && openAtEnd existing) eqn:Ho; [done|]. destruct (Hnorm true Ho) as (_ & Hok & Hnul & HP').
    intros [= <-]. destruct (merged_appended _ _ _ _ _ _ HP' Hok Hnul Hex Happ Hrw Hours) as [Hm Hne].
    by rewrite unlines_Join.
  - done.
Qed.

(** ** The operator's arguments

    What the file's KUBELET_EXTRA_ARGS means, said without the installer's own routines. *)

(** [fields v ws]: [ws] are the words of [v], the pieces between its white space. *)
Inductive fields : string → list string → Prop :=
| fields_none w : all_bytes is_ws w = true → fields w []
| fields_last w a : all_bytes is_ws w = true → a ≠ "" → no_ws a = true → fields (w +:+ a) [a]
| fields_more w a c rest ws : all_bytes is_ws w = true → a ≠ "" → no_ws a = true → is_ws c = true → fields rest ws →
    fields (w +:+ a +:+ String c rest) (a :: ws).

Lemma split_args_cur s : ∀ cur, cur ≠ "" → no_ws cur = true →
  (∀ t, (String.length t < S (String.length s))%nat → fields t (splitArgs t)) → fields (cur +:+ s) (split_args cur s).
Proof.
  induction s as [|c s IH]; intros cur Hne Hc Hall; cbn [split_args].
  - rewrite str_app_nil_r. destruct cur as [|d cur]; [done|]. by apply (fields_last "").
  - change (ContainsByte envWhitespace c) with (is_ws c). destruct (is_ws c) eqn:Hw.
    + assert (fields s (split_args "" s)) as Hs by (apply Hall; cbn; lia).
      destruct cur as [|d cur]; [done|]. by apply (fields_more "" (String d cur) c s).
    + replace (cur +:+ String c s) with ((cur +:+ str1 c) +:+ s) by (by rewrite str_app_assoc).
      apply IH; [apply str_snoc_ne|by rewrite no_ws_snoc, Hc, Hw|]. intros t Ht. apply Hall. cbn. lia.
Qed.

Lemma fields_ws c s ws : is_ws c = true → fields s ws → fields (String c s) ws.
Proof.
  intros Hc. destruct 1 as [w Hw|w a Hw Ha Hn|w a d rest ws Hw Ha Hn Hd Hr].
  - apply fields_none. cbn [all_bytes]. by rewrite Hc.
  - apply (fields_last (String c w)); [|done..]. cbn [all_bytes]. by rewrite Hc.
  - apply (fields_more (String c w)); [|done..]. cbn [all_bytes]. by rewrite Hc.
Qed.

Lemma splitArgs_fields v : fields v (splitArgs v).
Proof.
  remember (String.length v) as n eqn:Hn. revert v Hn. induction n as [n IH] using lt_wf_ind. intros v ->.
  unfold splitArgs. destruct v as [|c v]; [by apply fields_none|]. cbn [split_args].
  change (ContainsByte envWhitespace c) with (is_ws c). destruct (is_ws c) eqn:Hw.
  - apply fields_ws; [done|]. apply (IH (String.length v)); [cbn; lia|done].
  - apply (split_args_cur v (str1 c)); [done|unfold no_ws, str1; cbn [all_bytes]; by rewrite Hw|].
    intros t Ht. apply (IH (String.length t)); [cbn; lia|done].
Qed.

Definition provider_flag (f : string) : Prop := f = flagBinDir ∨ f = flagConfigFile.

(** [kept args rest]: [rest] are the arguments of [args] that are not credential-provider
    flags, in their order. A flag is one argument with its value after an equals sign, or two. *)
Inductive kept : list string → list string → Prop :=
| kept_nil : kept [] []
| kept_valued f v args rest : provider_flag f → kept args rest → kept ((f +:+ "=" +:+ v) :: args) rest
| kept_spaced f v args rest : provider_flag f → kept args rest → kept (f :: v :: args) rest
| kept_dangling f : provider_flag f → kept [f] []
| kept_other a args rest : ¬ provider_flag a → (∀ f v, provider_flag f → a ≠ f +:+ "=" +:+ v) → kept args rest → kept (a :: args) (a :: rest).

Lemma strip_kept args : kept args (stripCredentialProviderFlags args) ∧ ∀ f, provider_flag f → kept (f :: args) (strip_flags true args).
Proof.
  unfold stripCredentialProviderFlags. induction args as [|a args [IH1 IH2]]; [by split; [constructor|intros f Hf; apply kept_dangling]|].
  split; [|intros f Hf; by apply kept_spaced]. cbn [strip_flags].
  destruct (String.eqb_spec a flagBinDir) as [->|Hb]; [by apply IH2; left|].
  destruct (String.eqb_spec a flagConfigFile) as [->|Hc]; [by apply IH2; right|]. cbn [orb].
  destruct (HasPrefix a (flagBinDir +:+ "=")) eqn:Eb.
  { apply HasPrefix_spec in Eb as [v ->]. cbn [orb]. rewrite str_app_assoc. apply kept_valued; [by left|done]. }
  destruct (HasPrefix a (flagConfigFile +:+ "=")) eqn:Ec.
  { apply HasPrefix_spec in Ec as [v ->]. cbn [orb]. rewrite str_app_assoc. apply kept_valued; [by right|done]. }
  cbn [orb]. apply kept_other; [by intros [|]|intros f v Hf ->|done].
  destruct Hf as [-> | ->]; rewrite <- str_app_assoc in *; [by rewrite HasPrefix_app in Eb|by rewrite HasPrefix_app in Ec].
Qed.

(** A line an installer before this version appended: KUBELET_EXTRA_ARGS set to the two
    flags and nothing else. *)
Definition appended_line (l : string) : Prop := ∃ binDir configFile,
  l = extraArgsKey +:+ "=" +:+ str1 dquote +:+ flagBinDir +:+ "=" +:+ binDir +:+ " " +:+ flagConfigFile +:+ "=" +:+ configFile +:+ str1 dquote ∧
  binDir ≠ "" ∧ configFile ≠ "" ∧
  ∀ c, ContainsByte (String " " (String tab quoting)) c = true → ContainsByte binDir c = false ∧ ContainsByte configFile c = false.

(** [operator_args lines asgs v]: [v] is the KUBELET_EXTRA_ARGS of the operator in a file with
    these lines, which assigns [asgs]: none, the only one, or the first of two where the
    second is a line an earlier installer appended after one it did not recognise (it
    looked for lines that start with the key and an equals sign). *)
Inductive operator_args (lines : list string) (asgs : list envAssignment) : string → Prop :=
| operator_none : extras asgs = [] → operator_args lines asgs ""
| operator_only a : extras asgs = [a] → operator_args lines asgs (avalue a)
| operator_shadowed a b : extras asgs = [a; b] → afirst b = alast b → appended_line (nth_line lines (afirst b)) →
    (∀ rest, TrimSpace (nth_line lines (afirst a)) ≠ extraArgsKey +:+ "=" +:+ rest) → operator_args lines asgs (avalue a).

Lemma ContainsAny_out s cs c : ContainsAny s cs = false → ContainsByte cs c = true → ContainsByte s c = false.
Proof.
  induction s as [|d s IH]; [done|]. cbn [ContainsAny ContainsByte]. intros [Hd Hs]%orb_false_iff Hc.
  rewrite IH by done. rewrite orb_false_r. apply not_true_is_false. intros ->%Ascii.eqb_eq. congruence.
Qed.

Lemma appended_shape operator theirs lines : appendedByEarlierInstaller operator theirs lines = true →
  afirst theirs = alast theirs ∧ appended_line (nth_line lines (afirst theirs)) ∧
  ∀ rest, TrimSpace (nth_line lines (afirst operator)) ≠ extraArgsKey +:+ "=" +:+ rest.
Proof.
  unfold appendedByEarlierInstaller. destruct (HasPrefix _ _) eqn:Hp; [done|].
  destruct (Nat.eqb_spec (afirst theirs) (alast theirs)); [|done]. cbn [negb orb].
  destruct (afterContinuedComment theirs); [done|].
  destruct (CutPrefix (nth_line _ _) _) as [v0|] eqn:E0; [|done]. apply CutPrefix_Some in E0 as ->.
  destruct (CutSuffix v0 _) as [v|] eqn:E1; [|done]. apply CutSuffix_Some in E1 as ->.
  destruct (Cut v " ") as [[b c]|] eqn:E2; [|done]. apply Cut_Some in E2 as [-> _].
  destruct (CutPrefix b _) as [b'|] eqn:Eb; [|done]. destruct (CutPrefix c _) as [c'|] eqn:Ec; [|done].
  apply CutPrefix_Some in Eb as ->, Ec as ->. intros [[Hb Hc]%andb_true_iff H]%andb_true_iff. rewrite negb_true_iff in Hb, Hc, H.
  split; [done|]. split.
  - exists b', c'. split; [by rewrite !str_app_assoc|]. split_and!; [by apply String.eqb_neq..|]. intros d Hd.
    pose proof (ContainsAny_out _ _ d H Hd) as Hn. rewrite ContainsByte_app in Hn. by apply orb_false_iff in Hn.
  - intros rest E. by rewrite E, <- str_app_assoc, HasPrefix_app in Hp.
Qed.

(** A file that was rewritten had such arguments. *)
Lemma merge_operator existing binDir configFile new asgs : parseEnvFile existing = Ok asgs → mergeExtraArgs existing binDir configFile = Ok new →
  ∃ v, operator_args (file_lines existing) asgs v ∧ old_args asgs = splitArgs v.
Proof.
  intros HP. unfold mergeExtraArgs. rewrite HP. fold (extras asgs). unfold old_args. destruct (extras asgs) as [|a [|b [|? ?]]] eqn:Hex.
  - intros _. exists "". by split; [constructor|].
  - intros _. exists (avalue a). by split; [constructor|].
  - destruct (appendedByEarlierInstaller a b _) eqn:Happ; [|done]. intros _. exists (avalue a). split; [|done].
    destruct (appended_shape _ _ _ Happ) as (? & ? & ?). by eapply operator_shadowed.
  - done.
Qed.

(** ** The claims *)

Lemma Split_unlines ls : Forall line_ok ls → Split (unlines ls) nl = ls ++ [""].
Proof.
  induction 1 as [|l ls Hl Hls IH]; [done|]. cbn [unlines]. change (str1 nl +:+ ?x) with (String nl x).
  rewrite Split_app by done. by rewrite IH.
Qed.

Lemma unlines_suffix ls : ls ≠ [] → HasSuffix (unlines ls) (str1 nl) = true.
Proof.
  destruct ls as [|l ls _] using rev_ind; [done|]. intros _. rewrite unlines_app. cbn [unlines].
  rewrite str_app_nil_r, <- str_app_assoc. apply HasSuffix_app.
Qed.

Lemma file_lines_unlines ls : Forall line_ok ls → file_lines (unlines ls) = ls.
Proof. intros H. unfold file_lines. by rewrite Split_unlines, last_snoc, removelast_last. Qed.

(** What systemd reads from a rewritten file. *)
Lemma merged_parse asgs ours new : Forall word ours → merged asgs ours new →
  ∃ pre post o1 tail, let args := stripCredentialProviderFlags (old_args asgs) in
    let a := MkAssignment extraArgsKey (Join (args ++ ours) " ") (length pre) (length pre) false in
    parseEnvFile new = Ok (o1 ++ a :: tail) ∧ extras (o1 ++ a :: tail) = [a] ∧ pairs (others (o1 ++ a :: tail)) = pairs (others asgs) ∧
    Forall word (args ++ ours) ∧ file_lines new = pre ++ extra_line (args ++ ours) :: post ∧ new = unlines (file_lines new).
Proof.
  intros Hours (pre & post & o1 & tail & Hpre & Hpost & E & Hn & Hw & HP & Ho1 & Ht & Hpairs).
  set (args := stripCredentialProviderFlags (old_args asgs)) in *.
  assert (Forall word (args ++ ours)) as Hall by (by apply Forall_app).
  assert (Forall line_ok (pre ++ extra_line (args ++ ours) :: post)) as Hok.
  { apply Forall_app. split; [by apply good_lines_ok|]. constructor; [exact (proj1 (extra_line_good _ Hall))|by apply good_lines_ok]. }
  exists pre, post, o1, tail. split_and!; try done.
  - unfold parseEnvFile. rewrite Hn. unfold parse_from in HP. fold parser0 in HP.
    assert (lone_cr new = false) as ->; [|done]. rewrite E. apply lone_cr_unlines, Forall_app. split.
    + eapply Forall_impl; [exact Hpre|]. by intros l [].
    + constructor; [exact (proj2 (extra_line_good _ Hall))|]. eapply Forall_impl; [exact Hpost|]. by intros l [].
  - unfold extras in *. rewrite List.filter_app, Ho1. cbn. by rewrite Ht.
  - rewrite others_app, others_cons, !others_all by done. done.
  - by rewrite E, file_lines_unlines.
  - by rewrite E, file_lines_unlines.
Qed.

Lemma merge_environment existing binDir configFile new asgs :
  nodePathChars binDir = true → nodePathChars configFile = true →
  parseEnvFile existing = Ok asgs → mergeExtraArgs existing binDir configFile = Ok new →
  ∃ asgs' a old args rest, parseEnvFile new = Ok asgs' ∧ extras asgs' = [a] ∧
    operator_args (file_lines existing) asgs old ∧ fields old args ∧ kept args rest ∧
    fields (avalue a) (rest ++ [flagBinDir +:+ "=" +:+ binDir; flagConfigFile +:+ "=" +:+ configFile]) ∧
    pairs (others asgs') = pairs (others asgs).
Proof.
  intros Hb Hc HP HM. pose proof (merge_merged _ _ _ _ _ Hb Hc HP HM) as Hm.
  destruct (merged_parse _ _ _ (our_flags_words _ _ Hb Hc) Hm) as (pre & post & o1 & tail & HP' & Hex & Hot & Hw & _).
  destruct (merge_operator _ _ _ _ _ HP HM) as (old & Hop & Eold).
  eexists _, _, old, (splitArgs old), (stripCredentialProviderFlags (splitArgs old)).
  split_and!; [exact HP'|exact Hex|exact Hop|apply splitArgs_fields|apply strip_kept| |exact Hot].
  cbn [avalue]. rewrite <- Eold. set (ws := _ ++ our_flags _ _) in Hw |- *.
  change (fields (Join ws " ") ws). rewrite <- (splitArgs_Join ws Hw) at 2. apply splitArgs_fields.
Qed.

(** C27: After a rewriting the file assigns KUBELET_EXTRA_ARGS once, to the words of the
    operator's value without the credential-provider flags (in the form [--flag=value] or
    [--flag value]) followed by the installer's two flags; every other variable is assigned
    as before. The operator's value is that of the only assignment, or of the first of two
    when the second is a line that an earlier installer appended, with its two flags and
    nothing else; in every other file with several the rewriting fails. *)
Theorem mergeExtraArgs_environment existing binDir configFile new asgs :
  nodePathChars binDir = true → nodePathChars configFile = true →
  parseEnvFile existing = Ok asgs → mergeExtraArgs existing binDir configFile = Ok new →
  ∃ asgs' a old args rest, parseEnvFile new = Ok asgs' ∧ extras asgs' = [a] ∧
    operator_args (file_lines existing) asgs old ∧ fields old args ∧ kept args rest ∧
    fields (avalue a) (rest ++ [flagBinDir +:+ "=" +:+ binDir; flagConfigFile +:+ "=" +:+ configFile]) ∧
    pairs (others asgs') = pairs (others asgs).
Proof. apply merge_environment. Qed.

Lemma strip_our_flags binDir configFile : stripCredentialProviderFlags (our_flags binDir configFile) = [].
Proof. reflexivity. Qed.

(** Rewriting is idempotent: a second pass over its own result leaves the file
    as it is, so kubelet is not restarted for it. *)
Theorem mergeExtraArgs_idempotent existing binDir configFile new :
  nodePathChars binDir = true → nodePathChars configFile = true →
  mergeExtraArgs existing binDir configFile = Ok new → mergeExtraArgs new binDir configFile = Ok new.
Proof.
  intros Hb Hc HM.
  assert (∃ asgs, parseEnvFile existing = Ok asgs) as [asgs HP].
  { unfold mergeExtraArgs in HM. destruct (parseEnvFile existing) as [asgs|]; [by exists asgs|discriminate HM]. }
  pose proof (merge_merged _ _ _ _ _ Hb Hc HP HM) as Hm.
  destruct (merged_parse _ _ _ (our_flags_words _ _ Hb Hc) Hm) as (pre & post & o1 & tail & HP' & Hex & _ & Hw & Hfl & Hnew).
  set (args := stripCredentialProviderFlags (old_args asgs)) in *.
  set (a := MkAssignment extraArgsKey _ _ _ _) in *.
  assert (Hrw : rewrite_line (file_lines new) (our_flags binDir configFile) a = Ok (extra_line (args ++ our_flags binDir configFile))).
  { unfold rewrite_line. cbn [a afirst alast afterContinuedComment]. rewrite Nat.eqb_refl. cbn [negb].
    rewrite Hfl, nth_line_middle.
    destruct (key_line_Cut _ _ _ (key_line_extra (args ++ our_flags binDir configFile)) eq_refl) as [bf ->].
    rewrite extra_raw_unquoted, splitArgs_Join by done. subst args. unfold stripCredentialProviderFlags at 2.
    by rewrite strip_flags_idem, strip_our_flags, app_nil_r. }
  assert (Hsuf : HasSuffix new (str1 nl) = true) by (rewrite Hnew, Hfl; apply unlines_suffix; by destruct pre).
  assert (Hins : <[length pre := extra_line (args ++ our_flags binDir configFile)]> (file_lines new) = file_lines new).
  { apply list_insert_id. by rewrite Hfl, list_lookup_middle. }
  unfold mergeExtraArgs. rewrite HP'. change (List.filter is_extra ?l) with (extras l). rewrite Hex, Hrw, Hsuf.
  cbn [negb orb andb a afirst]. rewrite Hins. rewrite unlines_Join; [by rewrite <- Hnew|]. rewrite Hfl. by destruct pre.
Qed.

(** A file with a comment, another variable and the operator's arguments. *)
Definition demo_file : string := unlines ["# kubelet"; "OTHER='a b'"; "KUBELET_EXTRA_ARGS = --v=2 --image-credential-provider-config=/old"].

Definition demo_merged : string := unlines
  ["# kubelet"; "OTHER='a b'";
   "KUBELET_EXTRA_ARGS=" +:+ str1 dquote +:+ "--v=2 --image-credential-provider-bin-dir=/opt/bin --image-credential-provider-config=/etc/c.yaml" +:+ str1 dquote].

Definition demo_read (args : string) : list envAssignment :=
  [MkAssignment "OTHER" "a b" 1 1 false; MkAssignment extraArgsKey args 2 2 false].

Lemma mergeExtraArgs_environment_witness :
  parseEnvFile demo_file = Ok (demo_read "--v=2 --image-credential-provider-config=/old") ∧
  mergeExtraArgs demo_file "/opt/bin" "/etc/c.yaml" = Ok demo_merged ∧
  ∃ asgs' a old args rest, parseEnvFile demo_merged = Ok asgs' ∧ extras asgs' = [a] ∧
    operator_args (file_lines demo_file) (demo_read "--v=2 --image-credential-provider-config=/old") old ∧ fields old args ∧ kept args rest ∧
    fields (avalue a) (rest ++ ["--image-credential-provider-bin-dir=/opt/bin"; "--image-credential-provider-config=/etc/c.yaml"]) ∧
    pairs (others asgs') = [("OTHER", "a b")].
Proof.
  split; [vm_compute; reflexivity|]. split; [vm_compute; reflexivity|].
  exact (mergeExtraArgs_environment demo_file "/opt/bin" "/etc/c.yaml" demo_merged
    (demo_read "--v=2 --image-credential-provider-config=/old") eq_refl eq_refl eq_refl eq_refl).
Defined.

Lemma mergeExtraArgs_idempotent_witness :
  mergeExtraArgs demo_file "/opt/bin" "/etc/c.yaml" = Ok demo_merged ∧
  mergeExtraArgs demo_merged "/opt/bin" "/etc/c.yaml" = Ok demo_merged.
Proof.
  split; [vm_compute; reflexivity|]. apply (mergeExtraArgs_idempotent demo_file); vm_compute; reflexivity.
Defined.

(** The line an earlier installer appended goes back into the operator's, and files
    that cannot be extended safely are refused. *)
Lemma mergeExtraArgs_samples :
  mergeExtraArgs (unlines ["KUBELET_EXTRA_ARGS =--v=2";
      "KUBELET_EXTRA_ARGS=" +:+ str1 dquote +:+ "--image-credential-provider-bin-dir=/a --image-credential-provider-config=/b" +:+ str1 dquote; "X=1"])
    "/opt/bin" "/etc/c.yaml" =
  Ok (unlines [extra_line ("--v=2" :: our_flags "/opt/bin" "/etc/c.yaml"); "X=1"]) ∧
  mergeExtraArgs "" "/opt/bin" "/etc/c.yaml" = Ok (unlines [extra_line (our_flags "/opt/bin" "/etc/c.yaml")]) ∧
  is_ok (mergeExtraArgs "A='open" "/opt/bin" "/etc/c.yaml") = false ∧
  is_ok (mergeExtraArgs (unlines ["KUBELET_EXTRA_ARGS=a"; "KUBELET_EXTRA_ARGS=b"]) "/opt/bin" "/etc/c.yaml") = false.
Proof. vm_compute. by split_and!. Qed.
