(* ===== verification/Glob.v ===== *)
(** * Wildcards of EnvironmentFile= settings

    [globMagic], [globUnescape], [globMatch] and [globBracket] of
    [installer/envfile.go], the installer's own copy of glibc's fnmatch, and the
    proof that [globMatch] decides the declarative meaning of a wildcard
    component ([glob]) and always returns.

    A position of the source in [pattern] or [name] is the suffix that starts
    there: [pattern[p:]] for [p], the empty string for [p == len(pattern)]. *)

From S2P Require Import Prelude.
From S2P Require Import GoStrings.

(** ** Components without a wildcard *)

(** The loop of [globMagic]; [bracket] is its variable. *)
Fixpoint globMagic_loop (bracket : bool) (comp : string) : bool :=
  match comp with
  | EmptyString => false
  | String c s =>
      if Ascii.eqb c "*" || Ascii.eqb c "?" then true
      else if Ascii.eqb c backslash then
        match s with EmptyString => false | String _ s' => globMagic_loop bracket s' end
      else if Ascii.eqb c "[" then globMagic_loop true s
      else if Ascii.eqb c "]" then if bracket then true else globMagic_loop bracket s
      else globMagic_loop bracket s
  end.

Definition globMagic (comp : string) : bool := globMagic_loop false comp.

(** The loop of [globUnescape]. *)
Fixpoint globUnescape_loop (comp : string) : string :=
  match comp with
  | EmptyString => EmptyString
  | String c s =>
      if Ascii.eqb c backslash then
        match s with
        | EmptyString => String c EmptyString
        | String d s' => String d (globUnescape_loop s')
        end
      else String c (globUnescape_loop s)
  end.

Definition globUnescape (comp : string) : string :=
  if negb (ContainsByte comp backslash) then comp else globUnescape_loop comp.

(** ** Bracket expressions *)

(** The results of [globBracket]: [BClosed end match], [BOpen] for [end == -1]
    and [BClass] for the error. *)
Inductive bracket := BClosed (rest : string) (matched : bool) | BOpen | BClass.

Definition ble (x y : ascii) : bool := (N_of_ascii x <=? N_of_ascii y)%N.

(** [n < len(name) && lo <= name[n] && name[n] <= hi] *)
Definition in_class (lo hi : ascii) (b : option ascii) : bool :=
  match b with Some x => ble lo x && ble x hi | None => false end.

Definition has_byte (b : option ascii) : bool := match b with Some _ => true | None => false end.

(** The loop of [globBracket] at [pattern[i:]], with its variables [first] and
    [in]; [b] is [name[n]], if there is one. *)
Fixpoint globBracket_loop (negate first in_ : bool) (s : string) (b : option ascii) {struct s} : bracket :=
  let range lo s1 :=
    match s1 with
    | String d (String e s3) =>
        if Ascii.eqb d "-" && negb (Ascii.eqb e "]") then
          if Ascii.eqb e backslash then
            match s3 with
            | EmptyString => BOpen
            | String h s4 => globBracket_loop negate false (in_ || in_class lo h b) s4 b
            end
          else globBracket_loop negate false (in_ || in_class lo e b) s3 b
        else globBracket_loop negate false (in_ || in_class lo lo b) s1 b
    | _ => globBracket_loop negate false (in_ || in_class lo lo b) s1 b
    end in
  match s with
  | EmptyString => BOpen
  | String c s1 =>
      if Ascii.eqb c "]" && negb first then BClosed s1 (has_byte b && xorb in_ negate)
      else if Ascii.eqb c "[" && match s1 with String d _ => ContainsByte ":=." d | EmptyString => false end
      then BClass
      else if Ascii.eqb c backslash then
        match s1 with EmptyString => BOpen | String c' s2 => range c' s2 end
      else range c s1
  end.

(** [globBracket(pattern, p, name, n)] on [pattern[p+1:]]. *)
Definition globBracket (s : string) (b : option ascii) : bracket :=
  match s with
  | String c s1 =>
      if Ascii.eqb c "!" || Ascii.eqb c "^" then globBracket_loop true true false s1 b
      else globBracket_loop false true false s b
  | EmptyString => globBracket_loop false true false s b
  end.

(** ** The matching loop *)

Definition classError : gerr := EMsg "character class, equivalence class or collating symbol".

(** The variables of the loop of [globMatch]: [p], [n] and, once a star was seen,
    [starP] and [starN]. *)
Record gstate := MkG { gp : string; gn : string; star : option (string * string) }.

Inductive outcome := Done (r : res bool) | More (st : gstate).

(** The end of the loop's body: the last star takes one more byte. *)
Definition backtrack (star : option (string * string)) : outcome :=
  match star with
  | Some (starP, String x starN) => More (MkG starP starN (Some (starP, starN)))
  | _ => Done (Ok false)
  end.

(** [n < len(name) && name[n] == c] *)
Definition at_byte (n : string) (c : ascii) : bool :=
  match n with String x _ => Ascii.eqb x c | EmptyString => false end.

Definition tail_of (s : string) : string := match s with String _ s => s | EmptyString => EmptyString end.
Definition head_of (s : string) : option ascii := match s with String c _ => Some c | EmptyString => None end.

(** One iteration of the loop. *)
Definition globMatch_step (st : gstate) : outcome :=
  let (p, n, star) := st in
  match p, n with
  | EmptyString, EmptyString => Done (Ok true)
  | EmptyString, _ => backtrack star
  | String c p', _ =>
      if Ascii.eqb c "*" then More (MkG p' n (Some (p', n)))
      else if Ascii.eqb c "?" then
        match n with String _ n' => More (MkG p' n' star) | EmptyString => backtrack star end
      else if Ascii.eqb c "[" then
        match globBracket p' (head_of n) with
        | BClass => Done (Err classError)
        | BOpen => if at_byte n "[" then More (MkG p' (tail_of n) star) else backtrack star
        | BClosed rest true => More (MkG rest (tail_of n) star)
        | BClosed rest false => backtrack star
        end
      else if Ascii.eqb c backslash then
        match p' with
        | String d p'' => if at_byte n d then More (MkG p'' (tail_of n) star) else backtrack star
        | EmptyString => backtrack star
        end
      else if at_byte n c then More (MkG p' (tail_of n) star)
      else backtrack star
  end.

Fixpoint globMatch_loop (fuel : nat) (st : gstate) : option (res bool) :=
  match fuel with
  | O => None
  | S fuel => match globMatch_step st with Done r => Some r | More st' => globMatch_loop fuel st' end
  end.

(** A leading dot of the name that the pattern does not spell out. *)
Definition hidden (pattern name : string) : bool :=
  HasPrefix name "." && negb (HasPrefix pattern ".") && negb (HasPrefix pattern (String backslash ".")).

(** Every iteration either shortens the pattern or moves the last star's end of
    match one byte on, so the loop runs at most this often. *)
Definition globMatch_fuel (pattern name : string) : nat :=
  S ((String.length name + 2) * S (String.length pattern)).

Definition globMatch (pattern name : string) : option (res bool) :=
  if hidden pattern name then Some (Ok false)
  else globMatch_loop (globMatch_fuel pattern name) (MkG pattern name None).

(** ** The meaning of a wildcard component *)

Module GlobSpec.

(** The members of a bracket expression: its byte ranges, and the pattern after
    its closing bracket. *)
Inductive members := Members (ranges : list (ascii * ascii)) (rest : string) | Unclosed | Unevaluable.

Definition add_range (r : ascii * ascii) (m : members) : members :=
  match m with Members rs rest => Members (r :: rs) rest | _ => m end.

Fixpoint set_members (first : bool) (s : string) {struct s} : members :=
  let range lo s1 :=
    match s1 with
    | String d (String e s3) =>
        if Ascii.eqb d "-" && negb (Ascii.eqb e "]") then
          if Ascii.eqb e backslash then
            match s3 with
            | EmptyString => Unclosed
            | String h s4 => add_range (lo, h) (set_members false s4)
            end
          else add_range (lo, e) (set_members false s3)
        else add_range (lo, lo) (set_members false s1)
    | _ => add_range (lo, lo) (set_members false s1)
    end in
  match s with
  | EmptyString => Unclosed
  | String c s1 =>
      if Ascii.eqb c "]" && negb first then Members [] s1
      else if Ascii.eqb c "[" && match s1 with String d _ => ContainsByte ":=." d | EmptyString => false end
      then Unevaluable
      else if Ascii.eqb c backslash then
        match s1 with EmptyString => Unclosed | String c' s2 => range c' s2 end
      else range c s1
  end.

Definition in_ranges (rs : list (ascii * ascii)) (x : ascii) : bool :=
  existsb (λ r, ble r.1 x && ble x r.2) rs.

(** The first element of a pattern: a star, one byte of a set, or nothing that can
    match (a trailing backslash, a set that is not evaluated). *)
Inductive element := Star | OneOf (f : ascii → bool) | Never | NotEvaluated.


Definition is_negation (s : string) : bool :=
  match s with String c _ => Ascii.eqb c "!" || Ascii.eqb c "^" | EmptyString => false end.

Definition element_of (p : string) : option (element * string) :=
  match p with
  | EmptyString => None
  | String c p' => Some
      (if Ascii.eqb c "*" then (Star, p')
       else if Ascii.eqb c "?" then (OneOf (λ _, true), p')
       else if Ascii.eqb c "[" then
         match set_members true (if is_negation p' then tail_of p' else p') with
         | Members rs rest => (OneOf (λ x, xorb (in_ranges rs x) (is_negation p')), rest)
         | Unclosed => (OneOf (Ascii.eqb "["), p')
         | Unevaluable => (NotEvaluated, EmptyString)
         end
       else if Ascii.eqb c backslash then
         match p' with String d p'' => (OneOf (Ascii.eqb d), p'') | EmptyString => (Never, EmptyString) end
       else (OneOf (Ascii.eqb c), p'))
  end.

(** [glob pattern name]: the name is a concatenation of what the elements of the
    pattern match, one after the other. *)
Inductive glob : string → string → Prop :=
  | glob_end : glob EmptyString EmptyString
  | glob_star p p' s t : element_of p = Some (Star, p') → glob p' t → glob p (s +:+ t)
  | glob_one p p' f x t : element_of p = Some (OneOf f, p') → f x = true → glob p' t → glob p (String x t).

(** No element of the pattern is a class that is not evaluated. *)
Inductive evaluable : string → Prop :=
  | ev_end : evaluable EmptyString
  | ev_next p e p' : element_of p = Some (e, p') → e ≠ NotEvaluated → evaluable p' → evaluable p.

End GlobSpec.

(** ** Correctness of the matching loop *)

Module GlobProofs.
Import GlobSpec.

Lemma str_len_ind (P : string → Prop) :
  (∀ s, (∀ t, (String.length t < String.length s)%nat → P t) → P s) → ∀ s, P s.
Proof.
  intros H s. remember (String.length s) as n eqn:E.
  revert s E. induction (lt_wf n) as [n _ IH]. intros s ->. apply H. intros t Ht. by eapply IH.
Qed.

(** What [globBracket_loop] answers for the members of the set. *)
Definition bracket_of (negate in_ : bool) (b : option ascii) (m : members) : bracket :=
  match m with
  | Members rs rest =>
      BClosed rest (has_byte b && xorb (in_ || match b with Some x => in_ranges rs x | None => false end) negate)
  | Unclosed => BOpen
  | Unevaluable => BClass
  end.

Lemma bracket_of_add negate in_ b lo hi m :
  bracket_of negate in_ b (add_range (lo, hi) m) = bracket_of negate (in_ || in_class lo hi b) b m.
Proof. destruct m; [|done..]. cbn. destruct b; cbn; [by rewrite orb_assoc | by destruct in_]. Qed.

Lemma globBracket_loop_members negate b s : ∀ first in_,
  globBracket_loop negate first in_ s b = bracket_of negate in_ b (set_members first s).
Proof.
  induction s as [s IH] using str_len_ind. intros first in_. destruct s as [|c s1]; [done|].
  cbn [globBracket_loop set_members].
  destruct (Ascii.eqb c "]" && negb first). { cbn. by destruct b; cbn; rewrite ?orb_false_r. }
  destruct (Ascii.eqb c "[" && _); [done|].
  assert (Hr : ∀ lo s2, (String.length s2 ≤ String.length s1)%nat →
    match s2 with
    | String d (String e s3) =>
        if Ascii.eqb d "-" && negb (Ascii.eqb e "]") then
          if Ascii.eqb e backslash then
            match s3 with
            | EmptyString => BOpen
            | String h s4 => globBracket_loop negate false (in_ || in_class lo h b) s4 b
            end
          else globBracket_loop negate false (in_ || in_class lo e b) s3 b
        else globBracket_loop negate false (in_ || in_class lo lo b) s2 b
    | _ => globBracket_loop negate false (in_ || in_class lo lo b) s2 b
    end = bracket_of negate in_ b
    match s2 with
    | String d (String e s3) =>
        if Ascii.eqb d "-" && negb (Ascii.eqb e "]") then
          if Ascii.eqb e backslash then
            match s3 with
            | EmptyString => Unclosed
            | String h s4 => add_range (lo, h) (set_members false s4)
            end
          else add_range (lo, e) (set_members false s3)
        else add_range (lo, lo) (set_members false s2)
    | _ => add_range (lo, lo) (set_members false s2)
    end).
  { intros lo s2 Hs2.
    repeat case_step; rewrite ?bracket_of_add, ?IH; try done; cbn in *; lia. }
  destruct (Ascii.eqb c backslash); [destruct s1; [done|]|]; apply Hr; cbn; lia.
Qed.

(** One iteration, by the first element of the pattern. *)
Lemma globMatch_step_element p n star :
  globMatch_step (MkG p n star) =
  match element_of p with
  | None => match n with EmptyString => Done (Ok true) | _ => backtrack star end
  | Some (Star, p') => More (MkG p' n (Some (p', n)))
  | Some (OneOf f, p') =>
      match n with
      | String x n' => if f x then More (MkG p' n' star) else backtrack star
      | EmptyString => backtrack star
      end
  | Some (Never, _) => backtrack star
  | Some (NotEvaluated, _) => Done (Err classError)
  end.
Proof.
  destruct p as [|c p']; [by destruct n|]. cbn [globMatch_step element_of].
  destruct (Ascii.eqb c "*"); [done|]. destruct (Ascii.eqb c "?"); [done|].
  destruct (Ascii.eqb c "[").
  { assert (Hb : globBracket p' (head_of n) =
      bracket_of (is_negation p') false (head_of n) (set_members true (if is_negation p' then tail_of p' else p'))).
    { destruct p' as [|d p']; cbn [globBracket is_negation tail_of]; [done|].
      destruct (_ || _); by rewrite globBracket_loop_members. }
    rewrite Hb. destruct (set_members true _) as [rs rest| |]; [..|done]; destruct n as [|x n]; try done; cbn;
      first [by rewrite (Ascii.eqb_sym x) | by destruct (xorb _ _)]. }
  destruct (Ascii.eqb c backslash).
  { destruct p' as [|d p'']; [done|]. destruct n as [|x n]; [done|]. cbn. by rewrite (Ascii.eqb_sym x). }
  destruct n as [|x n]; [done|]. cbn. by rewrite (Ascii.eqb_sym x).
Qed.

(** *** The invariant of the loop *)

Definition suffix (s t : string) : Prop := ∃ u, t = u +:+ s.

Lemma suffix_refl s : suffix s s.
Proof. by exists EmptyString. Qed.

Lemma suffix_cons s x t : suffix s t → suffix s (String x t).
Proof. intros [u ->]. by exists (String x u). Qed.

Lemma suffix_nil_inv s : suffix s EmptyString → s = EmptyString.
Proof. intros [u E]. by destruct u, s. Qed.

Lemma suffix_cons_inv s x t : suffix s (String x t) → s = String x t ∨ suffix s t.
Proof. intros [[|y u] E]; [by left|]. right. injection E as _ E. by exists u. Qed.

Lemma suffix_tail y s t x : suffix (String y s) (String x t) → suffix s t.
Proof.
  intros [H|H]%suffix_cons_inv; [injection H as _ ->; apply suffix_refl|].
  destruct H as [u ->]. exists (u +:+ String y EmptyString). by rewrite str_app_assoc.
Qed.
Create HintDb glob.
#[local] Hint Resolve suffix_refl suffix_cons suffix_tail : glob.

(** [seg sp sn p n]: elements that match one byte each lead from the star's
    position to the current one. *)
Inductive seg (sp sn : string) : string → string → Prop :=
  | seg_refl : seg sp sn sp sn
  | seg_snoc p p' f x n :
    seg sp sn p (String x n) → element_of p = Some (OneOf f, p') → f x = true → seg sp sn p' n.

Lemma glob_one_inv p f p' t :
  element_of p = Some (OneOf f, p') → glob p t → ∃ y u, t = String y u ∧ f y = true ∧ glob p' u.
Proof. intros E H. destruct H; simplify_eq; eauto. Qed.

Lemma glob_star_iff p p' n :
  element_of p = Some (Star, p') → glob p n ↔ ∃ s, suffix s n ∧ glob p' s.
Proof.
  intros E; split; [|intros (s & [u ->] & Hs); by econstructor].
  intros H. destruct H as [|q q' u t E' Ht|]; simplify_eq. exists t. split; [by exists u|done].
Qed.

Lemma glob_none p n : (∀ e p', element_of p = Some (e, p') → e ≠ Star ∧ ∀ f, e ≠ OneOf f) →
  p ≠ EmptyString → ¬ glob p n.
Proof. intros H Hp G. destruct G as [|? ? ? ? E|? ? ? ? ? E]; [done|..]; apply H in E as [? ?]; congruence. Qed.

(** What the star could match further on, the current position can match too. *)
Lemma seg_shift sp sn p n s : seg sp sn p n → suffix s sn → glob sp s → ∃ w, suffix w n ∧ glob p w.
Proof.
  induction 1 as [|p p' f x n Hs IH E Hx]; intros Hsuf G; [eauto|].
  destruct (IH Hsuf G) as (w & Hw & Gw). destruct (glob_one_inv _ _ _ _ E Gw) as (y & u & -> & _ & Gu).
  eauto using suffix_tail.
Qed.

Lemma seg_length sp sn p n : seg sp sn p n → (String.length n ≤ String.length sn)%nat.
Proof. induction 1; cbn in *; lia. Qed.

Definition retry (star : option (string * string)) : Prop :=
  ∃ sp x sn s, star = Some (sp, String x sn) ∧ suffix s sn ∧ glob sp s.
Definition wins (st : gstate) : Prop := glob (gp st) (gn st) ∨ retry (star st).
Definition follows (st : gstate) : Prop :=
  match star st with Some (sp, sn) => seg sp sn (gp st) (gn st) | None => True end.

(** The element at the current position consumes nothing of [n]: only the star is left. *)
Lemma backtrack_Done st b : ¬ glob (gp st) (gn st) → backtrack (star st) = Done (Ok b) → (b = true ↔ wins st).
Proof.
  intros Hn Hb. split; [destruct (star st) as [[sp [|x sn]]|]; cbn in Hb; congruence|].
  intros [|(sp & x & sn & s & E & _)]; [done|]. rewrite E in Hb. done.
Qed.

Lemma backtrack_More st st' : ¬ glob (gp st) (gn st) → backtrack (star st) = More st' →
  ∃ sp x sn, star st = Some (sp, String x sn) ∧ st' = MkG sp sn (Some (sp, sn)) ∧ (wins st ↔ wins st').
Proof.
  intros Hn Hb. destruct (star st) as [[sp [|x sn]]|] eqn:E; cbn in Hb; try done. injection Hb as <-.
  exists sp, x, sn. split_and!; [done|done|]. unfold wins, retry; cbn. split.
  - intros [|(sp' & x' & sn' & s & E' & Hs & G)]; [done|].
    rewrite E in E'. injection E' as <- <- <-.
    destruct sn as [|y sn]; [left; by apply suffix_nil_inv in Hs as -> |].
    apply suffix_cons_inv in Hs as [-> |Hs]; [by left|]. right. by exists sp, y, sn, s.
  - intros [G|(sp' & y & sn' & s & E' & Hs & G)]; right; [exists sp, x, sn, sn; eauto with glob|].
    injection E' as <- ->. exists sp, x, (String y sn'), s. eauto with glob.
Qed.

Lemma step_stuck st : (∃ e p', element_of (gp st) = Some (e, p') ∧ e ≠ Star ∧
    (∀ f x n, e = OneOf f → gn st = String x n → f x = false)) ∨ (gp st = EmptyString ∧ gn st ≠ EmptyString) →
  ¬ glob (gp st) (gn st).
Proof.
  intros [(e & p' & E & He & Hf)|[-> Hn]] G.
  - destruct G; simplify_eq/=. by erewrite Hf in *.
  - remember EmptyString as p. destruct G; simplify_eq/=.
Qed.

(** *** Every iteration keeps the answer and makes progress *)

Section Measure.
Context (P N : nat).

Definition bounded (st : gstate) : Prop :=
    (String.length (gp st) ≤ P)%nat ∧ (String.length (gn st) ≤ N)%nat ∧
    match star st with Some (sp, sn) => (String.length sp ≤ P)%nat ∧ (String.length sn ≤ N)%nat | None => True end.

Definition measure (st : gstate) : nat :=
    match star st with Some (_, sn) => String.length sn | None => S N end * S P + String.length (gp st).

Lemma set_members_rest first s rs rest :
    set_members first s = Members rs rest → (String.length rest < String.length s)%nat.
Proof.
    revert first rs. induction s as [s IH] using str_len_ind. intros first rs.
    destruct s as [|c s1]; [done|]. cbn [set_members].
    assert (Hadd : ∀ r t m, (String.length t ≤ String.length s1)%nat →
    add_range r (set_members false t) = Members m rest → (String.length rest < S (String.length s1))%nat).
    { intros r t m Ht Hm. destruct (set_members false t) eqn:E; simplify_eq/=.
    apply IH in E; cbn; lia. }
    intros H. change (String.length (String c s1)) with (S (String.length s1)).
    repeat case_step_in H; try discriminate H;
    first [eapply Hadd; [|exact H]; cbn; lia | injection H as _ <-; lia].
Qed.

Lemma element_of_rest p e p' : element_of p = Some (e, p') → (String.length p' < String.length p)%nat.
Proof.
    destruct p as [|c p1]; [done|]. cbn [element_of]. intros H.
    assert (Ht : (String.length (if is_negation p1 then tail_of p1 else p1) ≤ String.length p1)%nat).
    { destruct (is_negation p1); [destruct p1; cbn; lia | lia]. }
    change (String.length (String c p1)) with (S (String.length p1)). injection H as H.
    revert Ht H. generalize (if is_negation p1 then tail_of p1 else p1). intros q Ht H.
    repeat case_step_in H; injection H as _ <-; try (cbn; lia).
    all: match goal with E : set_members _ _ = _ |- _ => apply set_members_rest in E; lia end.
Qed.

(** Backtracking keeps the answer and makes progress. *)
Lemma backtrack_progress st st' : bounded st → ¬ glob (gp st) (gn st) → backtrack (star st) = More st' →
    (wins st ↔ wins st') ∧ follows st' ∧ bounded st' ∧ (measure st' < measure st)%nat.
Proof.
    intros Hb G B. destruct (backtrack_More st st' G B) as (sp & x & sn & E & -> & Hw).
    unfold bounded, measure, follows in *. rewrite E in *. cbn in *.
    split_and!; try lia; [done|apply seg_refl].
Qed.

Lemma star_wins p p' n st : follows (MkG p n st) → element_of p = Some (Star, p') →
    wins (MkG p n st) ↔ wins (MkG p' n (Some (p', n))).
Proof.
    intros Hf E. unfold wins, retry; cbn. rewrite (glob_star_iff _ _ _ E). split.
    - intros H. assert (∃ s, suffix s n ∧ glob p' s) as (s & Hs & G).
    { destruct H as [|(sp & x & sn & s & -> & Hs & G)]; [done|]. cbn in Hf.
      destruct (seg_shift _ _ _ _ s Hf) as (w & Hw & Gw); [by apply suffix_cons|done|].
      apply (glob_star_iff _ _ _ E) in Gw as (t & Ht & Gt). exists t. split; [|done].
      destruct Ht as [u ->], Hw as [v ->]. exists (v +:+ u). by rewrite str_app_assoc. }
    destruct n as [|x n]; [left; by apply suffix_nil_inv in Hs as ->|].
    apply suffix_cons_inv in Hs as [->|Hs]; [by left|]. right. by exists p', x, n, s.
    - intros [G|(sp & x & sn & s & [= <- ->] & Hs & G)]; left; eauto with glob.
Qed.

Lemma one_wins p p' f x n st : follows (MkG p (String x n) st) → element_of p = Some (OneOf f, p') → f x = true →
    wins (MkG p (String x n) st) ↔ wins (MkG p' n st).
Proof.
    intros Hf E Hx. unfold wins; cbn. assert (glob p (String x n) ↔ glob p' n) as ->; [|done]. split.
    - intros G. destruct (glob_one_inv _ _ _ _ E G) as (y & u & [= <- <-] & _ & Gu). done.
    - by econstructor.
Qed.

Lemma step_More st st' : follows st → bounded st → globMatch_step st = More st' →
    (wins st ↔ wins st') ∧ follows st' ∧ bounded st' ∧ (measure st' < measure st)%nat.
Proof.
    intros Hf Hb Hs. destruct st as [p n st]. rewrite globMatch_step_element in Hs.
    destruct (element_of p) as [[[|f| |] p']|] eqn:E; simplify_eq.
    - split; [by apply star_wins|]. apply element_of_rest in E.
    unfold bounded, measure, follows in *; cbn in *. split_and!; try lia; [apply seg_refl|].
    destruct st as [[sp sn]|]; [apply seg_length in Hf|]; nia.
    - destruct n as [|x n']; [|destruct (f x) eqn:Hx].
    + apply backtrack_progress; [done| |done]. apply step_stuck. left. naive_solver.
    + injection Hs as <-. split; [by eapply one_wins|]. apply element_of_rest in E as El.
      unfold bounded, measure, follows in *; cbn in *.
      split_and!; try lia; [destruct st as [[sp sn]|]; [by econstructor|done]|destruct st as [[sp sn]|]; lia..].
    + apply backtrack_progress; [done| |done]. apply step_stuck. left. naive_solver.
    - apply backtrack_progress; [done| |done]. apply step_stuck. left. naive_solver.
    - destruct n; [done|]. apply backtrack_progress; [done| |done]. apply step_stuck. right.
    by destruct p.
Qed.

Lemma step_Done st r : follows st → globMatch_step st = Done r →
    (r = Ok true ↔ wins st) ∧ (r = Ok true ∨ r = Ok false ∨ r = Err classError ∧ ¬ evaluable (gp st)).
Proof.
    intros Hf Hs. destruct st as [p n st]. rewrite globMatch_step_element in Hs.
    assert (Hback : backtrack st = Done r → ¬ glob p n →
    (r = Ok true ↔ wins (MkG p n st)) ∧ (r = Ok true ∨ r = Ok false ∨ r = Err classError ∧ ¬ evaluable p)).
    { intros B G. assert (r = Ok false) as -> by (destruct st as [[sp [|x sn]]|]; simplify_eq/=; done).
    split; [|by auto]. rewrite <- (backtrack_Done (MkG p n st) false G B). naive_solver. }
    destruct (element_of p) as [[[|f| |] p']|] eqn:E; simplify_eq.
    - destruct n as [|x n']; [|destruct (f x) eqn:Hx; [done|]];
      (apply Hback; [done|]; apply (step_stuck (MkG _ _ st)); left; naive_solver).
    - apply Hback; [done|]. apply (step_stuck (MkG _ _ st)). left. naive_solver.
    - split; [|right; right; split; [done|]; cbn; intros Ev; inversion Ev; subst; [done|congruence]].
    split; [done|]. intros [G|(sp & x & sn & s & Est & Hsuf & G)]; cbn in *; [|subst st].
    + exfalso. apply (glob_none p n); [|by intros ->|exact G]. naive_solver.
    + destruct (seg_shift _ _ _ _ s Hf) as (w & _ & Gw); [by apply suffix_cons|done|].
      exfalso. apply (glob_none p w); [|by intros ->|exact Gw]. naive_solver.
    - destruct p as [|c p]; [|done]. destruct n; [|apply Hback; [done|]; by apply (step_stuck (MkG _ _ st)); right].
    injection Hs as <-. split; [|by auto]. split; [|done]. intros _. left. constructor.
Qed.
End Measure.

Lemma evaluable_element p e p' : evaluable p → element_of p = Some (e, p') → evaluable p'.
Proof. intros H E. destruct H; simplify_eq/=; done. Qed.

Definition readable (st : gstate) : Prop :=
  evaluable (gp st) ∧ match star st with Some (sp, _) => evaluable sp | None => True end.

Lemma step_readable st st' : readable st → globMatch_step st = More st' → readable st'.
Proof.
  intros [Hp Hst] Hs. destruct st as [p n st]. rewrite globMatch_step_element in Hs.
  assert (backtrack st = More st' → readable st').
  { destruct st as [[sp [|x sn]]|]; [done| |done]. cbn. intros [= <-]. done. }
  destruct (element_of p) as [[[|f| |] p']|] eqn:E; simplify_eq; [| |auto|].
  - split; by eapply evaluable_element.
  - destruct n as [|x n']; [auto|]. destruct (f x); [|auto]. injection Hs as <-.
    split; [by eapply evaluable_element|done].
  - destruct n; [done|auto].
Qed.

Lemma globMatch_loop_spec P N fuel st : follows st → bounded P N st → (measure P N st < fuel)%nat →
  ∃ r, globMatch_loop fuel st = Some r ∧ (r = Ok true ↔ wins st) ∧ (readable st → ∃ b, r = Ok b).
Proof.
  revert st. induction fuel as [|fuel IH]; intros st Hf Hb Hm; [lia|]. cbn [globMatch_loop].
  destruct (globMatch_step st) as [r|st'] eqn:Hs.
  - destruct (step_Done st r Hf Hs) as [Hw Hr]. exists r. split_and!; [done..|].
    intros [Hev _]. naive_solver.
  - destruct (step_More P N st st' Hf Hb Hs) as (Hw & Hf' & Hb' & Hm').
    destruct (IH st' Hf' Hb') as (r & Hr & Hw' & Hro); [lia|].
    exists r. rewrite Hw. split_and!; [done..|]. intros Hrd. eapply Hro, step_readable; done.
Qed.

End GlobProofs.

(** ** The claims *)

Section Claims.
Import GlobSpec GlobProofs.

Lemma globMatch_spec pattern name :
  ∃ r, globMatch pattern name = Some r ∧
    (r = Ok true ↔ hidden pattern name = false ∧ glob pattern name) ∧
    (evaluable pattern → ∃ b, r = Ok b).
Proof.
  unfold globMatch. destruct (hidden pattern name); [naive_solver|].
  destruct (globMatch_loop_spec (String.length pattern) (String.length name)
    (globMatch_fuel pattern name) (MkG pattern name None)) as (r & Hr & Hw & Hro).
  - done.
  - by split_and!.
  - unfold globMatch_fuel, measure; cbn; lia.
  - exists r. split_and!; [done| |].
    + rewrite Hw. unfold wins, retry; cbn. naive_solver.
    + intros Hev. by apply Hro.
Qed.

(** C28: The wildcard matcher always returns, and it answers true exactly for the
    names the wildcard component denotes, a leading dot matched only by a literal
    dot; a pattern without character classes is never an error. *)
Theorem globMatch_correct pattern name :
  ∃ r, globMatch pattern name = Some r ∧
    (r = Ok true ↔ hidden pattern name = false ∧ glob pattern name) ∧
    (evaluable pattern → ∃ b, r = Ok b).
Proof. apply globMatch_spec. Qed.

Lemma globUnescape_loop_eq comp : globUnescape comp = globUnescape_loop comp.
Proof.
  unfold globUnescape. destruct (ContainsByte comp backslash) eqn:E; [done|]. cbn.
  induction comp as [|c s IH]; [done|]. cbn in *. bsimpl.
  match goal with H : Ascii.eqb c backslash = false |- _ => rewrite H end. by rewrite <- IH.
Qed.

(** After an unescaped '[', a component that is not magic has no closing ']'. *)
Lemma set_members_unclosed s : ∀ first rs rest,
  globMagic_loop true s = false → set_members first s ≠ Members rs rest.
Proof.
  induction s as [s IH] using str_len_ind. intros first rs rest Hm.
  destruct s as [|c s1]; [done|]. cbn [globMagic_loop set_members] in *.
  assert (Hadd : ∀ r t, (String.length t ≤ String.length s1)%nat → globMagic_loop true t = false →
    add_range r (set_members false t) ≠ Members rs rest).
  { intros r t Ht Hf. destruct (set_members false t) eqn:E; [|done..]. exfalso.
    apply (IH t ltac:(cbn; lia) _ _ _ Hf E). }
  destruct (Ascii.eqb c "*" || Ascii.eqb c "?"); [done|].
  assert (Hr : ∀ lo t, (String.length t ≤ String.length s1)%nat → globMagic_loop true t = false →
    match t with
    | String d (String e s3) =>
        if Ascii.eqb d "-" && negb (Ascii.eqb e "]") then
          if Ascii.eqb e backslash then
            match s3 with
            | EmptyString => Unclosed
            | String h s4 => add_range (lo, h) (set_members false s4)
            end
          else add_range (lo, e) (set_members false s3)
        else add_range (lo, lo) (set_members false t)
    | _ => add_range (lo, lo) (set_members false t)
    end ≠ Members rs rest).
  { intros lo t Ht Hf. destruct t as [|d [|e s3]]; [by apply Hadd..|].
    destruct (Ascii.eqb d "-" && negb (Ascii.eqb e "]")) eqn:E; [|by apply Hadd].
    bsimpl. destruct (Ascii.eqb_spec d "-") as [->|]; [|done]. cbn [globMagic_loop] in Hf.
    cbn in Hf. destruct (Ascii.eqb e backslash) eqn:Ee.
    - destruct s3 as [|h s4]; [done|]. apply Hadd; [cbn in *; lia|].
      apply Ascii.eqb_eq in Ee as ->. exact Hf.
    - apply Hadd; [cbn in *; lia|].
      destruct (Ascii.eqb e "*" || Ascii.eqb e "?"); [done|].
      rewrite H0 in Hf. by destruct (Ascii.eqb e "["). }
  destruct (Ascii.eqb c backslash) eqn:Eb.
  { apply Ascii.eqb_eq in Eb as ->. cbn. destruct s1 as [|c' s2]; [done|]. apply Hr; [cbn; lia|done]. }
  destruct (Ascii.eqb_spec c "]") as [->|]; [done|]. cbn.
  destruct (Ascii.eqb c "[" && _); [done|]. apply Hr; [done|]. by destruct (Ascii.eqb c "[").
Qed.

(** A component that [globMagic] does not call a wildcard denotes at most the
    name its escapes spell, so that taking the unescaped name as it is, without
    reading the directory, loses nothing. *)
Theorem globMagic_literal comp name : globMagic comp = false → glob comp name → name = globUnescape comp.
Proof.
  rewrite globUnescape_loop_eq. unfold globMagic. generalize false at 1 as b. intros b Hm Hg. revert b Hm.
  induction Hg as [|p p' s t E _ _|p p' f x t E Hf _ IH]; intros b Hm; [done|..].
  - destruct p as [|c p]; [done|]. cbn in E, Hm.
    destruct (Ascii.eqb c "*"); [done|]. by repeat case_step_in E.
  - destruct p as [|c p]; [done|]. cbn [element_of globMagic_loop globUnescape_loop] in *.
    destruct (Ascii.eqb c "*") eqn:?; [done|]. destruct (Ascii.eqb c "?") eqn:?; [done|]. cbn in Hm.
    destruct (Ascii.eqb_spec c "[") as [->|]; cbn in Hm |- *.
    + set (q := if is_negation p then tail_of p else p) in *.
      assert (Hq : globMagic_loop true q = false).
      { subst q. destruct p as [|d p]; [done|]. cbn [is_negation tail_of].
        destruct (Ascii.eqb_spec d "!") as [->|]; [done|]. by destruct (Ascii.eqb_spec d "^") as [->|]. }
      destruct (set_members true q) eqn:Em; [by apply set_members_unclosed in Em| |done].
      injection E as <- <-. apply Ascii.eqb_eq in Hf as <-. f_equal. exact (IH true Hm).
    + destruct (Ascii.eqb c backslash); [destruct p as [|d p]; [done|]|];
        injection E as <- <-; apply Ascii.eqb_eq in Hf as <-; f_equal.
      * by eapply IH.
      * destruct (Ascii.eqb c "]"); [destruct b; [done|]|]; by eapply IH.
Qed.
End Claims.

Lemma globMatch_samples :
  globMatch "*.env" "kubelet.env" = Some (Ok true) ∧ globMatch "*.env" ".env" = Some (Ok false) ∧
  globMatch "[!a-c]?*" "dxy" = Some (Ok true) ∧ globMatch "[a" "[a" = Some (Ok true) ∧
  globMatch "a*b*c" "aXbYbZ" = Some (Ok false) ∧ globMatch "[[:alpha:]]" "a" = Some (Err classError).
Proof. by vm_compute. Qed.

Lemma globMagic_literal_witness :
  globMagic (String backslash "*[x") = false ∧ "*[x" = globUnescape (String backslash "*[x").
Proof.
  split; [done|]. apply globMagic_literal; [done|].
  do 3 (eapply GlobSpec.glob_one; [vm_compute; reflexivity|vm_compute; reflexivity|]).
  apply GlobSpec.glob_end.
Defined.
