(* ===== verification/KubeletEnv.v ===== *)
(** * The environment file of the kubelet unit

    [installer/envfile.go]: which of the unit's environment files KUBELET_EXTRA_ARGS
    comes from, as systemd reads them. Log lines and the lists of paths in messages are
    dropped. *)

From S2P Require Import Prelude Effects GoStrings GoStd GoTime GoPath InstallerConfig Host InstallerState EnvFile KubeletUnit EnvFileParse EnvFileMerge Glob.

Definition kubeletEnvFiles : list string := [defaultKubeletPath; "/etc/sysconfig/kubelet"].
Definition is_operator (f : string) : bool := existsb (String.eqb f) kubeletEnvFiles.

(** The regular expression [setsExtraArgs]; [start] is set where a match may begin. *)
Definition arg_boundary (c : ascii) : bool :=
  ContainsByte (String " " (String tab (String nl (String (ascii_of_nat 12) (String cr (String dquote (str1 squote))))))) c.
Fixpoint sets_extra (start : bool) (s : string) : bool :=
  (start && HasPrefix s (extraArgsKey +:+ "="))
  || match s with EmptyString => false | String c s => sets_extra (arg_boundary c) s end.
Definition setsExtraArgs (s : string) : bool := sets_extra true s.

(** ** Wildcard expressions *)

(** [globMatch] always returns ([globMatch_correct]); the loop's fuel is enough. *)
Definition glob_match (pattern name : string) : res bool :=
  match globMatch pattern name with Some r => r | None => Err (EMsg "globMatch did not return") end.

(** The loop over the entries of a directory. *)
Fixpoint match_entries (dir pattern : string) (last : bool) (entries : list (string * ftype)) : res (list string) :=
  match entries with
  | [] => Ok []
  | (name, ty) :: entries =>
      match glob_match pattern name with
      | Err e => Err e
      | Ok false => match_entries dir pattern last entries
      | Ok true =>
          let path := JoinPath dir name in
          if negb last && bool_decide (ty = FSymlink) then Err (EMsg "is a symlink, which systemd follows and the installer does not")
          else if negb last && negb (bool_decide (ty = FDir)) then match_entries dir pattern last entries
          else res_map (cons path) (match_entries dir pattern last entries)
      end
  end.

(** [sort.Strings]. *)
Definition string_le (a b : string) : Prop := String.ltb b a = false.
#[export] Instance string_le_dec a b : Decision (string_le a b).
Proof. unfold string_le. apply _. Defined.
Definition sort_strings (l : list string) : list string := merge_sort string_le l.

Section Env.
Context (c : config).

Definition globDir (dir pattern : string) (last : bool) : host (res (list string)) :=
  r ← trigger (OpenDir (hostPath c dir));
  match r with
  | Err e => if errors_Is e ErrNotExist || errors_Is e ENOTDIR then Ret (Ok []) else Ret (Err e)
  | Ok root =>
      hdefer (trigger (CloseDir root)) (
        entries ← trigger (ReadEntries root);
        match entries with
        | Err e => Ret (Err e)
        | Ok entries => Ret (match_entries dir pattern last entries)
        end)
  end.

(** The matches of one wildcard component in each directory. *)
Fixpoint glob_dirs (dirs : list string) (comp : string) (last : bool) : host (res (list string)) :=
  match dirs with
  | [] => Ret (Ok [])
  | dir :: dirs =>
      m ← globDir dir comp last;
      match m with
      | Err e => Ret (Err e)
      | Ok m =>
          next ← glob_dirs dirs comp last;
          Ret (res_map (app m) next)
      end
  end.

Fixpoint expand (paths : list string) (components : list string) : host (res (list string)) :=
  match components with
  | [] => Ret (Ok paths)
  | comp :: rest =>
      if negb (globMagic comp) then expand ((λ p, JoinPath p (globUnescape comp)) <$> paths) rest
      else
        next ← glob_dirs paths comp (match rest with [] => true | _ => false end);
        match next with
        | Err e => Ret (Err e)
        | Ok next => expand next rest
        end
  end.

Definition expandEnvFile (pattern : string) : host (res (list string)) :=
  let components := Split (TrimPrefix pattern "/") "/" in
  if negb (existsb globMagic components) then Ret (Ok ["/" +:+ Join (globUnescape <$> components) "/"])
  else
    r ← expand ["/"] components;
    Ret (res_map sort_strings r).

(** ** Reading the files *)

Definition isHostDir (path : string) : host bool :=
  r ← trigger (OpenDir (Dir path));
  match r with
  | Err _ => Ret false
  | Ok root =>
      hdefer (trigger (CloseDir root)) (
        fi ← trigger (LstatIn root (Base path));
        Ret (match fi with Ok fi => bool_decide (fi_type fi = FDir) | Err _ => false end))
  end.

(** What the content of a file assigns, or why it is refused. *)
Definition read_content (skippable : bool) (data : string) : res (list envAssignment) :=
  match parseEnvFile data with
  | Ok assignments => Ok assignments
  | Err e => if errors_Is e errUnloadableEnvFile && skippable then Ok [] else Err (EWrap "environment file" e)
  end.

Definition readEnvFile (f : string) (skippable : bool) : host (res (list envAssignment)) :=
  r ← trigger (ReadHostFile (hostPath c f));
  match r with
  | Ok data => Ret (read_content skippable data)
  | Err e =>
      if errors_Is e ErrNotExist then Ret (Ok [])
      else if skippable then
        d ← isHostDir (hostPath c f);
        if d : bool then Ret (Ok []) else Ret (Err (EWrap "read an environment file" e))
      else Ret (Err (EWrap "read an environment file" e))
  end.

(** The files systemd reads for the unit, in order, with what each assigns. *)
Definition env_reading : Type := list (string * list envAssignment).

Fixpoint read_files (optional : bool) (files : list string) : host (res env_reading) :=
  match files with
  | [] => Ret (Ok [])
  | f :: files =>
      a ← readEnvFile f (optional && negb (is_operator f));
      match a with
      | Err e => Ret (Err e)
      | Ok a => rest ← read_files optional files; Ret (res_map (cons (f, a)) rest)
      end
  end.

Fixpoint read_refs (refs : list envFileRef) : host (res env_reading) :=
  match refs with
  | [] => Ret (Ok [])
  | ref :: refs =>
      if negb (IsAbs (EPath ref)) then Ret (Err (EMsg "the environment file is not an absolute path"))
      else
        files ← expandEnvFile (EPath ref);
        match files with
        | Err e => Ret (Err (EWrap "the environment files" e))
        | Ok files =>
            a ← read_files (Optional ref) files;
            match a with
            | Err e => Ret (Err e)
            | Ok a => rest ← read_refs refs; Ret (res_map (app a) rest)
            end
        end
  end.

(** The variables of the loop after it: the last file that assigns the arguments, and
    the last of the operator's files. *)
Definition assigning (reading : env_reading) : string :=
  fold_left (λ acc r, if existsb is_extra r.2 then r.1 else acc) reading "".
Definition lastOperator (reading : env_reading) : string :=
  fold_left (λ acc (r : string * list envAssignment), if is_operator r.1 then r.1 else acc) reading "".

Definition choose (env : unitEnvironment) (reading : env_reading) : res string :=
  if negb (String.eqb (assigning reading) "") && negb (is_operator (assigning reading))
  then Err (EMsg "takes KUBELET_EXTRA_ARGS from a file the installer does not edit")
  else if negb (String.eqb (assigning reading) "") then Ok (assigning reading)
  else if String.eqb (lastOperator reading) "" then Err (EMsg "patch mode has nowhere to put the kubelet flags")
  else if setsExtraArgs (Assignments env) then Err (EMsg "sets KUBELET_EXTRA_ARGS with Environment=")
  else Ok (lastOperator reading).

Definition kubeletEnvFile : host (res string) :=
  env ← environment (KubeletUnit c);
  match env with
  | Err e => Ret (Err (EWrap "find the environment files" e))
  | Ok env =>
      reading ← read_refs (EFiles env);
      match reading with
      | Err e => Ret (Err e)
      | Ok reading => Ret (choose env reading)
      end
  end.
End Env.

(** ** The files of the unit

    What systemd reads, said over the files and directories of the node. *)

Lemma JoinPath_abs a b : IsAbs a = true → IsAbs (JoinPath a b) = true.
Proof.
  intros Ha. unfold JoinPath. destruct a as [|ch a]; [done|]. cbn [String.eqb]. rewrite Clean_abs; [done|].
  rewrite app_cons. exact Ha.
Qed.

#[export] Instance string_le_total : Total string_le.
Proof.
  intros a b. unfold string_le, String.ltb. rewrite (String.compare_antisym b a). destruct (String.compare a b); cbn; auto.
Qed.

Section Files.
Context (c : config).
(** The content of each file of the node, the entries of each directory (by their paths on
    the host), the directory behind a handle, and the unit's settings of EnvironmentFile. *)
Context (files : string → res string) (dirs : string → res (list (string * ftype))) (path_of : nat → string).
Context (refs : list envFileRef).

(** A node that stays as it is while the installer reads it. *)
Definition files_env (h : log hans) (call : hcall) : hans call → Prop :=
  match call with
  | ReadHostFile p => λ r, r = files p
  | OpenDir p => λ r, match r with Ok d => path_of d = p | Err e => dirs p = Err e end
  | ReadEntries d => λ r, r = dirs (path_of d)
  | Systemctl args => λ r, Systemctl args = show_environment (KubeletUnit c) → r.2 = None → shows (Split r.1 nl) refs
  | _ => λ _, True
  end.

(** [reach p comps q]: [q] is a path the components [comps] lead to from [p]. A component
    with a wildcard leads to every entry of the directory that it matches, on the way to
    others only through directories; one without leads where it says. *)
Inductive reach : string → list string → string → Prop :=
| reach_end p : reach p [] p
| reach_literal p comp rest q : globMagic comp = false → reach (JoinPath p (globUnescape comp)) rest q → reach p (comp :: rest) q
| reach_wild p comp rest entries name ty q : globMagic comp = true → dirs (hostPath c p) = Ok entries → (name, ty) ∈ entries →
    hidden comp name = false → GlobSpec.glob comp name → (rest ≠ [] → ty = FDir) →
    reach (JoinPath p name) rest q → reach p (comp :: rest) q.

(** The files a setting names, in the order systemd reads them. *)
Definition named_files (pattern : string) (fs : list string) : Prop :=
  let components := Split (TrimPrefix pattern "/") "/" in
  if existsb globMagic components then Sorted string_le fs ∧ ∀ q, q ∈ fs ↔ reach "/" components q
  else fs = ["/" +:+ Join (globUnescape <$> components) "/"].

(** What systemd takes from a file: its assignments; nothing from one that is missing; and,
    where errors are ignored, nothing from one it cannot load (only for files the installer
    does not edit). *)
Definition assigns (optional : bool) (f : string) (asgs : list envAssignment) : Prop :=
  match files (hostPath c f) with
  | Ok data => parseEnvFile data = Ok asgs ∨
      optional = true ∧ is_operator f = false ∧ asgs = [] ∧ ∃ e, parseEnvFile data = Err e ∧ errors_Is e errUnloadableEnvFile = true
  | Err e => asgs = [] ∧ (errors_Is e ErrNotExist = true ∨ optional = true ∧ is_operator f = false)
  end.

(** What systemd reads for the unit: the files of its settings, in order. *)
Inductive unit_reading : list envFileRef → env_reading → Prop :=
| unit_end : unit_reading [] []
| unit_setting ref settings fs here later : named_files (EPath ref) fs →
    Forall2 (λ f x, x.1 = f ∧ assigns (Optional ref) f x.2) fs here → unit_reading settings later →
    unit_reading (ref :: settings) (here ++ later).

Notation fwp h p Q := (wp files_env (λ _ _, True) h p Q).

Lemma glob_match_true pattern name : glob_match pattern name = Ok true ↔ hidden pattern name = false ∧ GlobSpec.glob pattern name.
Proof. unfold glob_match. destruct (globMatch_spec pattern name) as (r & -> & H & _). exact H. Qed.

(** The entries of one directory that match. *)
Lemma match_entries_spec dir pattern last entries l : match_entries dir pattern last entries = Ok l → ∀ q, q ∈ l ↔
  ∃ name ty, (name, ty) ∈ entries ∧ glob_match pattern name = Ok true ∧ (last = false → ty = FDir) ∧ q = JoinPath dir name.
Proof.
  revert l. induction entries as [|[name ty] entries IH]; intros l; cbn [match_entries].
  { intros [= <-] q. split; [by intros ?%elem_of_nil|]. by intros (? & ? & ?%elem_of_nil & _). }
  assert (Hno : (∀ t, glob_match pattern name = Ok true → (last = false → t = FDir) → t = ty → False) →
    match_entries dir pattern last entries = Ok l → ∀ q, q ∈ l ↔
    ∃ n t, (n, t) ∈ (name, ty) :: entries ∧ glob_match pattern n = Ok true ∧ (last = false → t = FDir) ∧ q = JoinPath dir n).
  { intros Hn Hm q. rewrite (IH l Hm). split; [intros (n & t & ? & ?); exists n, t; split; [by right|done]|].
    intros (n & t & [E|?]%elem_of_cons & ? & ? & ?); [injection E as -> ->; naive_solver|by exists n, t]. }
  destruct (glob_match pattern name) as [[]|] eqn:Eg; [|intros; apply Hno; naive_solver|done].
  destruct (negb last && bool_decide (ty = FSymlink)) eqn:Es; [done|].
  destruct (negb last && negb (bool_decide (ty = FDir))) eqn:Ed.
  { apply andb_true_iff in Ed as [El Hd]. apply negb_true_iff in El as ->. rewrite negb_true_iff, bool_decide_eq_false in Hd.
    intros Hm. apply Hno; [naive_solver|done]. }
  destruct (match_entries dir pattern last entries) as [l'|]; [|done]. intros [= <-] q. cbn. rewrite elem_of_cons, (IH l' eq_refl).
  assert (last = false → ty = FDir) as Hty.
  { intros ->. cbn in Ed. apply negb_false_iff, bool_decide_eq_true in Ed. done. }
  split.
  - intros [->|(n & t & ? & ?)]; [exists name, ty; by split; [left|]|exists n, t; by split; [right|]].
  - intros (n & t & [E|?]%elem_of_cons & ? & ? & ->); [injection E as -> ->; by left|right; by exists n, t].
Qed.

(** One wildcard component in one directory. *)
Definition matches (dir comp : string) (last : bool) (q : string) : Prop := ∃ entries name ty,
  dirs (hostPath c dir) = Ok entries ∧ (name, ty) ∈ entries ∧ glob_match comp name = Ok true ∧ (last = false → ty = FDir) ∧ q = JoinPath dir name.

Lemma wp_globDir dir comp last h :
  fwp h (globDir c dir comp last) (λ _ r, ∀ l, r = Ok l → ∀ q, q ∈ l ↔ matches dir comp last q).
Proof.
  unfold globDir. wp_call; [done|]. intros [d|e] Hd; cbn in Hd.
  - unfold hdefer. apply wp_bind. wp_call; [done|]. intros r Hr. cbn in Hr. rewrite Hd in Hr.
    destruct r as [entries|e]; (wp_call; [done|]); intros u _ l; [|done]. intros H q. rewrite (match_entries_spec _ _ _ _ _ H).
    unfold matches. rewrite <- Hr. naive_solver.
  - destruct (_ || _); [|done]. intros l [= <-] q. split; [by intros ?%elem_of_nil|]. intros (es & ? & ? & Hes & _). by rewrite Hd in Hes.
Qed.

Lemma wp_glob_dirs ds comp last h : fwp h (glob_dirs c ds comp last)
  (λ _ r, ∀ l, r = Ok l → ∀ q, q ∈ l ↔ ∃ dir, dir ∈ ds ∧ matches dir comp last q).
Proof.
  revert h. induction ds as [|dir ds IH]; intros h; cbn [glob_dirs].
  { intros l [= <-] q. split; [by intros ?%elem_of_nil|]. by intros (? & ?%elem_of_nil & _). }
  wp_cut wp_globDir. intros h1 [m|e] Hm; [|done]. wp_cut IH. intros h2 [next|e] Hn l; [|done]. intros [= <-] q.
  rewrite elem_of_app, (Hm m eq_refl), (Hn next eq_refl). split.
  - intros [?|(d & ? & ?)]; [exists dir; by split; [left|]|exists d; by split; [right|]].
  - intros (d & [->|?]%elem_of_cons & ?); [by left|right; by exists d].
Qed.

Lemma wp_expand comps : ∀ paths h, fwp h (expand c paths comps)
  (λ _ r, ∀ l, r = Ok l → ∀ q, q ∈ l ↔ ∃ p, p ∈ paths ∧ reach p comps q).
Proof.
  induction comps as [|comp rest IH]; intros paths h; cbn [expand].
  { intros l [= <-] q. split; [intros Hq; exists q; by split; [|constructor]|]. intros (p & Hp & Hr). by inversion Hr; subst. }
  destruct (globMagic comp) eqn:Em; cbn [negb].
  - wp_cut wp_glob_dirs. intros h1 [next|e] Hn; [|done]. eapply wp_mono; [apply IH|]. intros h2 r Hr l E q. rewrite (Hr l E).
    split.
    + intros (p & (dir & Hdir & es & name & ty & Hes & Hin & [Hh Hg]%glob_match_true & Hty & ->)%(Hn next eq_refl) & Hq).
      exists dir. split; [done|]. apply (reach_wild dir comp rest es name ty q); [done..| |done]. intros Hne. apply Hty. by destruct rest.
    + intros (dir & Hdir & Hq). inversion Hq as [|? ? ? ? Hm|? ? ? es name ty ? _ Hes Hin Hh Hg Hty Hrest]; subst; [congruence|].
      exists (JoinPath dir name). split; [|done]. apply (Hn next eq_refl). exists dir. split; [done|]. exists es, name, ty.
      split_and!; [done..|by apply glob_match_true| |done]. intros El. apply Hty. by destruct rest.
  - eapply wp_mono; [apply IH|]. intros h1 r Hr l E q. rewrite (Hr l E). split.
    + intros (p & (p0 & -> & Hp0)%list_elem_of_fmap & Hq). exists p0. split; [done|]. by apply reach_literal.
    + intros (p & Hp & Hq). inversion Hq as [|? ? ? ? _ Hrest|]; subst; [|congruence].
      exists (JoinPath p (globUnescape comp)). split; [|done]. apply list_elem_of_fmap. by exists p.
Qed.

Lemma wp_expandEnvFile pattern h : fwp h (expandEnvFile c pattern) (λ _ r, ∀ l, r = Ok l → named_files pattern l).
Proof.
  unfold expandEnvFile, named_files. destruct (existsb globMagic _); cbn [negb]; [|by intros l [= <-]].
  wp_cut wp_expand. intros h1 [l0|e] Hl l; [|done]. intros [= <-]. split.
  - apply (Sorted_merge_sort string_le).
  - intros q. unfold sort_strings. rewrite (elem_of_Permutation_proper q _ _ (merge_sort_Permutation string_le l0)), (Hl l0 eq_refl). split.
    + by intros (p & ->%list_elem_of_singleton & ?).
    + intros Hq. exists "/". by split; [apply list_elem_of_singleton|].
Qed.

(** Every file systemd reads has an absolute path. *)
Lemma reach_abs p comps q : reach p comps q → IsAbs p = true → IsAbs q = true.
Proof. induction 1 as [|? ? ? ? ? _ IH|? ? ? ? ? ? ? ? ? ? ? ? ? _ IH]; [done|intros Hp; by apply IH, JoinPath_abs..]. Qed.

Definition absolute (l : list string) : Prop := Forall (λ p, IsAbs p = true) l.

Lemma named_abs pattern fs : named_files pattern fs → absolute fs.
Proof.
  unfold named_files. destruct (existsb _ _); [|intros ->; by repeat constructor]. intros [_ Hq]. apply Forall_forall.
  intros q Hin. apply Hq in Hin. by eapply reach_abs.
Qed.

Lemma unit_abs settings reading : unit_reading settings reading → absolute (fst <$> reading).
Proof.
  induction 1 as [|ref settings fs here later Hn Hh _ IH]; [constructor|]. unfold absolute in *. rewrite fmap_app. apply Forall_app.
  split; [|done]. apply named_abs in Hn. rewrite Forall_fmap. clear IH. induction Hh as [|f x fs here [Hx _] _ IHh]; [constructor|].
  apply Forall_cons in Hn as [Hf Hfs]. constructor; [cbn; by rewrite Hx|by apply IHh].
Qed.
End Files.

(** ** The chosen file is the one that counts *)

(** The assignment of KUBELET_EXTRA_ARGS kubelet runs with: the last one systemd reads. *)
Definition effective (reading : env_reading) : option envAssignment := last (extras (concat (snd <$> reading))).

(** The reading after the file [f] was rewritten to assign [asgs]. *)
Definition patched (f : string) (asgs : list envAssignment) (reading : env_reading) : env_reading :=
  (λ r, if String.eqb r.1 f then (f, asgs) else r) <$> reading.

Definition sets_none (reading : env_reading) : Prop := Forall (λ r, existsb is_extra r.2 = false) reading.

Lemma extras_none asgs : existsb is_extra asgs = false → extras asgs = [].
Proof.
  induction asgs as [|a asgs IH]; [done|]. cbn [existsb]. intros [Ha H]%orb_false_iff. unfold extras in *. cbn [List.filter].
  rewrite Ha. by apply IH.
Qed.

Lemma sets_none_extras reading : sets_none reading → extras (concat (snd <$> reading)) = [].
Proof.
  intros H. induction H as [|r reading Hr _ IH]; [done|]. cbn [fmap list_fmap concat]. unfold extras in *.
  rewrite List.filter_app, IH. pose proof (extras_none _ Hr) as E. unfold extras in E. by rewrite E.
Qed.

(** The last element a predicate picks. *)
Lemma last_pick {A} (f : A → string) (p : A → bool) l acc : (∀ x, x ∈ l → p x = true → f x ≠ "") →
  let v := fold_left (λ acc x, if p x then f x else acc) l acc in
  (Forall (λ x, p x = false) l ∧ v = acc) ∨ ∃ pre x post, l = pre ++ x :: post ∧ p x = true ∧ v = f x ∧ f x ≠ "" ∧ Forall (λ x, p x = false) post.
Proof.
  revert acc. induction l as [|x l IH]; intros acc Hne; [by left|]. cbn [fold_left].
  assert (Hl : ∀ y, y ∈ l → p y = true → f y ≠ "") by (intros y Hy; apply Hne; by right).
  destruct (IH (if p x then f x else acc) Hl) as [[Hn Hv]|(pre & y & post & -> & Hy)].
  - destruct (p x) eqn:Ex; [|left; split; [by constructor|done]]. right. exists [], x, l.
    split_and!; [done|done|exact Hv|apply Hne; [left|done]|done].
  - right. by exists (x :: pre), y, post.
Qed.

Lemma operator_nonempty f : is_operator f = true → f ≠ "".
Proof. by intros H ->. Qed.

(** What [choose] returns: an operator's file of the reading after which nothing
    assigns the arguments; if it assigns none itself, nothing does. *)
Lemma choose_Ok env reading f : absolute (fst <$> reading) → choose env reading = Ok f →
  is_operator f = true ∧ ∃ pre asgs post, reading = pre ++ (f, asgs) :: post ∧ sets_none post ∧
    (extras asgs = [] → sets_none pre ∧ setsExtraArgs (Assignments env) = false).
Proof.
  intros Habs H. unfold choose in H.
  assert (Hne : ∀ r : string * list envAssignment, r ∈ reading → existsb is_extra r.2 = true → r.1 ≠ "").
  { intros r Hr _ E. unfold absolute in Habs. rewrite Forall_fmap, Forall_forall in Habs. specialize (Habs _ Hr). cbn in Habs.
    by rewrite E in Habs. }
  destruct (last_pick fst (λ r, existsb is_extra r.2) reading "" Hne) as [[Hn Hv]|(pre & [g asgs] & post & -> & Hx & Hv & Hg & Hpost)].
  - unfold assigning in H. rewrite Hv in H. cbn [String.eqb negb andb] in H.
    destruct (last_pick fst (λ r, is_operator r.1) reading "") as [[_ Hl]|(pre & [g asgs] & post & -> & Hop & Hl & _)];
      [intros r _; by apply operator_nonempty|unfold lastOperator in H; by rewrite Hl in H|].
    unfold lastOperator in H. rewrite Hl in H. cbn [fst] in *. destruct (String.eqb g ""); [done|].
    destruct (setsExtraArgs _); [done|]. injection H as <-. split; [done|]. exists pre, asgs, post. split; [done|].
    apply Forall_app in Hn as [? [_ ?]%Forall_cons]. done.
  - unfold assigning in H. rewrite Hv in H. cbn [fst] in *. rewrite (proj2 (String.eqb_neq _ _) Hg) in H. cbn [negb andb] in H.
    destruct (is_operator g) eqn:Eop; [|done]. injection H as <-. split; [done|]. exists pre, asgs, post. split_and!; [done..|].
    intros Hnone. exfalso. revert Hx. cbn. clear -Hnone. induction asgs as [|a asgs IH]; [done|]. cbn [existsb]. unfold extras in *.
    cbn [List.filter] in Hnone. destruct (is_extra a); [done|]. by apply IH.
Qed.

(** A file that is read again later assigns the same again. *)
Lemma patched_later f asgs' post a : sets_none post → extras asgs' = [a] →
  Forall (λ x, x = a) (extras (concat (snd <$> patched f asgs' post))).
Proof.
  intros Hpost Ha. induction Hpost as [|[g ga] post Hg _ IH]; [constructor|].
  change (patched f asgs' ((g, ga) :: post)) with ((if String.eqb g f then (f, asgs') else (g, ga)) :: patched f asgs' post).
  rewrite fmap_cons. cbn [concat]. unfold extras in *. rewrite List.filter_app. apply Forall_app. split; [|exact IH].
  pose proof (extras_none _ Hg) as E. unfold extras in E. cbn [snd] in E.
  destruct (String.eqb g f); cbn [snd]; [rewrite Ha; by repeat constructor|rewrite E; constructor].
Qed.

Lemma patched_effective f asgs' reading pre asgs post a : reading = pre ++ (f, asgs) :: post → sets_none post → extras asgs' = [a] →
  effective (patched f asgs' reading) = Some a.
Proof.
  intros -> Hpost Ha. pose proof (patched_later f asgs' post a Hpost Ha) as Hq. unfold effective.
  unfold patched. rewrite fmap_app, fmap_cons. cbn [fst]. rewrite String.eqb_refl. fold (patched f asgs' pre) (patched f asgs' post).
  rewrite fmap_app, fmap_cons, concat_app. cbn [concat snd]. unfold extras in *. rewrite !List.filter_app, Ha.
  destruct (List.filter is_extra (concat (snd <$> patched f asgs' post))) as [|x q]; [by rewrite app_nil_r, last_snoc|].
  rewrite !last_app. destruct (last (x :: q)) as [y|] eqn:El; [|by apply last_None in El].
  apply last_Some_elem_of in El. rewrite Forall_forall in Hq. by rewrite (Hq _ El).
Qed.

(** Before it was rewritten, the file decided alone what kubelet got. *)
Lemma chosen_effective f pre asgs post : sets_none post → (extras asgs = [] → sets_none pre) →
  effective (pre ++ (f, asgs) :: post) = last (extras asgs).
Proof.
  intros Hpost Hpre. unfold effective. rewrite fmap_app, fmap_cons, concat_app. cbn [concat snd].
  unfold extras in *. rewrite !List.filter_app. fold (extras (concat (snd <$> post))). rewrite (sets_none_extras _ Hpost), app_nil_r.
  rewrite last_app. destruct (last (List.filter is_extra asgs)) eqn:El; [done|]. apply last_None in El.
  fold (extras (concat (snd <$> pre))). by rewrite (sets_none_extras _ (Hpre El)).
Qed.

(** ** Against the files of a node *)

Section Node.
Context (c : config) (files : string → res string) (dirs : string → res (list (string * ftype))) (path_of : nat → string).
Context (refs : list envFileRef).

Notation env := (files_env c files dirs path_of refs).
Notation gives := (assigns c files).
Notation reads := (unit_reading c files dirs).

Lemma wp_readEnvFile f optional h :
  wp env (λ _ _, True) h (readEnvFile c f (optional && negb (is_operator f)))
    (λ _ r, match r with Ok asgs => gives optional f asgs | Err _ => True end).
Proof.
  unfold readEnvFile. wp_call; [done|]. intros r Hr. cbn in Hr. destruct r as [data|e].
  - apply wp_ret. unfold read_content, assigns. rewrite <- Hr. destruct (parseEnvFile data) as [asgs|e] eqn:E; [by left|].
    destruct (errors_Is e errUnloadableEnvFile) eqn:Eu; [|done]. destruct optional; [|done]. cbn [andb].
    destruct (is_operator f) eqn:Eo; cbn [negb]; [done|right]. by eauto 6.
  - destruct (errors_Is e ErrNotExist) eqn:En; [apply wp_ret; unfold assigns; rewrite <- Hr; by split; [|left]|].
    destruct optional; cbn [andb]; [|by apply wp_ret]. destruct (is_operator f) eqn:Eo; cbn [negb]; [by apply wp_ret|].
    apply wp_bind. eapply wp_mono; [apply wp_true|]. intros h1 d _. destruct d; apply wp_ret; [|done].
    unfold assigns. rewrite <- Hr. by split; [|right].
Qed.

Lemma wp_read_files optional fs h : wp env (λ _ _, True) h (read_files c optional fs)
  (λ _ r, ∀ here, r = Ok here → Forall2 (λ f x, x.1 = f ∧ gives optional f x.2) fs here).
Proof.
  revert h. induction fs as [|f fs IH]; intros h; [intros here [= <-]; constructor|]. cbn [read_files].
  wp_cut wp_readEnvFile. intros h1 [a|e] Ha; [|done]. wp_cut IH. intros h2 [rest|e] Hr here; [|done]. intros [= <-].
  constructor; [by split|by apply Hr].
Qed.

Lemma wp_read_refs settings h : wp env (λ _ _, True) h (read_refs c settings) (λ _ r, ∀ reading, r = Ok reading → reads settings reading).
Proof.
  revert h. induction settings as [|ref settings IH]; intros h; [intros reading [= <-]; constructor|]. cbn [read_refs].
  destruct (negb _); [done|]. wp_cut wp_expandEnvFile. intros h1 [fs|e] Hfs; [|done].
  wp_cut wp_read_files. intros h2 [a|e] Ha; [|done]. wp_cut IH. intros h3 [rest|e] Hr reading; [|done]. intros [= <-].
  econstructor; [by apply Hfs|by apply Ha|by apply Hr].
Qed.

Lemma wp_kubeletEnvFile h : wp env (λ _ _, True) h (kubeletEnvFile c) (λ h' r, ∀ f, r = Ok f →
  ∃ out reading, existT (show_environment (KubeletUnit c)) (out, None) ∈ h' ∧ reads refs reading ∧ choose (parseUnitEnvironment out) reading = Ok f).
Proof.
  unfold kubeletEnvFile, environment. destruct (validUnitName _); [done|]. apply wp_bind. wp_call; [done|].
  intros [out [e|]] Hs; cbn; [done|]. specialize (Hs eq_refl eq_refl). apply parseUnitEnvironment_shown in Hs. cbn in Hs.
  apply wp_bind. eapply wp_mono; [apply wp_extends, wp_read_refs|].
  intros h2 [reading|e] [[l ->] Hr]; [|done]. intros f E. exists out, reading. split_and!; [|rewrite <- Hs; by apply Hr|exact E].
  apply elem_of_app. right. left.
Qed.

(** The content of a file the installer edits; a missing one is empty. *)
Definition content (f : string) : string := match files (hostPath c f) with Ok data => data | Err _ => "" end.

Lemma assigns_operator optional f asgs : is_operator f = true → gives optional f asgs → parseEnvFile (content f) = Ok asgs.
Proof.
  intros Ho. unfold assigns, content. rewrite Ho. destruct (files (hostPath c f)) as [data|e].
  - by intros [H|(_ & ? & _)].
  - intros [-> _]. reflexivity.
Qed.

Lemma reading_assigns settings reading f asgs : reads settings reading → (f, asgs) ∈ reading → ∃ optional, gives optional f asgs.
Proof.
  induction 1 as [|ref settings fs here later _ Hh _ IH]; [by intros ?%elem_of_nil|]. intros [Hin|Hin]%elem_of_app; [|by apply IH].
  clear IH. exists (Optional ref). apply list_elem_of_lookup in Hin as [k Hk].
  destruct (Forall2_lookup_r _ _ _ _ _ Hh Hk) as (g & _ & Hg & Ha). cbn in Hg. by rewrite Hg.
Qed.

End Node.

(** ** A kubeadm node *)

Definition node_config : config :=
  MkConfig modePatch "/host" "/opt/bin" "/etc/harbor-bridge" "" "" false "kubelet" "/var/lib/harbor-bridge" "" defaultProviderName "".

Definition node_files (p : string) : res string :=
  if String.eqb p "/host/etc/default/kubelet" then Ok demo_file
  else if String.eqb p "/host/var/lib/kubelet/kubeadm-flags.env" then Ok ("KUBELET_KUBEADM_ARGS=" +:+ str1 dquote +:+ "--x" +:+ str1 dquote)
  else Err (ESentinel ErrNotExist).

Definition node_dir : string := "/host/etc/default".
Definition node_entries : list (string * ftype) := [("grub", FRegular); ("kubelet", FRegular); (".kubelet", FRegular)].
Definition node_dirs (p : string) : res (list (string * ftype)) :=
  if String.eqb p node_dir then Ok node_entries else Err (ESentinel ErrNotExist).

(** Its settings: kubeadm's file, and the operator's behind a wildcard. *)
Definition node_refs : list envFileRef :=
  [MkEnvFileRef "/var/lib/kubelet/kubeadm-flags.env" true; MkEnvFileRef "/etc/default/kube[l]et" true].
Definition node_shown : string :=
  "EnvironmentFiles=/var/lib/kubelet/kubeadm-flags.env (ignore_errors=yes)" +:+ str1 nl
  +:+ "EnvironmentFiles=/etc/default/kube[l]et (ignore_errors=yes)" +:+ str1 nl +:+ "Environment=".

Lemma node_shows : shows (Split node_shown nl) node_refs.
Proof.
  apply (shows_optional "/var/lib/kubelet/kubeadm-flags.env"); [done|]. apply (shows_optional "/etc/default/kube[l]et"); [done|].
  apply shows_other; [by intros v [=]|constructor].
Qed.

Definition node_serve (u : unit) (call : hcall) : hans call * unit :=
  (match call return hans call with
   | ReadHostFile p => node_files p
   | Systemctl _ => (node_shown, None)
   | OpenDir p => if String.eqb p node_dir then Ok 0%nat else Err (ESentinel ErrNotExist)
   | ReadEntries _ => Ok node_entries
   | LstatIn _ _ => Ok (MkInfo 1 FRegular 0x1A4 1 None)
   | call => empty_node call
   end, tt).

Definition node_choice := play node_serve tt (kubeletEnvFile node_config) [].

Notation node_reads := (files_env node_config node_files node_dirs (λ _, node_dir) node_refs).

Lemma node_choice_is : node_choice.2 = Ok defaultKubeletPath ∧ content node_config node_files defaultKubeletPath = demo_file.
Proof. vm_compute. split; reflexivity. Qed.

Lemma node_choice_runs : runs node_reads (kubeletEnvFile node_config) [] node_choice.1.2 node_choice.2.
Proof.
  refine (play_runs_in node_reads node_serve tt (kubeletEnvFile node_config) [] _).
  intros u h call. destruct call; try exact I; try exact eq_refl; cbn.
  - unfold node_dirs. by destruct (String.eqb_spec path node_dir).
  - intros _ _. exact node_shows.
Qed.


Lemma env_samples :
  setsExtraArgs "A=1 KUBELET_EXTRA_ARGS=x" = true ∧ setsExtraArgs "MY_KUBELET_EXTRA_ARGS=x" = false ∧ setsExtraArgs "KUBELET_EXTRA_ARGS=" = true.
Proof. vm_compute. split_and!; reflexivity. Qed.
