(* ===== verification/Install.v ===== *)
(** * An install pass

    [installer/run.go] before the restart ([Restart] models the rest), the sync loop of
    [installer/sync.go] and the directories and locks of [installer/main.go] and
    [installer/lock.go]: which mode a pass runs in, what it refuses, and the order in which
    it writes the record, the binary, the configuration and the environment file. Log lines
    are dropped. *)

From S2P Require Import Prelude Effects GoStrings GoStd GoTime GoPath Utf8 Json InstallerConfig Host HostLocks InstallerState Discover ProviderConfig Records KubeletUnit Restart EnvFile KubeletEnv.

(** [if err != nil { return err }] of the two kinds of results. *)
Definition try {A} (p : host (res A)) (wrap : gerr → gerr) (k : A → host (option gerr)) : host (option gerr) :=
  r ← p; match r with Err e => Ret (Some (wrap e)) | Ok a => k a end.
Definition check (p : host (option gerr)) (k : host (option gerr)) : host (option gerr) :=
  e ← p; match e with Some e => Ret (Some e) | None => k end.
Definition as_is (e : gerr) : gerr := e.

(** The constants of the plugin image. *)
Definition SourcePlugin : string := "/plugin/harbor-bridge-plugin".
Definition SourceCA : string := "/tls/ca.crt".
Definition SourceClientCert : string := "/mtls/tls.crt".
Definition SourceClientKey : string := "/mtls/tls.key".
Definition ProcRoot : string := "/proc".

Section Dirs.
Context (c : config).

Definition files : nodeFiles := filesFor (ProviderName c).

Definition openConfigDir : host (res nat) := trigger (OpenNodeDir (HostRoot c) (HostConfigDir c)).

Definition openDirOf (p : string) (create : bool) : host (res nat) :=
  let dir := Dir p in
  if String.eqb dir (HostConfigDir c) then openConfigDir
  else
    e ← (if create then trigger (MkdirNodeDir (hostPath c dir)) else Ret None);
    match e with
    | Some e => Ret (Err e)
    | None => trigger (OpenDir (hostPath c dir))
    end.

(** ** Locks *)

Definition chartOwnedPathIn (configPath : string) : host string :=
  r ← trigger (OsLstat (hostPath c configPath));
  Ret (match r with Ok FDir => JoinPath configPath configFileName | _ => configPath end).

Definition configLockPath (configPath : string) : host string :=
  p ← chartOwnedPathIn configPath; Ret (p +:+ lockSuffix).

Definition lockConfig (lockPath : string) : host (res nat) :=
  r ← openDirOf lockPath true;
  match r with
  | Err e => Ret (Err (EWrap "lock" e))
  | Ok root => hdefer (trigger (CloseDir root)) (trigger (LockFileIn root (Base lockPath) defaultLockTimeout))
  end.

(** [unlocks] in the reverse order of their taking; [locks] has the latest first. *)
Fixpoint release (locks : list nat) : host unit :=
  match locks with
  | [] => Ret tt
  | l :: locks => _ ← trigger (Unlock l); release locks
  end.

Fixpoint take_locks (paths : list string) (taken : list nat) : host (res (list nat)) :=
  match paths with
  | [] => Ret (Ok taken)
  | p :: paths =>
      r ← lockConfig p;
      match r with
      | Err e => _ ← release taken; Ret (Err e)
      | Ok l => take_locks paths (l :: taken)
      end
  end.

Definition lockPatchConfigs (current : kubeletWiring) : host (res (list nat)) :=
  let own := ownConfigPath c +:+ lockSuffix in
  locks ← (if wired current then
             lock ← configLockPath (WConfigFile current);
             Ret (if String.eqb lock own then [] else [lock])
           else Ret []);
  take_locks (locks ++ [own]) [].

(** ** The files of the install *)

Definition syncAuxFiles : host (option gerr) :=
  try openConfigDir as_is (λ dir, hdefer (trigger (CloseDir dir)) (
    try (trigger (CopyFileIn SourceCA dir (CA files) 0x1A4)) as_is (λ _,
      if negb (MTLSEnabled c) then Ret None
      else
        try (trigger (CopyFileIn SourceClientCert dir (ClientCert files) 0x1A4)) as_is (λ _,
        try (trigger (CopyFileIn SourceClientKey dir (ClientKey files) 0x180)) as_is (λ _, Ret None))))).

Definition checkBinaryOwnership (binDir : string) : host (option gerr) :=
  if String.eqb (ProviderName c) defaultProviderName then Ret None
  else
    r ← trigger (IsRegularHostFile (hostPath c (JoinPath binDir (RecordFile files))));
    if r : bool then Ret None
    else
      current ← trigger (ReadHostFile (hostPath c (JoinPath binDir (Binary files))));
      match current with
      | Err e => Ret (if errors_Is e ErrNotExist then None else Some (EWrap "does not belong to this plugin" e))
      | Ok current =>
          ours ← trigger (OsReadFile SourcePlugin);
          match ours with
          | Err e => Ret (Some (EWrap "read" e))
          | Ok ours => Ret (if String.eqb current ours then None else Some (EMsg "does not belong to this plugin (different content)"))
          end
      end.

Definition installPluginBinary (binDir entryJSON chartOwned : string) : host (res entryRecord) :=
  begun ← beginRecord c binDir entryJSON chartOwned;
  match begun with
  | Err e => Ret (Err e)
  | Ok begun =>
      r ← trigger (CopyFile SourcePlugin (hostPath c (JoinPath binDir (Binary files))) 0x1ED);
      Ret (match r with Err e => Err e | Ok _ => Ok begun end)
  end.

Definition installFiles (binDir entryJSON chartOwned : string) : host (res entryRecord) :=
  e ← checkBinaryOwnership binDir;
  match e with
  | Some e => Ret (Err e)
  | None =>
      e ← syncAuxFiles;
      match e with
      | Some e => Ret (Err e)
      | None => installPluginBinary binDir entryJSON chartOwned
      end
  end.

(** [--sync]: a pass per tick until the process is told to stop. *)
Fixpoint sync_ticks (ticks : nat) : host unit :=
  match ticks with
  | O => Ret tt
  | S ticks => _ ← syncAuxFiles; sync_ticks ticks
  end.
Definition runSync (interval : Duration) (ticks : nat) : host (option gerr) :=
  if interval <=? 0 then Ret (Some (EMsg "sync interval must be positive"))
  else _ ← sync_ticks ticks; Ret None.
End Dirs.

Definition is_nil {A} (l : list A) : bool := match l with [] => true | _ => false end.

(** ** The pass *)

Section Pass.
Context (c : config).
(** The libraries of [ProviderConfig], and the text of an error. *)
Context (yaml_Unmarshal : string → res obj) (yaml_Marshal : obj → res string) (json_Unmarshal : string → res obj).
Context (Sprint : option json → string) (ParseURL : string → res (string * string)) (ParseAddr : string → res addr).
Context (error_text : gerr → string).

Definition ownWiring : kubeletWiring := MkWiring (HostBinDir c) (ownConfigPath c).

Definition wiring_eqb (a b : kubeletWiring) : bool :=
  String.eqb (WBinDir a) (WBinDir b) && String.eqb (WConfigFile a) (WConfigFile b).

(** Another install's entry: as its installer recorded it. *)
Definition siblingIn (dir : string) (entry : obj) : host bool :=
  match as_string (lookup_key entry "name") with
  | None => Ret false
  | Some name =>
      if String.eqb name (ProviderName c) || bool_decide (validProviderName name ≠ None) || negb (isBridgeProvider entry)
      then Ret false
      else
        x ← trigger (IsExecutableHostFile (hostPath c (JoinPath dir (Binary (filesFor name)))));
        if negb x then Ret false
        else match entryBytes entry with
        | Err _ => Ret false
        | Ok got => r ← readRecord c (JoinPath dir (RecordFile (filesFor name))); Ret (holds r got)
        end
  end.

(** *** The chart-owned configuration *)

Definition chartOwnedConfig (existing rendered : string) (entry : obj) (sibling : obj → host bool) : host (res string) :=
  r ← composeOwnConfig yaml_Unmarshal yaml_Marshal json_Unmarshal existing rendered entry sibling;
  Ret (match r with
       | Err e => if errors_Is e errNoRoundTrip then Err (EWrap "refusing to write it" e) else Ok rendered
       | Ok (desired, _) => Ok desired
       end).

Definition chartOwnedConfigIn (dir : nat) (own : kubeletWiring) (rendered : string) (entry : obj) : host (res (string * priorContent)) :=
  prior ← trigger (ReadPrior dir (Base (WConfigFile own)));
  match prior with
  | Err e => Ret (Err (EWrap "read" e))
  | Ok prior =>
      if negb (existed prior) then Ret (Ok (rendered, prior))
      else
        desired ← chartOwnedConfig (pdata prior) rendered entry (siblingIn (WBinDir own));
        Ret (match desired with Err e => Err e | Ok desired => Ok (desired, prior) end)
  end.

Definition ownConfig (dir : nat) (rendered : string) (entry : obj) : host (res (string * priorContent)) :=
  chartOwnedConfigIn dir ownWiring rendered entry.

(** *** Mode none *)

Definition runNone (rendered : string) (entry : obj) : host (option gerr) :=
  try (openConfigDir c) as_is (λ dir, hdefer (trigger (CloseDir dir)) (
    try (trigger (LockFileIn dir (configFileName +:+ lockSuffix) defaultLockTimeout)) as_is (λ l, hdefer (trigger (Unlock l)) (
      try (ownConfig dir rendered entry) as_is (λ d,
      try (Ret (entryBytes entry)) as_is (λ entryJSON,
      try (installFiles c (HostBinDir c) entryJSON (ownConfigPath c)) as_is (λ _,
      try (trigger (WriteFileIn dir configFileName d.1 0x1A4)) as_is (λ _,
      commitRecord c (HostBinDir c) entryJSON (ownConfigPath c))))))))).

(** *** Mode patch *)

(** The check on the restarted kubelet. *)
Definition verify_wiring (want : kubeletWiring) : host (option gerr) :=
  try (discoverKubelet ProcRoot) as_is (λ got,
    Ret (if wiring_eqb got want then None else Some (EMsg "the running kubelet is not wired as wanted"))).

Definition patch_rollback (dir : nat) (own : kubeletWiring) (begun : entryRecord) (priorConfig : priorContent)
    (envFile : string) (priorEnv : priorContent) : rollback :=
  let rb := rollback_step (MkRollback [] []) (writeRecord c (WBinDir own) begun) in
  let rb := rollback_file rb (WConfigFile own) (trigger (RestoreIn dir (Base (WConfigFile own)) priorConfig)) in
  rollback_file rb envFile (trigger (RestoreHostFile (hostPath c envFile) priorEnv)).

Definition runPatchOn (rendered : string) (entry : obj) (own : kubeletWiring) : host (option gerr) :=
  let configPath := WConfigFile own in
  try (trigger (OpenNodeDir (HostRoot c) (Dir configPath))) as_is (λ dir, hdefer (trigger (CloseDir dir)) (
    try (chartOwnedConfigIn dir own rendered entry) as_is (λ d,
    try (kubeletEnvFile c) (EWrap "mode patch") (λ envFile,
    try (trigger (ReadPriorHostFile (hostPath c envFile))) (EWrap "read") (λ priorEnv,
    try (Ret (mergeExtraArgs (pdata priorEnv) (WBinDir own) configPath)) (EWrap envFile) (λ desiredEnv,
    try (Ret (entryBytes entry)) as_is (λ entryJSON,
    let t := MkTarget modePatch (WBinDir own) configPath envFile (contentHash [entryJSON; desiredEnv]) (contentHash [d.1; desiredEnv]) in
    check (refuseRejected c ProcRoot t) (
    try (installFiles c (WBinDir own) entryJSON configPath) as_is (λ begun,
    try (trigger (WriteFileIn dir (Base configPath) d.1 0x1A4)) as_is (λ configChanged,
    check (commitRecord c (WBinDir own) entryJSON configPath) (
    try (trigger (WriteForeignFile (hostPath c envFile) desiredEnv)) as_is (λ envChanged,
    finishWithRestart c ProcRoot defaultVerifyTiming error_text t (configChanged || envChanged) (Some (verify_wiring own))
      (patch_rollback dir own begun d.2 envFile priorEnv))))))))))))).

Definition runPatch (rendered : string) (entry : obj) : host (option gerr) := runPatchOn rendered entry ownWiring.

(** *** Other installs on the old directories *)

Definition config_ext (name : string) : bool :=
  match after_last "." name with
  | Some e => String.eqb e "json" || String.eqb e "yaml" || String.eqb e "yml"
  | None => false
  end.

Fixpoint read_docs (dir : nat) (names : list string) : host (res (list string)) :=
  match names with
  | [] => Ret (Ok [])
  | n :: names =>
      if negb (config_ext n) then read_docs dir names
      else
        r ← trigger (ReadFileIn dir n);
        match r with
        | Err e => Ret (Err e)
        | Ok doc => rest ← read_docs dir names; Ret (res_map (cons doc) rest)
        end
  end.

Definition configDocs (path : string) : host (res (list string)) :=
  fi ← trigger (OsLstat path);
  match fi with
  | Err e => Ret (if errors_Is e ErrNotExist then Ok [] else Err e)
  | Ok FDir =>
      r ← trigger (OpenDir path);
      match r with
      | Err e => Ret (Err e)
      | Ok root =>
          hdefer (trigger (CloseDir root)) (
            l ← trigger (ReadEntries root);
            match l with
            | Err e => Ret (Err e)
            | Ok entries => read_docs root (sort_strings (map fst (List.filter (λ f : string * ftype, negb (bool_decide (f.2 = FDir))) entries)))
            end)
      end
  | Ok _ => doc ← trigger (ReadHostFile path); Ret (res_map (λ d, [d]) doc)
  end.

Definition rewireCounts (current : kubeletWiring) : host (res (option (obj → host bool))) :=
  if withinDir (WConfigFile current) (HostConfigDir c) then Ret (Ok (Some (siblingIn (WBinDir current))))
  else
    p ← chartOwnedPathIn c (WConfigFile current);
    claimed ← claimsChartOwned c (WBinDir current) p;
    Ret (match claimed with
         | Err e => Err e
         | Ok claimed => Ok (if claimed : bool then Some (siblingIn (WBinDir current)) else None)
         end).

Fixpoint others_in (docs : list string) (counts : option (obj → host bool)) : host (list string) :=
  match docs with
  | [] => Ret []
  | doc :: docs =>
      l ← otherBridgeProviders yaml_Unmarshal Sprint doc (ProviderName c) counts;
      rest ← others_in docs counts;
      Ret (l ++ rest)
  end.

Definition keptSiblings (rendered : string) (entry : obj) : host (res (list string)) :=
  r ← openConfigDir c;
  match r with
  | Err e => Ret (Err e)
  | Ok dir =>
      hdefer (trigger (CloseDir dir)) (
        d ← ownConfig dir rendered entry;
        match d with
        | Err e => Ret (Err e)
        | Ok d => l ← otherBridgeProviders yaml_Unmarshal Sprint d.1 (ProviderName c) None; Ret (Ok l)
        end)
  end.

Definition blockingInstalls (current : kubeletWiring) (rendered : string) (entry : obj) : host (res (list string)) :=
  if negb (wired current) || wiring_eqb current ownWiring then Ret (Ok [])
  else
    let refuse (e : gerr) : res (list string) := Err (EWrap "mode patch: cannot tell whether the config holds other installs' entries" e) in
    docs ← configDocs (hostPath c (WConfigFile current));
    match docs with
    | Err e => Ret (refuse e)
    | Ok docs =>
        counts ← rewireCounts current;
        match counts with
        | Err e => Ret (refuse e)
        | Ok counts =>
            others ← others_in docs counts;
            match others with
            | [] => Ret (Ok [])
            | _ =>
                kept ← keptSiblings rendered entry;
                Ret (match kept with
                     | Err e => refuse e
                     | Ok kept => Ok (List.filter (λ n, negb (existsb (String.eqb n) kept)) others)
                     end)
            end
        end
    end.

Definition rewireRefusal (others : list string) : gerr := EMsg ("mode patch: other installs' entries: " +:+ Join others ", ").

Definition stageOwnFiles (rendered : string) (entry : obj) (old : kubeletWiring) : host (option gerr) :=
  let want := ownWiring in
  try (Ret (entryBytes entry)) as_is (λ entryJSON,
  let newBinDir := negb (String.eqb (WBinDir want) (WBinDir old)) in
  check (if newBinDir then try (installFiles c (WBinDir want) entryJSON (WConfigFile want)) as_is (λ _, Ret None) else Ret None) (
  let commit := if newBinDir then commitRecord c (WBinDir want) entryJSON (WConfigFile want) else Ret None in
  if negb (String.eqb (WConfigFile want) (WConfigFile old)) then
    try (openConfigDir c) as_is (λ dir, hdefer (trigger (CloseDir dir)) (
      try (ownConfig dir rendered entry) as_is (λ d,
      try (trigger (WriteFileIn dir configFileName d.1 0x1A4)) as_is (λ _, commit))))
  else commit)).

(** The bin dir must be out of reach of the writers of the configuration directory. *)
Definition overlap_error : gerr := EMsg "the bin dir and plugin.hostConfigDir overlap".
Definition not_chart_owned_error : gerr := EMsg "kubelet's config is inside plugin.hostConfigDir and is not the chart-owned config there".

Definition stayAndStage (rendered : string) (entry : obj) (old : kubeletWiring) : host (option gerr) :=
  if dirsOverlap (WBinDir old) (HostConfigDir c) then Ret (Some overlap_error)
  else if withinDir (WConfigFile old) (HostConfigDir c) && negb (String.eqb (WConfigFile old) (ownConfigPath c))
  then Ret (Some not_chart_owned_error)
  else check (runPatchOn rendered entry old) (stageOwnFiles rendered entry old).

(** *** Mode merge *)

Definition has_binary (root : option nat) (name : string) : host bool :=
  match root with
  | None => Ret false
  | Some root =>
      fi ← trigger (LstatIn root name);
      Ret (match fi with
           | Err _ => false
           | Ok fi => bool_decide (fi_type fi = FSymlink) || (bool_decide (fi_type fi = FRegular) && negb (Z.land (fi_mode fi) 0x49 =? 0))
           end)
  end.

Definition checkKubeletCanStart (merged : string) (wiring : kubeletWiring) : host (option gerr) :=
  r ← trigger (OpenDir (hostPath c (WBinDir wiring)));
  let decide_with (root : option nat) : host (option gerr) :=
    try (kubeletStartProblems yaml_Unmarshal merged (ProviderName c) (has_binary root)) as_is (λ problems,
      Ret (if is_nil problems then None else Some (EMsg ("kubelet would not start: " +:+ Join problems "; ")))) in
  match r with
  | Err e => if errors_Is e ErrNotExist then decide_with None else Ret (Some (EWrap "open kubelet's credential-provider bin dir" e))
  | Ok root => hdefer (trigger (CloseDir root)) (decide_with (Some root))
  end.

Definition merge_rollback (dir : nat) (wiring : kubeletWiring) (begun : entryRecord) (prior : priorContent) : rollback :=
  let rb := rollback_step (MkRollback [] []) (writeRecord c (WBinDir wiring) begun) in
  rollback_file rb (WConfigFile wiring) (trigger (RestoreIn dir (Base (WConfigFile wiring)) prior)).

(** What the pass writes into kubelet's configuration, whether that is a change, and the
    chart-owned configuration its record names. *)
Definition merged_config (wiring : kubeletWiring) (existing rendered : string) (entry : obj) (chartOwned : bool)
    : host (res (string * bool * string)) :=
  if chartOwned then
    r ← chartOwnedConfig existing rendered entry (siblingIn (WBinDir wiring));
    Ret (match r with Err e => Err e | Ok m => Ok (m, negb (String.eqb m existing), WConfigFile wiring) end)
  else
    match mergeProvider yaml_Unmarshal yaml_Marshal json_Unmarshal existing entry with
    | Err e => Ret (Err e)
    | Ok (m, changed) =>
        e ← checkKubeletCanStart m wiring;
        Ret (match e with Some e => Err e | None => Ok (m, changed, "") end)
    end.

Definition runMerge (rendered : string) (entry : obj) (wiring : kubeletWiring) : host (option gerr) :=
  fi ← trigger (OsLstat (hostPath c (WConfigFile wiring)));
  match fi with
  | Ok FDir => Ret (Some (EMsg "kubelet's credential-provider config is a directory"))
  | _ =>
      let own := ownConfigPath c in
      if withinDir (WConfigFile wiring) (HostConfigDir c) && negb (String.eqb (WConfigFile wiring) own)
      then Ret (Some not_chart_owned_error)
      else
        try (openDirOf c (WConfigFile wiring) false) (EWrap "open the directory of the config") (λ dir, hdefer (trigger (CloseDir dir)) (
        let name := Base (WConfigFile wiring) in
        try (trigger (LockFileIn dir (name +:+ lockSuffix) defaultLockTimeout)) as_is (λ l, hdefer (trigger (Unlock l)) (
        try (trigger (ReadPrior dir name)) (EWrap "read node credential-provider config") (λ prior,
        if negb (existed prior) then Ret (Some (EWrap "read node credential-provider config" (ESentinel ErrNotExist)))
        else
          try (if String.eqb (WConfigFile wiring) own then Ret (Ok true) else claimsChartOwned c (WBinDir wiring) (WConfigFile wiring)) as_is (λ chartOwned,
          try (merged_config wiring (pdata prior) rendered entry chartOwned) as_is (λ '(merged, mergeChanged, claim),
          try (Ret (entryBytes entry)) as_is (λ entryJSON,
          let t := MkTarget modeMerge (WBinDir wiring) (WConfigFile wiring) "" (contentHash [entryJSON]) (contentHash [merged]) in
          check (refuseRejected c ProcRoot t) (
          try (installFiles c (WBinDir wiring) entryJSON claim) as_is (λ begun,
          try (trigger (WriteForeignIn dir name merged)) as_is (λ written,
          check (commitRecord c (WBinDir wiring) entryJSON claim) (
          finishWithRestart c ProcRoot defaultVerifyTiming error_text t (mergeChanged || written) None
            (merge_rollback dir wiring begun prior)))))))))))))
  end.

(** *** The whole pass *)

Definition wiredByOwnPatch (wiring : kubeletWiring) : host (res bool) :=
  st ← loadState (statePath c);
  Ret (match st with
       | Err e => Err e
       | Ok st => Ok (match st with
                      | Some st => String.eqb (SMode st) modePatch && String.eqb (SBinDir st) (WBinDir wiring)
                                   && String.eqb (SConfigFile st) (WConfigFile wiring)
                      | None => false
                      end)
       end).

Definition no_wiring : kubeletWiring := MkWiring "" "".

(** The mode to run in, kubelet's wiring, and whether the pass moves its own install. *)
Definition resolve_mode : host (res (string * kubeletWiring * bool)) :=
  let m := Mode c in
  if String.eqb m modeAuto then
    w ← discoverKubelet ProcRoot;
    match w with
    | Err e => Ret (Err (EWrap "mode auto" e))
    | Ok w =>
        if negb (wired w) then Ret (Ok (modePatch, w, false))
        else if wiring_eqb w ownWiring then Ret (Ok (modePatch, w, false))
        else
          moving ← wiredByOwnPatch w;
          Ret (match moving with
               | Err e => Err (EWrap "mode auto" e)
               | Ok moving => Ok (if moving : bool then modePatch else modeMerge, w, moving)
               end)
    end
  else if String.eqb m modePatch then
    w ← discoverKubelet ProcRoot;
    Ret (match w with Err e => Err (EWrap "mode patch" e) | Ok w => Ok (modePatch, w, false) end)
  else if String.eqb m modeMerge then
    if negb (String.eqb (MergeBinDir c) "") then Ret (Ok (modeMerge, MkWiring (MergeBinDir c) (MergeConfigFile c), false))
    else
      w ← discoverKubelet ProcRoot;
      Ret (match w with
           | Err e => Err (EWrap "mode merge" e)
           | Ok w => if negb (wired w) then Err (EMsg "mode merge: nothing to merge into") else Ok (modeMerge, w, false)
           end)
  else Ret (Ok (m, no_wiring, false)).

(** The pass once the mode is known. *)
Definition run_mode (rendered : string) (entry : obj) (mode : string) (wiring : kubeletWiring) (movingOwn : bool) : host (option gerr) :=
  if String.eqb mode modePatch then
    try (lockPatchConfigs c wiring) as_is (λ locks, hdefer (release locks) (
      try (blockingInstalls wiring rendered entry) as_is (λ others,
        if negb (is_nil others) then if movingOwn then stayAndStage rendered entry wiring else Ret (Some (rewireRefusal others))
        else runPatch rendered entry)))
  else if String.eqb mode modeMerge then
    if dirsOverlap (WBinDir wiring) (HostConfigDir c) then Ret (Some overlap_error)
    else runMerge rendered entry wiring
  else if String.eqb mode modeNone then runNone rendered entry
  else Ret (Some (EMsg "unreachable mode")).

Definition run_locked (rendered : string) (entry : obj) : host (option gerr) :=
  try resolve_mode as_is (λ '(mode, wiring, movingOwn), run_mode rendered entry mode wiring movingOwn).

(** The rendered configuration and its entry. *)
Definition load_entry : host (res (string * obj)) :=
  r ← trigger (OsReadFile (SourceConfig c));
  Ret (match r with
       | Err e => Err (EWrap "read rendered credential-provider config" e)
       | Ok rendered =>
           match substituteNodeIP ParseAddr rendered (NodeIP c) with
           | Err e => Err e
           | Ok rendered =>
               match renderedProvider yaml_Unmarshal rendered (ProviderName c) with
               | Err e => Err e
               | Ok entry => match validateEntry ParseURL entry with Some e => Err e | None => Ok (rendered, entry) end
               end
           end
       end).

Definition run : host (option gerr) :=
  try load_entry as_is (λ '(rendered, entry),
    if String.eqb (Mode c) modeNone then run_locked rendered entry
    else try (trigger (LockFile (hostPath c nodeLockPath) defaultLockTimeout)) as_is (λ l,
      hdefer (trigger (Unlock l)) (run_locked rendered entry))).
End Pass.
