(* ===== verification/InstallProps.v ===== *)
(** * What an install pass does and does not do

    Which calls the parts of a pass of [Install] can make, the lemmas [InstallLocks] and
    [InstallRecords] share, and that mode none leaves kubelet alone. *)

From S2P Require Import Prelude Effects GoStrings GoStd GoTime GoPath Utf8 Json InstallerConfig Host HostLocks InstallerState Discover ProviderConfig Records KubeletUnit Restart EnvFile KubeletEnv Install.

(** ** The calls of the parts *)

(** The files of the plugin image and of the mounted Secrets, and the files of a process in
    [/proc]: what the installer reads other than as an operation of [files.go]. *)
Definition image_file (src : string) : bool := existsb (String.eqb src) [SourcePlugin; SourceCA; SourceClientCert; SourceClientKey].
Definition under_proc (p : string) : Prop := ∃ pid name, p = JoinPath (JoinPath ProcRoot pid) name.
Definition own_reads (call : hcall) : Prop :=
  match call with
  | CopyFile src _ _ | CopyFileIn src _ _ _ => image_file src = true
  | OsReadFile p => p = SourcePlugin ∨ under_proc p
  | _ => True
  end.

Definition is_lock (call : hcall) : bool := match call with LockFile _ _ | LockFileIn _ _ _ | Unlock _ => true | _ => false end.

(** Calls on the install's files, and calls that neither take nor release a lock. *)
Definition file_call (call : hcall) : Prop :=
  match call with
  | LockFile _ _ | LockFileIn _ _ _ | Unlock _ | Systemctl _ | HSleep _ | WriteForeignIn _ _ _ | WriteForeignFile _ _
  | WriteFileIn _ _ _ _ | RestoreHostFile _ _ | ReadPriorHostFile _ | ReadDir _ | Readlink _ => False
  | _ => own_reads call
  end.
Definition unlocked_call (call : hcall) : Prop := if is_lock call then False else own_reads call.
(** Those of the parts: they write neither a provider configuration nor an environment file. *)
Definition part_call (call : hcall) : Prop :=
  match call with WriteFileIn _ _ _ _ | WriteForeignIn _ _ _ | WriteForeignFile _ _ => False | _ => unlocked_call call end.

Lemma part_unlocked {A} (p : host A) : calls part_call p → calls unlocked_call p.
Proof. apply calls_mono. by intros []. Qed.
Lemma part_file {A} (p : host A) : calls file_call p → calls part_call p.
Proof. apply calls_mono. by intros []. Qed.

Lemma calls_hdefer {A B} P (cleanup : host B) (body : host A) : calls P cleanup → calls P body → calls P (hdefer cleanup body).
Proof. intros H1 H2. unfold hdefer. apply calls_bind; [done|]. intros r. apply calls_bind; [done|]. by intros. Qed.

Lemma calls_try {A} P (p : host (res A)) w k : calls P p → (∀ a, calls P (k a)) → calls P (try p w k).
Proof. intros H1 H2. unfold try. apply calls_bind; [done|]. intros [a|e]; [apply H2|done]. Qed.

Lemma calls_check P (p k : host (option gerr)) : calls P p → calls P k → calls P (check p k).
Proof. intros H1 H2. unfold check. apply calls_bind; [done|]. by intros [e|]. Qed.

(** [calls_go] walks a program: the known parts, calls and branches. *)
Create HintDb hcalls.
Ltac calls_go := repeat first
  [ exact I
  | solve [auto 4 with hcalls]
  | match goal with |- calls _ (hdefer _ _) => apply calls_hdefer end
  | match goal with |- calls _ (try _ _ _) => apply calls_try; [|intros ?] end
  | match goal with |- calls _ (check _ _) => apply calls_check end
  | apply calls_trigger; first [exact I | reflexivity | left; reflexivity | right; eexists _, _; reflexivity]
  | match goal with |- calls _ (mbind _ _) => apply calls_bind; [|intros ?] end
  | match goal with |- calls _ ?p => match p with context [match ?x with _ => _ end] =>
      lazymatch x with context [match _ with _ => _ end] => fail | _ => destruct x end end end ].

Section Calls.
Context (c : config).

(** The parts that only touch files. *)
Lemma calls_readRecord path : calls file_call (readRecord c path).
Proof. unfold readRecord. calls_go. Qed.
#[local] Hint Resolve calls_readRecord : hcalls.

Lemma calls_writeRecord dir r : calls file_call (writeRecord c dir r).
Proof. unfold writeRecord. calls_go. Qed.
#[local] Hint Resolve calls_writeRecord : hcalls.

Lemma calls_commitRecord dir e o : calls file_call (commitRecord c dir e o).
Proof. unfold commitRecord. calls_go. Qed.

Lemma calls_siblingIn dir entry : calls file_call (siblingIn c dir entry).
Proof. unfold siblingIn. calls_go. Qed.

Lemma calls_openConfigDir : calls file_call (openConfigDir c).
Proof. unfold openConfigDir. calls_go. Qed.
#[local] Hint Resolve calls_openConfigDir : hcalls.

Lemma calls_syncAuxFiles : calls file_call (syncAuxFiles c).
Proof. unfold syncAuxFiles. calls_go. Qed.
#[local] Hint Resolve calls_syncAuxFiles : hcalls.

Lemma calls_installFiles dir e o : calls file_call (installFiles c dir e o).
Proof. unfold installFiles, checkBinaryOwnership, installPluginBinary, beginRecord. calls_go. Qed.

Lemma calls_compose (P : hcall → Prop) name entry sibling cs ps : (∀ pm, calls P (sibling pm)) →
  calls P (compose name entry sibling cs ps).
Proof.
  intros Hs. revert cs. induction ps as [|p ps IH]; intros cs; cbn [compose]; [exact I|]. apply calls_bind; [|intros ?; apply IH].
  destruct (as_map p); [|exact I]. destruct (_ && _); [exact I|]. destruct (_ && _); [|exact I].
  apply calls_bind; [apply Hs|by intros].
Qed.

Section Documents.
Context (yu : string → res obj) (ym : obj → res string) (ju : string → res obj) (Sprint : option json → string).

Lemma calls_chartOwnedConfig (P : hcall → Prop) existing rendered entry sibling : (∀ pm, calls P (sibling pm)) →
  calls P (chartOwnedConfig yu ym ju existing rendered entry sibling).
Proof.
  intros Hs. unfold chartOwnedConfig, composeOwnConfig. apply calls_bind; [|by intros].
  destruct (yu existing) as [cur|]; [|exact I]. destruct (negb _); [exact I|]. destruct (providerList cur); [|exact I].
  destruct (as_string _) as [[|ch nm]|]; [exact I| |exact I]. apply calls_bind; [by apply calls_compose|by intros].
Qed.

Lemma calls_chartOwnedConfigIn dir own rendered entry : calls file_call (chartOwnedConfigIn c yu ym ju dir own rendered entry).
Proof.
  unfold chartOwnedConfigIn. apply calls_bind; [calls_go|]. intros [prior|e]; [|exact I]. destruct (negb _); [exact I|].
  apply calls_bind; [|by intros]. apply calls_chartOwnedConfig. apply calls_siblingIn.
Qed.

Lemma calls_bridge_names (P : hcall → Prop) name counts ps : (∀ f pm, counts = Some f → calls P (f pm)) →
  calls P (bridge_names Sprint name counts ps).
Proof.
  intros Hc. induction ps as [|p ps IH]; cbn [bridge_names]; [exact I|]. apply calls_bind.
  - destruct (as_map p); [|exact I]. destruct (_ && _); [|exact I]. destruct counts as [f|]; [by apply Hc|exact I].
  - intros b. apply calls_bind; [apply IH|by intros].
Qed.

Lemma calls_otherBridgeProviders (P : hcall → Prop) doc name counts : (∀ f pm, counts = Some f → calls P (f pm)) →
  calls P (otherBridgeProviders yu Sprint doc name counts).
Proof.
  intros Hc. unfold otherBridgeProviders. destruct (yu doc) as [cfg|]; [|exact I]. destruct (providerList cfg); [|exact I].
  by apply calls_bridge_names.
Qed.
End Documents.

(** ** Mode none leaves kubelet alone *)

Section Pass.
Context (yu : string → res obj) (ym : obj → res string) (ju : string → res obj) (Sprint : option json → string).
Context (ParseURL : string → res (string * string)) (ParseAddr : string → res addr) (error_text : gerr → string).
Notation run := (run c yu ym ju Sprint ParseURL ParseAddr error_text).

(** A call of mode none: a file of the install, its own configuration, or the lock of that. *)
Definition none_call (call : hcall) : Prop :=
  match call with
  | LockFileIn _ name _ => name = configFileName +:+ lockSuffix
  | Unlock _ | WriteFileIn _ _ _ _ => True
  | OsReadFile p => p = SourceConfig c ∨ file_call call
  | _ => file_call call
  end.

Lemma file_none {A} (p : host A) : calls file_call p → calls none_call p.
Proof. apply calls_mono. destruct c0; try done. by right. Qed.

#[local] Hint Resolve file_none calls_openConfigDir calls_installFiles calls_commitRecord calls_chartOwnedConfigIn : hcalls.

Lemma calls_runNone rendered entry : calls none_call (runNone c yu ym ju rendered entry).
Proof. unfold runNone, ownConfig. calls_go. Qed.

Lemma run_locked_none rendered entry : Mode c = modeNone →
  run_locked c yu ym ju Sprint error_text rendered entry = runNone c yu ym ju rendered entry.
Proof. intros Hm. unfold run_locked, resolve_mode. rewrite Hm. reflexivity. Qed.

Lemma calls_sync_ticks ticks : calls none_call (sync_ticks c ticks).
Proof. induction ticks as [|ticks IH]; [exact I|]. cbn [sync_ticks]. apply calls_bind; [apply file_none, calls_syncAuxFiles|by intros]. Qed.

Lemma calls_run_none : Mode c = modeNone → calls none_call run.
Proof.
  intros Hm. unfold Install.run. apply calls_try; [unfold load_entry; calls_go|]. intros [rendered entry].
  rewrite Hm. change (String.eqb modeNone modeNone) with true. cbv iota. rewrite run_locked_none by done. apply calls_runNone.
Qed.

(** A pass in mode none, and every pass of the sync loop, makes no call but those on its own
    files and its own configuration's lock: it runs no systemctl, inspects no process,
    takes no node lock, and edits no environment file. *)
Theorem none_leaves_kubelet interval ticks : Mode c = modeNone →
  calls none_call run ∧ calls none_call (runSync c interval ticks).
Proof.
  intros Hm. split.
  - by apply calls_run_none.
  - unfold runSync. destruct (interval <=? 0); [exact I|]. apply calls_bind; [apply calls_sync_ticks|by intros].
Qed.
End Pass.
End Calls.
