(* ===== verification/InstallLocks.v ===== *)
(** * Locks of an install pass

    Several installers run on a node. Each pass takes its locks in one order, releases them
    in the reverse order on every path, changes shared files and restarts kubelet only
    under them, and so no two installers wait for each other. *)

From S2P Require Import Prelude Effects GoStrings GoStd GoTime GoPath Utf8 Json InstallerConfig Host HostLocks InstallerState Discover ProviderConfig Records KubeletUnit Restart EnvFile KubeletEnv Install InstallProps ProviderMerge.

(** ** The parts that take no lock *)

Section Unlocked.
Context (c : config).

#[local] Hint Resolve part_file part_unlocked calls_readRecord calls_writeRecord calls_commitRecord calls_siblingIn calls_openConfigDir calls_installFiles : hcalls.

Lemma part_findKubelet : calls part_call (findKubelet ProcRoot).
Proof.
  assert (Hs : ∀ hostMnt l, calls part_call (scan ProcRoot hostMnt l)).
  { intros hostMnt l. induction l as [|n l IH]; [exact I|]. cbn [scan]. unfold examine, readPPID. calls_go; assumption. }
  unfold findKubelet. calls_go; apply Hs.
Qed.
#[local] Hint Resolve part_findKubelet : hcalls.

Lemma part_discoverKubelet : calls part_call (discoverKubelet ProcRoot).
Proof. unfold discoverKubelet. calls_go. Qed.
#[local] Hint Resolve part_discoverKubelet : hcalls.

Lemma part_kubeletIdentity : calls part_call (kubeletIdentity c ProcRoot).
Proof. unfold kubeletIdentity, kubeletConfigText. calls_go. Qed.
#[local] Hint Resolve part_kubeletIdentity : hcalls.

Lemma part_refuseRejected t : calls part_call (refuseRejected c ProcRoot t).
Proof. unfold refuseRejected, loadState. calls_go. Qed.
#[local] Hint Resolve part_refuseRejected : hcalls.

Lemma part_kubeletEnvFile : calls part_call (kubeletEnvFile c).
Proof.
  assert (Hg : ∀ dirs comp last, calls part_call (glob_dirs c dirs comp last)).
  { intros dirs comp last. induction dirs as [|d dirs IH]; [exact I|]. cbn [glob_dirs]. unfold globDir. calls_go; assumption. }
  assert (He : ∀ comps paths, calls part_call (expand c paths comps)).
  { induction comps as [|comp comps IH]; intros paths; [exact I|]. cbn [expand]. destruct (negb _); [apply IH|].
    apply calls_bind; [apply Hg|]. intros [l|e]; [apply IH|exact I]. }
  assert (Hf : ∀ o l, calls part_call (read_files c o l)).
  { intros o l. induction l as [|f l IH]; [exact I|]. cbn [read_files]. unfold readEnvFile, isHostDir. calls_go; assumption. }
  assert (Hr : ∀ refs, calls part_call (read_refs c refs)).
  { induction refs as [|r refs IH]; [exact I|]. cbn [read_refs]. unfold expandEnvFile. calls_go; first [apply He|apply Hf|assumption]. }
  unfold kubeletEnvFile, environment. calls_go; apply Hr.
Qed.
#[local] Hint Resolve part_kubeletEnvFile : hcalls.

Lemma part_restart_verified vt verify : (∀ p, verify = Some p → calls part_call p) →
  calls part_call (restart_verified c vt verify).
Proof.
  intros Hv. assert (Hw : ∀ fuel d lc, calls part_call (wait_loop (KubeletUnit c) vt verify fuel d lc)).
  { assert (Hc : calls part_call (run_check verify)) by (unfold run_check; destruct verify; [by apply Hv|exact I]).
    induction fuel as [|fuel IH]; intros d lc; cbn [wait_loop]; unfold try_once, status; calls_go; first [exact Hc|apply IH]. }
  unfold restart_verified, restart_unit, waitKubeletHealthy. calls_go; apply Hw.
Qed.

Lemma part_saveState path st : calls part_call (saveState path st).
Proof. unfold saveState. calls_go. Qed.
#[local] Hint Resolve part_saveState : hcalls.

Lemma part_finishWithRestart vt error_text t changed verify rb :
  (∀ p, verify = Some p → calls part_call p) → Forall (calls part_call) (steps rb) →
  calls part_call (finishWithRestart c ProcRoot vt error_text t changed verify rb).
Proof.
  intros Hv Hrb. assert (Hr : calls part_call (restore rb)).
  { unfold restore. apply calls_bind; [|by intros]. induction Hrb as [|s l Hs _ IH]; [exact I|]. cbn [run_steps].
    apply calls_bind; [done|]. intros e. apply calls_bind; [done|by intros]. }
  pose proof (part_restart_verified vt verify Hv) as H1.
  assert (calls part_call (restart_verified c vt None)) as H2 by by apply part_restart_verified.
  unfold finishWithRestart, loadState, rejectRestart, roll_back. calls_go.
Qed.

Lemma part_claimsChartOwned dir p : calls part_call (claimsChartOwned c dir p).
Proof.
  unfold claimsChartOwned. assert (Hc : ∀ l, calls part_call (claims_in c dir p l)).
  { induction l as [|[f t] l IH]; [exact I|]. cbn [claims_in]. calls_go; assumption. }
  calls_go; apply Hc.
Qed.
#[local] Hint Resolve part_claimsChartOwned : hcalls.

Section Documents.
Context (yu : string → res obj) (ym : obj → res string) (ju : string → res obj) (Sprint : option json → string) (error_text : gerr → string).

Lemma part_chartOwnedConfigIn dir own rendered entry : calls part_call (chartOwnedConfigIn c yu ym ju dir own rendered entry).
Proof. apply part_file, calls_chartOwnedConfigIn. Qed.
#[local] Hint Resolve part_chartOwnedConfigIn : hcalls.

Lemma unlocked_runPatchOn rendered entry own : calls unlocked_call (runPatchOn c yu ym ju error_text rendered entry own).
Proof.
  unfold runPatchOn. calls_go. apply part_unlocked, part_finishWithRestart.
  - intros p [= <-]. unfold verify_wiring. calls_go.
  - unfold patch_rollback. cbn. repeat constructor; calls_go.
Qed.
#[local] Hint Resolve unlocked_runPatchOn : hcalls.

Lemma unlocked_stayAndStage rendered entry old : calls unlocked_call (stayAndStage c yu ym ju error_text rendered entry old).
Proof. unfold stayAndStage, stageOwnFiles, ownConfig. calls_go. Qed.

Lemma part_blockingInstalls current rendered entry : calls part_call (blockingInstalls c yu ym ju Sprint current rendered entry).
Proof.
  assert (Hd : ∀ dir l, calls part_call (read_docs dir l)).
  { intros dir l. induction l as [|n l IH]; [exact I|]. cbn [read_docs]. calls_go; assumption. }
  assert (Ho : ∀ counts docs, (∀ f pm, counts = Some f → calls part_call (f pm)) → calls part_call (others_in c yu Sprint docs counts)).
  { intros counts docs Hc. induction docs as [|d docs IH]; [exact I|]. cbn [others_in]. apply calls_bind; [by apply calls_otherBridgeProviders|].
    intros l. apply calls_bind; [done|by intros]. }
  unfold blockingInstalls. destruct (_ || _); [exact I|]. apply calls_bind; [unfold configDocs; calls_go; apply Hd|].
  intros [docs|e]; [|exact I].
  assert (calls_to part_call (rewireCounts c current) (λ r, ∀ counts f pm, r = Ok counts → counts = Some f → calls part_call (f pm))) as Hw.
  { unfold rewireCounts. destruct (withinDir _ _); [intros counts f pm [= <-] [= <-]; calls_go|].
    eapply calls_to_bind; [apply calls_calls_to; unfold chartOwnedPathIn; calls_go|]. intros p _.
    eapply calls_to_bind; [apply calls_calls_to, part_claimsChartOwned|]. intros [[]|e] _ counts f pm E1 E2; simplify_eq. calls_go. }
  eapply calls_bind_to; [exact Hw|]. clear Hw. intros [counts|e] Hc; [|exact I].
  apply calls_bind; [apply Ho; eauto|]. intros [|n l]; [exact I|]. unfold keptSiblings, ownConfig. calls_go. by apply calls_otherBridgeProviders.
Qed.

Lemma part_resolve_mode : calls part_call (resolve_mode c).
Proof. unfold resolve_mode, wiredByOwnPatch, loadState. calls_go. Qed.

(** The body of a merge pass, under the configuration's lock. *)
Lemma part_merged_config wiring existing rendered entry chartOwned :
  calls part_call (merged_config c yu ym ju wiring existing rendered entry chartOwned).
Proof.
  unfold merged_config, checkKubeletCanStart, kubeletStartProblems. destruct chartOwned.
  - apply calls_bind; [|by intros]. apply calls_chartOwnedConfig. intros pm. calls_go.
  - assert (Hs : ∀ root ps seen, calls part_call (start_problems (ProviderName c) (has_binary root) seen ps)).
    { intros root ps. induction ps as [|p ps IH]; intros seen; [exact I|]. cbn [start_problems]. unfold has_binary. calls_go; apply IH. }
    calls_go; apply Hs.
Qed.
End Documents.
End Unlocked.

(** ** The locks a pass holds *)

(** The locks held after a log, latest first; [true] marks the node lock. *)
Fixpoint locks (h : log hans) : list (bool * nat) :=
  match h with
  | [] => []
  | existT (LockFile _ _) (Ok l) :: h => (true, l) :: locks h
  | existT (LockFileIn _ _ _) (Ok l) :: h => (false, l) :: locks h
  | existT (Unlock l) _ :: h => match locks h with (b, l') :: s => if Nat.eqb l l' then s else (b, l') :: s | [] => [] end
  | _ :: h => locks h
  end.

Section Discipline.
(** The locks held before the pass, and whether it is one of mode none. *)
Context (base : list (bool * nat)) (none : bool).

Definition node_held (h : log hans) : Prop := ∃ l above, locks h = above ++ (true, l) :: base.

(** What a call may do: the node lock is taken before anything else, the lock of a
    configuration under it (in mode none: before anything else), a lock is released when it
    is the last one taken, and files change and kubelet restarts only under a lock. *)
Definition disciplined (h : log hans) (call : hcall) : Prop :=
  match call with
  | LockFile _ _ => none = false ∧ locks h = base
  | LockFileIn _ _ _ => if none then locks h = base else node_held h
  | Unlock l => ∃ b s, locks h = (b, l) :: s
  | _ => is_write call = true ∨ is_restart call = true → if none then ∃ l, locks h = (false, l) :: base else node_held h
  end.

Definition guarded (s : list (bool * nat)) : Prop :=
  if none then ∃ l, s = (false, l) :: base else ∃ l above, s = above ++ (true, l) :: base.

Notation dwp h p Q := (wp any_env disciplined h p Q).

(** A part that takes no lock, under one. *)
Lemma wp_under {A} (p : host A) : calls unlocked_call p → ∀ s h, guarded s → locks h = s →
  dwp h p (λ h' _, locks h' = s).
Proof.
  induction p as [a|call k IH]; intros Hc s h Hg <-; [done|]. destruct Hc as [Hc Hk]. split.
  - destruct call; try done; intros _; exact Hg.
  - intros r _. apply IH; [done..|]. by destruct call.
Qed.

Lemma wp_under_to {A} (p : host A) R : calls_to unlocked_call p R → ∀ s h, guarded s → locks h = s →
  dwp h p (λ h' a, locks h' = s ∧ R a).
Proof.
  induction p as [a|call k IH]; intros Hc s h Hg <-; [done|]. destruct Hc as [Hc Hk]. split.
  - destruct call; try done; intros _; exact Hg.
  - intros r _. apply IH; [done..|]. by destruct call.
Qed.

(** A part that changes nothing. *)
Lemma wp_quiet {A} (p : host A) : calls (λ call, is_lock call = false ∧ read_only call) p → ∀ h, dwp h p (λ h' _, locks h' = locks h).
Proof.
  induction p as [a|call k IH]; intros Hc h; [done|]. destruct Hc as [[Hc [H1 H2]] Hk]. split.
  - destruct call; try done; intros [H|H]; congruence.
  - intros r _. eapply wp_mono; [by apply IH|]. cbn. intros h' a ->. destruct call; done.
Qed.

Lemma wp_try {A} h (p : host (res A)) w k Q :
  dwp h p (λ h' r, match r with Ok a => dwp h' (k a) Q | Err e => Q h' (Some (w e)) end) → dwp h (try p w k) Q.
Proof. intros H. unfold try. apply wp_bind. eapply wp_mono; [exact H|]. by intros h' [a|e]. Qed.

Lemma wp_hdefer {A B} h (cleanup : host B) (body : host A) Q :
  dwp h body (λ h' a, dwp h' cleanup (λ h'' _, Q h'' a)) → dwp h (hdefer cleanup body) Q.
Proof. intros H. unfold hdefer. apply wp_bind. eapply wp_mono; [exact H|]. intros h' a H'. by apply wp_bind. Qed.

Lemma wp_unlock h b l s : locks h = (b, l) :: s → dwp h (trigger (Unlock l)) (λ h' _, locks h' = s).
Proof. intros Hl. wp_last; [by exists b, s|]. intros r _. cbn. rewrite Hl. by rewrite Nat.eqb_refl. Qed.

(** A body under the lock [l], released after it. *)
Lemma wp_locked {A} h b l s (body : host A) : locks h = (b, l) :: s → guarded ((b, l) :: s) → calls unlocked_call body →
  dwp h (hdefer (trigger (Unlock l)) body) (λ h' _, locks h' = s).
Proof.
  intros Hl Hg Hc. apply wp_hdefer. eapply wp_mono; [by eapply wp_under|]. intros h' a H. by apply (wp_unlock h' b).
Qed.
End Discipline.

Section Pass.
Context (c : config) (base : list (bool * nat)).
Context (yu : string → res obj) (ym : obj → res string) (ju : string → res obj) (Sprint : option json → string).
Context (ParseURL : string → res (string * string)) (ParseAddr : string → res addr) (error_text : gerr → string).
Notation nodewp h p Q := (wp any_env (disciplined base false) h p Q).

Lemma guarded_cons b l s : guarded base false s → guarded base false ((b, l) :: s).
Proof. intros (l' & above & ->). by exists l', ((b, l) :: above). Qed.

Lemma part_openDirOf p create : calls part_call (openDirOf c p create).
Proof. unfold openDirOf, openConfigDir. calls_go. Qed.

Lemma wp_lockConfig h p s : guarded base false s → locks h = s →
  nodewp h (lockConfig c p) (λ h' r, match r with Ok l => locks h' = (false, l) :: s | Err _ => locks h' = s end).
Proof.
  intros Hg Hs. unfold lockConfig. apply wp_bind. eapply wp_mono; [apply (wp_under base false _ (part_unlocked _ (part_openDirOf p true)) s h Hg Hs)|].
  intros h1 [root|e] H1; [|done]. apply wp_hdefer. wp_last; [exact (eq_rect_r (λ s, guarded base false s) Hg H1)|].
  intros [l|e] _; (wp_last; [by intros [[=]|[=]]|]); intros r _; cbn; by rewrite H1.
Qed.

Definition config_locks (taken : list nat) : list (bool * nat) := map (pair false) taken.

Lemma wp_release taken : ∀ h s, locks h = config_locks taken ++ s → nodewp h (release taken) (λ h' _, locks h' = s).
Proof.
  induction taken as [|l taken IH]; intros h s Hl; cbn [release]; [done|].
  apply wp_bind. eapply wp_mono; [apply (wp_unlock base false h false l (config_locks taken ++ s)); exact Hl|]. intros h' u H. by apply IH.
Qed.

Lemma guarded_config taken s : guarded base false s → guarded base false (config_locks taken ++ s).
Proof. intros (l & above & ->). exists l, (config_locks taken ++ above). by rewrite app_assoc. Qed.

Lemma wp_take_locks paths : ∀ taken h s, guarded base false s → locks h = config_locks taken ++ s →
  nodewp h (take_locks c paths taken) (λ h' r, match r with Ok t => locks h' = config_locks t ++ s | Err _ => locks h' = s end).
Proof.
  induction paths as [|p paths IH]; intros taken h s Hg Hl; cbn [take_locks]; [done|].
  apply wp_bind. eapply wp_mono; [by apply (wp_lockConfig h p (config_locks taken ++ s)); [apply guarded_config|]|].
  intros h1 [l|e] H1; [by apply IH|]. apply wp_bind. eapply wp_mono; [by apply wp_release|]. done.
Qed.

Lemma wp_lockPatchConfigs h w s : guarded base false s → locks h = s →
  nodewp h (lockPatchConfigs c w) (λ h' r, match r with Ok t => locks h' = config_locks t ++ s | Err _ => locks h' = s end).
Proof.
  intros Hg Hl. unfold lockPatchConfigs. apply wp_bind.
  eapply wp_mono; [eapply (wp_under base false); [|exact Hg|exact Hl]; unfold configLockPath, chartOwnedPathIn; calls_go|].
  intros h1 ps H1. by apply wp_take_locks.
Qed.

Notation nodepass h p := (nodewp h p (λ h' _, locks h' = locks h)).

(** What runs under the lock of kubelet's configuration. *)
Ltac merge_calls :=
  pose proof (λ w e r en b, part_unlocked _ (part_merged_config c yu ym ju w e r en b)) as Hm; pose proof (λ d p, part_unlocked _ (part_claimsChartOwned c d p)) as Hcl;
  pose proof (λ t, part_unlocked _ (part_refuseRejected c t)) as Hrr;
  pose proof (λ d e o, part_unlocked _ (part_file _ (calls_installFiles c d e o))) as Hi;
  pose proof (λ d e o, part_unlocked _ (part_file _ (calls_commitRecord c d e o))) as Hco;
  calls_go; try match goal with x : (_ * _ * _)%type |- _ => destruct x as [[??] ?] end; calls_go; auto;
  apply part_unlocked, part_finishWithRestart; [done|]; unfold merge_rollback; cbn;
  apply Forall_cons; split; [apply part_file, calls_writeRecord|]; apply Forall_cons; split; [calls_go|by constructor].

(** A merge pass: one more lock, around the rest. *)
Lemma wp_runMerge h s rendered entry w : guarded base false s → locks h = s →
  nodewp h (runMerge c yu ym ju error_text rendered entry w) (λ h' _, locks h' = s).
Proof.
  intros Hg Hl. unfold runMerge. wp_call; [by intros [[=]|[=]]|]. intros fi _. destruct (match fi with Ok FDir => true | _ => false end) eqn:Hd.
  { destruct fi as [[]|]; done. }
  assert (∀ x y : host (option gerr), (match fi with Ok FDir => x | _ => y end) = y) as E by (intros; by destruct fi as [[]|]).
  rewrite E. clear E Hd. destruct (_ && _); [exact Hl|].
  apply wp_try. eapply wp_mono; [apply (wp_under base false _ (part_unlocked _ (part_openDirOf (WConfigFile w) false)) s _ Hg); exact Hl|].
  intros h1 [dir|e] H1; [|done]. apply wp_hdefer. apply wp_try. wp_last; [exact (eq_rect_r (λ s, guarded base false s) Hg H1)|].
  intros [l|e] _; [|wp_last; [by intros [[=]|[=]]|]; intros r _; exact H1].
  eapply wp_mono; [eapply (wp_locked base false _ false l s)|].
  - cbn. by rewrite H1.
  - by apply guarded_cons.
  - merge_calls.
  - intros h2 r H2. wp_last; [by intros [[=]|[=]]|]. intros u _. exact H2.
Qed.

Lemma wp_run_mode h s rendered entry m w moving : guarded base false s → locks h = s → m ≠ modeNone →
  nodewp h (run_mode c yu ym ju Sprint error_text rendered entry m w moving) (λ h' _, locks h' = s).
Proof.
  intros Hg Hl Hm. unfold run_mode. destruct (String.eqb m modePatch).
  { apply wp_try. eapply wp_mono; [by apply wp_lockPatchConfigs|]. intros h1 [t|e] H1; [|done].
    apply wp_hdefer. eapply wp_mono; [eapply (wp_under base false); [|by apply (guarded_config t s)|exact H1]|].
    - apply calls_try; [apply part_unlocked, part_blockingInstalls|]. intros others. destruct (negb _); [|apply unlocked_runPatchOn].
      destruct moving; [apply unlocked_stayAndStage|exact I].
    - intros h2 r H2. by apply wp_release. }
  destruct (String.eqb m modeMerge).
  { destruct (dirsOverlap _ _); [exact Hl|]. by apply wp_runMerge. }
  destruct (String.eqb_spec m modeNone); [done|exact Hl].
Qed.

Lemma calls_load_entry : calls (λ call, is_lock call = false ∧ read_only call) (load_entry c yu ParseURL ParseAddr).
Proof. unfold load_entry. apply calls_bind; [|by intros]. apply calls_trigger. done. Qed.

Lemma resolved_mode : Mode c ≠ modeNone → calls_to unlocked_call (resolve_mode c) (λ r, ∀ m w b, r = Ok (m, w, b) → m ≠ modeNone).
Proof.
  intros Hm. unfold resolve_mode, wiredByOwnPatch, loadState.
  assert (Hd : calls_to unlocked_call (discoverKubelet ProcRoot) (λ _, True)) by apply calls_calls_to, part_unlocked, part_discoverKubelet.
  destruct (String.eqb (Mode c) modeAuto).
  { eapply calls_to_bind; [exact Hd|]. intros [w|e] _; [|by intros ??? [=]]. destruct (negb _); [by intros ??? [= <- _ _]|].
    destruct (wiring_eqb _ _); [by intros ??? [= <- _ _]|]. split; [done|]. intros r. cbn. destruct (loaded r) as [[]|]; cbn; intros ??? [= <- _ _];
      try destruct (_ && _); done. }
  destruct (String.eqb (Mode c) modePatch).
  { eapply calls_to_bind; [exact Hd|]. intros [w|e] _; intros ??? E; by simplify_eq. }
  destruct (String.eqb (Mode c) modeMerge).
  { destruct (negb _); [by intros ??? [= <- _ _]|]. eapply calls_to_bind; [exact Hd|]. intros [w|e] _; intros ??? E; [|by simplify_eq].
    destruct (negb _); by simplify_eq. }
  intros m w b [= <- _ _]. done.
Qed.

Notation run := (run c yu ym ju Sprint ParseURL ParseAddr error_text).

Lemma wp_run_node h : Mode c ≠ modeNone → locks h = base → nodewp h run (λ h' _, locks h' = base).
Proof.
  intros Hm Hl. unfold Install.run. apply wp_try. eapply wp_mono; [apply (wp_quiet base false _ calls_load_entry)|].
  intros h1 [[rendered entry]|e] H1; [|congruence]. destruct (String.eqb_spec (Mode c) modeNone); [done|].
  apply wp_try. wp_last; [split; [done|congruence]|]. intros [l|e] _; [|cbn; congruence].
  assert (guarded base false ((true, l) :: base)) as Hg by by exists l, [].
  apply wp_hdefer. unfold run_locked. eapply (wp_mono _ _ _ _ (λ h' _, locks h' = (true, l) :: base)).
  { apply wp_try. eapply wp_mono; [apply (wp_under_to base false _ _ (resolved_mode n) ((true, l) :: base) _ Hg); cbn; congruence|].
    intros h2 [[[m w] b]|e] [H2 Hres]; [|exact H2]. apply (wp_run_mode h2 ((true, l) :: base)); [done..|]. by eapply Hres. }
  intros h2 r H2. by eapply wp_unlock.
Qed.

Lemma wp_run_none h : Mode c = modeNone → locks h = base →
  wp any_env (disciplined base true) h run (λ h' _, locks h' = base).
Proof.
  intros Hm Hl. unfold Install.run. apply wp_try. eapply wp_mono; [apply (wp_quiet base true _ calls_load_entry)|].
  intros h1 [[rendered entry]|e] H1; [|congruence]. rewrite Hm. change (String.eqb modeNone modeNone) with true. cbv iota.
  rewrite run_locked_none by done. unfold runNone. apply wp_try.
  unfold openConfigDir. wp_last; [by intros [[=]|[=]]|]. intros [dir|e] _; [|cbn; congruence].
  apply wp_hdefer, wp_try. wp_last; [cbn; congruence|].
  intros [l|e] _; [|wp_last; [by intros [[=]|[=]]|]; intros u _; cbn; congruence].
  eapply wp_mono; [eapply (wp_locked base true _ false l base); [cbn; congruence|by exists l|]|].
  - apply calls_try; [apply part_unlocked, part_chartOwnedConfigIn|]. intros d.
    apply calls_try; [exact I|]. intros e. apply calls_try; [apply part_unlocked, part_file, calls_installFiles|]. intros b.
    apply calls_try; [calls_go|]. intros u. apply part_unlocked, part_file, calls_commitRecord.
  - intros h2 r H2. wp_last; [by intros [[=]|[=]]|]. intros u _. exact H2.
Qed.
(** *** The calls of a whole pass *)

(** Which lock is the node's, and what a pass reads beside the operations of [files.go]. *)
Definition pass_call (call : hcall) : Prop :=
  match call with
  | LockFile p _ => p = hostPath c nodeLockPath
  | OsReadFile p => p = SourceConfig c ∨ own_reads call
  | _ => own_reads call
  end.

Lemma unlocked_pass {A} (p : host A) : calls unlocked_call p → calls pass_call p.
Proof. apply calls_mono. intros []; try done. by right. Qed.

Lemma pass_runMerge rendered entry w : calls pass_call (runMerge c yu ym ju error_text rendered entry w).
Proof.
  unfold runMerge. apply calls_bind; [by apply calls_trigger|]. intros fi.
  enough (calls pass_call (if withinDir (WConfigFile w) (HostConfigDir c) && negb (String.eqb (WConfigFile w) (ownConfigPath c)) then Ret (Some not_chart_owned_error)
    else try (openDirOf c (WConfigFile w) false) (EWrap "open the directory of the config") (λ dir, _))) as H by (destruct fi as [[]|]; done || exact H).
  destruct (_ && _); [exact I|]. apply calls_try; [apply unlocked_pass, part_unlocked, part_openDirOf|]. intros dir.
  apply calls_hdefer; [by apply calls_trigger|]. apply calls_try; [by apply calls_trigger|]. intros l.
  apply calls_hdefer; [by apply calls_trigger|]. apply unlocked_pass. merge_calls.
Qed.

Lemma pass_locks w : calls pass_call (lockPatchConfigs c w).
Proof.
  assert (Hr : ∀ taken, calls pass_call (release taken)) by (induction taken as [|l taken IH]; [done|]; by split).
  assert (Ht : ∀ paths taken, calls pass_call (take_locks c paths taken)).
  { induction paths as [|p paths IH]; intros taken; [done|]. cbn [take_locks]. apply calls_bind.
    - unfold lockConfig. apply calls_bind; [apply unlocked_pass, part_unlocked, part_openDirOf|]. intros [root|e]; [|done].
      apply calls_hdefer; by apply calls_trigger.
    - intros [l|e]; [apply IH|]. apply calls_bind; [apply Hr|by intros]. }
  unfold lockPatchConfigs. apply calls_bind; [|intros; apply Ht]. apply unlocked_pass. unfold configLockPath, chartOwnedPathIn. calls_go.
Qed.

Lemma pass_calls : calls pass_call run.
Proof.
  unfold Install.run. apply calls_try.
  { unfold load_entry. apply calls_bind; [apply calls_trigger; by left|by intros]. }
  intros [rendered entry]. destruct (String.eqb_spec (Mode c) modeNone) as [Hm|Hm].
  - rewrite run_locked_none by done. eapply calls_mono; [|apply calls_runNone]. intros []; cbn; try done; tauto.
  - apply calls_try; [by apply calls_trigger|]. intros l. apply calls_hdefer; [by apply calls_trigger|]. unfold run_locked.
    apply calls_try; [eapply unlocked_pass, calls_to_calls, (resolved_mode Hm)|]. intros [[m w] moving]. unfold run_mode.
    destruct (String.eqb m modePatch).
    { apply calls_try; [apply pass_locks|]. intros locks. apply calls_hdefer; [induction locks as [|l0 locks IH]; [done|by split]|].
      apply calls_try; [apply unlocked_pass, part_unlocked, part_blockingInstalls|]. intros others. apply unlocked_pass.
      destruct (negb _); [|apply unlocked_runPatchOn]. destruct moving; [apply unlocked_stayAndStage|exact I]. }
    destruct (String.eqb m modeMerge); [destruct (dirsOverlap _ _); [done|apply pass_runMerge]|].
    destruct (String.eqb m modeNone); [|done]. eapply calls_mono; [|apply calls_runNone]. intros []; cbn; try done; tauto.
Qed.
End Pass.

Section Property.
Context (c : config) (yu : string → res obj) (ym : obj → res string) (ju : string → res obj) (Sprint : option json → string).
Context (ParseURL : string → res (string * string)) (ParseAddr : string → res addr) (error_text : gerr → string).

(** Every pass keeps to the order of the locks: outside mode none it takes the node lock
    first, while it holds none, and takes the lock of a configuration only under it; in mode
    none it takes one lock, while it holds none; so an installer that waits for a lock holds
    none, or holds the node lock, of which there is one, and no two installers wait for each
    other. It changes files and restarts kubelet only under a lock, releases the latest lock
    first, and ends with the locks it started with, on every path. *)
Theorem run_lock_discipline h h' r :
  runs any_env (run c yu ym ju Sprint ParseURL ParseAddr error_text) h h' r →
  log_ok (disciplined (locks h) (String.eqb (Mode c) modeNone)) h h' ∧ locks h' = locks h.
Proof.
  intros Hr. destruct (String.eqb_spec (Mode c) modeNone) as [Hm|Hm].
  - exact (wp_sound _ _ _ _ _ _ _ (wp_run_none c (locks h) yu ym ju Sprint ParseURL ParseAddr error_text h Hm eq_refl) Hr).
  - exact (wp_sound _ _ _ _ _ _ _ (wp_run_node c (locks h) yu ym ju Sprint ParseURL ParseAddr error_text h Hm eq_refl) Hr).
Qed.
End Property.

(** ** A pass *)

(** A node whose kubelet the cloud wired, with an install in mode merge. *)
Definition inst_cfg : config :=
  MkConfig modeMerge "/host" "" "/etc/harbor" "/opt/bin" "/etc/cp.yaml" false "kubelet" "/var/lib/harbor-bridge" ""
    defaultProviderName legacySourceConfig.

Definition inst_entry : obj :=
  [("apiVersion", JString tokenAPIVersion); ("defaultCacheDuration", JString "1h");
   ("env", JArray [JObject [("name", JString bridgeEndpointEnv); ("value", JString "https://bridge:8443")]]);
   ("matchImages", JArray [JString "harbor.example.com"]); ("name", JString defaultProviderName)].
Definition inst_rendered : string := demo_text [JObject inst_entry].

Definition inst_serve (n : demo_node) (call : hcall) : hans call * demo_node :=
  match call return hans call * demo_node with
  | OsReadFile _ => (Ok inst_rendered, n)
  | ReadPrior _ _ => (Ok (MkPrior true (demo_text [JObject demo_cloud]) (MkMeta 0x1A4 None)), n)
  | LstatIn _ _ => (Ok (MkInfo 1 FRegular 0x1ED 1 None), n)
  | OsLstat _ => (Ok FRegular, n)
  | call => demo_serve n call
  end.

Definition inst_pass : host (option gerr) :=
  run inst_cfg demo_read_doc demo_write_doc demo_read_doc (λ _, "") (λ _, Ok ("https", "bridge:8443")) (λ s, Ok (MkAddr true "" s)) (λ _, "error").
Definition inst_run := play inst_serve (MkNode 0 None true) inst_pass [].

Example inst_pass_succeeds : inst_run.2 = None ∧ length (restarts inst_run.1.2) = 1%nat.
Proof. vm_compute. by split. Qed.

Lemma run_lock_discipline_witness : log_ok (disciplined [] false) [] inst_run.1.2 ∧ locks inst_run.1.2 = [].
Proof.
  refine (run_lock_discipline inst_cfg demo_read_doc demo_write_doc demo_read_doc (λ _, "") (λ _, Ok ("https", "bridge:8443"))
    (λ s, Ok (MkAddr true "" s)) (λ _, "error") [] inst_run.1.2 inst_run.2 _).
  exact (play_runs_in any_env inst_serve (MkNode 0 None true) inst_pass [] (λ _ _ _, I)).
Defined.

(** The same node with an install in mode none, which resyncs its files each second. *)
Definition inst_none : config :=
  MkConfig modeNone "/host" "" "/etc/harbor" "/opt/bin" "/etc/cp.yaml" false "kubelet" "/var/lib/harbor-bridge" ""
    defaultProviderName legacySourceConfig.

Lemma none_leaves_kubelet_witness :
  calls (none_call inst_none) (run inst_none demo_read_doc demo_write_doc demo_read_doc (λ _, "") (λ _, Ok ("https", "bridge:8443")) (λ s, Ok (MkAddr true "" s)) (λ _, "error")) ∧
  calls (none_call inst_none) (runSync inst_none 1000000000 3).
Proof. apply none_leaves_kubelet. reflexivity. Defined.
