(* ===== verification/InstallRecords.v ===== *)
(** * The record comes before the entry

    In every mode of [Install], an entry is written into kubelet's configuration only when
    the record that vouches for it and the binary kubelet runs for it are on the node: a pass
    that dies halfway never leaves an entry other installs would drop, or one without its
    binary. *)

From S2P Require Import Prelude Effects GoStrings GoStd GoTime GoPath Utf8 Json InstallerConfig Host HostLocks InstallerState Discover ProviderConfig ProviderMerge Records KubeletUnit Restart EnvFile KubeletEnv Install InstallProps InstallLocks.

Section Records.
Context (c : config) (dir entryJSON : string).

Definition record_file : string := hostPath c (record_path c dir).
Definition writes_record (call : hcall) : Prop := match call with WriteFileAtomic p _ _ => p = record_file | _ => False end.

(** An entry of the record file as it was read. *)
Definition held (raw : res string) (e : string) : Prop := ∃ text r, raw = Ok text ∧ decode_record text = Some r ∧ e ∈ Entries r.

(** The record of [dir] was read and at once replaced by one that holds the entry and every
    entry it held, and was not written since. *)
Definition vouched_for (h : log hans) : Prop := ∃ later raw r text b earlier,
  h = later ++ existT (WriteFileAtomic record_file text recordFileMode) (Ok b) :: existT (ReadHostFile record_file) raw :: earlier ∧
  record_text r = Ok text ∧ entryJSON ∈ Entries r ∧ (∀ e, held raw e → e ∈ Entries r) ∧ Forall (λ e, ¬ writes_record (projT1 e)) later.

(** A record that holds the entry was written into [dir]. *)
Definition record_written (h : log hans) : Prop := ∃ r text b, record_text r = Ok text ∧ entryJSON ∈ Entries r ∧
  existT (WriteFileAtomic record_file text recordFileMode) (Ok b) ∈ h.

(** The plugin was copied into [dir] under the name kubelet runs. *)
Definition has_plugin (h : log hans) : Prop :=
  ∃ b, existT (CopyFile SourcePlugin (hostPath c (JoinPath dir (Binary (files c)))) 0x1ED) (Ok b) ∈ h.

Definition in_place (h : log hans) : Prop := vouched_for h ∧ has_plugin h.
Definition installed (h : log hans) : Prop := record_written h ∧ has_plugin h.

Lemma in_place_installed h : in_place h → installed h.
Proof.
  intros [(later & raw & r & text & b & earlier & -> & H1 & H2 & _) Hp]. split; [|done]. exists r, text, b. split_and!; [done..|].
  apply elem_of_app. right. left.
Qed.

Lemma installed_later l h : installed h → installed (l ++ h).
Proof.
  intros [(r & text & b & H1 & H2 & H3) (b' & H4)]. split.
  - exists r, text, b. split_and!; [done..|]. apply elem_of_app. by right.
  - exists b'. apply elem_of_app. by right.
Qed.

(** A call that writes a provider configuration. *)
Definition writes_config (call : hcall) : bool :=
  match call with WriteFileIn _ _ _ _ | WriteForeignIn _ _ _ => true | _ => false end.
Definition no_config (call : hcall) : Prop := writes_config call = false.

Definition entry_last (h : log hans) (call : hcall) : Prop := writes_config call = true → in_place h.
Notation ewp h p Q := (wp any_env entry_last h p Q).

(** Parts that write no configuration. *)
Lemma wp_no_config {A} h (p : host A) : calls no_config p → ewp h p (λ _ _, True).
Proof. intros Hc. eapply wp_weaken; [|by apply calls_wp]. intros h' call H. unfold entry_last, no_config in *. congruence. Qed.

Lemma with_entry_holds r chartOwned : entryJSON ∈ Entries (with_entry r entryJSON chartOwned).
Proof.
  unfold with_entry. cbn [Entries]. destruct (Records.holds r entryJSON) eqn:E; [|apply elem_of_app; right; left].
  destruct r as [r|]; [|done]. cbn in E. apply existsb_exists in E as (e & He & <-%String.eqb_eq). by apply list_elem_of_In.
Qed.

Lemma with_entry_keeps r chartOwned e : e ∈ Entries r → e ∈ Entries (with_entry (Some r) entryJSON chartOwned).
Proof. unfold with_entry. cbn [Entries]. destruct (Records.holds _ _); [done|]. intros He. apply elem_of_app. by left. Qed.

(** Once the files are installed, everything is in place. *)
Lemma wp_installFiles h chartOwned : ewp h (installFiles c dir entryJSON chartOwned) (λ h' r, is_ok r = true → in_place h').
Proof.
  unfold installFiles. apply wp_bind. eapply wp_mono; [apply wp_no_config; unfold checkBinaryOwnership|].
  { repeat first [apply calls_bind; [|intros ?] | by apply calls_trigger | case_match | exact I]. }
  intros h1 [e|] _; [done|]. apply wp_bind. eapply wp_mono; [apply wp_no_config; unfold syncAuxFiles, openConfigDir|].
  { repeat first [apply calls_try; [|intros ?] | apply calls_hdefer | by apply calls_trigger | case_match | exact I]. }
  clear h h1. intros h [e|] _; [done|]. unfold installPluginBinary, beginRecord, readRecord, writeRecord.
  apply wp_bind, wp_bind, wp_bind. wp_last; [done|]. intros raw _. apply wp_ret.
  set (r0 := match raw with Err _ => None | Ok text => decode_record text end). set (r := with_entry r0 _ _).
  destruct (record_text r) as [text|e] eqn:Ht; [|done].
  apply wp_bind, wp_bind. wp_last; [done|]. intros [b|e] _; [|done].
  apply wp_ret, wp_ret. wp_call; [done|]. intros [b'|e] _; [|done]. intros _. split; [|exists b'; left].
  eexists [_], raw, r, text, b, h. split_and!; [reflexivity|done|apply with_entry_holds| |by constructor; [intros []|constructor]].
  intros e (t & rec & -> & Hd & He). unfold r, r0. rewrite Hd. by apply with_entry_keeps.
Qed.

Lemma wp_entry_try {A} h (p : host (res A)) w k Q : calls no_config p →
  (∀ h a, ewp h (k a) Q) → (∀ h e, Q h (Some (w e))) → ewp h (try p w k) Q.
Proof.
  intros Hp Hk He. unfold try. apply wp_bind. eapply wp_mono; [by apply wp_no_config|]. intros h' [a|e] _; [apply Hk|apply He].
Qed.

Lemma wp_entry_hdefer {A B} h (cleanup : host B) (body : host A) (Q : log hans → A → Prop) : calls no_config cleanup →
  (∀ l h a, Q h a → Q (l ++ h) a) → ewp h body Q → ewp h (hdefer cleanup body) Q.
Proof.
  intros Hc HQ Hb. unfold hdefer. apply wp_bind. eapply wp_mono; [exact Hb|]. intros h' a Ha. apply wp_bind.
  eapply wp_mono; [by apply wp_extends, wp_no_config|]. intros h2 b [[l ->] _]. by apply HQ.
Qed.

Lemma wp_entry_check h (p k : host (option gerr)) Q : calls no_config p →
  (∀ h, ewp h k Q) → (∀ h e, Q h (Some e)) → ewp h (check p k) Q.
Proof.
  intros Hp Hk He. unfold check. apply wp_bind. eapply wp_mono; [by apply wp_no_config|]. intros h' [e|] _; [apply He|apply Hk].
Qed.

(** Parts that write nothing leave everything in place. *)
Definition quiet_call (call : hcall) : Prop := is_write call = false.

Lemma in_place_quiet call r h : quiet_call call → in_place h → in_place (existT call r :: h).
Proof.
  intros Hq [(later & raw & rec & text & b & earlier & -> & H1 & H2 & H3 & H4) (b' & Hp)]. split; [|exists b'; by right].
  exists (existT call r :: later), raw, rec, text, b, earlier. split_and!; [done..|]. constructor; [|done].
  by destruct call; try intros [].
Qed.

Lemma wp_quiet_place {A} (p : host A) : calls quiet_call p → ∀ h (ok : log hans → hcall → Prop), (∀ h call, quiet_call call → ok h call) →
  in_place h → wp any_env ok h p (λ h' _, in_place h').
Proof.
  induction p as [a|call k IH]; intros Hc h ok Hok Hp; [done|]. destruct Hc as [Hc Hk]. split; [by apply Hok|]. intros r _.
  apply IH; [done..|]. by apply in_place_quiet.
Qed.

(** What a pass that succeeds leaves. *)
Definition leaves (h : log hans) (r : option gerr) : Prop := r = None → installed h.

Lemma leaves_later l h r : leaves h r → leaves (l ++ h) r.
Proof. intros H E. by apply installed_later, H. Qed.

(** The files, then what follows, which writes the configuration first. *)
Definition config_first (k : host (option gerr)) : Prop :=
  ∀ h, in_place h → ewp h k (λ _ _, True).

Lemma wp_installed h chartOwned (k : entryRecord → host (option gerr)) : (∀ rec, config_first (k rec)) →
  ewp h (try (installFiles c dir entryJSON chartOwned) as_is k) leaves.
Proof.
  intros Hk. unfold try. apply wp_bind. eapply wp_mono; [apply wp_installFiles|]. intros h' [rec|e] H; [|done].
  specialize (H eq_refl). eapply wp_mono; [apply wp_extends, Hk, H|]. intros h2 r [[l ->] _] _. by apply installed_later, in_place_installed.
Qed.

(** A configuration is written, and the rest writes none. *)
Lemma wp_foreign_first d n data w (k : bool → host (option gerr)) : (∀ b, calls no_config (k b)) →
  config_first (try (trigger (WriteForeignIn d n data)) w k).
Proof. intros Hk h Hp. unfold try. wp_call; [by intros _|]. intros [b|e] _; [by apply wp_no_config|done]. Qed.
Lemma wp_file_first d n data m w (k : bool → host (option gerr)) : (∀ b, calls no_config (k b)) →
  config_first (try (trigger (WriteFileIn d n data m)) w k).
Proof. intros Hk h Hp. unfold try. wp_call; [by intros _|]. intros [b|e] _; [by apply wp_no_config|done]. Qed.

Lemma part_no_config {A} (p : host A) : calls part_call p → calls no_config p.
Proof. apply calls_mono. by intros []. Qed.
End Records.

(** ** The passes *)

Section Passes.
Context (c : config) (yu : string → res obj) (ym : obj → res string) (ju : string → res obj) (error_text : gerr → string).
Context (rendered : string) (entry : obj).
Notation e := (print (JObject entry)).

Notation leaves_in dir := (leaves c dir e).

(** Side conditions of the steps below. *)
Ltac records_side := first [by apply calls_trigger | exact I | by intros ? ? | by intros ? ? [=] | exact (leaves_later _ _ _)].

Lemma wp_runNone_records h : wp any_env (entry_last c (HostBinDir c) e) h (runNone c yu ym ju rendered entry) (leaves_in (HostBinDir c)).
Proof.
  unfold runNone, ownConfig. apply wp_entry_try; [records_side| |records_side]. clear h. intros h dir.
  apply wp_entry_hdefer; [records_side..|]. apply wp_entry_try; [records_side| |records_side]. clear h. intros h l.
  apply wp_entry_hdefer; [records_side..|]. apply wp_entry_try; [apply part_no_config, part_chartOwnedConfigIn| |records_side]. clear h. intros h d.
  apply wp_installed. intros rec. apply wp_file_first. intros b. apply part_no_config, part_file, calls_commitRecord.
Qed.

Lemma wp_runPatchOn_records own h :
  wp any_env (entry_last c (WBinDir own) e) h (runPatchOn c yu ym ju error_text rendered entry own) (leaves_in (WBinDir own)).
Proof.
  unfold runPatchOn. apply wp_entry_try; [records_side| |records_side]. clear h. intros h dir. apply wp_entry_hdefer; [records_side..|].
  apply wp_entry_try; [apply part_no_config, part_chartOwnedConfigIn| |records_side]. clear h. intros h d.
  apply wp_entry_try; [apply part_no_config, part_kubeletEnvFile| |records_side]. clear h. intros h envFile.
  apply wp_entry_try; [records_side| |records_side]. clear h. intros h prior.
  apply wp_entry_try; [exact I| |records_side]. clear h. intros h desired. unfold try at 1. cbn [mbind prog_bind bind entryBytes].
  apply wp_entry_check; [apply part_no_config, part_refuseRejected| |records_side]. clear h. intros h. apply wp_installed.
  intros rec. apply wp_file_first. intros b. apply calls_check; [apply part_no_config, part_file, calls_commitRecord|].
  apply calls_try; [by apply calls_trigger|]. intros b'. apply part_no_config, part_finishWithRestart.
  - intros p [= <-]. unfold verify_wiring. apply calls_try; [apply part_discoverKubelet|by intros].
  - unfold patch_rollback. cbn. repeat constructor. apply part_file, calls_writeRecord.
Qed.

Lemma wp_runMerge_records w h :
  wp any_env (entry_last c (WBinDir w) e) h (runMerge c yu ym ju error_text rendered entry w) (leaves_in (WBinDir w)).
Proof.
  unfold runMerge. wp_call; [done|]. intros fi _. destruct (match fi with Ok FDir => true | _ => false end) eqn:Hd.
  { destruct fi as [[]|]; done. }
  assert (∀ x y : host (option gerr), (match fi with Ok FDir => x | _ => y end) = y) as E by (intros; by destruct fi as [[]|]).
  rewrite E. clear E Hd. destruct (_ && _); [done|].
  apply wp_entry_try; [apply part_no_config, part_openDirOf| |records_side]. clear h. intros h dir. apply wp_entry_hdefer; [records_side..|].
  apply wp_entry_try; [records_side| |records_side]. clear h. intros h l. apply wp_entry_hdefer; [records_side..|].
  apply wp_entry_try; [records_side| |records_side]. clear h. intros h prior. destruct (negb _); [done|].
  apply wp_entry_try; [destruct (String.eqb _ _); [exact I|apply part_no_config, part_claimsChartOwned]| |records_side]. clear h. intros h owned.
  apply wp_entry_try; [apply part_no_config, part_merged_config| |records_side]. clear h. intros h [[merged changed] claim].
  unfold try at 1. cbn [mbind prog_bind bind entryBytes].
  apply wp_entry_check; [apply part_no_config, part_refuseRejected| |records_side]. clear h. intros h. apply wp_installed.
  intros rec. apply wp_foreign_first. intros b. apply part_no_config. apply calls_check; [apply part_file, calls_commitRecord|].
  apply part_finishWithRestart; [done|]. unfold merge_rollback. cbn. repeat constructor. apply part_file, calls_writeRecord.
Qed.

(** A staged configuration: the files are installed into the new bin dir first, unless that
    is the one of the pass before. *)
Definition staged (old : kubeletWiring) (h : log hans) : Prop :=
  if String.eqb (HostBinDir c) (WBinDir old) then installed c (HostBinDir c) e h else in_place c (HostBinDir c) e h.

Lemma quiet_siblingIn dir en : calls quiet_call (siblingIn c dir en).
Proof.
  unfold siblingIn, readRecord. repeat first [apply calls_bind; [|intros ?] | by apply calls_trigger | case_match | exact I].
Qed.

Lemma quiet_ownConfig dir : calls quiet_call (ownConfig c yu ym ju dir rendered entry).
Proof.
  unfold ownConfig, chartOwnedConfigIn. apply calls_bind; [by apply calls_trigger|]. intros [prior|er]; [|exact I]. destruct (negb _); [exact I|].
  apply calls_bind; [|by intros]. apply calls_chartOwnedConfig. apply quiet_siblingIn.
Qed.

Lemma staged_quiet {A} old (p : host A) h (ok : log hans → hcall → Prop) : calls quiet_call p → (∀ h call, quiet_call call → ok h call) →
  staged old h → wp any_env ok h p (λ h' _, staged old h').
Proof.
  intros Hc Hok. unfold staged. destruct (String.eqb _ _).
  - intros Hi. eapply wp_mono; [apply wp_extends; eapply wp_weaken; [|by apply calls_wp]; intros h1 call; apply Hok|].
    intros h1 a [[l ->] _]. by apply installed_later.
  - by apply wp_quiet_place.
Qed.

Lemma wp_stage_records old h : (HostBinDir c = WBinDir old → installed c (HostBinDir c) e h) →
  wp any_env (λ h1 call, writes_config call = true → staged old h1) h (stageOwnFiles c yu ym ju rendered entry old) (λ _ _, True).
Proof.
  intros Hold. unfold stageOwnFiles. unfold try at 1. cbn [mbind prog_bind bind entryBytes ownWiring WBinDir WConfigFile]. unfold check at 1.
  set (ok := λ h1 call, writes_config call = true → staged old h1).
  assert (Hok : ∀ h1 call, quiet_call call → ok h1 call) by (intros h1 []; by try intros ?).
  assert (Hno : ∀ h1 (p : host (option gerr)), calls no_config p → wp any_env ok h1 p (λ _ _, True)).
  { intros h1 p Hp. eapply wp_weaken; [|by apply calls_wp]. intros h2 call Hc Hw. unfold no_config in Hc. congruence. }
  apply wp_bind. eapply (wp_mono _ _ _ _ (λ h1 r, r = None → staged old h1)).
  { unfold staged, ok. destruct (String.eqb_spec (HostBinDir c) (WBinDir old)) as [E|E]; cbn [negb]; [intros _; by apply Hold|].
    unfold try. apply wp_bind. eapply wp_mono; [eapply wp_weaken; [|apply (wp_installFiles c (HostBinDir c) e)]|].
    - intros h1 call H Hw. unfold staged. rewrite (proj2 (String.eqb_neq _ _) E). by apply H.
    - intros h1 [rec|er] H; [intros _; by apply H|done]. }
  intros h1 [er|] H1; [done|]. specialize (H1 eq_refl).
  assert (Hcommit : calls no_config (if negb (String.eqb (HostBinDir c) (WBinDir old)) then commitRecord c (HostBinDir c) e (ownConfigPath c) else Ret None)).
  { destruct (negb _); [apply part_no_config, part_file, calls_commitRecord|exact I]. }
  destruct (negb (String.eqb (ownConfigPath c) _)); [|by apply Hno].
  unfold try at 1, openConfigDir. wp_call; [by intros [=]|]. intros [dir|er] _; [|done].
  unfold hdefer. apply wp_bind. eapply (wp_mono _ _ _ _ (λ _ _, True)); [|intros h2 a _; by wp_call; [intros [=]|]].
  unfold try at 1. apply wp_bind. eapply wp_mono; [apply (staged_quiet old _ _ ok (quiet_ownConfig dir) Hok)|].
  { pose proof (staged_quiet old (trigger (OpenNodeDir (HostRoot c) (HostConfigDir c))) h1 (λ _ _, True)) as Hs.
    destruct Hs as [_ Hs]; [by split|done|done|]. exact (Hs (Ok dir) I). }
  intros h2 [d|er] H2; [|done]. unfold try at 1. wp_call; [by intros _|]. intros [b|er] _; [by apply Hno|done].
Qed.

End Passes.

Definition inst_merge : host (option gerr) :=
  runMerge inst_cfg demo_read_doc demo_write_doc demo_read_doc (λ _, "error") inst_rendered inst_entry (MkWiring "/opt/bin" "/etc/cp.yaml").
Definition inst_merge_log : log hans := (play inst_serve (MkNode 0 None true) inst_merge []).1.2.

Lemma inst_merge_runs : runs any_env inst_merge [] inst_merge_log (play inst_serve (MkNode 0 None true) inst_merge []).2.
Proof. exact (play_runs_in any_env inst_serve (MkNode 0 None true) inst_merge [] (λ _ _ _, I)). Qed.

(** The text a merge leaves in the cloud's configuration. *)
Definition inst_merged : string :=
  match mergeProvider demo_read_doc demo_write_doc demo_read_doc (demo_text [JObject demo_cloud]) inst_entry with Ok (text, _) => text | Err _ => "" end.

