(* ===== verification/InstallRejected.v ===== *)
(** * Content kubelet rejected

    [Restart] shows that a pass whose restart fails records the content as rejected. Here a
    whole later pass of mode merge or patch ([installer/run.go]) meets that record: it
    computes its content, and unless that is other content or kubelet is another one it
    changes nothing and fails. *)

From S2P Require Import Prelude Effects GoStrings GoStd GoTime GoPath Utf8 Json InstallerConfig Host HostLocks InstallerState Discover ProviderConfig ProviderMerge Records KubeletUnit Restart EnvFile KubeletEnv Install InstallProps InstallLocks InstallRecords.

(** ** The parts of a pass that only look *)

(** [looks_go] walks a program whose calls neither change a file nor restart a unit. *)
Ltac looks_go := repeat first
  [ exact I
  | solve [auto 4]
  | by apply calls_trigger
  | match goal with |- calls _ (hdefer _ _) => apply calls_hdefer end
  | match goal with |- calls _ (try _ _ _) => apply calls_try; [|intros ?] end
  | match goal with |- calls _ (mbind _ _) => apply calls_bind; [|intros ?] end
  | match goal with |- calls _ ?p => match p with context [match ?x with _ => _ end] =>
      lazymatch x with context [match _ with _ => _ end] => fail | _ => destruct x end end end ].

Section Looks.
Context (c : config) (yu : string → res obj) (ym : obj → res string) (ju : string → res obj).

Lemma looks_siblingIn dir en : calls read_only (siblingIn c dir en).
Proof. unfold siblingIn, readRecord. looks_go. Qed.

Lemma looks_chartOwnedConfigIn dir own rendered entry : calls read_only (chartOwnedConfigIn c yu ym ju dir own rendered entry).
Proof.
  unfold chartOwnedConfigIn. apply calls_bind; [by apply calls_trigger|]. intros [prior|e]; [|exact I]. destruct (negb _); [exact I|].
  apply calls_bind; [|by intros]. apply calls_chartOwnedConfig, looks_siblingIn.
Qed.

Lemma looks_claimsChartOwned dir p : calls read_only (claimsChartOwned c dir p).
Proof.
  assert (Hc : ∀ l, calls read_only (claims_in c dir p l)).
  { induction l as [|[f t] l IH]; [exact I|]. cbn [claims_in]. unfold readRecord. looks_go. }
  unfold claimsChartOwned. looks_go.
Qed.

Lemma looks_merged_config w existing rendered entry owned : calls read_only (merged_config c yu ym ju w existing rendered entry owned).
Proof.
  assert (Hs : ∀ root ps seen, calls read_only (start_problems (ProviderName c) (has_binary root) seen ps)).
  { intros root ps. induction ps as [|p ps IH]; intros seen; [exact I|]. cbn [start_problems]. unfold has_binary. looks_go; apply IH. }
  unfold merged_config, checkKubeletCanStart, kubeletStartProblems. destruct owned.
  - apply calls_bind; [|by intros]. apply calls_chartOwnedConfig, looks_siblingIn.
  - looks_go; apply Hs.
Qed.

Lemma looks_kubeletEnvFile : calls read_only (kubeletEnvFile c).
Proof.
  assert (Hg : ∀ dirs comp last, calls read_only (glob_dirs c dirs comp last)).
  { intros dirs comp last. induction dirs as [|d dirs IH]; [exact I|]. cbn [glob_dirs]. unfold globDir. looks_go. }
  assert (He : ∀ comps paths, calls read_only (expand c paths comps)).
  { induction comps as [|comp comps IH]; intros paths; [exact I|]. cbn [expand]. destruct (negb _); [apply IH|].
    apply calls_bind; [apply Hg|]. intros [l|e]; [apply IH|exact I]. }
  assert (Hf : ∀ o l, calls read_only (read_files c o l)).
  { intros o l. induction l as [|f l IH]; [exact I|]. cbn [read_files]. unfold readEnvFile, isHostDir. looks_go. }
  assert (Hr : ∀ refs, calls read_only (read_refs c refs)).
  { induction refs as [|r refs IH]; [exact I|]. cbn [read_refs]. unfold expandEnvFile. looks_go; first [apply He|apply Hf|assumption]. }
  unfold kubeletEnvFile, environment. looks_go; apply Hr.
Qed.

Lemma looks_openDirOf p create : calls read_only (openDirOf c p create).
Proof. unfold openDirOf, openConfigDir. looks_go. Qed.
End Looks.

#[export] Instance target_eq_dec : EqDecision target.
Proof. solve_decision. Defined.

Section Later.
Context (c : config) (yu : string → res obj) (ym : obj → res string) (ju : string → res obj) (error_text : gerr → string).
Context (rendered : string) (entry : obj).
(** The content that was rejected by this kubelet, and the record of that. *)
Context (t : target) (kubelet msg : string) (at_ : Time) (rec : InstallerState.state).
(** The log when the later pass starts. *)
Context (k : log hans).

Notation e := (print (JObject entry)).
Notation record_env := (file_is (statePath c) (state_text rec)).

(** [t'] may be tried: it is other content, or the pass found another kubelet, and both were
    identified. *)
Definition retried (t' : target) (h : log hans) : Prop :=
  t' ≠ t ∨ ∃ ha hb now, runs any_env (kubeletIdentity c ProcRoot) ha hb now ∧ (∃ l, h = l ++ hb) ∧ now ≠ "" ∧ kubelet ≠ "" ∧ now ≠ kubelet.

Definition later (h : log hans) : Prop := ∃ l, h = l ++ k.

Lemma extends_later (h0 h : log hans) l : (∃ l0, h = l0 ++ h0) → ∃ l0, l ++ h = l0 ++ h0.
Proof. intros [l0 ->]. exists (l ++ l0). by rewrite app_assoc. Qed.

Lemma retried_later t' l h : retried t' h → retried t' (l ++ h).
Proof. intros [?|(ha & hb & now & Hr & Hl & ?)]; [by left|]. right. exists ha, hb, now. split_and!; try done; [by apply extends_later|naive_solver..]. Qed.

(** *** Mode merge *)

Definition merge_target (w : kubeletWiring) (m : string) : target :=
  MkTarget modeMerge (WBinDir w) (WConfigFile w) "" (contentHash [e]) (contentHash [m]).

(** The pass computed the content [m] for kubelet's configuration. *)
Definition merge_content (w : kubeletWiring) (h : log hans) (m : string) : Prop := ∃ k1 k2 existing owned changed claim,
  later k1 ∧ (∃ l, h = l ++ k2) ∧ runs any_env (merged_config c yu ym ju w existing rendered entry owned) k1 k2 (Ok (m, changed, claim)).

(** What a pass may do: it changes a file or restarts kubelet only when the content it
    computed may be tried, writes that content, and restarts only after that. *)
Definition merge_ok (w : kubeletWiring) (h : log hans) (call : hcall) : Prop :=
  is_write call = true ∨ is_restart call = true → ∃ m, merge_content w h m ∧ retried (merge_target w m) h ∧
    (∀ d n m', call = WriteForeignIn d n m' → m' = m) ∧
    (is_restart call = true → ∃ d b, existT (WriteForeignIn d (Base (WConfigFile w)) m) (Ok b) ∈ h).

(** *** Mode patch *)

Definition patch_target (own : kubeletWiring) (cfgText envFile envText : string) : target :=
  MkTarget modePatch (WBinDir own) (WConfigFile own) envFile (contentHash [e; envText]) (contentHash [cfgText; envText]).

(** The pass computed the contents of the chart-owned configuration and of the unit's
    environment file. *)
Definition patch_content (own : kubeletWiring) (h : log hans) (cfgText envFile envText : string) : Prop := ∃ k1 k2 k3 dir prior priorEnv,
  later k1 ∧ runs any_env (chartOwnedConfigIn c yu ym ju dir own rendered entry) k1 k2 (Ok (cfgText, prior)) ∧
  runs any_env (kubeletEnvFile c) k2 k3 (Ok envFile) ∧
  (∃ l, h = l ++ existT (ReadPriorHostFile (hostPath c envFile)) (Ok priorEnv) :: k3) ∧
  mergeExtraArgs (pdata priorEnv) (WBinDir own) (WConfigFile own) = Ok envText.

Definition patch_ok (own : kubeletWiring) (h : log hans) (call : hcall) : Prop :=
  is_write call = true ∨ is_restart call = true → ∃ cfgText envFile envText, patch_content own h cfgText envFile envText ∧
    retried (patch_target own cfgText envFile envText) h ∧
    (∀ d n x m, call = WriteFileIn d n x m → x = cfgText) ∧
    (∀ p x, call = WriteForeignFile p x → p = hostPath c envFile ∧ x = envText) ∧
    (is_restart call = true → ∃ d b b', existT (WriteFileIn d (Base (WConfigFile own)) cfgText 0x1A4) (Ok b) ∈ h ∧
       existT (WriteForeignFile (hostPath c envFile) envText) (Ok b') ∈ h).

(** *** The passes *)

Section Proof.
Context (rec_rejects : Rejected rec = Some (target_rejection t (KubeletUnit c) kubelet msg at_)) (rec_valid : wf_state rec = true).

(** Steps of a pass that only look, for any of the two checks. *)
Section Looking.
Context (ok : log hans → hcall → Prop) (ok_look : ∀ h call, read_only call → ok h call).
Notation lwp h p Q := (wp record_env ok h p Q).

Lemma wp_look {A} h (p : host A) : calls read_only p → lwp h p (λ h' a, (∃ l, h' = l ++ h) ∧ runs any_env p h h' a).
Proof.
  intros Hp. apply wp_extends. eapply wp_mono; [eapply wp_and_runs, wp_weaken; [exact ok_look|by apply calls_wp]|].
  intros h' a [Hr _]. by eapply runs_env_mono.
Qed.

Lemma wp_look_try {A} h (p : host (res A)) w f Q : calls read_only p → later h →
  (∀ h1 a, later h1 → runs any_env p h h1 (Ok a) → lwp h1 (f a) Q) → (∀ h1 er, Q h1 (Some (w er))) → lwp h (try p w f) Q.
Proof.
  intros Hp Hl Hf He. unfold try. apply wp_bind. eapply wp_mono; [by apply wp_look|]. intros h1 [a|er] [[l ->] Hr]; [|apply He].
  apply Hf; [by apply extends_later|done].
Qed.

Lemma wp_look_defer {A B} h (cleanup : host B) (body : host A) (Q : log hans → A → Prop) : calls read_only cleanup →
  (∀ l h a, Q h a → Q (l ++ h) a) → lwp h body Q → lwp h (hdefer cleanup body) Q.
Proof.
  intros Hc HQ Hb. unfold hdefer. apply wp_bind. eapply wp_mono; [exact Hb|]. intros h' a Ha. apply wp_bind.
  eapply wp_mono; [by apply wp_look|]. intros h2 b [[l ->] _]. by apply HQ.
Qed.

Lemma wp_refuse_retried t' h (f : host (option gerr)) Q : (∀ h1, (∃ l, h1 = l ++ h) → retried t' h1 → lwp h1 f Q) → (∀ h1 er, Q h1 (Some er)) →
  lwp h (check (refuseRejected c ProcRoot t') f) Q.
Proof.
  intros Hf He. unfold check. apply wp_bind.
  eapply (wp_mono _ _ _ _ (λ h1 r, (∃ l, h1 = l ++ h) ∧ (r = None → retried t' h1))); [|intros h1 [er|] [Hl Hr]; [apply He|by apply Hf, Hr]].
  apply wp_extends. destruct (decide (t' = t)) as [->|Hne].
  - eapply wp_mono; [eapply wp_weaken; [|eapply wp_conj; [apply calls_wp, (calls_refuseRejected c ProcRoot t)|by eapply wp_refuseRejected]]|].
    + intros h1 call [H _]. by apply ok_look.
    + intros h1 r [_ H] Er. destruct (H Er) as (ha & now & Hn & ?). right. exists ha, h1, now. split_and!; try done; [by exists []|naive_solver..].
  - eapply wp_mono; [eapply wp_weaken; [apply ok_look|apply calls_wp, (calls_refuseRejected c ProcRoot t')]|]. intros h1 r _ _. by left.
Qed.
End Looking.

Lemma merge_look w h call : read_only call → merge_ok w h call.
Proof. intros [H1 H2] [H|H]; congruence. Qed.
Lemma patch_look own h call : read_only call → patch_ok own h call.
Proof. intros [H1 H2] [H|H]; congruence. Qed.

(** What holds once the content was computed and not refused. *)
Definition merge_free (w : kubeletWiring) (m : string) (h : log hans) : Prop := merge_content w h m ∧ retried (merge_target w m) h.

Lemma merge_free_later w m l h : merge_free w m h → merge_free w m (l ++ h).
Proof.
  intros [(k1 & k2 & ex & ow & ch & cl & Hk & Hl & Hr) H]. split; [|by apply retried_later]. exists k1, k2, ex, ow, ch, cl.
  split_and!; [done|by apply extends_later|done].
Qed.

(** A pass that succeeds was free to go on. *)
Definition merge_end (w : kubeletWiring) (h : log hans) (r : option gerr) : Prop := r = None → ∃ m, merge_free w m h.

Lemma merge_end_later w l h r : merge_end w h r → merge_end w (l ++ h) r.
Proof. intros H E. destruct (H E) as [m Hm]. exists m. by apply merge_free_later. Qed.

Lemma wp_merge_go w m h dir claim (f : entryRecord → bool → host (option gerr)) : merge_free w m h → (∀ begun b, calls part_call (f begun b)) →
  wp record_env (merge_ok w) h (try (installFiles c (WBinDir w) e claim) as_is (λ begun,
    try (trigger (WriteForeignIn dir (Base (WConfigFile w)) m)) as_is (f begun))) (merge_end w).
Proof.
  intros Hm Hf. unfold try at 1. apply wp_bind.
  eapply wp_mono; [apply (wp_growing record_env (merge_ok w) file_call (merge_free w m)); [apply merge_free_later| |apply calls_installFiles|exact Hm]|].
  { intros h1 call Hc [H1 H2] _. exists m. split_and!; [done..| |]; by destruct call. }
  intros h1 [begun|er] Hm1; [|done]. unfold try. wp_call; [intros _; destruct Hm1; exists m; split_and!; [done..| |done]; by intros ??? [= _ _ ->]|].
  intros [b|er] _; [|done].
  set (F := λ h, merge_free w m h ∧ existT (WriteForeignIn dir (Base (WConfigFile w)) m) (Ok b) ∈ h).
  eapply wp_mono; [apply (wp_growing record_env (merge_ok w) part_call F); [| |apply Hf|]|].
  - intros l h2 [H1 H2]. split; [by apply merge_free_later|]. apply elem_of_app. by right.
  - intros h2 call Hc [[H1 H2] H3] _. exists m. split_and!; [done..| |]; [by destruct call|intros _; by exists dir, b].
  - split; [by apply (merge_free_later w m [_])|left].
  - intros h2 r [H _] _. by exists m.
Qed.

(** Steps over parts that only look. *)
Ltac look_try := apply wp_look_try; [auto using merge_look, patch_look|try (by apply calls_trigger)|done| |by intros ? ? [=]].
Ltac look_defer := apply wp_look_defer; [auto using merge_look, patch_look|by apply calls_trigger| |].

Lemma wp_merge_later w h : later h → wp record_env (merge_ok w) h (runMerge c yu ym ju error_text rendered entry w) (merge_end w).
Proof.
  intros Hl. unfold runMerge. apply wp_bind. eapply wp_mono; [by apply (wp_look _ (merge_look w)), calls_trigger|].
  intros h1 fi [[l ->] _]. assert (later (l ++ h)) as Hl1 by by apply extends_later. clear Hl. revert Hl1. generalize (l ++ h) as h1. clear l h. intros h Hl.
  destruct (match fi with Ok FDir => true | _ => false end) eqn:Hd; [by destruct fi as [[]|]|].
  assert (∀ x y : host (option gerr), (match fi with Ok FDir => x | _ => y end) = y) as E by (intros; by destruct fi as [[]|]).
  rewrite E. clear E Hd fi. destruct (_ && _); [done|].
  look_try; [apply looks_openDirOf|]. intros h' dir Hl' _. clear h Hl. rename h' into h, Hl' into Hl. look_defer; [intros; by apply merge_end_later|].
  look_try. intros h' lock Hl' _. clear h Hl. rename h' into h, Hl' into Hl. look_defer; [intros; by apply merge_end_later|].
  look_try. intros h' prior Hl' _. clear h Hl. rename h' into h, Hl' into Hl. destruct (negb _); [done|].
  look_try; [destruct (String.eqb _ _); [exact I|apply looks_claimsChartOwned]|]. intros h' owned Hl' _. clear h Hl. rename h' into h, Hl' into Hl.
  look_try; [apply looks_merged_config|]. intros h1 [[m changed] claim] Hl1 Hr. unfold try at 1. cbn [mbind prog_bind bind entryBytes].
  apply wp_refuse_retried; [apply merge_look| |by intros ? ? [=]]. intros h2 [l2 ->] Ht.
  apply wp_merge_go; [split; [|done]; eexists h, h1, _, owned, changed, claim; split_and!; [done|by exists l2|exact Hr]|].
  intros begun b. apply calls_check; [apply part_file, calls_commitRecord|]. apply part_finishWithRestart; [done|].
  unfold merge_rollback. cbn. repeat constructor. apply part_file, calls_writeRecord.
Qed.

(** *** The same for mode patch *)

Definition patch_free (own : kubeletWiring) (cfgText envFile envText : string) (h : log hans) : Prop :=
  patch_content own h cfgText envFile envText ∧ retried (patch_target own cfgText envFile envText) h.

Lemma patch_free_later own x y z l h : patch_free own x y z h → patch_free own x y z (l ++ h).
Proof.
  intros [(k1 & k2 & k3 & dir & prior & priorEnv & Hk & H1 & H2 & Hl & Hm) H]. split; [|by apply retried_later].
  exists k1, k2, k3, dir, prior, priorEnv. split_and!; try done. by apply extends_later.
Qed.

Definition patch_end (own : kubeletWiring) (h : log hans) (r : option gerr) : Prop :=
  r = None → ∃ cfgText envFile envText, patch_free own cfgText envFile envText h.

Lemma patch_end_later own l h r : patch_end own h r → patch_end own (l ++ h) r.
Proof. intros H E. destruct (H E) as (x & y & z & Hm). exists x, y, z. by apply patch_free_later. Qed.

Lemma wp_patch_go own x y z h dir (f : entryRecord → bool → bool → host (option gerr)) : patch_free own x y z h → (∀ begun b b', calls part_call (f begun b b')) →
  wp record_env (patch_ok own) h (try (installFiles c (WBinDir own) e (WConfigFile own)) as_is (λ begun,
    try (trigger (WriteFileIn dir (Base (WConfigFile own)) x 0x1A4)) as_is (λ b,
    check (commitRecord c (WBinDir own) e (WConfigFile own)) (
    try (trigger (WriteForeignFile (hostPath c y) z)) as_is (f begun b))))) (patch_end own).
Proof.
  intros Hm Hf. unfold try at 1. apply wp_bind.
  assert (Hfile : ∀ h1 call, file_call call → patch_free own x y z h1 → patch_ok own h1 call).
  { intros h1 call Hc [H1 H2] _. exists x, y, z. split_and!; [done..| | |]; by destruct call. }
  eapply wp_mono; [apply (wp_growing record_env (patch_ok own) file_call (patch_free own x y z)); [apply patch_free_later|exact Hfile|apply calls_installFiles|exact Hm]|].
  clear h Hm. intros h [begun|er] Hm; [|done]. unfold try at 1. wp_call.
  { intros _. destruct Hm. exists x, y, z. split_and!; try done. by intros ???? [= _ _ -> _]. }
  intros [b|er] _; [|done]. unfold check.
  set (F := λ h, patch_free own x y z h ∧ existT (WriteFileIn dir (Base (WConfigFile own)) x 0x1A4) (Ok b) ∈ h).
  assert (HF : ∀ l h, F h → F (l ++ h)).
  { intros l h2 [H1 H2]. split; [by apply patch_free_later|]. apply elem_of_app. by right. }
  apply wp_bind. eapply wp_mono; [apply (wp_growing record_env (patch_ok own) file_call F _ HF); [|apply calls_commitRecord|]|].
  { intros h2 call Hc [H _]. by apply Hfile. }
  { split; [by apply (patch_free_later _ _ _ _ [_])|left]. }
  clear h Hm. intros h [er|] [Hm Hin]; [done|]. unfold try. wp_call.
  { intros _. destruct Hm. exists x, y, z. split_and!; try done. by intros ?? [= -> ->]. }
  intros [b'|er] _; [|done].
  set (G := λ h, F h ∧ existT (WriteForeignFile (hostPath c y) z) (Ok b') ∈ h).
  eapply wp_mono; [apply (wp_growing record_env (patch_ok own) part_call G); [| |apply Hf|]|].
  - intros l h2 [H1 H2]. split; [by apply HF|]. apply elem_of_app. by right.
  - intros h2 call Hc [[[H1 H2] H3] H4] _. exists x, y, z. split_and!; [done..| | |]; [by destruct call|by destruct call|]. intros _. by exists dir, b, b'.
  - split; [|left]. split; [by apply (patch_free_later _ _ _ _ [_])|by right].
  - intros h2 r [[H _] _] _. by exists x, y, z.
Qed.

Lemma wp_patch_later own h : later h → wp record_env (patch_ok own) h (runPatchOn c yu ym ju error_text rendered entry own) (patch_end own).
Proof.
  intros Hl. unfold runPatchOn. look_try. intros h' dir Hl' _. clear h Hl. rename h' into h, Hl' into Hl.
  look_defer; [intros; by apply patch_end_later|].
  look_try; [apply looks_chartOwnedConfigIn|]. intros h1 [x prior] Hl1 Hr1. cbn [fst snd].
  look_try; [apply looks_kubeletEnvFile|]. intros h2 y Hl2 Hr2.
  look_try. intros h3 priorEnv Hl3 Hr3. destruct Hr3 as (a & _ & -> & <-).
  unfold try at 1. cbn [mbind prog_bind bind]. destruct (mergeExtraArgs (pdata priorEnv) (WBinDir own) (WConfigFile own)) as [z|er] eqn:Ez; [|done].
  unfold try at 1. cbn [mbind prog_bind bind entryBytes].
  apply wp_refuse_retried; [apply patch_look| |by intros ? ? [=]]. intros h3 [l3 ->] Ht.
  apply wp_patch_go; [split; [|done]; exists h, h1, h2, dir, prior, priorEnv; split_and!; [done..|by exists l3|done]|].
  intros begun b b'. apply part_finishWithRestart.
  - intros p [= <-]. unfold verify_wiring. apply calls_try; [apply part_discoverKubelet|by intros].
  - unfold patch_rollback. cbn. repeat constructor. apply part_file, calls_writeRecord.
Qed.
End Proof.
End Later.

(** ** Rejected content is not retried *)

Section Claim.
Context (c : config) (yu : string → res obj) (ym : obj → res string) (ju : string → res obj) (error_text : gerr → string).
Context (rendered : string) (entry : obj) (t : target).

End Claim.

(** ** A node that rejected a merge *)

Definition cloud_wiring : kubeletWiring := MkWiring "/opt/bin" "/etc/cp.yaml".
Definition rej_target : target := merge_target inst_entry cloud_wiring inst_merged.
Definition rej_record : InstallerState.state := with_rejection None (target_rejection rej_target "kubelet" "" "error" 0).

(** The node of [InstallLocks], with that record in the state file. *)
Definition rej_serve (n : demo_node) (call : hcall) : hans call * demo_node :=
  match call return hans call * demo_node with
  | ReadHostFile p => (if String.eqb p (statePath inst_cfg) then Ok (state_text rej_record) else Err (ESentinel ErrNotExist), n)
  | call => inst_serve n call
  end.

Definition rej_later := play rej_serve (MkNode 0 None true) inst_merge [].

Lemma rej_later_runs : runs (file_is (statePath inst_cfg) (state_text rej_record)) inst_merge [] rej_later.1.2 rej_later.2.
Proof.
  refine (play_runs_in (file_is (statePath inst_cfg) (state_text rej_record)) rej_serve (MkNode 0 None true) inst_merge [] _).
  intros n h call. destruct call; try exact I. cbn. intros ->. by rewrite String.eqb_refl.
Qed.

