(* ===== verification/PassRaces.v ===== *)
(** * An install pass over the operating system's calls

    A pass of [Install] is a program over the operations of [installer/files.go] and
    [installer/lock.go]. Here each operation is its implementation of [HostFiles] and
    [HostLocks], so that a pass is a program over the calls of the operating system. Whatever
    other processes do to the node's directories meanwhile, every file call of such a run is
    safe. *)

From S2P Require Import Prelude Effects GoStrings GoStd GoTime GoPath InstallerConfig Host HostFiles HostFilesCrash HostFilesWrite HostFilesRaces HostLocks.
From S2P Require Import Json ProviderConfig ProviderMerge Restart Install InstallProps InstallLocks.

(** The calls of a pass: those of the file operations, and the others of [Host] (systemctl,
    [/proc], and the reads of a directory's entries). *)
Inductive ncall := NFile (c : fcall) | NHost (c : hcall).

Definition nans (c : ncall) : Type := match c with NFile c => fans c | NHost c => hans c end.

Notation node := (prog nans).

Definition on_files {A} (p : fprog A) : node A := translate NFile (λ _ r, r) p.

Definition file_view (e : event nans) : option (event fans) :=
  match e with existT (NFile c) r => Some (existT c r) | _ => None end.
Definition host_view (e : event nans) : option (event hans) :=
  match e with existT (NHost c) r => Some (existT c r) | _ => None end.

(** The bound of the lock's loop is never reached ([lockFileIn_returns]). *)
Definition locked (p : fprog (option (res fileh))) : fprog (res nat) :=
  r ← p; Ret (default (Err (EMsg "timed out waiting for the lock")) r).

(** The implementation of an operation; [None] for a call that is not one of them. *)
Definition file_op (c : hcall) : option (fprog (hans c)) :=
  match c return option (fprog (hans c)) with
  | OpenNodeDir hostRoot nodeDir => Some (openNodeDir hostRoot nodeDir)
  | OpenDir path => Some (trigger (FOpenRoot path))
  | MkdirNodeDir dir => Some (mkdirNodeDir dir)
  | CloseDir d => Some (trigger (FCloseRoot d))
  | LstatIn d name => Some (trigger (FLstat d name))
  | ReadFileIn d name => Some (readFileIn d name)
  | WriteFileIn d name data mode => Some (writeFileIn d name data mode)
  | WriteForeignIn d name data => Some (writeForeignIn d name data)
  | WriteForeignFile path data => Some (writeForeignFile path data)
  | ReadPrior d name => Some (readPrior d name)
  | ReadPriorHostFile path => Some (readPriorHostFile path)
  | RestoreIn d name p => Some (restoreIn d name p)
  | RestoreHostFile path p => Some (restoreHostFile path p)
  | CopyFile src dst mode => Some (copyFile src dst mode)
  | CopyFileIn src d name mode => Some (copyFileIn src d name mode)
  | IsExecutableHostFile path => Some (isExecutableHostFile path)
  | IsRegularHostFile path => Some (isRegularHostFile path)
  | LockFile path timeout => Some (locked (lockFile path timeout))
  | LockFileIn d name timeout => Some (locked (lockFileIn d name timeout))
  | Unlock l => Some (unlock l)
  | ReadHostFile path => Some (readHostFile path)
  | WriteFileAtomic path data mode => Some (writeFileAtomic path data mode)
  | EnsureWritableDir dir => Some (ensureWritableDir dir)
  | HashHostFile path maxSize => Some (hashHostFile path maxSize)
  | HNow => Some (trigger FNow)
  | HSleep d => Some (trigger (FSleep d))
  | _ => None
  end.

Definition impl (c : hcall) : node (hans c) :=
  match file_op c with Some p => on_files p | None => trigger (NHost c) end.

(** A program over the operations, on the node. *)
Definition on_node {A} (p : host A) : node A := interp impl p.

(** ** Every file call is safe *)

Section Races.
(** The node's file system, at every instant another one ([HostFilesRaces]). *)
Context (entry : nat → nat → string → option (nat * ftype)) (bytes : nat → nat → string).
Context (dir_of file_at : nat → nat) (path_dir : string → nat).

Notation watched := (HostFilesRaces.watched entry bytes dir_of file_at path_dir).
Notation was_entry := (HostFilesRaces.was_entry entry).

(** The open file is the regular file that really was in the directory under the name it was
    opened with, no link. *)
Definition real_file (h : log fans) (f : nat) : Prop := ∃ d n, opened_real entry dir_of file_at h d n f.

(** The path of the write probe. *)
Definition probe (h : log fans) (path : string) : Prop := ∃ dir pattern f, existT (FCreateTemp dir pattern) (Ok (f, path)) ∈ h.

(** What a file call may touch: bytes and owner of files the installer created, modes of
    those and of real files; it reads and locks real files, and reads by their paths the
    files of the plugin image and of the mounted Secrets; new files are private until they
    are renamed, and a rename puts the installer's own temp file in place; what it removes is
    its own temp file or probe, or a real file. *)
Definition safe (h : log fans) (c : fcall) : Prop :=
  match c with
  | FWrite f _ | FChown f _ => created h f
  | FChmod f _ => created h f ∨ real_file h f
  | FReadLimit f _ | FFlock f => real_file h f
  | FCreateExcl _ _ p => p = 0x180
  | FRename d a b => temp_of b a ∧ created_as h d a
  | FRemove d n => created_as h d n ∨ ∃ i, was_entry (length h) (dir_of d) n i FRegular
  | FMkdir _ _ p | FMkdirAll _ p => p = 0x1ED
  | FRemovePath path => probe h path
  | FReadFile path => image_file path = true
  | _ => True
  end.

Lemma real_later h l f : real_file h f → real_file (l ++ h) f.
Proof. intros (d & n & H). exists d, n. by apply opened_real_later. Qed.

Lemma looks_safe h c : looks c → safe h c.
Proof. by destruct c. Qed.

Lemma replacing_safe root n h c : replacing_calls root n h c → safe h c.
Proof.
  destruct c; cbn; try done; try by intros [].
  - by intros (_ & _ & ->).
  - by intros (-> & -> & ? & ?).
  - intros (-> & _ & ?). by left.
  - by left.
Qed.

Lemma writing_safe root n h c : writing entry dir_of file_at root n h c → safe h c.
Proof.
  intros [H|[H|[H|H]]]; [by apply looks_safe|by apply replacing_safe in H..|].
  destruct c; cbn in *; try done; [by eexists _, _|right; by eexists _, _].
Qed.

Notation good h p := (wp watched safe h p (λ _ _, True)).

Lemma good_bind {A B} h (p : fprog A) (k : A → fprog B) : good h p → (∀ h a, good h (k a)) → good h (p ≫= k).
Proof. intros Hp Hk. apply wp_bind. eapply wp_mono; [exact Hp|]. intros h' a _. apply Hk. Qed.

Lemma good_call {B} h c (k : fans c → fprog B) : safe h c → (∀ r, good (existT c r :: h) (k r)) → good h (r ← trigger c; k r).
Proof. intros Hc Hk. wp_call; [exact Hc|]. intros r _. apply Hk. Qed.

Lemma good_last h c : safe h c → good h (trigger c).
Proof. by split. Qed.

(** [with_root], [with_parent] and the deferred closes around a body. *)
Lemma good_deferred {A B} h (cleanup : fprog B) (body : fprog A) : good h body → (∀ h, good h cleanup) → good h (deferred cleanup body).
Proof. intros Hb Hc. unfold deferred. apply good_bind; [done|]. intros h1 r. apply good_bind; [apply Hc|done]. Qed.

Lemma good_with_root {A} h dir fail (body : nat → fprog A) : (∀ h root, good h (body root)) → good h (with_root dir fail body).
Proof. intros Hb. unfold with_root. apply good_call; [done|]. intros [root|e]; [|done]. by apply good_deferred; [|intros; apply good_last]. Qed.

Lemma good_mkdir h dir : good h (mkdirNodeDir dir).
Proof. unfold mkdirNodeDir. by apply good_call. Qed.

Lemma good_with_parent {A} h path (body : nat → fprog (res A)) : (∀ h root, good h (body root)) → good h (with_parent path body).
Proof.
  intros Hb. unfold with_parent, and_then. apply good_bind.
  - unfold openParent. apply good_bind; [apply good_mkdir|]. intros h1 [e|]; [done|]. by apply good_call.
  - intros h1 [root|e]; [|done]. by apply good_deferred; [|intros; apply good_last].
Qed.

(** An opened regular file, and what follows with it. *)
Lemma good_open {A} h root n max (k : res fileh → fprog A) :
  (∀ h f, real_file h f → good h (k (Ok f))) → (∀ h e, good h (k (Err e))) → good h (o ← openRegularMax root n max; k o).
Proof.
  intros Hk He. apply wp_bind. eapply wp_mono; [apply wp_openRegularMax_watched, looks_safe|]. intros h1 [f|e] [_ Hf]; [|apply He].
  apply Hk. eexists _, _. by apply Hf.
Qed.

Lemma good_read h f : real_file h f → good h (readAllCapped f).
Proof. intros Hf. unfold readAllCapped, and_then. apply good_call; [done|]. by intros [d|e]. Qed.

Lemma good_readFileIn h root n : good h (readFileIn root n).
Proof.
  unfold readFileIn, and_then, openRegular. apply good_open; [|done]. intros h1 f Hf. apply good_deferred; [by apply good_read|].
  intros h2. by apply good_last.
Qed.

Lemma good_hash h path max : good h (hashHostFile path max).
Proof.
  unfold hashHostFile, and_then. apply good_with_root. intros h1 root. apply good_open; [|done]. intros h2 f Hf.
  apply good_deferred; [|intros; by apply good_last]. apply good_call; [done|]. by intros [d|e].
Qed.

Lemma good_lstat_is h path test : good h (lstat_is path test).
Proof. unfold lstat_is. apply good_with_root. intros h1 root. by apply good_call. Qed.

Lemma good_openSubdir h root n : good h (openSubdir root n).
Proof.
  unfold openSubdir, and_then. apply good_bind.
  - unfold lstat_or_mkdir. apply good_call; [done|]. intros [fi|e]; [done|]. destruct (errors_Is e ErrNotExist); [|done].
    apply good_call; [done|]. intros [e'|]; [destruct (errors_Is e' ErrExist)|]; by try apply good_last.
  - intros h1 [lfi|e]; [|done]. destruct (fi_type lfi); try done. apply good_call; [done|]. intros [d|e]; [|done].
    apply good_call; [done|]. intros [fi|e]; [|by apply good_call]. destruct (negb _); by try apply good_call.
Qed.

Lemma good_openNodeDir h hostRoot nodeDir : good h (openNodeDir hostRoot nodeDir).
Proof.
  unfold openNodeDir. apply good_call; [done|]. intros [root|e]; [|done]. generalize (existT (FOpenRoot hostRoot) (Ok root) :: h) as h1.
  revert root. induction (node_components nodeDir) as [|n ns IH]; intros root h1; cbn [open_components]; [done|].
  apply good_bind; [apply good_openSubdir|]. intros h2 next. apply good_call; [done|]. intros u. destruct next; [apply IH|done].
Qed.

Lemma good_writeIn h root n data meta : good h (writeIn root n data meta).
Proof. eapply wp_weaken; [apply writing_safe|apply wp_writeIn_writing]. Qed.

Lemma good_syncDir h d : good h (syncDir d).
Proof. eapply wp_weaken; [apply replacing_safe|apply (wp_syncDir_replacing _ _ _ _ _ d "")]. Qed.

Lemma good_readPrior h root n : good h (readPrior root n).
Proof.
  unfold readPrior, openRegular. apply good_open; [|done]. intros h1 f Hf. apply good_deferred; [|intros; by apply good_last].
  unfold and_then. apply good_call; [done|]. intros [fi|e]; [|done]. apply good_bind; [by apply good_read, (real_later h1 [_])|].
  by intros h2 [d|e].
Qed.

Lemma good_restoreIn h root n p : good h (restoreIn root n p).
Proof.
  unfold restoreIn. destruct (existed p); [apply good_bind; [apply good_writeIn|done]|].
  unfold removeRegularIn, is_regular. wp_call; [done|]. intros [lfi|e] Hl; [|done]. specialize (Hl lfi eq_refl).
  destruct (bool_decide_reflect (fi_type lfi = FRegular)) as [Hty|]; [|done]. cbn [negb].
  apply good_call; [right; exists (fi_id lfi), (length h); split; [simpl; lia|congruence]|]. intros [e|]; [done|apply good_syncDir].
Qed.

Lemma good_copy h src (k : string → fprog (res bool)) : image_file src = true → (∀ h d, good h (k d)) →
  good h (d ← trigger (FReadFile src); match d with Err e => Ret (Err (EWrap "read" e)) | Ok data => k data end).
Proof. intros Hs Hk. apply good_call; [done|]. by intros [d|e]. Qed.

Lemma good_ensureWritableDir h dir : good h (ensureWritableDir dir).
Proof.
  unfold ensureWritableDir. apply good_call; [done|]. intros [e|]; [done|]. apply good_call; [done|]. intros [[f path]|e]; [|done].
  apply good_call; [done|]. intros r. apply good_call; [|done]. eexists _, _, _. right. left.
Qed.

Lemma good_lock h root n timeout : good h (lockFileIn root n timeout).
Proof.
  assert (∀ fuel deadline f h, real_file h f → good h (lock_loop fuel deadline f)) as Hl.
  { induction fuel as [|fuel IH]; intros deadline f h1 Hf; cbn [lock_loop]; [done|]. apply good_call; [done|]. intros [e|]; [|done].
    unfold close_with. destruct (negb _); [by apply good_call|]. apply good_call; [done|]. intros now.
    destruct (negb _); [by apply good_call|]. apply good_call; [done|]. intros u. by apply IH, (real_later h1 [_; _; _]). }
  assert (∀ h, wp watched safe h (openRegular root n) (λ h' r, ∀ f, r = Ok f → real_file h' f)) as Ho.
  { intros h1. eapply wp_mono; [apply wp_openRegularMax_watched, looks_safe|]. intros h2 r [_ Hf] f E. eexists _, _. by apply Hf. }
  unfold lockFileIn. apply wp_bind. eapply (wp_mono _ _ _ _ (λ h' r, ∀ f, r = Ok f → real_file h' f)).
  - unfold openLockFile. wp_call; [done|]. intros [f|e] _; [|destruct (errors_Is e ErrExist); [apply Ho|done]].
    wp_call; [done|]. intros [e|] _; [done|apply Ho].
  - intros h1 [f|e] Hf; [|done]. apply good_call; [done|]. intros now. by apply Hl, (real_later h1 [_]), Hf.
Qed.

Lemma good_locked h (p : fprog (option (res fileh))) : good h p → good h (locked p).
Proof. intros Hp. unfold locked. by apply good_bind. Qed.

Create HintDb node.
#[local] Hint Resolve good_locked good_writeIn good_readPrior good_restoreIn good_readFileIn good_lock good_mkdir good_hash good_lstat_is
  good_openNodeDir good_ensureWritableDir good_last good_with_root good_with_parent good_copy : node.

Lemma good_file_op c p h : own_reads c → file_op c = Some p → good h p.
Proof.
  destruct c; intros Hs [= <-];
    unfold writeFileIn, writeForeignIn, writeForeignFile, writeFileAtomic, writeFileIn, readPriorHostFile, restoreHostFile, copyFile, copyFileIn,
      isExecutableHostFile, isRegularHostFile, readHostFile, lockFile; by eauto 6 with node.
Qed.

(** The answers of the node: its files race, everything else is arbitrary. *)
Definition file_log (h : log nans) : log fans := part_log file_view h.
Definition node_env (h : log nans) (c : ncall) : nans c → Prop :=
  match c with NFile c => watched (file_log h) c | NHost _ => λ _, True end.
Section Pass.
Context (c : config) (yu : string → res obj) (ym : obj → res string) (ju : string → res obj) (Sprint : option json → string).
Context (ParseURL : string → res (string * string)) (ParseAddr : string → res addr) (error_text : gerr → string).

Notation pass := (run c yu ym ju Sprint ParseURL ParseAddr error_text).

(** The calls on the node: safe ones on its files; what is read otherwise is the rendered
    configuration, the plugin of the image, or a file of a process in [/proc]. *)
Definition safe_on_node (h : log nans) (call : ncall) : Prop :=
  match call with
  | NFile call => safe (file_log h) call
  | NHost (OsReadFile p) => p = SourceConfig c ∨ p = SourcePlugin ∨ under_proc p
  | NHost _ => True
  end.

Lemma wp_impl call h : pass_call c call → wp node_env safe_on_node h (impl call) (λ _ _, True).
Proof.
  intros Hp. unfold impl. destruct (file_op call) as [p|] eqn:E.
  - refine (wp_translate_in NFile (λ _ r, r) file_view _ watched _ safe _ h p (λ _ _, True) _ _ _); [done..|]. apply (good_file_op call); [|done].
    by destruct call; try done; destruct Hp.
  - split; [|done]. by destruct call.
Qed.

End Pass.
End Races.

(** ** A pass in mode none on a node without its files *)

(** Directories are where the paths of the install lead, lock files are there, nothing else. *)
Definition bare_entry (t d : nat) (n : string) : option (nat * ftype) :=
  if HasSuffix n ".lock" then Some (7%nat, FRegular)
  else if existsb (String.eqb n) ["etc"; "opt"; "bin"; "harbor"; "run"] then Some (S d, FDir) else None.

Definition bare_file (c : fcall) : fans c :=
  match c return fans c with
  | FLstat d n => match bare_entry 0 d n with Some (i, ty) => Ok (MkInfo i ty 0x1A4 3 None) | None => Err (ESentinel ErrNotExist) end
  | FReadFile _ => Ok "pem"
  | c => (node_answer tt c).1
  end.

Definition bare_host (c : hcall) : hans c :=
  match c return hans c with
  | OsReadFile _ => Ok inst_rendered
  | c => empty_node c
  end.

Definition bare_serve (u : unit) (c : ncall) : nans c * unit :=
  match c return nans c * unit with NFile c => (bare_file c, u) | NHost c => (bare_host c, u) end.

Definition bare_pass : host (option gerr) :=
  run inst_none demo_read_doc demo_write_doc demo_read_doc (λ _, "") (λ _, Ok ("https", "bridge:8443")) (λ s, Ok (MkAddr true "" s)) (λ _, "error").
Definition bare_run := play bare_serve tt (on_node bare_pass) [].

Notation bare_env := (node_env bare_entry (λ _ _, "old") (λ d, d) (λ _, 7%nat) (λ _, 0%nat)).

Lemma bare_runs : runs bare_env (on_node bare_pass) [] bare_run.1.2 bare_run.2.
Proof.
  refine (play_runs_in bare_env bare_serve tt (on_node bare_pass) [] _). intros s h [c|c]; [|exact I].
  destruct c; try exact I; cbn; try (by intros ? [= <-]). unfold bare_entry.
  repeat case_match; by intros ? [= <-].
Qed.

Definition bare_tmp : string := tmp_name configFileName "12345678".

