(* ===== verification/PassLocks.v ===== *)
(** * The locks of an install pass, on the node

    [InstallLocks] shows how a pass over the operations of [installer/files.go] and
    [installer/lock.go] uses its locks. Here the operations are their implementations: a
    lock is an open file that flock granted and that was not closed since. A run of these
    programs is a run of [Install]'s pass that holds the locks flock granted. *)

From S2P Require Import Prelude Effects GoStrings GoStd GoTime GoPath InstallerConfig Host HostFiles HostFilesCrash HostFilesWrite HostFilesRaces HostLocks.
From S2P Require Import Json ProviderConfig ProviderMerge Restart Install InstallProps InstallLocks PassRaces.

(** ** Handles and locks *)

(** The handle a call opened. *)
Definition opens (e : event fans) : option nat :=
  match e with
  | existT (FOpenRead _ _) (Ok f) | existT (FCreateExcl _ _ _) (Ok f) | existT (FOpenSelf _) (Ok f) => Some f
  | existT (FCreateTemp _ _) (Ok (f, _)) => Some f
  | _ => None
  end.

(** The handles that hold a lock after a log, latest first: flock granted it, and the handle
    was not closed since. *)
Fixpoint flocked (h : log fans) : list nat :=
  match h with
  | [] => []
  | existT (FFlock f) None :: h => f :: flocked h
  | existT (FClose f) _ :: h => List.filter (λ g, negb (Nat.eqb g f)) (flocked h)
  | _ :: h => flocked h
  end.

(** The handle of a newly opened file is none of an open file that holds a lock. *)
Definition fresh_files (h : log fans) (c : fcall) (r : fans c) : Prop := ∀ f, opens (existT c r) = Some f → f ∉ flocked h.

(** ** Operations that leave the locks alone *)

(** The program closes only files it opened itself (or those of [s]) and locks none. *)
Fixpoint own {A} (s : list nat) (p : fprog A) : Prop :=
  match p with
  | Ret _ => True
  | Vis c k => match c with FClose f => f ∈ s | FFlock _ => False | _ => True end ∧
      ∀ r, own (match opens (existT c r) with Some f => f :: s | None => s end) (k r)
  end.

Ltac own_go := repeat match goal with
  | |- True => exact I
  | |- _ ∧ _ => split
  | |- _ ∈ _ => first [apply list_elem_of_here | apply list_elem_of_further]
  | |- ∀ _, _ => intros ?; cbn
  | |- own _ ?p => match p with context [match ?x with _ => _ end] =>
      lazymatch x with context [match _ with _ => _ end] => fail | _ => destruct x end end; cbn
  end.

Lemma own_mono {A} (p : fprog A) s s' : s ⊆ s' → own s p → own s' p.
Proof.
  revert s s'. induction p as [a|c k IH]; intros s s' Hs; [done|]. intros [Hc Hk]. split; [destruct c; auto|].
  intros r. eapply IH; [|apply Hk]. destruct (opens _); set_solver.
Qed.

Lemma own_bind {A B} s (p : fprog A) (k : A → fprog B) : own s p → (∀ a, own s (k a)) → own s (p ≫= k).
Proof.
  rewrite bind_unfold. revert s. induction p as [a|c k' IH]; intros s; cbn [own bind]; [auto|]. intros [Hc Hp] Hk. split; [done|].
  intros r. apply IH; [apply Hp|]. intros a. eapply own_mono; [|apply Hk]. destruct (opens _); set_solver.
Qed.

Lemma own_writeIn s root n data meta : own s (writeIn root n data meta).
Proof. cbn. own_go. Qed.

Lemma own_with_root {A} s dir fail (body : nat → fprog A) : (∀ root, own s (body root)) → own s (with_root dir fail body).
Proof.
  intros Hb. unfold with_root. apply (own_bind s (trigger _)); [by cbn|]. intros [root|e]; [|exact I]. unfold deferred.
  apply own_bind; [apply Hb|]. intros r. by cbn.
Qed.

Lemma own_with_parent {A} s path (body : nat → fprog (res A)) : (∀ root, own s (body root)) → own s (with_parent path body).
Proof.
  intros Hb. unfold with_parent, and_then. apply own_bind; [cbn; own_go|]. intros [root|e]; [|exact I]. unfold deferred.
  apply own_bind; [apply Hb|]. intros r. by cbn.
Qed.

Lemma own_openNodeDir s hostRoot nodeDir : own s (openNodeDir hostRoot nodeDir).
Proof.
  unfold openNodeDir. apply (own_bind s (trigger _)); [by cbn|]. intros [root|e]; [|exact I]. revert root.
  induction (node_components nodeDir) as [|n ns IH]; intros root; [exact I|]. cbn [open_components].
  apply own_bind; [cbn; own_go|]. intros next. apply (own_bind s (trigger _)); [by cbn|]. intros u. destruct next; [apply IH|exact I].
Qed.

Lemma own_copy s src (k : string → fprog (res bool)) : (∀ d, own s (k d)) →
  own s (d ← trigger (FReadFile src); match d with Err e => Ret (Err (EWrap "read" e)) | Ok data => k data end).
Proof. intros Hk. apply (own_bind s (trigger _)); [by cbn|]. by intros [d|e]. Qed.

Lemma own_restoreIn s root n p : own s (restoreIn root n p).
Proof. unfold restoreIn. destruct (existed p); [apply own_bind; [apply own_writeIn|done]|]. cbn. own_go. Qed.

Create HintDb own.
#[export] Hint Resolve own_writeIn own_with_root own_with_parent own_openNodeDir own_copy own_restoreIn : own.

Lemma own_file_op c p s : is_lock c = false → file_op c = Some p → own s p.
Proof.
  destruct c; intros [=] [= <-]; try (by eauto with own); try (cbn; own_go);
    unfold writeForeignFile, writeFileAtomic, readPriorHostFile, restoreHostFile, copyFile, copyFileIn, writeFileIn,
      isExecutableHostFile, isRegularHostFile, lstat_is, readHostFile, hashHostFile; eauto 6 with own.
Qed.

(** Whatever such a program does, the same handles hold locks as before. *)
Definition kept_calls (h h1 : log fans) (c : fcall) : Prop :=
  (∃ l, h1 = l ++ h) ∧ flocked h1 = flocked h ∧ match c with FFlock _ => False | _ => True end.

Lemma filter_notin (f : nat) l : f ∉ l → List.filter (λ g, negb (Nat.eqb g f)) l = l.
Proof.
  induction l as [|g l IH]; [done|]. intros [Hg Hl]%not_elem_of_cons. cbn. destruct (Nat.eqb_spec g f); [congruence|]. cbn. by rewrite IH.
Qed.

Lemma flocked_other c r h : match c with FFlock _ | FClose _ => False | _ => True end → flocked (existT c r :: h) = flocked h.
Proof. by destruct c. Qed.

Lemma wp_own {A} (p : fprog A) h : own [] p → wp fresh_files (kept_calls h) h p (λ h' _, (∃ l, h' = l ++ h) ∧ flocked h' = flocked h).
Proof.
  intros Hp. enough (∀ s h1, own s p → (∀ f, f ∈ s → f ∉ flocked h) → (∃ l, h1 = l ++ h) → flocked h1 = flocked h →
    wp fresh_files (kept_calls h) h1 p (λ h' _, (∃ l, h' = l ++ h) ∧ flocked h' = flocked h)) as H
    by (apply (H []); [done|by intros f ?%elem_of_nil|by exists []|done]).
  clear Hp. induction p as [a|c k IH]; intros s h1 Hp Hs Hl Hf; [done|]. destruct Hp as [Hc Hk].
  split; [split; [done|split; [done|by destruct c]]|]. intros r Hr. eapply IH; [apply Hk| |destruct Hl as [l ->]; by exists (existT c r :: l)|].
  - intros f Hin. destruct (opens (existT c r)) as [g|] eqn:E; [|by apply Hs]. apply elem_of_cons in Hin as [->|?]; [|by apply Hs].
    rewrite <- Hf. by apply Hr.
  - destruct c; try (by rewrite flocked_other); try done. cbn [flocked]. rewrite Hf. apply filter_notin, Hs, Hc.
Qed.

(** ** Operations that change nothing *)

(** A call that changes a file: its bytes, its metadata or its name. *)
Definition changes (c : fcall) : bool :=
  match c with FWrite _ _ | FChmod _ _ | FChown _ _ | FRename _ _ _ | FRemove _ _ | FRemovePath _ => true | _ => false end.
Definition still {A} (p : fprog A) : Prop := calls (λ c, changes c = false) p.

Ltac still_go := repeat match goal with
  | |- True => exact I
  | |- _ = false => reflexivity
  | |- _ ∧ _ => split
  | |- ∀ _, _ => intros ?; cbn
  | |- calls _ ?p => match p with context [match ?x with _ => _ end] =>
      lazymatch x with context [match _ with _ => _ end] => fail | _ => destruct x end end; cbn
  end.

Lemma still_lock root n timeout : still (lockFileIn root n timeout).
Proof.
  unfold still, lockFileIn. apply calls_bind; [cbn; still_go|]. intros [f|e]; [|exact I].
  apply (calls_bind _ (trigger FNow)); [by split|]. intros now. generalize (lock_fuel timeout) as fuel.
  induction fuel as [|fuel IH]; [exact I|]. split; [done|]. intros [e|]; [|exact I]. cbn. destruct (negb _); [by split|].
  split; [done|]. intros t. cbn. destruct (negb _); [by split|]. split; [done|]. intros u. apply IH.
Qed.

Lemma still_locked (p : fprog (option (res nat))) : still p → still (locked p).
Proof. intros Hp. apply calls_bind; [done|by intros]. Qed.

Lemma still_openNodeDir hostRoot nodeDir : still (openNodeDir hostRoot nodeDir).
Proof.
  unfold still, openNodeDir. apply (calls_bind _ (trigger _)); [by split|]. intros [root|e]; [|exact I]. revert root. induction (node_components nodeDir) as [|n ns IH]; intros root; [exact I|].
  apply calls_bind; [cbn; still_go|]. intros next. apply (calls_bind _ (trigger _)); [by split|]. intros u. destruct next; [apply IH|exact I].
Qed.

Lemma still_file_op c p : is_write c = false → file_op c = Some p → still p.
Proof.
  destruct c; intros [=] [= <-]; try apply still_openNodeDir; try (apply still_locked, still_lock); try (unfold still; cbn; still_go; fail).
  apply still_locked. unfold still, lockFile, with_root, deferred. apply (calls_bind _ (trigger _)); [by split|]. intros [root|e]; [|exact I].
  apply calls_bind; [apply still_lock|]. intros r. apply (calls_bind _ (trigger _)); by try split.
Qed.

(** ** Taking a lock *)

Section Lock.
Context (root : nat) (n : string).

(** While a lock is taken nothing changes, and what is locked was opened under the name. *)
Definition lock_calls (h h1 : log fans) (c : fcall) : Prop :=
  (∃ l, h1 = l ++ h) ∧ flocked h1 = flocked h ∧ match c with FFlock f => existT (FOpenRead root n) (Ok f) ∈ h1 | _ => True end.

Notation lwp h h1 p Q := (wp fresh_files (lock_calls h) h1 p Q).

(** A log grown from [h] with the same locks. *)
Definition grown (h h1 : log fans) : Prop := (∃ l, h1 = l ++ h) ∧ flocked h1 = flocked h.

Lemma grown_other h h1 c r : grown h h1 → match c with FFlock _ | FClose _ => False | _ => True end → grown h (existT c r :: h1).
Proof. intros [[l ->] Hf] Hc. split; [by exists (existT c r :: l)|]. by rewrite flocked_other. Qed.

Lemma grown_close h h1 f r : grown h h1 → f ∉ flocked h → grown h (existT (FClose f) r :: h1).
Proof. intros [[l ->] Hf] Hc. split; [by exists (existT (FClose f) r :: l)|]. cbn [flocked]. rewrite Hf. by apply filter_notin. Qed.

Lemma grown_refused h h1 f e : grown h h1 → grown h (existT (FFlock f) (Some e) :: h1).
Proof. intros [[l ->] Hf]. by split; [exists (existT (FFlock f) (Some e) :: l)|]. Qed.

Lemma fresh_grown h h1 c r f : grown h h1 → fresh_files h1 c r → opens (existT c r) = Some f → f ∉ flocked h.
Proof. intros [_ <-] Hr E. by apply Hr. Qed.

(** The outcome of opening the lock file. *)
Definition lock_opened (h h1 : log fans) (r : res nat) : Prop :=
  grown h h1 ∧ ∀ f, r = Ok f → existT (FOpenRead root n) (Ok f) ∈ h1 ∧ f ∉ flocked h.

Ltac lock_call := wp_call; [match goal with H : grown _ _ |- _ => destruct H as [??]; by split_and! end|].

Lemma wp_close_lock {A} h h1 f (a : A) (Q : log fans → A → Prop) : grown h h1 → f ∉ flocked h →
  (∀ h2, grown h h2 → Q h2 a) → lwp h h1 (close_with f a) Q.
Proof. intros Hg Hf HQ. unfold close_with. lock_call. intros r _. by apply HQ, grown_close. Qed.

Lemma wp_open_lock h h1 : grown h h1 → lwp h h1 (openRegular root n) (lock_opened h).
Proof.
  intros Hg. unfold openRegular, openRegularMax, and_then. lock_call. intros [lfi|e] _;
    (match goal with |- wp _ _ (?e :: _) _ _ => pose proof (grown_other h h1 (projT1 e) (projT2 e) Hg I) as Hg1 end; cbn in Hg1); [|by split].
  destruct (fi_type lfi); try by split. clear Hg. lock_call. intros [f|e] Hf; [|split; [by apply grown_other|done]].
  pose proof (fresh_grown _ _ _ _ f Hg1 Hf eq_refl) as Hn.
  match goal with |- wp _ _ ?h2 _ _ => assert (grown h h2) as Hg2 by by apply grown_other end.
  assert (∀ h2 e, grown h h2 → lock_opened h h2 (Err e)) as Herr by (by split). clear Hg1.
  lock_call. intros [fi|e] _; (match goal with |- wp _ _ ?h2 _ _ => assert (grown h h2) as Hg3 by by apply grown_other end).
  - destruct (negb _); [apply wp_close_lock; auto|]. destruct (_ <? _); [apply wp_close_lock; auto|]. split; [done|]. intros g [= <-].
    split; [right; left|done].
  - apply wp_close_lock; auto.
Qed.

Lemma wp_openLockFile h h1 : grown h h1 → lwp h h1 (openLockFile root n) (lock_opened h).
Proof.
  intros Hg. unfold openLockFile. lock_call. intros [f|e] Hf; (match goal with |- wp _ _ ?h2 _ _ => assert (grown h h2) as Hg1 by by apply grown_other end).
  - pose proof (fresh_grown _ _ _ _ f Hg Hf eq_refl) as Hn. clear Hg. lock_call. intros [e|] _; [split; [by apply grown_close|done]|].
    by apply wp_open_lock, grown_close.
  - destruct (errors_Is e ErrExist); [by apply wp_open_lock|by split].
Qed.

(** The outcome of taking the lock: with it, one more handle holds one. *)
Definition lock_taken (h h1 : log fans) (r : res nat) : Prop := (∃ l, h1 = l ++ h) ∧
  match r with
  | Ok f => flocked h1 = f :: flocked h ∧ f ∉ flocked h ∧ existT (FOpenRead root n) (Ok f) ∈ h1
  | Err _ => flocked h1 = flocked h
  end.

Definition lock_result (r : option (res nat)) : res nat := default (Err (EMsg "timed out waiting for the lock")) r.

Lemma wp_lock_loop_taken h fuel : ∀ deadline f h1, grown h h1 → existT (FOpenRead root n) (Ok f) ∈ h1 → f ∉ flocked h →
  lwp h h1 (lock_loop fuel deadline f) (λ h' r, lock_taken h h' (lock_result r)).
Proof.
  induction fuel as [|fuel IH]; intros deadline f h1 Hg Hin Hf; [exact Hg|]. cbn [lock_loop]. wp_call; [by destruct Hg as [??]|].
  intros [e|] _.
  - pose proof (grown_refused h h1 f e Hg) as Hg1. clear Hg. destruct (negb _); [by apply wp_close_lock|]. lock_call. intros now _.
    match goal with |- wp _ _ ?h2 _ _ => assert (grown h h2) as Hg2 by by apply grown_other end. clear Hg1.
    destruct (negb _); [by apply wp_close_lock|]. lock_call. intros u _. apply IH; [by apply grown_other|do 3 right; exact Hin|done].
  - destruct Hg as [[l ->] Hl]. split; [by exists (existT (FFlock f) None :: l)|]. cbn [lock_result default flocked]. split_and!; [by rewrite Hl|done|by right].
Qed.

Lemma wp_lockFileIn_taken h timeout : lwp h h (lockFileIn root n timeout) (λ h' r, lock_taken h h' (lock_result r)).
Proof.
  unfold lockFileIn. apply wp_bind. eapply wp_mono; [apply wp_openLockFile; by split; [exists []|]|].
  intros h1 [f|e] [Hg Hf]; [|exact Hg]. lock_call. intros now _. destruct (Hf f eq_refl) as [Hin Hn].
  apply wp_lock_loop_taken; [by apply grown_other|by right|done].
Qed.
End Lock.

(** ** The pass *)

(** [realised env H h]: the run [h] over the calls of the node carries out the operations of the
    run [H] one after the other: each operation is a run of its implementation, and each
    other call is the same call. *)
Inductive realised (env : log nans → ∀ c, nans c → Prop) : log hans → log nans → Prop :=
| realised_start : realised env [] []
| realised_op c p r H h h' : file_op c = Some p → realised env H h → runs env (on_files p) h h' r → realised env (existT c r :: H) h'
| realised_call c r H h : file_op c = None → realised env H h → env h (NHost c) r → realised env (existT c r :: H) (existT (NHost c) r :: h).

Lemma realised_impl env c H h h' r : realised env H h → runs env (impl c) h h' r → realised env (existT c r :: H) h'.
Proof.
  intros HR. unfold impl. destruct (file_op c) as [p|] eqn:E; [intros Hr; by eapply realised_op|].
  intros (a & He & -> & ->). by apply realised_call.
Qed.

(** The handles of a node. *)
Definition fresh_node (h : log nans) (c : ncall) : nans c → Prop :=
  match c with NFile c => fresh_files (file_log h) c | NHost _ => λ _, True end.

Section Pass.
Context (c : config) (yu : string → res obj) (ym : obj → res string) (ju : string → res obj) (Sprint : option json → string).
Context (ParseURL : string → res (string * string)) (ParseAddr : string → res addr) (error_text : gerr → string).

Notation pass := (run c yu ym ju Sprint ParseURL ParseAddr error_text).
Notation none := (String.eqb (Mode c) modeNone).

(** The file of the pass's first lock is open as [f]: in mode none the lock of the
    chart-owned configuration, in the other modes the lock of the node. *)
Definition first_lock (h : log fans) (f : nat) : Prop :=
  if none then ∃ d, existT (FOpenRead d (configFileName +:+ lockSuffix)) (Ok f) ∈ h
  else ∃ d, existT (FOpenRoot (Dir (hostPath c nodeLockPath))) (Ok d) ∈ h ∧ existT (FOpenRead d (Base (hostPath c nodeLockPath))) (Ok f) ∈ h.

Definition lock_held (h : log fans) : Prop := ∃ f, f ∈ flocked h ∧ first_lock h f.

(** What the pass may do: the first lock is taken while it holds none, any other lock under
    it and not in mode none; files change and kubelet restarts only under it. *)
Definition under_lock (h : log nans) (call : ncall) : Prop :=
  match call with
  | NFile (FFlock f) => flocked (file_log h) = [] ∧ first_lock (file_log h) f ∨ none = false ∧ lock_held (file_log h)
  | NFile call => changes call = true → lock_held (file_log h)
  | NHost call => is_restart call = true → lock_held (file_log h)
  end.

Lemma first_lock_later l h f : first_lock h f → first_lock (l ++ h) f.
Proof.
  unfold first_lock. destruct none.
  - intros [d H]. exists d. apply elem_of_app. by right.
  - intros (d & H1 & H2). exists d. split; apply elem_of_app; by right.
Qed.

(** The two logs show the same locks. *)
Record same (H : log hans) (h : log nans) : Prop := {
  same_locks : flocked (file_log h) = (locks H).*2;
  same_nodup : NoDup (locks H).*2;
  same_first : ∀ b f, (b, f) ∈ locks H → b = negb none → first_lock (file_log h) f }.

(** What the pass guarantees of each operation. *)
Definition op_ok (H : log hans) (call : hcall) : Prop :=
  disciplined [] none H call ∧ pass_call c call ∧ (none = true → none_call c call).

Lemma guarded_held H h : same H h → guarded [] none (locks H) → lock_held (file_log h).
Proof.
  intros [Hl _ Hf] Hg. unfold guarded in Hg. unfold lock_held. rewrite Hl. destruct none eqn:Em.
  - destruct Hg as [l E]. exists l. rewrite E. split; [left|]. apply (Hf false); [rewrite E; left|done].
  - destruct Hg as (l & above & E). exists l. rewrite E, fmap_app. split; [apply elem_of_app; right; left|].
    apply (Hf true); [rewrite E; apply elem_of_app; right; left|done].
Qed.

Lemma lock_held_grown h h1 : (∃ l, h1 = l ++ h) → flocked h1 = flocked h → lock_held h → lock_held h1.
Proof. intros [l ->] E (f & Hf & H). exists f. rewrite E. split; [done|by apply first_lock_later]. Qed.

Lemma disciplined_guarded H call : is_write call = true ∨ is_restart call = true → disciplined [] none H call → guarded [] none (locks H).
Proof. intros Hw Hd. unfold guarded. destruct call; try (by destruct Hw); specialize (Hd Hw); destruct none; exact Hd. Qed.

Lemma locks_other call r H : is_lock call = false → locks (existT call r :: H) = locks H.
Proof. by destruct call. Qed.

Lemma same_other H h h1 call r : is_lock call = false → same H h → (∃ l, file_log h1 = l ++ file_log h) →
  flocked (file_log h1) = flocked (file_log h) → same (existT call r :: H) h1.
Proof.
  intros Hc [Hl Hn Hf] [l El] E. split; [by rewrite locks_other, E|by rewrite locks_other|]. intros b f. rewrite locks_other, El by done. intros Hin Hb.
  by eapply first_lock_later, Hf.
Qed.

Context (env : log nans → ∀ c, nans c → Prop) (env_fresh : ∀ h c r, env h c r → fresh_node h c r).

Notation nwp h p Q := (wp env under_lock h p Q).

(** A file operation on the node. *)
Lemma wp_on_files {A} h (p : fprog A) ok Q : wp fresh_files ok (file_log h) p Q →
  (∀ h1 call, ok (file_log h1) call → under_lock h1 (NFile call)) → nwp h (on_files p) (λ h' a, Q (file_log h') a).
Proof.
  intros Hp Hok. refine (wp_translate_in NFile (λ _ r, r) file_view _ fresh_files _ ok _ h p Q _ _ Hp); [done| |].
  - intros h1 call r Hr. exact (env_fresh _ _ _ Hr).
  - intros h1 call _. apply Hok.
Qed.

(** Operations that take no lock. *)
Lemma wp_op_other call p H h : file_op call = Some p → is_lock call = false → op_ok H call → same H h →
  nwp h (on_files p) (λ h' r, same (existT call r :: H) h').
Proof.
  intros Hp Hl (Hd & _) Hs. pose proof (wp_own p (file_log h) (own_file_op call p [] Hl Hp)) as Hw.
  destruct (is_write call) eqn:Ew.
  - assert (lock_held (file_log h)) as Hh by (eapply guarded_held, disciplined_guarded; eauto).
    eapply wp_mono; [apply (wp_on_files h p _ _ Hw)|].
    + intros h1 fc (He & Ef & Hf). destruct fc; try done; intros _; by apply (lock_held_grown (file_log h)).
    + intros h' r [He Ef]. by apply (same_other H h).
  - pose proof (wp_conj _ _ _ _ _ _ _ Hw (calls_wp fresh_files _ (file_log h) p (still_file_op call p Ew Hp))) as Hw'.
    eapply wp_mono; [apply (wp_on_files h p _ _ Hw')|].
    + intros h1 fc [(He & Ef & Hf) Hst]. destruct fc; try done; intros [=].
    + intros h' r [[He Ef] _]. by apply (same_other H h).
Qed.

(** A lock that was taken, as both logs show it. *)
Lemma same_taken d n H H' h h1 r (b : bool) : same H h → lock_taken d n (file_log h) (file_log h1) r →
  locks H' = match r with Ok f => (b, f) :: locks H | Err _ => locks H end →
  (∀ f, r = Ok f → b = negb none → first_lock (file_log h1) f) → same H' h1.
Proof.
  intros [Hl Hn Hf] [[l El] Ht] E Hb. split; rewrite E; destruct r as [f|e]; try done; try (by rewrite Ht).
  - destruct Ht as [-> _]. by rewrite Hl.
  - destruct Ht as (_ & Hnew & _). rewrite Hl in Hnew. by constructor.
  - intros b' f' [[= -> ->]|Hin]%elem_of_cons Hb'; [by apply Hb|]. rewrite El. by eapply first_lock_later, Hf.
  - intros b' f' Hin Hb'. rewrite El. by eapply first_lock_later, Hf.
Qed.

Lemma wp_op_lock_in d n timeout H h : op_ok H (LockFileIn d n timeout) → same H h →
  nwp h (on_files (locked (lockFileIn d n timeout))) (λ h' r, same (existT (LockFileIn d n timeout) r :: H) h').
Proof.
  intros (Hd & _ & Hnone) Hs. pose proof (wp_lockFileIn_taken d n (file_log h) timeout) as Hw.
  assert (wp fresh_files (lock_calls d n (file_log h)) (file_log h) (locked (lockFileIn d n timeout)) (lock_taken d n (file_log h))) as Hw'.
  { unfold locked. apply wp_bind. eapply wp_mono; [exact Hw|]. by intros h1 r. }
  assert (Hst : wp fresh_files (λ _ c, changes c = false) (file_log h) (locked (lockFileIn d n timeout)) (λ _ _, True)) by apply calls_wp, still_locked, still_lock.
  eapply wp_mono; [apply (wp_on_files h _ _ _ (wp_conj _ _ _ _ _ _ _ Hw' Hst))|].
  - intros h1 fc [(He & Ef & Hf) Hch]. destruct fc; cbn in Hch |- *; try congruence; try done. unfold disciplined in Hd.
    destruct none eqn:Em.
    + left. rewrite Ef, (same_locks _ _ Hs), Hd. split; [done|]. unfold first_lock. rewrite Em. specialize (Hnone eq_refl). cbn in Hnone. rewrite Hnone in Hf. by exists d.
    + right. split; [done|]. apply (lock_held_grown (file_log h)); [done..|]. apply (guarded_held H); [done|]. by rewrite Em.
  - intros h' r [Ht _]. eapply (same_taken d n H _ h h' r false Hs Ht); [by destruct r|]. intros f -> Hb.
    destruct Ht as (_ & _ & _ & Hin). unfold first_lock. destruct none eqn:Em; [|done]. exists d. specialize (Hnone eq_refl). cbn in Hnone. by rewrite <- Hnone.
Qed.

Lemma wp_op_lock path timeout H h : op_ok H (LockFile path timeout) → same H h →
  nwp h (on_files (locked (lockFile path timeout))) (λ h' r, same (existT (LockFile path timeout) r :: H) h').
Proof.
  intros ((Hm & Hbase) & Hpath & _) Hs. cbn in Hpath.
  set (ok := λ h1 fc, changes fc = false ∧ match fc with FFlock f => flocked h1 = [] ∧ first_lock h1 f | _ => True end).
  pose (Q := λ h1 (r : res nat), ∃ d, lock_taken d (Base path) (file_log h) h1 r ∧ ∀ f, r = Ok f → first_lock h1 f).
  assert (flocked (file_log h) = []) as Hno by by rewrite (same_locks _ _ Hs), Hbase.
  assert (wp fresh_files ok (file_log h) (locked (lockFile path timeout)) Q) as Hw.
  { unfold locked, lockFile, with_root. apply wp_bind, wp_bind. wp_last; [done|]. intros [d|e] _.
    - unfold deferred. set (h1 := existT (FOpenRoot (Dir path)) (Ok d) :: file_log h). apply wp_bind.
      pose proof (wp_conj _ _ _ _ _ _ _ (wp_lockFileIn_taken d (Base path) h1 timeout) (calls_wp fresh_files _ h1 _ (still_lock d (Base path) timeout))) as Hw.
      eapply wp_mono; [eapply wp_weaken; [|exact Hw]|].
      + intros h2 fc [([l ->] & Ef & Hf) Hch]. split; [done|]. destruct fc; try done. split; [by rewrite Ef|]. unfold first_lock. rewrite Hm, <- Hpath.
        exists d. split; [apply elem_of_app; right; left|done].
      + intros h2 r [[[l ->] Ht] _]. wp_call; [done|]. intros u _. apply wp_ret. exists d.
        assert (∀ f, lock_result r = Ok f → first_lock (l ++ h1) f) as Hfl.
        { intros f Er. rewrite Er in Ht. destruct Ht as (_ & _ & Hin). unfold first_lock. rewrite Hm, <- Hpath. exists d. split; [apply elem_of_app; right; left|done]. }
        split; [|intros f Er; by apply (first_lock_later [_]), Hfl]. split; [exists (existT (FCloseRoot d) u :: l ++ [existT (FOpenRoot (Dir path)) (Ok d)]); cbn; by rewrite <- app_assoc|].
        fold (lock_result r). destruct (lock_result r); [|exact Ht]. destruct Ht as (? & ? & ?). split_and!; [done..|by right].
    - apply wp_ret. exists 0%nat. split; [split; [by exists [existT (FOpenRoot (Dir path)) (Err e)]|done]|done]. }
  eapply wp_mono; [apply (wp_on_files h _ _ _ Hw)|].
  - intros h1 fc [Hch Hf]. destruct fc; cbn in Hch |- *; try congruence; try done. by left.
  - intros h' r (d & Ht & Hf). eapply (same_taken d (Base path) H _ h h' r true Hs Ht); [by destruct r|]. intros f Er _. by apply Hf.
Qed.

Lemma wp_op_unlock l H h : op_ok H (Unlock l) → same H h → nwp h (on_files (unlock l)) (λ h' r, same (existT (Unlock l) r :: H) h').
Proof.
  intros ((b & s & E) & _) [Hl Hn Hf]. split; [done|]. intros r _. cbn. rewrite E in Hl, Hn. cbn in Hl, Hn. apply NoDup_cons in Hn as [Hn1 Hn2].
  assert (locks (existT (Unlock l) tt :: H) = s) as El by (cbn; by rewrite E, Nat.eqb_refl).
  split; rewrite El; [|done|].
  - cbn [file_log part_log omap list_omap file_view flocked]. change (omap file_view h) with (file_log h). rewrite Hl. cbn. rewrite Nat.eqb_refl. cbn. by apply filter_notin.
  - intros b' f Hin Hb. apply (first_lock_later [_]). apply (Hf b'); [|done]. rewrite E. by right.
Qed.

Lemma wp_op call H h : op_ok H call → same H h → nwp h (impl call) (λ h' r, same (existT call r :: H) h').
Proof.
  intros Hok Hs. unfold impl. destruct (file_op call) as [p|] eqn:E.
  - destruct (is_lock call) eqn:Ec; [|by apply wp_op_other].
    destruct call; try done; injection E as <-; [by apply wp_op_lock|by apply wp_op_lock_in|by apply wp_op_unlock].
  - assert (is_lock call = false) as Hc by by destruct call. wp_last.
    + intros Hr. apply (guarded_held H); [done|]. eapply disciplined_guarded; [by right|]. by destruct Hok.
    + intros r _. apply (same_other H h); [done..|by exists []|done].
Qed.
Lemma wp_node_pass : wp any_env op_ok [] pass (λ H _, locks H = []).
Proof.
  assert (wp any_env (λ _ call, none = true → none_call c call) [] pass (λ _ _, True)) as Hnone.
  { destruct (String.eqb_spec (Mode c) modeNone) as [Hm|Hm].
    - apply calls_wp. eapply calls_mono; [|exact (calls_run_none c yu ym ju Sprint ParseURL ParseAddr error_text Hm)]. done.
    - eapply wp_weaken; [|apply wp_true]. by intros. }
  assert (wp any_env (disciplined [] none) [] pass (λ H _, locks H = [])) as Hd.
  { destruct (String.eqb_spec (Mode c) modeNone) as [Hm|Hm]; [by apply wp_run_none|by apply wp_run_node]. }
  eapply wp_mono; [eapply wp_weaken; [|exact (wp_conj _ _ _ _ _ _ _ Hd (wp_conj _ _ _ _ _ _ _ (calls_wp _ _ [] _ (pass_calls c yu ym ju Sprint ParseURL ParseAddr error_text)) Hnone))]|].
  - intros H call (? & ? & ?). done.
  - by intros H r [? _].
Qed.

End Pass.

(** ** A pass in mode none, with fresh handles *)

(** The answers of [PassRaces], each opened file with a new number; flock grants a lock on an
    opened file. *)
Definition numbered_file (n : nat) (call : fcall) : fans call * nat :=
  match call return fans call * nat with
  | FOpenRead _ _ | FCreateExcl _ _ _ | FOpenSelf _ => (Ok n, S n)
  | FFlock f => (if (f <? n)%nat then None else Some (EMsg "bad handle"), n)
  | FCreateTemp _ _ => (Ok (n, "probe"), S n)
  | call => (bare_file call, n)
  end.
Definition numbered (n : nat) (call : ncall) : nans call * nat :=
  match call return nans call * nat with NFile call => numbered_file n call | NHost call => (bare_host call, n) end.

Definition numbered_run := play numbered 0%nat (on_node bare_pass) [].

Lemma numbered_runs : runs fresh_node (on_node bare_pass) [] numbered_run.1.2 numbered_run.2.
Proof.
  refine (play_runs_inv fresh_node (λ n h, ∀ f, f ∈ flocked (file_log h) → (f < n)%nat) numbered 0%nat (on_node bare_pass) [] _ _);
    [|by intros f ?%elem_of_nil].
  intros n h [call|call] Hn; [|by split]. change (file_log (existT (NFile call) ?r :: h)) with (existT call r :: file_log h).
  assert (∀ f, f ∈ flocked (file_log h) → (f < S n)%nat) as HS by (intros f Hf; specialize (Hn f Hf); lia).
  assert (n ∉ flocked (file_log h)) as Hnew by (intros Hf; specialize (Hn n Hf); lia).
  destruct call; try (by split; [intros ? [=]|exact Hn]); try (by split; [intros ? [= <-]|exact HS]).
  - split; [intros f' [=]|]. cbn. intros g [Hg _]%list_elem_of_In%List.filter_In. by apply Hn, list_elem_of_In.
  - cbn [numbered numbered_file fst snd]. destruct (Nat.ltb_spec f n); (split; [intros ? [=]|]); [|exact Hn].
    intros g [->|Hg]%elem_of_cons; [done|by apply Hn].
Qed.


(** That pass does change files, under its lock. *)
Example numbered_changes : existsb (λ e : event fans, changes (projT1 e)) (file_log numbered_run.1.2) = true.
Proof. vm_compute. reflexivity. Qed.
